(** * ShapeKeyTransfer: the vertex-correspondence search, the delta blending
    and the transfer loop of [shapekeytransfer.py], embedded in Rocq.

    The Python class [ShapeKeyTransfer] keeps its working data in attributes
    of [self] and reads and writes the meshes of the Blender scene.  Both are
    modelled by explicit state passing: a method is a function from a state
    (the attributes of [self] together with the part of [bpy] it touches) to
    either a value and a new state, or a raised exception.

    [mathutils] (vectors, matrices, floating point numbers) is an external
    library: its operations are taken as an interface, and every theorem
    holds for any implementation of it.  An exact implementation over the
    rationals is given at the end and is used to run the code on examples.

    The limit Python puts on nested calls is a parameter as well, since
    [select_required_verts] retries by calling itself: the number of calls
    the interpreter still allows when a search runs. *)

From Stdlib Require Import List String Ascii ZArith Bool Arith Lia.
From Stdlib Require Import DecimalString.
From Stdlib Require QArith Qcanon.
Import ListNotations.

Local Open Scope string_scope.
Local Open Scope list_scope.

(** ** The [mathutils] interface *)

(** [Scalar] is the type of the Python floats used as radii, [Len] the type
    of the values of [Vector.length].  In Python both are floats; the program
    only ever compares a length with another length, and only ever adds a
    radius to a radius, so the interface keeps them apart. *)
Class Mathutils : Type := {
  Scalar : Type;
  Len : Type;
  Vector : Type;
  Matrix : Type;
  (** the literal [0] passed as first radius *)
  scalar_zero : Scalar;
  (** [rad + self.increment_radius] *)
  scalar_add : Scalar -> Scalar -> Scalar;
  (** [a <= b] on lengths *)
  len_le : Len -> Len -> bool;
  (** [Vector()] *)
  Vector_zero : Vector;
  (** [Vector((0, 0, radius))] *)
  Vector_00z : Scalar -> Vector;
  (** [a + b], [a - b] *)
  vadd : Vector -> Vector -> Vector;
  vsub : Vector -> Vector -> Vector;
  (** [v / n] for [n = len(...)] *)
  vdiv : Vector -> nat -> Vector;
  (** [v.length] *)
  Vector_length : Vector -> Len;
  (** [m @ v] for a 4x4 matrix and a 3D vector *)
  matmul : Matrix -> Vector -> Vector;
  (** [m.inverted()]; [None] when the matrix has no inverse (ValueError) *)
  inverted : Matrix -> option Matrix
}.

(** The laws of exact arithmetic that the blending properties rely on. *)
Class ExactVectors (MU : Mathutils) : Prop := {
  vadd_zero_l : forall v : Vector, vadd Vector_zero v = v;
  vadd_comm : forall u v : Vector, vadd u v = vadd v u;
  vdiv_one : forall v : Vector, vdiv v 1 = v
}.

(** ** Exceptions and the state monad *)

Inductive exn : Type :=
| AttributeError   (* attribute access on [None] *)
| TypeError        (* arithmetic on [None] *)
| IndexError       (* sequence index out of range *)
| ValueError       (* [Matrix.inverted] on a singular matrix *)
| ReferenceError   (* a datablock that is no longer in the scene *)
| RecursionError.  (* a call nested deeper than the interpreter allows *)

(** [OutOfFuel] is not a Python outcome: loops and recursion of the source
    are modelled with a fuel argument, and the lemmas [srv_fuel_enough] and
    [transfer_vertices_fuel] show that the fuel given is never used up. *)
Inductive result (A : Type) : Type :=
| Ok (a : A)
| Raise (e : exn)
| OutOfFuel.
Arguments Ok {A} a.
Arguments Raise {A} e.
Arguments OutOfFuel {A}.

(** ** The interpreter

    Python allows calls to nest only so deep and raises RecursionError
    beyond.  [select_required_verts] calls itself once for each retry, so a
    search can meet that limit; every other call of the program is nested
    at most three deep and is taken to fit.

    [frames] is the number of calls the interpreter still allows to nest
    inside a running [select_required_verts] that was called from outside;
    [None] stands for an interpreter whose limit is out of reach. *)
Class Interpreter : Type := {
  frames : option nat
}.

(** ** The message

    [self.message] is a text for the user, but for one assignment:
    [get_shape_keys_mesh] leaves there the list of the names of the keys.
    A string stands for the text it is. *)
Inductive Message : Type :=
| Text (text : string)
| Names (keys : list string).

Coercion Text : string >-> Message.

Section Model.

Context {MU : Mathutils}.

(** ** The data of the scene *)

(** A shape key: [sk.name] and [sk.data[i].co]. *)
Record ShapeKey : Type := mkShapeKey {
  name : string;
  data : list Vector
}.

(** [mesh.shape_keys]: the [Key] datablock with its [key_blocks]. *)
Record Key : Type := mkKey {
  key_blocks : list ShapeKey
}.

(** A mesh datablock: [mesh.vertices[i].co] and [mesh.shape_keys], which is
    [None] for a mesh without shape keys. *)
Record Mesh : Type := mkMesh {
  vertices : list Vector;
  shape_keys : option Key
}.

(** An object of the scene.  [ob.data] is a reference to a mesh datablock:
    the position of the mesh in [meshes] below. *)
Record Object : Type := mkObject {
  ob_data : nat;
  matrix_world : Matrix
}.

(** [bpy.context.scene.listUse], an EnumProperty with these three items. *)
Inductive ListUse : Type := all | include | exclude.

Definition ListUse_eqb (a b : ListUse) : bool :=
  match a, b with
  | all, all | include, include | exclude, exclude => true
  | _, _ => false
  end.

(** The part of [bpy] the class works on: [bpy.data.objects], the mesh
    datablocks the objects refer to, and the scene property [listUse]. *)
Record Bpy : Type := mkBpy {
  objects : list Object;
  meshes : list Mesh;
  listUse : ListUse
}.

(** The attributes of [self], as set up by [__init__]. *)
Record ShapeKeyTransfer : Type := mkSKT {
  increment_radius : Scalar;
  number_of_increments : Z;
  current_vertex_index : nat;
  total_vertices : nat;
  specify_end_vertex : bool;
  use_one_vertex : bool;
  default_excluded_keys : list string;
  excluded_shape_keys : list string;
  dest_mesh : option Object;
  src_mesh : option Object;
  src_mwi : option Matrix;
  dest_shape_key_index : nat;
  src_shape_key_index : nat;
  do_once_per_vertex : bool;
  current_vertex : option Vector;
  src_chosen_vertices : list nat;
  message : Message;
  skip_vertices_with_no_pair : bool
}.

Record State : Type := mkState {
  self : ShapeKeyTransfer;
  bpy : Bpy
}.

Definition M (A : Type) : Type := State -> result (A * State).

Definition ret {A} (a : A) : M A := fun st => Ok (a, st).

Definition bind {A B} (c : M A) (k : A -> M B) : M B :=
  fun st =>
    match c st with
    | Ok (a, st') => k a st'
    | Raise e => Raise e
    | OutOfFuel => OutOfFuel
    end.

Definition raise {A} (e : exn) : M A := fun _ => Raise e.
Definition out_of_fuel {A} : M A := fun _ => OutOfFuel.

Definition get_self : M ShapeKeyTransfer := fun st => Ok (self st, st).
Definition get_bpy : M Bpy := fun st => Ok (bpy st, st).
Definition put_self (s : ShapeKeyTransfer) : M unit :=
  fun st => Ok (tt, mkState s (bpy st)).
Definition put_bpy (b : Bpy) : M unit :=
  fun st => Ok (tt, mkState (self st) b).

End Model.

Declare Scope skt_scope.
Delimit Scope skt_scope with skt.
Notation "x <- c ;; k" := (bind c (fun x => k))
  (at level 61, c at next level, right associativity) : skt_scope.
Notation "c ;;; k" := (bind c (fun _ => k))
  (at level 61, right associativity) : skt_scope.
Local Open Scope skt_scope.

Section Program.

Context {MU : Mathutils} {PY : Interpreter}.

(** *** Attribute assignment *)

Definition set_current_vertex_index (v : nat) (s : ShapeKeyTransfer) :=
  mkSKT (increment_radius s) (number_of_increments s) v (total_vertices s)
    (specify_end_vertex s) (use_one_vertex s) (default_excluded_keys s)
    (excluded_shape_keys s) (dest_mesh s) (src_mesh s) (src_mwi s)
    (dest_shape_key_index s) (src_shape_key_index s) (do_once_per_vertex s)
    (current_vertex s) (src_chosen_vertices s) (message s)
    (skip_vertices_with_no_pair s).

Definition set_total_vertices (v : nat) (s : ShapeKeyTransfer) :=
  mkSKT (increment_radius s) (number_of_increments s) (current_vertex_index s) v
    (specify_end_vertex s) (use_one_vertex s) (default_excluded_keys s)
    (excluded_shape_keys s) (dest_mesh s) (src_mesh s) (src_mwi s)
    (dest_shape_key_index s) (src_shape_key_index s) (do_once_per_vertex s)
    (current_vertex s) (src_chosen_vertices s) (message s)
    (skip_vertices_with_no_pair s).

Definition set_dest_mesh (v : option Object) (s : ShapeKeyTransfer) :=
  mkSKT (increment_radius s) (number_of_increments s) (current_vertex_index s)
    (total_vertices s) (specify_end_vertex s) (use_one_vertex s)
    (default_excluded_keys s) (excluded_shape_keys s) v (src_mesh s) (src_mwi s)
    (dest_shape_key_index s) (src_shape_key_index s) (do_once_per_vertex s)
    (current_vertex s) (src_chosen_vertices s) (message s)
    (skip_vertices_with_no_pair s).

Definition set_src_mesh (v : option Object) (s : ShapeKeyTransfer) :=
  mkSKT (increment_radius s) (number_of_increments s) (current_vertex_index s)
    (total_vertices s) (specify_end_vertex s) (use_one_vertex s)
    (default_excluded_keys s) (excluded_shape_keys s) (dest_mesh s) v (src_mwi s)
    (dest_shape_key_index s) (src_shape_key_index s) (do_once_per_vertex s)
    (current_vertex s) (src_chosen_vertices s) (message s)
    (skip_vertices_with_no_pair s).

Definition set_src_mwi (v : option Matrix) (s : ShapeKeyTransfer) :=
  mkSKT (increment_radius s) (number_of_increments s) (current_vertex_index s)
    (total_vertices s) (specify_end_vertex s) (use_one_vertex s)
    (default_excluded_keys s) (excluded_shape_keys s) (dest_mesh s) (src_mesh s) v
    (dest_shape_key_index s) (src_shape_key_index s) (do_once_per_vertex s)
    (current_vertex s) (src_chosen_vertices s) (message s)
    (skip_vertices_with_no_pair s).

Definition set_dest_shape_key_index (v : nat) (s : ShapeKeyTransfer) :=
  mkSKT (increment_radius s) (number_of_increments s) (current_vertex_index s)
    (total_vertices s) (specify_end_vertex s) (use_one_vertex s)
    (default_excluded_keys s) (excluded_shape_keys s) (dest_mesh s) (src_mesh s)
    (src_mwi s) v (src_shape_key_index s) (do_once_per_vertex s)
    (current_vertex s) (src_chosen_vertices s) (message s)
    (skip_vertices_with_no_pair s).

Definition set_src_shape_key_index (v : nat) (s : ShapeKeyTransfer) :=
  mkSKT (increment_radius s) (number_of_increments s) (current_vertex_index s)
    (total_vertices s) (specify_end_vertex s) (use_one_vertex s)
    (default_excluded_keys s) (excluded_shape_keys s) (dest_mesh s) (src_mesh s)
    (src_mwi s) (dest_shape_key_index s) v (do_once_per_vertex s)
    (current_vertex s) (src_chosen_vertices s) (message s)
    (skip_vertices_with_no_pair s).

Definition set_do_once_per_vertex (v : bool) (s : ShapeKeyTransfer) :=
  mkSKT (increment_radius s) (number_of_increments s) (current_vertex_index s)
    (total_vertices s) (specify_end_vertex s) (use_one_vertex s)
    (default_excluded_keys s) (excluded_shape_keys s) (dest_mesh s) (src_mesh s)
    (src_mwi s) (dest_shape_key_index s) (src_shape_key_index s) v
    (current_vertex s) (src_chosen_vertices s) (message s)
    (skip_vertices_with_no_pair s).

Definition set_current_vertex (v : option Vector) (s : ShapeKeyTransfer) :=
  mkSKT (increment_radius s) (number_of_increments s) (current_vertex_index s)
    (total_vertices s) (specify_end_vertex s) (use_one_vertex s)
    (default_excluded_keys s) (excluded_shape_keys s) (dest_mesh s) (src_mesh s)
    (src_mwi s) (dest_shape_key_index s) (src_shape_key_index s)
    (do_once_per_vertex s) v (src_chosen_vertices s) (message s)
    (skip_vertices_with_no_pair s).

Definition set_src_chosen_vertices (v : list nat) (s : ShapeKeyTransfer) :=
  mkSKT (increment_radius s) (number_of_increments s) (current_vertex_index s)
    (total_vertices s) (specify_end_vertex s) (use_one_vertex s)
    (default_excluded_keys s) (excluded_shape_keys s) (dest_mesh s) (src_mesh s)
    (src_mwi s) (dest_shape_key_index s) (src_shape_key_index s)
    (do_once_per_vertex s) (current_vertex s) v (message s)
    (skip_vertices_with_no_pair s).

Definition set_message (v : Message) (s : ShapeKeyTransfer) :=
  mkSKT (increment_radius s) (number_of_increments s) (current_vertex_index s)
    (total_vertices s) (specify_end_vertex s) (use_one_vertex s)
    (default_excluded_keys s) (excluded_shape_keys s) (dest_mesh s) (src_mesh s)
    (src_mwi s) (dest_shape_key_index s) (src_shape_key_index s)
    (do_once_per_vertex s) (current_vertex s) (src_chosen_vertices s) v
    (skip_vertices_with_no_pair s).

(** [self.attr = v] *)
Definition assign (f : ShapeKeyTransfer -> ShapeKeyTransfer) : M unit :=
  fun st => Ok (tt, mkState (f (self st)) (bpy st)).

(** *** Reading the scene *)

(** [x.attr] where [x] may be [None]. *)
Definition attr {A} (o : option A) : M A :=
  match o with
  | Some a => ret a
  | None => raise AttributeError
  end.

(** [l[i]] *)
Definition index {A} (l : list A) (i : nat) : M A :=
  match nth_error l i with
  | Some a => ret a
  | None => raise IndexError
  end.

(** [ob.data], following the reference into the mesh datablocks. *)
Definition deref (ob : Object) : M Mesh :=
  b <- get_bpy ;;
  match nth_error (meshes b) (ob_data ob) with
  | Some m => ret m
  | None => raise ReferenceError
  end.

(** [o.data.shape_keys.key_blocks] for [o = self.src_mesh] or
    [o = self.dest_mesh]. *)
Definition key_blocks_of (o : option Object) : M (list ShapeKey) :=
  ob <- attr o ;;
  m <- deref ob ;;
  k <- attr (shape_keys m) ;;
  ret (key_blocks k).

(** [l[i] = x] for [i] in range (the callers check the range first). *)
Fixpoint list_set {A} (l : list A) (i : nat) (x : A) : list A :=
  match l, i with
  | [], _ => []
  | _ :: t, 0 => x :: t
  | h :: t, S j => h :: list_set t j x
  end.

(** [enumerate(l)], counting from [start]. *)
Fixpoint enumerate_from {A} (start : nat) (l : list A) : list (nat * A) :=
  match l with
  | [] => []
  | x :: t => (start, x) :: enumerate_from (S start) t
  end.

Definition enumerate {A} (l : list A) : list (nat * A) := enumerate_from 0 l.

(** [str(n)] for a non-negative integer. *)
Definition str (n : nat) : string := NilEmpty.string_of_uint (Nat.to_uint n).

(** [k in keys] for a list of strings. *)
Definition mem (k : string) (keys : list string) : bool :=
  existsb (String.eqb k) keys.

(** ** [get_parent] (lines 42-46) *)

Definition get_parent (mesh : nat) : M (option Object) :=
  b <- get_bpy ;;
  ret (find (fun ob => Nat.eqb (ob_data ob) mesh) (objects b)).

(** ** [select_vertices] (lines 83-108) *)

(** One turn of the loop of lines 93-100; the accumulator holds the locals
    [src_chosen_vertices], [closest_length] and [closest_vertex_index]. *)
Definition select_step (use_one : bool) (lco r : Vector)
    (acc : list nat * Len * Z) (iv : nat * Vector) : list nat * Len * Z :=
  let '(src_chosen, closest_length, closest_vertex_index) := acc in
  let '(index, v) := iv in
  let is_selected := len_le (Vector_length (vsub v lco)) (Vector_length r) in
  if is_selected then
    let src_chosen := src_chosen ++ [index] in
    if use_one then
      if len_le (Vector_length (vsub v lco)) closest_length then
        (src_chosen, Vector_length (vsub v lco), Z.of_nat index)
      else (src_chosen, closest_length, closest_vertex_index)
    else (src_chosen, closest_length, closest_vertex_index)
  else acc.

Definition select_loop (use_one : bool) (lco r : Vector)
    (basis : list Vector) : list nat * Len * Z :=
  fold_left (select_step use_one lco r) (enumerate basis)
            ([], Vector_length r, (-1)%Z).

Definition select_vertices (center : Vector) (radius : Scalar) : M (list nat) :=
  s <- get_self ;;
  let radius_vec := vadd center (Vector_00z radius) in
  match src_mwi s with
  | None => raise TypeError
  | Some mwi =>
      let lco := matmul mwi center in
      let r := vsub (matmul mwi radius_vec) lco in
      kbs <- key_blocks_of (src_mesh s) ;;
      k0 <- index kbs 0 ;;
      let '(src_chosen, _, closest_vertex_index) :=
        select_loop (use_one_vertex s) lco r (data k0) in
      if use_one_vertex s then
        if (closest_vertex_index >? -1)%Z
        then ret [Z.to_nat closest_vertex_index]
        else ret []
      else ret src_chosen
  end.

(** ** [select_required_verts] (lines 111-119) *)

(** A call of a function of the program where [left] more calls may nest:
    the function runs with one less, or the interpreter raises
    RecursionError. *)
Definition call {A} (left : option nat) (callee : option nat -> M A) : M A :=
  match left with
  | None => callee None
  | Some 0 => raise RecursionError
  | Some (S left') => callee (Some left')
  end.

(** The body of the method, in which [left] more calls may nest. *)
Fixpoint select_required_verts_fuel (fuel : nat) (left : option nat)
    (vert : Vector) (rad : Scalar) (level : Z) : M (list nat) :=
  match fuel with
  | 0 => out_of_fuel
  | S fuel' =>
      s <- get_self ;;
      if (level >? number_of_increments s)%Z then ret []
      else
        verts <- call left (fun _ => select_vertices vert rad) ;;
        if Nat.eqb (List.length verts) 0 then
          call left (fun left' =>
            select_required_verts_fuel fuel' left' vert
              (scalar_add rad (increment_radius s)) (level + 1)%Z)
        else ret verts
  end.

(** The recursion stops as soon as [level] exceeds [number_of_increments];
    the fuel is the number of calls that takes. *)
Definition select_required_verts (vert : Vector) (rad : Scalar) (level : Z)
    : M (list nat) :=
  s <- get_self ;;
  select_required_verts_fuel
    (S (Z.to_nat (number_of_increments s + 1 - level))) frames vert rad level.

(** ** [set_vertex_position] (lines 122-123) *)

Definition set_vertex_position (v_pos : Vector) : M unit :=
  s <- get_self ;;
  ob <- attr (dest_mesh s) ;;
  m <- deref ob ;;
  k <- attr (shape_keys m) ;;
  sk <- index (key_blocks k) (dest_shape_key_index s) ;;
  _ <- index (data sk) (current_vertex_index s) ;;
  b <- get_bpy ;;
  let sk' := mkShapeKey (name sk)
               (list_set (data sk) (current_vertex_index s) v_pos) in
  let k' := mkKey (list_set (key_blocks k) (dest_shape_key_index s) sk') in
  let m' := mkMesh (vertices m) (Some k') in
  put_bpy (mkBpy (objects b) (list_set (meshes b) (ob_data ob) m') (listUse b)).

(** ** [update_vertex] (lines 126-155) *)

(** [self.src_mesh.data.shape_keys.key_blocks[ki].data[v].co] *)
Definition src_co (ki v : nat) : M Vector :=
  s <- get_self ;;
  kbs <- key_blocks_of (src_mesh s) ;;
  sk <- index kbs ki ;;
  index (data sk) v.

(** The loops of lines 145-146 and 150-151. *)
Fixpoint sum_co (ki : nat) (vs : list nat) (result_position : Vector)
    : M Vector :=
  match vs with
  | [] => ret result_position
  | v :: vs' =>
      c <- src_co ki v ;;
      sum_co ki vs' (vadd result_position c)
  end.

(** Lines 130-134: the correspondence of the current vertex is computed once
    and kept in [self.src_chosen_vertices]. *)
Definition cache_correspondence : M unit :=
  s <- get_self ;;
  if do_once_per_vertex s then
    dob <- attr (dest_mesh s) ;;
    kbs <- key_blocks_of (dest_mesh s) ;;
    k0 <- index kbs 0 ;;
    co <- index (data k0) (current_vertex_index s) ;;
    let cv := matmul (matrix_world dob) co in
    assign (set_current_vertex (Some cv)) ;;;
    verts <- select_required_verts cv scalar_zero 0%Z ;;
    assign (set_src_chosen_vertices verts) ;;;
    assign (set_do_once_per_vertex false)
  else ret tt.

Definition unmatched_message (s : ShapeKeyTransfer) : string :=
  ("Failed to find surrounding vertices | Try increasing increment radius | vertex index "
   ++ str (current_vertex_index s) ++ " at shape key index "
   ++ str (src_shape_key_index s))%string.

(** Lines 144-155. *)
Definition blend : M bool :=
  s <- get_self ;;
  result_position <- sum_co 0 (src_chosen_vertices s) Vector_zero ;;
  let result_position :=
    vdiv result_position (List.length (src_chosen_vertices s)) in
  result_position2 <-
    sum_co (src_shape_key_index s) (src_chosen_vertices s) Vector_zero ;;
  let result_position2 :=
    vdiv result_position2 (List.length (src_chosen_vertices s)) in
  match current_vertex s with
  | None => raise TypeError
  | Some cv =>
      let result := vadd (vsub result_position2 result_position) cv in
      set_vertex_position result ;;;
      ret false
  end.

Definition update_vertex : M bool :=
  s <- get_self ;;
  if (total_vertices s <=? current_vertex_index s)%nat then ret false
  else
    cache_correspondence ;;;
    s <- get_self ;;
    if Nat.eqb (List.length (src_chosen_vertices s)) 0 then
      assign (set_message (unmatched_message s)) ;;;
      assign (set_current_vertex_index (current_vertex_index s + 1)) ;;;
      if negb (skip_vertices_with_no_pair s) then ret true else ret false
    else blend.

(** ** [update_global_shapekey_indices] (lines 158-164) *)

(** The index of the last key of [kbs] named [p_key_name], or [old] when
    there is none: what the loop leaves in the attribute it assigns. *)
Definition last_index_named (p_key_name : string) (kbs : list ShapeKey)
    (old : nat) : nat :=
  fold_left
    (fun acc (isk : nat * ShapeKey) =>
       if String.eqb (name (snd isk)) p_key_name then fst isk else acc)
    (enumerate kbs) old.

Definition update_global_shapekey_indices (p_key_name : string) : M unit :=
  s <- get_self ;;
  dkbs <- key_blocks_of (dest_mesh s) ;;
  assign (set_dest_shape_key_index
            (last_index_named p_key_name dkbs (dest_shape_key_index s))) ;;;
  skbs <- key_blocks_of (src_mesh s) ;;
  assign (set_src_shape_key_index
            (last_index_named p_key_name skbs (src_shape_key_index s))).

(** ** [Object.shape_key_add] *)

(** Modelled from the spec: [shape_key_add] is an operation of the host, not
    of this repository.  It appends a key of the given name to the mesh of
    the object; the new key starts with the basis positions of the mesh, or,
    when the mesh has no shape key yet, with its current vertex positions
    (spec, sections 3 and 4.3).  The program calls it only with a name that
    no key of the mesh carries, so the name is stored as given. *)
Definition shape_key_add (ob : Object) (nm : string) : M unit :=
  m <- deref ob ;;
  b <- get_bpy ;;
  let kbs := match shape_keys m with
             | Some k => key_blocks k
             | None => []
             end in
  let new_data := match kbs with
                  | k0 :: _ => data k0
                  | [] => vertices m
                  end in
  let m' := mkMesh (vertices m) (Some (mkKey (kbs ++ [mkShapeKey nm new_data]))) in
  put_bpy (mkBpy (objects b) (list_set (meshes b) (ob_data ob) m') (listUse b)).

(** ** [transfer_shape_keys] (lines 169-225) *)

(** [self.dest_mesh.shape_key_add(name=nm); local_shape_key_list.append(nm)] *)
Definition add_and_list (nm : string) (local_shape_key_list : list string)
    : M (list string) :=
  s <- get_self ;;
  ob <- attr (dest_mesh s) ;;
  shape_key_add ob nm ;;;
  ret (local_shape_key_list ++ [nm]).

(** Lines 191-209, "add missing shape keys to dest_mesh": the loop over the
    key blocks of the source, of which only the names are used.  The result
    is [local_shape_key_list]. *)
Fixpoint add_missing_shape_keys (src_names : list string)
    (local_shape_key_list : list string) : M (list string) :=
  match src_names with
  | [] => ret local_shape_key_list
  | nm :: rest =>
      s <- get_self ;;
      dkbs <- key_blocks_of (dest_mesh s) ;;
      let insert_sk := negb (existsb (fun sk => String.eqb nm (name sk)) dkbs) in
      l <- (if insert_sk then
              b <- get_bpy ;;
              l1 <- (if ListUse_eqb (listUse b) include
                        && mem nm (excluded_shape_keys s)
                        && negb (mem nm (default_excluded_keys s))
                     then add_and_list nm local_shape_key_list
                     else ret local_shape_key_list) ;;
              b <- get_bpy ;;
              if ListUse_eqb (listUse b) exclude
                 && negb (mem nm (excluded_shape_keys s))
                 && negb (mem nm (default_excluded_keys s))
              then add_and_list nm l1
              else if ListUse_eqb (listUse b) all
                      && negb (mem nm (default_excluded_keys s))
              then add_and_list nm l1
              else ret l1
            else ret local_shape_key_list) ;;
      add_missing_shape_keys rest l
  end.

(** Lines 170-209: everything before the [copy_only] test.  [None] stands
    for an early [return False]; otherwise the result is
    [local_shape_key_list]. *)
Definition transfer_prologue (src dest : nat) : M (option (list string)) :=
  so <- get_parent src ;;
  assign (set_src_mesh so) ;;;
  do <- get_parent dest ;;
  assign (set_dest_mesh do) ;;;
  sob <- attr so ;;
  match inverted (matrix_world sob) with
  | None => raise ValueError
  | Some mwi =>
      assign (set_src_mwi (Some mwi)) ;;;
      assign (set_current_vertex_index 0) ;;;
      match do with
      | None =>
          assign (set_message "The meshes are not valid!") ;;;
          ret None
      | Some dob =>
          s <- get_self ;;
          (if negb (specify_end_vertex s) then
             dm <- deref dob ;;
             assign (set_total_vertices (List.length (vertices dm)))
           else ret tt) ;;;
          sm <- deref sob ;;
          match shape_keys sm with
          | None =>
              assign (set_message "There are no Shape Keys in the source mesh!") ;;;
              ret None
          | Some _ =>
              dm <- deref dob ;;
              (match shape_keys dm with
               | None => shape_key_add dob "Basis"
               | Some _ => ret tt
               end) ;;;
              skbs <- key_blocks_of (Some sob) ;;
              wl <- add_missing_shape_keys (map name skbs) [] ;;
              ret (Some wl)
          end
      end
  end.

(** Lines 219-222: the loop over [local_shape_key_list]; the result is
    [true] when [update_vertex] asked for the transfer to stop. *)
Fixpoint for_each_key (keys : list string) : M bool :=
  match keys with
  | [] => ret false
  | key_name :: keys' =>
      update_global_shapekey_indices key_name ;;;
      stop <- update_vertex ;;
      if stop then ret true else for_each_key keys'
  end.

(** Lines 217-223: one turn of the [while] loop.  The [print] of line 218
    only writes to the console and is left out. *)
Definition while_body (local_shape_key_list : list string) : M bool :=
  assign (set_do_once_per_vertex true) ;;;
  stop <- for_each_key local_shape_key_list ;;
  if stop then ret true
  else
    s <- get_self ;;
    assign (set_current_vertex_index (current_vertex_index s + 1)) ;;;
    ret false.

(** Lines 216-225. *)
Fixpoint while_vertices (fuel : nat) (local_shape_key_list : list string)
    : M bool :=
  match fuel with
  | 0 => out_of_fuel
  | S fuel' =>
      s <- get_self ;;
      if (current_vertex_index s <? total_vertices s)%nat then
        stop <- while_body local_shape_key_list ;;
        if stop then ret false
        else while_vertices fuel' local_shape_key_list
      else
        assign (set_message "Transferred Shape Keys successfully!") ;;;
        ret true
  end.

(** Every turn of the loop moves [current_vertex_index] forward, so the loop
    makes at most [total_vertices - current_vertex_index] turns. *)
Definition transfer_vertices (local_shape_key_list : list string) : M bool :=
  s <- get_self ;;
  while_vertices (S (total_vertices s - current_vertex_index s))
                 local_shape_key_list.

Definition transfer_shape_keys (src dest : nat) (copy_only : bool) : M bool :=
  r <- transfer_prologue src dest ;;
  match r with
  | None => ret false
  | Some local_shape_key_list =>
      if copy_only then
        assign (set_message "Success") ;;;
        ret true
      else transfer_vertices local_shape_key_list
  end.

End Program.

(** An interpreter whose limit is out of reach.  Where a statement names no
    interpreter it is about this one; the statements about an interpreter
    with a limit say so.  On an interpreter with room for the retries of a
    search the program runs as on this one: the lemmas
    [select_required_verts_fit] and [transfer_shape_keys_fit]. *)
#[export] Instance unlimited : Interpreter := {| frames := None |}.

(** ** An exact implementation of the interface

    Coordinates and radii are rational numbers in canonical form, so that
    equal numbers are equal terms.  A length is the square root of a
    non-negative rational and is represented by that rational: lengths are
    only compared with one another, and on non-negative numbers the order of
    the squares is the order of the roots. *)
Module Exact.

Import QArith Qcanon.
Local Open Scope Qc_scope.

Definition qc (z : Z) : Qc := Q2Qc (inject_Z z).

Definition QVector : Type := (Qc * Qc * Qc)%type.
Definition QMatrix : Type := list (list Qc).

Definition qvadd (u v : QVector) : QVector :=
  let '(a, b, c) := u in let '(x, y, z) := v in (a + x, b + y, c + z).

Definition qvsub (u v : QVector) : QVector :=
  let '(a, b, c) := u in let '(x, y, z) := v in (a - x, b - y, c - z).

Definition qvdiv (v : QVector) (n : nat) : QVector :=
  let '(x, y, z) := v in
  let d := qc (Z.of_nat n) in (x / d, y / d, z / d).

(** The square of the Euclidean length, standing for the length. *)
Definition qlength (v : QVector) : Qc :=
  let '(x, y, z) := v in x * x + y * y + z * z.

Definition qle (a b : Qc) : bool := Qle_bool (this a) (this b).

Definition entry (m : QMatrix) (i j : nat) : Qc := nth j (nth i m []) 0.

(** A 4x4 matrix applied to a 3D vector: the vector is extended by 1 and the
    first three rows give the result. *)
Definition qmatmul (m : QMatrix) (v : QVector) : QVector :=
  let '(x, y, z) := v in
  let row i := entry m i 0 * x + entry m i 1 * y + entry m i 2 * z + entry m i 3 in
  (row 0%nat, row 1%nat, row 2%nat).

Fixpoint remove_nth {A} (n : nat) (l : list A) : list A :=
  match l, n with
  | [], _ => []
  | _ :: t, O => t
  | h :: t, S k => h :: remove_nth k t
  end.

Definition minor (i j : nat) (m : QMatrix) : QMatrix :=
  map (remove_nth j) (remove_nth i m).

Definition sign (n : nat) : Qc := if Nat.even n then 1 else - (1).

(** Determinant of an [n]x[n] matrix, expanded along the first row. *)
Fixpoint det (n : nat) (m : QMatrix) : Qc :=
  match n with
  | O => 1
  | S k =>
      fold_left (fun acc j => acc + sign j * entry m 0 j * det k (minor 0 j m))
                (seq 0 (S k)) 0
  end.

(** The inverse as adjugate over determinant. *)
Definition qinverted (m : QMatrix) : option QMatrix :=
  let d := det 4 m in
  if Qc_eq_dec d 0 then None
  else Some (map (fun i =>
               map (fun j => sign (i + j) * det 3 (minor j i m) / d) (seq 0 4))
             (seq 0 4)).

#[export] Instance QMathutils : Mathutils := {|
  Scalar := Qc;
  Len := Qc;
  Vector := QVector;
  Matrix := QMatrix;
  scalar_zero := 0;
  scalar_add := Qcplus;
  len_le := qle;
  Vector_zero := (0, 0, 0);
  Vector_00z := fun r => (0, 0, r);
  vadd := qvadd;
  vsub := qvsub;
  vdiv := qvdiv;
  Vector_length := qlength;
  matmul := qmatmul;
  inverted := qinverted
|}.

Definition vec (x y z : Z) : QVector := (qc x, qc y, qc z).

Definition identity : QMatrix :=
  [[1; 0; 0; 0]; [0; 1; 0; 0]; [0; 0; 1; 0]; [0; 0; 0; 1]].

(** [ShapeKeyTransfer()] as [__init__] leaves it, with the settings the
    operators copy from the user interface given as arguments. *)
Definition init (increment : Qc) (increments : Z) (use_one skip : bool)
    : ShapeKeyTransfer :=
  mkSKT increment increments 0 0 false use_one
        ["Basis"; "basis"; "Expressions_IDHumans_max"]%string
        ["Basis"; "basis"; "Expressions_IDHumans_max"]%string
        None None None 0 0 false None [] EmptyString skip.

End Exact.

(** * Views of a run

    The definitions the properties are stated with: what a state holds for
    a mesh, a key block or a vertex, what a search returns, which names the
    policy selects, and what holds of the state while the loop runs. *)

Section Views.

Context {MU : Mathutils}.

(** The key blocks of the mesh datablock [mesh], when it has shape keys. *)
Definition mesh_key_blocks (b : Bpy) (mesh : nat) : option (list ShapeKey) :=
  match nth_error (meshes b) mesh with
  | Some m => option_map key_blocks (shape_keys m)
  | None => None
  end.

(** The key blocks an object gives access to, when every attribute on the
    way exists. *)
Definition object_key_blocks (b : Bpy) (o : option Object)
    : option (list ShapeKey) :=
  match o with
  | Some ob => mesh_key_blocks b (ob_data ob)
  | None => None
  end.

(** The position of vertex [j] in key block [k] of the mesh [mesh]. *)
Definition position (b : Bpy) (mesh k j : nat) : option Vector :=
  match mesh_key_blocks b mesh with
  | Some kbs =>
      match nth_error kbs k with
      | Some sk => nth_error (data sk) j
      | None => None
      end
  | None => None
  end.

(** The scene after position [j] of key block [k] of [mesh] is set to [p]. *)
Definition store_position (b : Bpy) (mesh k j : nat) (p : Vector) : Bpy :=
  match nth_error (meshes b) mesh with
  | Some m =>
      match shape_keys m with
      | Some key =>
          match nth_error (key_blocks key) k with
          | Some sk =>
              let sk' := mkShapeKey (name sk) (list_set (data sk) j p) in
              let key' := mkKey (list_set (key_blocks key) k sk') in
              mkBpy (objects b)
                    (list_set (meshes b) mesh (mkMesh (vertices m) (Some key')))
                    (listUse b)
          | None => b
          end
      | None => b
      end
  | None => b
  end.

(** The source snapshot: the positions of the first key block of the source. *)
Definition src_basis (st : State) : option (list Vector) :=
  match object_key_blocks (bpy st) (src_mesh (self st)) with
  | Some (k0 :: _) => Some (data k0)
  | _ => None
  end.

(** What [select_vertices] computes from the snapshot and the settings. *)
Definition selection (use_one : bool) (mwi : Matrix) (basis : list Vector)
    (center : Vector) (radius : Scalar) : list nat :=
  let lco := matmul mwi center in
  let r := vsub (matmul mwi (vadd center (Vector_00z radius))) lco in
  let '(src_chosen, _, closest_vertex_index) :=
    select_loop use_one lco r basis in
  if use_one then
    if (closest_vertex_index >? -1)%Z then [Z.to_nat closest_vertex_index]
    else []
  else src_chosen.

(** The radius of the [j]-th retry. *)
Fixpoint radius_after (inc : Scalar) (j : nat) (rad : Scalar) : Scalar :=
  match j with
  | 0 => rad
  | S j' => radius_after inc j' (scalar_add rad inc)
  end.

(** The value of a run, without the final state. *)
Definition value {A} (r : result (A * State)) : result A :=
  match r with
  | Ok (a, _) => Ok a
  | Raise e => Raise e
  | OutOfFuel => OutOfFuel
  end.

(** What the retries of [select_required_verts] return with [budget] calls
    of [select_vertices] left. *)
Fixpoint retry_result (use_one : bool) (mwi : Matrix) (basis : list Vector)
    (inc : Scalar) (vert : Vector) (budget : nat) (rad : Scalar) : list nat :=
  match budget with
  | 0 => []
  | S b =>
      let verts := selection use_one mwi basis vert rad in
      if Nat.eqb (List.length verts) 0
      then retry_result use_one mwi basis inc vert b (scalar_add rad inc)
      else verts
  end.

(** An interpreter that still allows [left] calls to nest allows [k]. *)
Definition enough (left : option nat) (k : nat) : Prop :=
  match left with
  | None => True
  | Some r => k <= r
  end.

(** The interpreter has room for a search that starts at [level] and finds
    nothing: its last call of [select_vertices] is nested
    [number_of_increments + 1 - level] deep, and so is the call of
    [select_required_verts] that returns the empty list. *)
Definition retries_fit {PY : Interpreter} (s : ShapeKeyTransfer) (level : Z)
    : Prop :=
  enough frames (Z.to_nat (number_of_increments s + 1 - level)).

(** The names of the key blocks of a mesh. *)
Definition mesh_names (b : Bpy) (mesh : nat) : list string :=
  match mesh_key_blocks b mesh with
  | Some kbs => map name kbs
  | None => []
  end.

(** The test of lines 199-209 for a name that is not on the destination. *)
Definition selected (mode : ListUse) (excluded default_excluded : list string)
    (nm : string) : bool :=
  match mode with
  | include => mem nm excluded && negb (mem nm default_excluded)
  | exclude => negb (mem nm excluded) && negb (mem nm default_excluded)
  | all => negb (mem nm default_excluded)
  end.

(** The names the loop of lines 191-209 adds, in order, for a destination
    that starts with the names [dest_names]. *)
Fixpoint provision (mode : ListUse) (excluded default_excluded : list string)
    (src_names dest_names : list string) : list string :=
  match src_names with
  | [] => []
  | nm :: rest =>
      if mem nm dest_names
      then provision mode excluded default_excluded rest dest_names
      else if selected mode excluded default_excluded nm
      then nm :: provision mode excluded default_excluded rest (dest_names ++ [nm])
      else provision mode excluded default_excluded rest dest_names
  end.

(** The scene after a key named [nm] is added to [mesh]. *)
Definition add_key (b : Bpy) (mesh : nat) (nm : string) : Bpy :=
  match nth_error (meshes b) mesh with
  | Some m =>
      let kbs := match shape_keys m with
                 | Some k => key_blocks k
                 | None => []
                 end in
      let new_data := match kbs with
                      | k0 :: _ => data k0
                      | [] => vertices m
                      end in
      mkBpy (objects b)
            (list_set (meshes b) mesh
               (mkMesh (vertices m)
                       (Some (mkKey (kbs ++ [mkShapeKey nm new_data])))))
            (listUse b)
  | None => b
  end.

(** What [transfer_shape_keys] needs to get past its checks: both meshes
    belong to an object, the world matrix of the source object has an
    inverse, and the source mesh has shape keys. *)
Record Ready (st : State) (src dest : nat) (sob dob : Object) (mwi : Matrix)
    (sm dm : Mesh) (skbs : list ShapeKey) : Prop := {
  ready_src :
    find (fun ob => Nat.eqb (ob_data ob) src) (objects (bpy st)) = Some sob;
  ready_dest :
    find (fun ob => Nat.eqb (ob_data ob) dest) (objects (bpy st)) = Some dob;
  ready_mwi : inverted (matrix_world sob) = Some mwi;
  ready_sm : nth_error (meshes (bpy st)) src = Some sm;
  ready_dm : nth_error (meshes (bpy st)) dest = Some dm;
  ready_keys : shape_keys sm = Some (mkKey skbs)
}.

(** The key blocks of the destination when the loop of lines 191-209
    starts: its own, or the "Basis" key of line 189. *)
Definition initial_dest_blocks (dm : Mesh) : list ShapeKey :=
  match shape_keys dm with
  | Some k => key_blocks k
  | None => [mkShapeKey "Basis" (vertices dm)]
  end.

(** The attributes of [self] when the loop of lines 191-209 starts. *)
Definition prologue_self (s : ShapeKeyTransfer) (sob dob : Object)
    (mwi : Matrix) (dm : Mesh) : ShapeKeyTransfer :=
  let s1 := set_current_vertex_index 0
              (set_src_mwi (Some mwi)
                 (set_dest_mesh (Some dob) (set_src_mesh (Some sob) s))) in
  if specify_end_vertex s then s1
  else set_total_vertices (List.length (vertices dm)) s1.

(** What stays the same while the loop of lines 216-223 runs: the two
    objects, the inverse matrix, the key blocks of the source, the names and
    the basis positions of the destination, the settings and the worklist. *)
Record Setup : Type := mkSetup {
  s_src : Object;
  s_dest : Object;
  s_mwi : Matrix;
  s_src_blocks : list ShapeKey;
  s_dest_names : list string;
  s_dest_basis : list Vector;
  s_total : nat;
  s_increment : Scalar;
  s_increments : Z;
  s_use_one : bool;
  s_skip : bool;
  s_worklist : list string
}.

(** A name of the worklist: a key of the source and a key of the
    destination other than its first. *)
Definition listed (S : Setup) (n : string) : Prop :=
  In n (map name (s_src_blocks S)) /\ In n (s_dest_names S)
  /\ hd_error (s_dest_names S) <> Some n.

(** The state while the loop of lines 216-223 runs, for the setup [S]. *)
Record InLoop (S : Setup) (st : State) : Prop := {
  il_src : src_mesh (self st) = Some (s_src S);
  il_dest : dest_mesh (self st) = Some (s_dest S);
  il_mwi : src_mwi (self st) = Some (s_mwi S);
  il_distinct : ob_data (s_src S) <> ob_data (s_dest S);
  il_src_blocks :
    mesh_key_blocks (bpy st) (ob_data (s_src S)) = Some (s_src_blocks S);
  il_src_wf :
    exists k0 rest,
      s_src_blocks S = k0 :: rest
      /\ Forall (fun k => List.length (data k) = List.length (data k0))
                (s_src_blocks S);
  il_dest_blocks :
    exists dkbs,
      mesh_key_blocks (bpy st) (ob_data (s_dest S)) = Some dkbs
      /\ map name dkbs = s_dest_names S
      /\ Forall (fun k => List.length (data k) = s_total S) dkbs
      /\ option_map data (nth_error dkbs 0) = Some (s_dest_basis S);
  il_total : total_vertices (self st) = s_total S;
  il_increment : increment_radius (self st) = s_increment S;
  il_increments : number_of_increments (self st) = s_increments S;
  il_use_one : use_one_vertex (self st) = s_use_one S;
  il_skip : skip_vertices_with_no_pair (self st) = s_skip S;
  il_worklist : Forall (listed S) (s_worklist S)
}.

(** The world position of destination vertex [j] (line 132). *)
Definition vertex_world (S : Setup) (j : nat) : option Vector :=
  option_map (matmul (matrix_world (s_dest S))) (nth_error (s_dest_basis S) j).

(** The correspondence of destination vertex [j] (line 133). *)
Definition correspondence (S : Setup) (j : nat) : list nat :=
  match vertex_world S j, s_src_blocks S with
  | Some cv, k0 :: _ =>
      retry_result (s_use_one S) (s_mwi S) (data k0) (s_increment S) cv
                   (Z.to_nat (s_increments S + 1 - 0)) scalar_zero
  | _, _ => []
  end.

(** The search [update_vertex] runs for destination vertex [i] (lines
    132-133), as a computation of its own. *)
Definition search_of_vertex (i : nat) : M (list nat) :=
  s <- get_self ;;
  dob <- attr (dest_mesh s) ;;
  kbs <- key_blocks_of (dest_mesh s) ;;
  k0 <- index kbs 0 ;;
  co <- index (data k0) i ;;
  select_required_verts (matmul (matrix_world dob) co) scalar_zero 0%Z.

(** The settings and references the loop never assigns. *)
Definition same_settings (s s' : ShapeKeyTransfer) : Prop :=
  src_mesh s' = src_mesh s /\ dest_mesh s' = dest_mesh s
  /\ src_mwi s' = src_mwi s /\ total_vertices s' = total_vertices s
  /\ increment_radius s' = increment_radius s
  /\ number_of_increments s' = number_of_increments s
  /\ use_one_vertex s' = use_one_vertex s
  /\ skip_vertices_with_no_pair s' = skip_vertices_with_no_pair s.

(** The correspondence of vertex [j] is in [self], as lines 130-134 leave
    it. *)
Definition Cached (S : Setup) (j : nat) (st : State) : Prop :=
  do_once_per_vertex (self st) = false
  /\ src_chosen_vertices (self st) = correspondence S j
  /\ current_vertex (self st) = vertex_world S j.

(** The message of line 137 for vertex [i] and source key index [ssi]. *)
Definition failure_message (i ssi : nat) : string :=
  ("Failed to find surrounding vertices | Try increasing increment radius | vertex index "
   ++ str i ++ " at shape key index " ++ str ssi)%string.

(** The invariant Blender keeps for a mesh with shape keys: there is at
    least one key, and every key has one position per vertex. *)
Definition mesh_wf (m : Mesh) : Prop :=
  match shape_keys m with
  | Some k =>
      key_blocks k <> []
      /\ Forall (fun sk => List.length (data sk) = List.length (vertices m))
                (key_blocks k)
  | None => True
  end.

(** What the loop of [transfer_shape_keys] works with after the prologue. *)
Definition setup_of (st0 : State) (sob dob : Object) (mwi : Matrix)
    (skbs : list ShapeKey) (dm : Mesh) (extra : list ShapeKey) : Setup :=
  mkSetup sob dob mwi skbs
          (map name (initial_dest_blocks dm ++ extra))
          (match initial_dest_blocks dm with
           | k0 :: _ => data k0
           | [] => []
           end)
          (List.length (vertices dm))
          (increment_radius (self st0)) (number_of_increments (self st0))
          (use_one_vertex (self st0)) (skip_vertices_with_no_pair (self st0))
          (map name extra).

End Views.

(** * Scenes over the exact implementation

    Small scenes of two objects, a source with its keys and a destination,
    on which the functions run by computation. *)

Module ExactScenes.

Import QArith Qcanon Exact.
Local Open Scope nat_scope.

Definition basis_key (positions : list QVector) : ShapeKey :=
  mkShapeKey "Basis" positions.

(** Two objects with the identity as world matrix: object 0 owns the source
    mesh (datablock 0), object 1 the destination mesh (datablock 1). *)
Definition scene (src_keys : list ShapeKey) (dest_vertices : list QVector)
    (dest_keys : list ShapeKey) : Bpy :=
  mkBpy [mkObject 0 identity; mkObject 1 identity]
        [mkMesh (match src_keys with k0 :: _ => data k0 | [] => [] end)
                (Some (mkKey src_keys));
         mkMesh dest_vertices (Some (mkKey dest_keys))]
        all.

(** *** Two source vertices at the same distance *)

Definition tie_basis : list QVector := [vec 1 0 0; vec (-1) 0 0; vec 3 0 0].

(** A state in which [transfer_shape_keys] has set up the source. *)
Definition tie_state : State :=
  mkState
    (set_src_mwi (Some identity)
       (set_src_mesh (Some (mkObject 0 identity)) (init (qc 1) 2 true false)))
    (scene [basis_key tie_basis] [] []).

(** The same source with a budget of a thousand retries. *)
Definition deep_state : State :=
  mkState
    (set_src_mwi (Some identity)
       (set_src_mesh (Some (mkObject 0 identity)) (init (qc 1) 1000 true false)))
    (scene [basis_key tie_basis] [] []).

(** An interpreter with a thousand calls left: CPython allows a thousand
    nested calls unless told otherwise, and some are in use when a search
    starts. *)
Definition thousand_left : Interpreter := {| frames := Some 1000 |}.

(** The same source and settings in a state that differs in everything the
    search does not read. *)
Definition tie_state_later : State :=
  mkState
    (set_message "Success"
       (set_current_vertex_index 7
          (set_dest_mesh (Some (mkObject 1 identity)) (self tie_state))))
    (scene [basis_key tie_basis] [vec 5 5 5] [basis_key [vec 5 5 5]]).

(** *** A source with one key to transfer *)

Definition face_basis : list QVector := [vec 0 0 0; vec 10 0 0].
Definition face_smile : list QVector := [vec 0 1 0; vec 10 2 0].
Definition face_keys : list ShapeKey :=
  [basis_key face_basis; mkShapeKey "Smile" face_smile].

(** A destination whose second vertex is far from every source vertex. *)
Definition head_vertices : list QVector := [vec 0 0 0; vec 100 0 0; vec 10 0 0].

Definition head_state (skip : bool) : State :=
  mkState (init (qc 1) 2 true skip)
          (scene face_keys head_vertices [basis_key head_vertices]).

(** A destination that already has the key "Smile". *)
Definition smiling_state : State :=
  mkState (init (qc 1) 2 true false)
          (scene face_keys head_vertices
             [basis_key head_vertices; mkShapeKey "Smile" head_vertices]).

(** A destination whose first vertex is far from every source vertex. *)
Definition far_first_vertices : list QVector :=
  [vec 100 0 0; vec 0 0 0; vec 10 0 0].

Definition far_first_state : State :=
  mkState (init (qc 1) 2 true true)
          (scene face_keys far_first_vertices [basis_key far_first_vertices]).

(** A destination of one vertex, far from the source, and two keys to
    transfer. *)
Definition two_keys : list ShapeKey :=
  [basis_key face_basis; mkShapeKey "A" face_smile; mkShapeKey "B" face_smile].

Definition lonely_state : State :=
  mkState (init (qc 1) 2 true true)
          (scene two_keys [vec 100 0 0] [basis_key [vec 100 0 0]]).

(** The state a run leaves, or the state it started from when it raises. *)
Definition state_after {A} (c : M A) (st : State) : State :=
  match c st with
  | Ok (_, st') => st'
  | _ => st
  end.

(** The state in which the loop of [transfer_shape_keys] starts. *)
Definition far_first_loop : State :=
  state_after (transfer_prologue 0 1) far_first_state.

Definition far_first_setup : Setup :=
  mkSetup (mkObject 0 identity) (mkObject 1 identity)
          (match qinverted identity with Some m => m | None => identity end)
          face_keys ["Basis"; "Smile"]%string far_first_vertices 3
          (qc 1) 2 true true ["Smile"]%string.

Definition lonely_loop : State :=
  state_after (transfer_prologue 0 1) lonely_state.

(** A vertex matched with one source vertex, then with two. *)
Definition single_match_state : State :=
  state_after (update_global_shapekey_indices "Smile")
    (mkState (set_do_once_per_vertex true
                (set_current_vertex_index 2
                   (self (state_after (transfer_prologue 0 1) (head_state true)))))
             (bpy (state_after (transfer_prologue 0 1) (head_state true)))).

Definition pair_match_state : State :=
  mkState (set_src_chosen_vertices [0; 1]
             (set_current_vertex (Some (vec 5 0 0))
                (self (state_after cache_correspondence single_match_state))))
          (bpy single_match_state).

End ExactScenes.

(** * More views *)

Section MoreViews.

Context {MU : Mathutils}.

(** What the scan with [use_one_vertex] knows after the vertices [pre]:
    either none of them is in range and the locals are as line 85 and 90
    set them, or [closest_vertex_index] is a vertex in range whose distance
    is [closest_length], and no vertex in range is closer. *)
Definition scanned (lco r : Vector) (pre : list Vector) (cl : Len) (ci : Z)
    : Prop :=
  let dist v := Vector_length (vsub v lco) in
  let R := Vector_length r in
  (ci = (-1)%Z /\ cl = R
   /\ forall j vj, nth_error pre j = Some vj -> len_le (dist vj) R = false)
  \/ (exists k vk,
        ci = Z.of_nat k /\ nth_error pre k = Some vk
        /\ len_le (dist vk) R = true /\ cl = dist vk
        /\ forall j vj, nth_error pre j = Some vj ->
                        len_le (dist vj) R = true ->
                        len_le cl (dist vj) = true).

End MoreViews.

(** * Views of the loop *)

Section LoopViews.

Context {MU : Mathutils}.

(** The index the loops of lines 159-164 leave for a key name, read off the
    names alone: the index of the last key of that name, or [old] when no
    key has it. *)
Definition last_index_of (p_key_name : string) (names : list string)
    (old : nat) : nat :=
  fold_left
    (fun acc (ix : nat * string) =>
       if String.eqb (snd ix) p_key_name then fst ix else acc)
    (enumerate names) old.

(** Lines 144-147 and 149-152: the mean of the positions that the key block
    [co] has for the matched vertices [vs]. *)
Definition mean_position (co : list Vector) (vs : list nat) : Vector :=
  vdiv (fold_left vadd (map (fun v => nth v co Vector_zero) vs) Vector_zero)
       (List.length vs).

(** Line 153: the position written for a vertex at world position [cv]. *)
Definition blended (basis target : list Vector) (vs : list nat) (cv : Vector)
    : Vector :=
  vadd (vsub (mean_position target vs) (mean_position basis vs)) cv.

(** What the loop writes for the key named [n] at destination vertex [j]. *)
Definition transferred (S : Setup) (n : string) (j : nat) : option Vector :=
  match vertex_world S j, s_src_blocks S,
        nth_error (s_src_blocks S)
                  (last_index_of n (map name (s_src_blocks S)) 0) with
  | Some cv, k0 :: _, Some kt =>
      Some (blended (data k0) (data kt) (correspondence S j) cv)
  | _, _, _ => None
  end.

(** The places of the worklist keys among the keys of the destination. *)
Definition worklist_slot (S : Setup) (k : nat) : Prop :=
  exists n, In n (s_worklist S) /\ k = last_index_of n (s_dest_names S) 0.

(** The scene [b'] is the scene [b] but for positions of keys of the mesh
    [dest] whose index is [writable]. *)
Definition touches_only (dest : nat) (writable : nat -> Prop) (b b' : Bpy)
    : Prop :=
  objects b' = objects b /\ listUse b' = listUse b
  /\ (forall m, m <> dest -> nth_error (meshes b') m = nth_error (meshes b) m)
  /\ option_map vertices (nth_error (meshes b') dest)
     = option_map vertices (nth_error (meshes b) dest)
  /\ mesh_names b' dest = mesh_names b dest
  /\ (forall k j, ~ writable k -> position b' dest k j = position b dest k j).

(** The computation leaves [number_of_increments] as it is. *)
Definition keeps_increments {A} (c : M A) : Prop :=
  forall st a st',
    c st = Ok (a, st') ->
    number_of_increments (self st') = number_of_increments (self st).

End LoopViews.

(** * The list of key names of the panel

    [scene.customshapekeylist] is a collection of [ShapeKeyItem] and
    [scene.customshapekeylist_index] the index of the selected item.  The
    operators below edit them; [self.report] is modelled by the list of the
    reports made so far. *)

(** An item of the list.  The class is declared in [uisettings.py]; the
    operators assign its attributes [name], [obj_type] and [obj_id] and read
    [name]. *)
Record ShapeKeyItem : Type := mkItem {
  item_name : string;
  obj_type : string;
  obj_id : nat
}.

Inductive ReportType : Type := INFO | ERROR.

Record Ui : Type := mkUi {
  customshapekeylist : list ShapeKeyItem;
  customshapekeylist_index : Z;
  clipboard : string;
  reports : list (ReportType * string)
}.

(** [self.report({level}, message)] *)
Definition report (level : ReportType) (message : string) (ui : Ui) : Ui :=
  mkUi (customshapekeylist ui) (customshapekeylist_index ui) (clipboard ui)
       (reports ui ++ [(level, message)]).

Definition set_list (l : list ShapeKeyItem) (ui : Ui) : Ui :=
  mkUi l (customshapekeylist_index ui) (clipboard ui) (reports ui).

Definition set_index (i : Z) (ui : Ui) : Ui :=
  mkUi (customshapekeylist ui) i (clipboard ui) (reports ui).

Definition set_clipboard (s : string) (ui : Ui) : Ui :=
  mkUi (customshapekeylist ui) (customshapekeylist_index ui) s (reports ui).

(** How a run of an operator ends.  [HostDefined] stands for a call of
    [move] or [remove] with an index that is not an index of the collection:
    what Blender does then is not in the source. *)
Inductive outcome (A : Type) : Type :=
| Finished (a : A)
| Raised (e : exn)
| HostDefined.
Arguments Finished {A} a.
Arguments Raised {A} e.
Arguments HostDefined {A}.

(** [l[i]] for a Python integer: a negative index counts from the end, and
    [None] stands for IndexError. *)
Definition py_index {A} (l : list A) (i : Z) : option A :=
  if (0 <=? i)%Z then nth_error l (Z.to_nat i)
  else if (- Z.of_nat (List.length l) <=? i)%Z
       then nth_error l (Z.to_nat (Z.of_nat (List.length l) + i))
       else None.

Fixpoint remove_at {A} (i : nat) (l : list A) : list A :=
  match l, i with
  | [], _ => []
  | _ :: t, 0 => t
  | h :: t, S j => h :: remove_at j t
  end.

Fixpoint insert_at {A} (i : nat) (x : A) (l : list A) : list A :=
  match i, l with
  | 0, _ => x :: l
  | S j, h :: t => h :: insert_at j x t
  | S _, [] => [x]
  end.

(** [collection.remove(i)] *)
Definition coll_remove {A} (i : Z) (l : list A) : outcome (list A) :=
  if ((0 <=? i) && (i <? Z.of_nat (List.length l)))%Z
  then Finished (remove_at (Z.to_nat i) l)
  else HostDefined.

(** [collection.move(a, b)]: the item at index [a] is taken out and put
    back at index [b]. *)
Definition coll_move {A} (a b : Z) (l : list A) : outcome (list A) :=
  if ((0 <=? a) && (a <? Z.of_nat (List.length l))
      && (0 <=? b) && (b <? Z.of_nat (List.length l)))%Z
  then match nth_error l (Z.to_nat a) with
       | Some x => Finished (insert_at (Z.to_nat b) x (remove_at (Z.to_nat a) l))
       | None => HostDefined
       end
  else HostDefined.

(** [item = collection.add()] followed by the three assignments
    [item.name = key], [item.obj_type = "STRING"] and
    [item.obj_id = len(collection)], and by
    [scn.customshapekeylist_index = len(collection) - 1]. *)
Definition add_item (key : string) (ui : Ui) : Ui :=
  let l := customshapekeylist ui
           ++ [mkItem key "STRING" (S (List.length (customshapekeylist ui)))] in
  set_index (Z.of_nat (List.length l) - 1) (set_list l ui).

(** [str(i)] for a Python integer. *)
Definition str_int (i : Z) : string := NilEmpty.string_of_int (Z.to_int i).

(** The character of a double quote, and a name between double quotes as
    the format ['"%s"'] prints it. *)
Definition dquote : string := String (ascii_of_nat 34) EmptyString.

Definition quoted (s : string) : string := (dquote ++ s ++ dquote)%string.

(** [sep.join(xs)] *)
Fixpoint join (sep : string) (xs : list string) : string :=
  match xs with
  | [] => EmptyString
  | [x] => x
  | x :: t => (x ++ sep ++ join sep t)%string
  end.

(** [sorted(l)] for a list of indices. *)
Fixpoint insert_sorted (x : nat) (l : list nat) : list nat :=
  match l with
  | [] => [x]
  | y :: t => if (x <=? y)%nat then x :: l else y :: insert_sorted x t
  end.

Definition sorted (l : list nat) : list nat := fold_right insert_sorted [] l.

(** ** [CUSTOM_OT_removeDuplicates] (lines 599-636) *)

Module CUSTOM_OT_removeDuplicates.

(** [name_lookup.setdefault(name, []).append(c)]: the dict is kept as the
    list of its entries in the order of their insertion. *)
Fixpoint setdefault_append (nm : string) (c : nat)
    (name_lookup : list (string * list nat)) : list (string * list nat) :=
  match name_lookup with
  | [] => [(nm, [c])]
  | (k, indices) :: rest =>
      if String.eqb k nm then (k, indices ++ [c]) :: rest
      else (k, indices) :: setdefault_append nm c rest
  end.

(** [duplicates.add(i)]: the set is kept as a list without repetition. *)
Definition set_add (i : nat) (duplicates : list nat) : list nat :=
  if existsb (Nat.eqb i) duplicates then duplicates else duplicates ++ [i].

(** Lines 606-615. *)
Definition find_duplicates (items : list ShapeKeyItem) : list nat :=
  let name_lookup :=
    fold_left (fun d (ci : nat * ShapeKeyItem) =>
                 setdefault_append (item_name (snd ci)) (fst ci) d)
              (enumerate items) [] in
  let duplicates :=
    fold_left (fun s (entry : string * list nat) =>
                 fold_left (fun s i => set_add i s) (tl (snd entry)) s)
              name_lookup [] in
  sorted duplicates.

(** The loop of lines 625-627: the items are removed in the order given. *)
Fixpoint remove_each (indices : list nat) (l : list ShapeKeyItem)
    : outcome (list ShapeKeyItem) :=
  match indices with
  | [] => Finished l
  | i :: rest =>
      match coll_remove (Z.of_nat i) l with
      | Finished l' => remove_each rest l'
      | Raised e => Raised e
      | HostDefined => HostDefined
      end
  end.

(** Lines 621-634. *)
Definition execute (ui : Ui) : outcome Ui :=
  let removed_items := rev (find_duplicates (customshapekeylist ui)) in
  match remove_each removed_items (customshapekeylist ui) with
  | Finished l =>
      let ui := set_list l ui in
      match removed_items with
      | _ :: _ =>
          let ui := set_index (Z.of_nat (List.length l) - 1) ui in
          let info := join ", " (map str removed_items) in
          Finished (report INFO ("Removed indices: " ++ info) ui)
      | [] => Finished (report INFO "No duplicates" ui)
      end
  | Raised e => Raised e
  | HostDefined => HostDefined
  end.

End CUSTOM_OT_removeDuplicates.

(** ** [CUSTOM_OT_clearList] (lines 574-594) *)

Module CUSTOM_OT_clearList.

(** [bool(context.scene.customshapekeylist)] *)
Definition poll (ui : Ui) : bool :=
  match customshapekeylist ui with [] => false | _ :: _ => true end.

Definition execute (ui : Ui) : Ui :=
  if poll ui then report INFO "All items removed" (set_list [] ui)
  else report INFO "Nothing to remove" ui.

End CUSTOM_OT_clearList.

(** ** [CUSTOM_OT_actions] (lines 505-569) *)

Module CUSTOM_OT_actions.

Inductive Action : Type := UP | DOWN | REMOVE | ADD | DEFAULT.

(** Lines 524-547: the body of the [try ... except IndexError: pass ...
    else]. *)
Definition on_selected (action : Action) (ui : Ui) : outcome Ui :=
  let idx := customshapekeylist_index ui in
  let l := customshapekeylist ui in
  match py_index l idx with
  | None => Finished ui
  | Some item =>
      match action with
      | DOWN =>
          if (idx <? Z.of_nat (List.length l) - 1)%Z then
            match py_index l (idx + 1) with
            | None => Raised IndexError
            | Some _ =>
                match coll_move idx (idx + 1) l with
                | Finished l' =>
                    let ui := set_index (idx + 1) (set_list l' ui) in
                    let info := ("Item " ++ quoted (item_name item)
                                 ++ " moved to position "
                                 ++ str_int (customshapekeylist_index ui + 1))%string in
                    Finished (report INFO info ui)
                | Raised e => Raised e
                | HostDefined => HostDefined
                end
            end
          else Finished ui
      | UP =>
          if (1 <=? idx)%Z then
            match py_index l (idx - 1) with
            | None => Raised IndexError
            | Some _ =>
                match coll_move idx (idx - 1) l with
                | Finished l' =>
                    let ui := set_index (idx - 1) (set_list l' ui) in
                    let info := ("Item " ++ quoted (item_name item)
                                 ++ " moved to position "
                                 ++ str_int (customshapekeylist_index ui + 1))%string in
                    Finished (report INFO info ui)
                | Raised e => Raised e
                | HostDefined => HostDefined
                end
            end
          else Finished ui
      | REMOVE =>
          let info := ("Item " ++ quoted (item_name item)
                       ++ " removed from list")%string in
          let ui := set_index (idx - 1) ui in
          match coll_remove idx l with
          | Finished l' => Finished (report INFO info (set_list l' ui))
          | Raised e => Raised e
          | HostDefined => HostDefined
          end
      | ADD | DEFAULT => Finished ui
      end
  end.

(** One turn of the loop of lines 560-567. *)
Definition add_default (key : string) (ui : Ui) : Ui :=
  report INFO (quoted key ++ " added to list") (add_item key ui).

(** Lines 520-569.  The keys of the 'DEFAULT' action are the result of
    [SKT.get_default_excluded_keys()], given as [default_keys]. *)
Definition invoke (default_keys : list string) (action : Action) (ui : Ui)
    : outcome Ui :=
  match on_selected action ui with
  | Finished ui =>
      match action with
      | ADD => Finished (report INFO (quoted "key" ++ " added to list")
                                (add_item "key" ui))
      | DEFAULT => Finished (fold_left (fun u key => add_default key u)
                                       default_keys ui)
      | _ => Finished ui
      end
  | Raised e => Raised e
  | HostDefined => HostDefined
  end.

End CUSTOM_OT_actions.

(** ** [InsertKeyNamesOperator] (lines 308-325) *)

(** [s.split(sep)] for a separator of one character. *)
Fixpoint split (sep : ascii) (s : string) : list string :=
  match s with
  | EmptyString => [EmptyString]
  | String c s' =>
      if Ascii.eqb c sep then EmptyString :: split sep s'
      else match split sep s' with
           | h :: t => String c h :: t
           | [] => [String c EmptyString]
           end
  end.

(** The line feed of ["\n"]. *)
Definition newline : ascii := ascii_of_nat 10.

Module InsertKeyNamesOperator.

Definition execute (ui : Ui) : Ui :=
  let ui :=
    fold_left (fun u key =>
                 if (0 <? String.length key)%nat then add_item key u else u)
              (split newline (clipboard ui)) ui in
  report INFO "Added shape key names from clipboard" ui.

End InsertKeyNamesOperator.

(** ** Views of the list of names *)

(** The value of the key [k] in a dict kept as the list of its entries; the
    empty list when the key is missing. *)
Definition lookup (k : string) (d : list (string * list nat)) : list nat :=
  match find (fun kv => String.eqb (fst kv) k) d with
  | Some kv => snd kv
  | None => []
  end.

(** The indices of the items named [nm], counted from [s], in increasing
    order. *)
Definition indices_named (nm : string) (s : nat) (items : list ShapeKeyItem)
    : list nat :=
  map fst (filter (fun ci : nat * ShapeKeyItem =>
                     String.eqb (item_name (snd ci)) nm)
                  (enumerate_from s items)).

(** The items whose index, counted from [s], passes the test [keep]. *)
Definition kept_items {A} (keep : nat -> bool) (s : nat) (l : list A) : list A :=
  map snd (filter (fun ci : nat * A => keep (fst ci)) (enumerate_from s l)).

(** The item at index [c] repeats the name of an earlier item. *)
Definition repeats_earlier_name (items : list ShapeKeyItem) (c : nat) : Prop :=
  exists j it it',
    j < c /\ nth_error items j = Some it' /\ nth_error items c = Some it
    /\ item_name it' = item_name it.

(** ** [get_shape_keys_mesh] (lines 241-250) and [CopyKeyNamesOperator]
    (lines 274-303) *)

Section KeyNames.

Context {MU : Mathutils}.

(** The method returns [True] after it has put a text in [self.message],
    and [False] after it has put there the list of the names of the keys
    (line 249). *)
Definition get_shape_keys_mesh (mesh : nat) : M bool :=
  obj <- get_parent mesh ;;
  ob <- attr obj ;;
  m <- deref ob ;;
  match shape_keys m with
  | None =>
      assign (set_message "There are no Shape Keys in the mesh!") ;;;
      ret true
  | Some k =>
      assign (set_message (Names (map name (key_blocks k)))) ;;;
      ret false
  end.

(** [self.report({level}, SKT.message)].  The message of a report is a
    string: given the list of line 249, the host refuses the call with a
    TypeError. *)
Definition report_message (level : ReportType) (ui : Ui) : M Ui :=
  s <- get_self ;;
  match message s with
  | Text text => ret (report level text ui)
  | Names _ => raise TypeError
  end.

(** [for key in SKT.message]: the names of the list, or the characters of
    the text. *)
Definition message_items (m : Message) : list string :=
  match m with
  | Names keys => keys
  | Text text =>
      map (fun c => String c EmptyString) (list_ascii_of_string text)
  end.

(** Lines 295-299: the names but "Basis", each followed by a line feed. *)
Definition names_text (keys : list string) : string :=
  fold_left (fun temp_str key =>
               if String.eqb key "Basis" then temp_str
               else (temp_str ++ key ++ String newline EmptyString)%string)
            keys EmptyString.

(** [CopyKeyNamesOperator.execute]; [src_mesh] is the mesh chosen as source
    in the panel, if any. *)
Definition copy_key_names (src_mesh : option nat) (ui : Ui) : M Ui :=
  match src_mesh with
  | Some mesh =>
      r <- get_shape_keys_mesh mesh ;;
      if r then report_message INFO ui
      else
        s <- get_self ;;
        let keys := message_items (message s) in
        ret (report INFO "Copied to clipboard"
                    (set_clipboard (names_text keys) ui))
  | None => ret (report INFO "Invalid Source Mesh" ui)
  end.

End KeyNames.

(** The items the loop of lines 317-323 adds for the names [keys] to a list
    of [n] items: the [obj_id] of an item is the length of the list once the
    item is in. *)
Definition items_of (n : nat) (keys : list string) : list ShapeKeyItem :=
  map (fun ik : nat * string => mkItem (snd ik) "STRING" (fst ik))
      (enumerate_from (S n) keys).

(** The string holds the character. *)
Fixpoint has_char (c : ascii) (s : string) : bool :=
  match s with
  | EmptyString => false
  | String a s' => Ascii.eqb a c || has_char c s'
  end.

(** * The operators of the panel that run a transfer *)

(** [list(s)] for a set [s] of strings.  Python fixes the elements of the
    result, not their order: the order is taken as given. *)
Class SetOrder : Type := {
  (** [list(set(keys))] *)
  list_of_set : list string -> list string;
  (** [list(set(keys) - set(others))] *)
  list_of_difference : list string -> list string -> list string
}.

Class SetOrderLaws (SO : SetOrder) : Prop := {
  list_of_set_In :
    forall keys k, In k (list_of_set keys) <-> In k keys;
  list_of_set_NoDup : forall keys, NoDup (list_of_set keys);
  list_of_difference_In :
    forall keys others k,
      In k (list_of_difference keys others) <-> In k keys /\ ~ In k others;
  list_of_difference_NoDup :
    forall keys others, NoDup (list_of_difference keys others)
}.

(** An order for the scenes: the elements as they were first given. *)
Definition first_given : SetOrder := {|
  list_of_set := nodup string_dec;
  list_of_difference keys others :=
    nodup string_dec (filter (fun k => negb (mem k others)) keys)
|}.

Section Operators.

Context {MU : Mathutils} {PY : Interpreter} {SO : SetOrder}.

Definition set_increment_radius (v : Scalar) (s : ShapeKeyTransfer) :=
  mkSKT v (number_of_increments s) (current_vertex_index s) (total_vertices s)
    (specify_end_vertex s) (use_one_vertex s) (default_excluded_keys s)
    (excluded_shape_keys s) (dest_mesh s) (src_mesh s) (src_mwi s)
    (dest_shape_key_index s) (src_shape_key_index s) (do_once_per_vertex s)
    (current_vertex s) (src_chosen_vertices s) (message s)
    (skip_vertices_with_no_pair s).

Definition set_number_of_increments (v : Z) (s : ShapeKeyTransfer) :=
  mkSKT (increment_radius s) v (current_vertex_index s) (total_vertices s)
    (specify_end_vertex s) (use_one_vertex s) (default_excluded_keys s)
    (excluded_shape_keys s) (dest_mesh s) (src_mesh s) (src_mwi s)
    (dest_shape_key_index s) (src_shape_key_index s) (do_once_per_vertex s)
    (current_vertex s) (src_chosen_vertices s) (message s)
    (skip_vertices_with_no_pair s).

Definition set_use_one_vertex (v : bool) (s : ShapeKeyTransfer) :=
  mkSKT (increment_radius s) (number_of_increments s) (current_vertex_index s)
    (total_vertices s) (specify_end_vertex s) v (default_excluded_keys s)
    (excluded_shape_keys s) (dest_mesh s) (src_mesh s) (src_mwi s)
    (dest_shape_key_index s) (src_shape_key_index s) (do_once_per_vertex s)
    (current_vertex s) (src_chosen_vertices s) (message s)
    (skip_vertices_with_no_pair s).

Definition set_skip_vertices_with_no_pair (v : bool) (s : ShapeKeyTransfer) :=
  mkSKT (increment_radius s) (number_of_increments s) (current_vertex_index s)
    (total_vertices s) (specify_end_vertex s) (use_one_vertex s)
    (default_excluded_keys s) (excluded_shape_keys s) (dest_mesh s) (src_mesh s)
    (src_mwi s) (dest_shape_key_index s) (src_shape_key_index s)
    (do_once_per_vertex s) (current_vertex s) (src_chosen_vertices s)
    (message s) v.

Definition set_excluded_shape_keys (v : list string) (s : ShapeKeyTransfer) :=
  mkSKT (increment_radius s) (number_of_increments s) (current_vertex_index s)
    (total_vertices s) (specify_end_vertex s) (use_one_vertex s)
    (default_excluded_keys s) v (dest_mesh s) (src_mesh s) (src_mwi s)
    (dest_shape_key_index s) (src_shape_key_index s) (do_once_per_vertex s)
    (current_vertex s) (src_chosen_vertices s) (message s)
    (skip_vertices_with_no_pair s).

(** ** [get_default_excluded_keys] (lines 228-229) *)

Definition get_default_excluded_keys : M (list string) :=
  s <- get_self ;;
  ret (list_of_difference (default_excluded_keys s) ["Basis"]).

(** ** [update_shape_keys_list] (lines 232-238) *)

(** The assignment gives [excluded_shape_keys] a new list: the list that
    [default_excluded_keys] shares with it after [__init__] is not
    changed. *)
Definition update_shape_keys_list (excluded_keys : list ShapeKeyItem)
    : M unit :=
  let keys := map item_name excluded_keys in
  assign (set_excluded_shape_keys (list_of_set keys)).

(** ** [can_transfer_keys] (lines 260-269) *)

(** The two arguments are [src_mesh] and [dest_mesh] of the settings of the
    scene, each a mesh or [None]. *)
Definition can_transfer_keys (src_mesh dest_mesh : option nat) : bool :=
  match src_mesh, dest_mesh with
  | Some s, Some d => if Nat.eqb s d then false else true
  | _, _ => false
  end.

(** ** [TransferShapeKeyOperator.execute] (lines 393-409) *)

(** The properties of the operator, set in its dialog. *)
Record TransferProps : Type := mkProps {
  op_increment_radius : Scalar;
  op_use_one_vertex : bool;
  op_skip_unpaired_vertices : bool;
  op_number_of_increments : Z
}.

(** Lines 404-408, shared by the three operators: the report of the result
    and the global [shapes_transferred]. *)
Definition report_result (result : bool) (shapes_transferred : bool) (ui : Ui)
    : M (Ui * bool) :=
  if negb result then
    ui' <- report_message ERROR ui ;;
    ret (ui', shapes_transferred)
  else
    ui' <- report_message INFO ui ;;
    ret (ui', true).

(** The operator runs when its [poll], [can_transfer_keys], holds: [src] and
    [dest] are the two meshes of the settings.  The result is the panel
    and the global [shapes_transferred].
    [TransferExcludedShapeKeyOperator.execute] (lines 440-456) has the same
    statements. *)
Definition transfer_operator_execute (props : TransferProps) (src dest : nat)
    (shapes_transferred : bool) (ui : Ui) : M (Ui * bool) :=
  assign (set_increment_radius (op_increment_radius props)) ;;;
  assign (set_use_one_vertex (op_use_one_vertex props)) ;;;
  assign (set_skip_vertices_with_no_pair (op_skip_unpaired_vertices props)) ;;;
  assign (set_number_of_increments (op_number_of_increments props)) ;;;
  update_shape_keys_list (customshapekeylist ui) ;;;
  result <- transfer_shape_keys src dest false ;;
  report_result result shapes_transferred ui.

(** ** [CopyShapeKeys.execute] (lines 360-372) *)

Definition copy_operator_execute (src dest : nat) (shapes_transferred : bool)
    (ui : Ui) : M (Ui * bool) :=
  update_shape_keys_list (customshapekeylist ui) ;;;
  result <- transfer_shape_keys src dest true ;;
  report_result result shapes_transferred ui.

(** ** Views of a run of an operator *)

(** The attributes of [SKT] when the transfer operator calls
    [transfer_shape_keys]: the four settings of the dialog and the names of
    the items of the panel are in. *)
Definition dialog_applied (props : TransferProps) (ui : Ui)
    (s : ShapeKeyTransfer) : ShapeKeyTransfer :=
  set_excluded_shape_keys
    (list_of_set (map item_name (customshapekeylist ui)))
    (set_number_of_increments (op_number_of_increments props)
       (set_skip_vertices_with_no_pair (op_skip_unpaired_vertices props)
          (set_use_one_vertex (op_use_one_vertex props)
             (set_increment_radius (op_increment_radius props) s)))).

(** The names of the destination when the loop of lines 191-209 starts. *)
Definition names_at_start (b : Bpy) (dest : nat) (dm : Mesh) : list string :=
  match shape_keys dm with
  | Some _ => mesh_names b dest
  | None => ["Basis"]
  end.

End Operators.

(** * More scenes over the exact implementation *)

Module MoreScenes.

Import QArith Qcanon Exact ExactScenes.
Local Open Scope nat_scope.

(** The scene of [head_state] with every vertex in range collected. *)
Definition tie_state_all : State :=
  mkState
    (set_src_mwi (Some identity)
       (set_src_mesh (Some (mkObject 0 identity)) (init (qc 1) 2 false false)))
    (scene [basis_key tie_basis] [] []).

(** A world matrix without inverse. *)
Definition flat : QMatrix :=
  [[1; 0; 0; 0]; [0; 1; 0; 0]; [0; 0; 0; 0]; [0; 0; 0; 1]]%Qc.

(** The source object is flattened onto a plane. *)
Definition flat_state : State :=
  mkState (init (qc 1) 2 true false)
          (mkBpy [mkObject 0 flat; mkObject 1 identity]
                 [mkMesh face_basis (Some (mkKey face_keys));
                  mkMesh head_vertices (Some (mkKey [basis_key head_vertices]))]
                 all).

(** The source mesh has no shape keys, and neither has the destination. *)
Definition bare_state : State :=
  mkState (init (qc 1) 2 true false)
          (mkBpy [mkObject 0 identity; mkObject 1 identity]
                 [mkMesh face_basis None; mkMesh head_vertices None]
                 all).

(** A destination whose two vertices lie on the two vertices of the
    source. *)
Definition twin_state (skip : bool) : State :=
  mkState (init (qc 1) 2 true skip)
          (scene face_keys face_basis [basis_key face_basis]).

(** The state in which the loop of [transfer_shape_keys] starts on the
    scene of [head_state]. *)
Definition head_loop : State :=
  state_after (transfer_prologue 0 1) (head_state true).

(** A list of the panel with names that come back. *)
Definition panel_items : list ShapeKeyItem :=
  map (fun n => mkItem n "STRING" 0) ["a"; "b"; "a"; "c"; "b"; "a"]%string.

Definition panel (index : Z) : Ui := mkUi panel_items index EmptyString [].

(** A list of the panel that names the key of the source. *)
Definition smile_panel : Ui :=
  mkUi [mkItem "Smile" "STRING" 1; mkItem "Smile" "STRING" 2] 1 EmptyString [].

(** The settings of the dialog of a transfer. *)
Definition dialog : TransferProps := mkProps (qc 1) true false 2.

End MoreScenes.

(** * Properties *)

Section Search.

Context {MU : Mathutils}.

(** ** The monad *)

Lemma bind_Ok {A B} (c : M A) (k : A -> M B) st a st' :
  c st = Ok (a, st') -> bind c k st = k a st'.
Proof. unfold bind. intros ->. reflexivity. Qed.

Lemma bind_inv {A B} (c : M A) (k : A -> M B) st b st2 :
  bind c k st = Ok (b, st2) ->
  exists a st1, c st = Ok (a, st1) /\ k a st1 = Ok (b, st2).
Proof.
  unfold bind. destruct (c st) as [[a st1]| |]; try discriminate.
  intros H. exists a, st1. auto.
Qed.

Lemma key_blocks_of_view o st kbs :
  object_key_blocks (bpy st) o = Some kbs ->
  key_blocks_of o st = Ok (kbs, st).
Proof.
  unfold object_key_blocks, mesh_key_blocks, key_blocks_of, deref, attr, bind,
    get_bpy, ret.
  destruct o as [ob|]; try discriminate.
  destruct (nth_error (meshes (bpy st)) (ob_data ob)) as [m|]; try discriminate.
  destruct (shape_keys m) as [k|]; simpl; try discriminate.
  intros H. injection H as <-. reflexivity.
Qed.

Lemma key_blocks_of_frame o st kbs st' :
  key_blocks_of o st = Ok (kbs, st') ->
  st' = st /\ object_key_blocks (bpy st) o = Some kbs.
Proof.
  unfold object_key_blocks, mesh_key_blocks, key_blocks_of, deref, attr, bind,
    get_bpy, ret, raise.
  destruct o as [ob|]; try discriminate.
  destruct (nth_error (meshes (bpy st)) (ob_data ob)) as [m|]; try discriminate.
  destruct (shape_keys m) as [k|]; simpl; try discriminate.
  intros H. injection H as <- <-. auto.
Qed.

(** ** The scan of [select_vertices] *)

Lemma enumerate_from_app {A} (l1 l2 : list A) s :
  enumerate_from s (l1 ++ l2)
  = enumerate_from s l1 ++ enumerate_from (s + List.length l1) l2.
Proof.
  revert s. induction l1 as [|x l1 IH]; intros s; simpl.
  - now rewrite Nat.add_0_r.
  - rewrite IH. now rewrite Nat.add_succ_r.
Qed.

Section Scan.

Variables (lco r : Vector).

Let dist (v : Vector) : Len := Vector_length (vsub v lco).
Let R : Len := Vector_length r.

(** Over vertices that are not closer than [m], the running minimum stays
    at or above [m]. *)
Lemma scan_lower (m : Len) (l : list Vector) :
  (forall v, In v l -> len_le (dist v) R = true -> len_le m (dist v) = true) ->
  forall s ch cl ci ch' cl' ci',
    len_le m cl = true ->
    fold_left (select_step true lco r) (enumerate_from s l) (ch, cl, ci)
    = (ch', cl', ci') ->
    len_le m cl' = true.
Proof.
  induction l as [|v l IH]; intros Hl s ch cl ci ch' cl' ci' Hcl; simpl.
  - intros H. injection H as _ <- _. exact Hcl.
  - fold (dist v); fold R.
    destruct (len_le (dist v) R) eqn:Hin.
    + destruct (len_le (dist v) cl) eqn:Hle.
      * apply IH; [intros; apply Hl; simpl; auto|].
        apply Hl; simpl; auto.
      * apply IH; [intros; apply Hl; simpl; auto|exact Hcl].
    + apply IH; [intros; apply Hl; simpl; auto|exact Hcl].
Qed.

(** Over vertices that are all farther than the running minimum, the
    running minimum and its index do not move. *)
Lemma scan_keep (l : list Vector) (cl : Len) :
  (forall v, In v l -> len_le (dist v) R = true -> len_le (dist v) cl = false) ->
  forall s ch ci,
    exists ch',
      fold_left (select_step true lco r) (enumerate_from s l) (ch, cl, ci)
      = (ch', cl, ci).
Proof.
  induction l as [|v l IH]; intros Hl s ch ci; simpl.
  - eauto.
  - fold (dist v); fold R.
    destruct (len_le (dist v) R) eqn:Hin.
    + rewrite (Hl v (or_introl eq_refl) Hin).
      apply IH. intros; apply Hl; simpl; auto.
    + apply IH. intros; apply Hl; simpl; auto.
Qed.

(** The index the scan ends with when vertex [k] is the last of the in-range
    vertices at the smallest distance [m]. *)
Lemma scan_last_minimum (basis : list Vector) (k : nat) (vk : Vector) (m : Len) :
  nth_error basis k = Some vk ->
  dist vk = m ->
  len_le m R = true ->
  len_le m m = true ->
  (forall j vj, nth_error basis j = Some vj -> len_le (dist vj) R = true ->
                dist vj = m \/ (len_le m (dist vj) = true /\ len_le (dist vj) m = false)) ->
  (forall j vj, nth_error basis j = Some vj -> dist vj = m -> j <= k) ->
  exists ch, select_loop true lco r basis = (ch, m, Z.of_nat k).
Proof.
  intros Hk Hd HmR Hmm Hmin Hlast.
  destruct (nth_error_split _ _ Hk) as (pre & post & -> & Hlen).
  unfold select_loop, enumerate. rewrite enumerate_from_app, fold_left_app. simpl.
  destruct (fold_left (select_step true lco r) (enumerate_from 0 pre)
                      ([], Vector_length r, (-1)%Z)) as [[ch1 c1] i1] eqn:Hpre.
  assert (Hc1 : len_le m c1 = true).
  { eapply scan_lower; [| exact HmR | exact Hpre].
    intros v Hv Hin. destruct (In_nth_error _ _ Hv) as [j Hj].
    assert (Hj' : nth_error (pre ++ vk :: post) j = Some v).
    { rewrite nth_error_app1; [exact Hj|]. apply nth_error_Some. congruence. }
    destruct (Hmin j v Hj' Hin) as [->|[H _]]; auto. }
  unfold select_step at 2. fold (dist vk); fold R. rewrite Hd, HmR, Hc1.
  rewrite Hlen.
  destruct (scan_keep post m) with (s := S k) (ch := ch1 ++ [k]) (ci := Z.of_nat k)
    as [ch' Hpost].
  { intros v Hv Hin. destruct (In_nth_error _ _ Hv) as [j Hj].
    assert (Hj' : nth_error (pre ++ vk :: post) (S (k + j)) = Some v).
    { rewrite nth_error_app2 by lia.
      replace (S (k + j) - List.length pre) with (S j) by lia. exact Hj. }
    destruct (Hmin _ v Hj' Hin) as [Heq|[_ H]]; auto.
    specialize (Hlast _ v Hj' Heq). lia. }
  exists ch'. exact Hpost.
Qed.

End Scan.

(** [select_vertices] on a state whose source snapshot exists. *)
Lemma select_vertices_eq st mwi basis center radius :
  src_mwi (self st) = Some mwi ->
  src_basis st = Some basis ->
  select_vertices center radius st
  = Ok (selection (use_one_vertex (self st)) mwi basis center radius, st).
Proof.
  intros Hm Hb. unfold src_basis in Hb.
  destruct (object_key_blocks (bpy st) (src_mesh (self st))) as [[|k0 kbs]|] eqn:Hk;
    try discriminate.
  injection Hb as <-.
  unfold select_vertices, selection.
  unfold bind at 1. unfold get_self at 1. cbv beta iota. rewrite Hm.
  rewrite (bind_Ok _ _ _ _ _ (key_blocks_of_view _ _ _ Hk)).
  unfold index, bind, ret. simpl.
  destruct (select_loop _ _ _ _) as [[ch cl] ci].
  destruct (use_one_vertex (self st)); [destruct (ci >? -1)%Z|]; reflexivity.
Qed.

End Search.

Section SearchTheorems.

Context {MU : Mathutils}.

(** The fuel given by [select_required_verts] is never used up. *)
Lemma srv_fuel_enough st mwi basis vert :
  src_mwi (self st) = Some mwi ->
  src_basis st = Some basis ->
  forall fuel level rad,
    Z.to_nat (number_of_increments (self st) + 1 - level) < fuel ->
    select_required_verts_fuel fuel None vert rad level st
    = Ok (retry_result (use_one_vertex (self st)) mwi basis
            (increment_radius (self st)) vert
            (Z.to_nat (number_of_increments (self st) + 1 - level)) rad, st).
Proof.
  intros Hm Hb. induction fuel as [|fuel IH]; intros level rad Hf; [lia|].
  simpl. unfold bind at 1, get_self at 1. cbv beta iota.
  destruct (level >? number_of_increments (self st))%Z eqn:Hlv.
  - apply Z.gtb_lt in Hlv.
    replace (Z.to_nat (number_of_increments (self st) + 1 - level)) with 0 by lia.
    reflexivity.
  - assert (Hle : (level <= number_of_increments (self st))%Z).
    { destruct (Z.gtb_spec level (number_of_increments (self st))); [discriminate|lia]. }
    replace (Z.to_nat (number_of_increments (self st) + 1 - level))
      with (S (Z.to_nat (number_of_increments (self st) + 1 - (level + 1)))) in * by lia.
    unfold call.
    rewrite (bind_Ok _ _ _ _ _ (select_vertices_eq st mwi basis vert rad Hm Hb)).
    simpl retry_result.
    destruct (Nat.eqb _ 0); [|reflexivity].
    apply IH. lia.
Qed.

Lemma select_required_verts_eq st mwi basis vert rad level :
  src_mwi (self st) = Some mwi ->
  src_basis st = Some basis ->
  select_required_verts vert rad level st
  = Ok (retry_result (use_one_vertex (self st)) mwi basis
          (increment_radius (self st)) vert
          (Z.to_nat (number_of_increments (self st) + 1 - level)) rad, st).
Proof.
  intros Hm Hb. unfold select_required_verts, bind, get_self.
  cbn [frames unlimited]. apply srv_fuel_enough; auto.
Qed.

Lemma retry_result_first use_one mwi basis inc vert :
  forall budget rad j,
    j < budget ->
    (forall i, i < j ->
       selection use_one mwi basis vert (radius_after inc i rad) = []) ->
    selection use_one mwi basis vert (radius_after inc j rad) <> [] ->
    retry_result use_one mwi basis inc vert budget rad
    = selection use_one mwi basis vert (radius_after inc j rad).
Proof.
  induction budget as [|b IH]; intros rad j Hj Hbefore Hat; [lia|].
  simpl. destruct j as [|j].
  - simpl in Hat |- *.
    destruct (selection use_one mwi basis vert rad); [congruence|reflexivity].
  - pose proof (Hbefore 0 ltac:(lia)) as H0. simpl in H0. rewrite H0. simpl.
    apply (IH (scalar_add rad inc) j); [lia| |exact Hat].
    intros i Hi. apply (Hbefore (S i)). lia.
Qed.

Lemma retry_result_none use_one mwi basis inc vert :
  forall budget rad,
    (forall i, i < budget ->
       selection use_one mwi basis vert (radius_after inc i rad) = []) ->
    retry_result use_one mwi basis inc vert budget rad = [].
Proof.
  induction budget as [|b IH]; intros rad Hall; [reflexivity|].
  simpl. pose proof (Hall 0 ltac:(lia)) as H0. simpl in H0. rewrite H0. simpl.
  apply IH. intros i Hi. apply (Hall (S i)). lia.
Qed.

(** C1 (as amended): with [use_one_vertex] set, when several in-range source
    vertices are at exactly the same smallest distance [m] from the
    local-space center, [select_vertices] returns the highest vertex index
    among them: the scan replaces the closest vertex found so far by a later
    vertex at the same distance (the test is [<=]). *)
Theorem select_vertices_tie_last_wins
    (st : State) (mwi : Matrix) (basis : list Vector)
    (center : Vector) (radius : Scalar) (k : nat) (vk : Vector) (m : Len) :
  use_one_vertex (self st) = true ->
  src_mwi (self st) = Some mwi ->
  src_basis st = Some basis ->
  let lco := matmul mwi center in
  let r := vsub (matmul mwi (vadd center (Vector_00z radius))) lco in
  let dist v := Vector_length (vsub v lco) in
  nth_error basis k = Some vk ->
  dist vk = m ->
  len_le m (Vector_length r) = true ->
  len_le m m = true ->
  (forall j vj, nth_error basis j = Some vj ->
                len_le (dist vj) (Vector_length r) = true ->
                dist vj = m \/
                (len_le m (dist vj) = true /\ len_le (dist vj) m = false)) ->
  (forall j vj, nth_error basis j = Some vj -> dist vj = m -> j <= k) ->
  select_vertices center radius st = Ok ([k], st).
Proof.
  intros Huse Hm Hb lco r dist Hk Hd HmR Hmm Hmin Hlast.
  rewrite (select_vertices_eq st mwi basis center radius Hm Hb).
  unfold selection. rewrite Huse.
  destruct (scan_last_minimum lco r basis k vk m Hk Hd HmR Hmm Hmin Hlast)
    as [ch Hscan].
  fold lco. fold r. rewrite Hscan.
  replace (Z.of_nat k >? -1)%Z with true by (symmetry; apply Z.gtb_lt; lia).
  rewrite Nat2Z.id. reflexivity.
Qed.

(** [select_vertices] and [select_required_verts] never change the state. *)
Lemma select_vertices_frame center radius st vs st' :
  select_vertices center radius st = Ok (vs, st') -> st' = st.
Proof.
  unfold select_vertices. unfold bind at 1, get_self at 1. cbv beta iota.
  destruct (src_mwi (self st)) as [mwi|]; [|discriminate].
  intros H. apply bind_inv in H. destruct H as (kbs & st1 & Hk & H).
  apply key_blocks_of_frame in Hk. destruct Hk as [-> _].
  apply bind_inv in H. destruct H as (k0 & st2 & Hi & H).
  unfold index in Hi. destruct (nth_error kbs 0); [|discriminate].
  injection Hi as <- <-.
  destruct (select_loop _ _ _ _) as [[ch cl] ci].
  destruct (use_one_vertex (self st)); [destruct (ci >? -1)%Z|];
    injection H as _ <-; reflexivity.
Qed.

Lemma select_required_verts_fuel_frame fuel :
  forall left vert rad level st vs st',
    select_required_verts_fuel fuel left vert rad level st = Ok (vs, st') ->
    st' = st.
Proof.
  induction fuel as [|fuel IH]; intros left vert rad level st vs st'; simpl;
    [discriminate|].
  unfold bind at 1, get_self at 1. cbv beta iota.
  destruct (level >? number_of_increments (self st))%Z.
  - intros H. now injection H as _ <-.
  - intros H. apply bind_inv in H. destruct H as (verts & st1 & Hs & H).
    assert (E : st1 = st).
    { unfold call in Hs. destruct left as [[|left']|]; try discriminate;
        now apply select_vertices_frame in Hs. }
    subst st1.
    destruct (Nat.eqb _ 0).
    + unfold call in H. destruct left as [[|left']|]; try discriminate;
        eapply IH; eauto.
    + now injection H as _ <-.
Qed.

Lemma select_required_verts_frame vert rad level st vs st' :
  select_required_verts vert rad level st = Ok (vs, st') -> st' = st.
Proof.
  unfold select_required_verts, bind, get_self.
  apply select_required_verts_fuel_frame.
Qed.

(** With room for the retries the search runs as on an interpreter whose
    limit is out of reach. *)
Lemma select_required_verts_fuel_fit vert :
  forall fuel left rad level st,
    enough left (Z.to_nat (number_of_increments (self st) + 1 - level)) ->
    select_required_verts_fuel fuel left vert rad level st
    = select_required_verts_fuel fuel None vert rad level st.
Proof.
  induction fuel as [|fuel IH]; intros left rad level st Hfit; [reflexivity|].
  simpl. unfold bind at 1 3, get_self at 1 2. cbv beta iota.
  destruct (level >? number_of_increments (self st))%Z eqn:Hlv; [reflexivity|].
  assert (Hle : (level <= number_of_increments (self st))%Z).
  { destruct (Z.gtb_spec level (number_of_increments (self st))); [discriminate|lia]. }
  destruct left as [[|left']|]; [simpl in Hfit; lia| |reflexivity].
  unfold call, bind.
  destruct (select_vertices vert rad st) as [[verts st1]| |] eqn:Es;
    [|reflexivity|reflexivity].
  apply select_vertices_frame in Es. subst st1.
  destruct (Nat.eqb _ 0); [|reflexivity].
  apply IH. simpl in Hfit |- *. lia.
Qed.

Lemma select_required_verts_fit (PY : Interpreter) vert rad level st :
  retries_fit (PY := PY) (self st) level ->
  select_required_verts (PY := PY) vert rad level st
  = select_required_verts (PY := unlimited) vert rad level st.
Proof.
  intros Hfit. unfold select_required_verts, bind, get_self.
  cbn [frames unlimited]. now apply select_required_verts_fuel_fit.
Qed.

(** Without room for the retries a search that finds nothing raises
    RecursionError. *)
Lemma select_required_verts_fuel_deep st mwi basis vert :
  src_mwi (self st) = Some mwi ->
  src_basis st = Some basis ->
  forall fuel left level rad,
    Z.to_nat (number_of_increments (self st) + 1 - level) < fuel ->
    left < Z.to_nat (number_of_increments (self st) + 1 - level) ->
    retry_result (use_one_vertex (self st)) mwi basis
      (increment_radius (self st)) vert (S left) rad = [] ->
    select_required_verts_fuel fuel (Some left) vert rad level st
    = Raise RecursionError.
Proof.
  intros Hm Hb. induction fuel as [|fuel IH]; intros left level rad Hf Hl He;
    [lia|].
  simpl. unfold bind at 1, get_self at 1. cbv beta iota.
  destruct (level >? number_of_increments (self st))%Z eqn:Hlv.
  { apply Z.gtb_lt in Hlv. lia. }
  assert (Hle : (level <= number_of_increments (self st))%Z).
  { destruct (Z.gtb_spec level (number_of_increments (self st))); [discriminate|lia]. }
  destruct left as [|left']; [reflexivity|].
  unfold call.
  rewrite (bind_Ok _ _ _ _ _ (select_vertices_eq st mwi basis vert rad Hm Hb)).
  simpl retry_result in He.
  destruct (Nat.eqb _ 0) eqn:E0.
  - apply IH; [lia|lia|exact He].
  - destruct (selection _ _ _ _ _); [discriminate|discriminate].
Qed.

(** C7 (as amended): when the source snapshot exists,
    [number_of_increments >= 0] and the interpreter has room for the
    [number_of_increments + 1] calls the retries nest,
    [select_required_verts] returns (it neither raises nor runs on) and
    leaves the state as it is; it returns the first non-empty selection
    among the radii [rad], [rad + increment_radius], ..., the initial
    attempt followed by at most [number_of_increments] retries, and the
    empty list when all of these selections are empty.  Without that room a
    search whose selections are all empty raises RecursionError. *)
Theorem select_required_verts_retries
    (PY : Interpreter) (st : State) (mwi : Matrix) (basis : list Vector)
    (vert : Vector) (rad : Scalar) :
  src_mwi (self st) = Some mwi ->
  src_basis st = Some basis ->
  (0 <= number_of_increments (self st))%Z ->
  let attempt j :=
    select_vertices vert (radius_after (increment_radius (self st)) j rad) st in
  (retries_fit (PY := PY) (self st) 0 ->
   (exists vs, select_required_verts (PY := PY) vert rad 0 st = Ok (vs, st)) /\
   (forall j vs,
      (Z.of_nat j <= number_of_increments (self st))%Z ->
      (forall i, i < j -> attempt i = Ok ([], st)) ->
      attempt j = Ok (vs, st) -> vs <> [] ->
      select_required_verts (PY := PY) vert rad 0 st = Ok (vs, st)) /\
   ((forall j, (Z.of_nat j <= number_of_increments (self st))%Z ->
               attempt j = Ok ([], st)) ->
    select_required_verts (PY := PY) vert rad 0 st = Ok ([], st))) /\
  (~ retries_fit (PY := PY) (self st) 0 ->
   (forall j, (Z.of_nat j <= number_of_increments (self st))%Z ->
              attempt j = Ok ([], st)) ->
   select_required_verts (PY := PY) vert rad 0 st = Raise RecursionError).
Proof.
  intros Hm Hb HN attempt.
  assert (Hat : forall j, attempt j
            = Ok (selection (use_one_vertex (self st)) mwi basis vert
                    (radius_after (increment_radius (self st)) j rad), st)).
  { intros j. apply select_vertices_eq; auto. }
  split.
  - intros Hfit. rewrite (select_required_verts_fit PY vert rad 0 st Hfit).
    rewrite (select_required_verts_eq st mwi basis vert rad 0 Hm Hb).
    split; [eauto|]. split.
    + intros j vs Hj Hbefore Hj' Hne.
      rewrite Hat in Hj'. injection Hj' as <-.
      f_equal. f_equal. apply retry_result_first; [lia| |exact Hne].
      intros i Hi. specialize (Hbefore i Hi). rewrite Hat in Hbefore.
      now injection Hbefore.
    + intros Hall. f_equal. f_equal. apply retry_result_none.
      intros i Hi.
      assert (Hi' : (Z.of_nat i <= number_of_increments (self st))%Z) by lia.
      specialize (Hall i Hi'). rewrite Hat in Hall. now injection Hall.
  - intros Hno Hall. unfold retries_fit, enough in Hno.
    unfold select_required_verts, bind, get_self.
    destruct (@frames PY) as [left|]; [|tauto].
    apply (select_required_verts_fuel_deep st mwi basis vert Hm Hb); [lia|lia|].
    apply retry_result_none. intros i Hi.
    assert (Hi' : (Z.of_nat i <= number_of_increments (self st))%Z) by lia.
    specialize (Hall i Hi'). rewrite Hat in Hall. now injection Hall.
Qed.

(** C9: the correspondence search returns the same result in any two states
    with the same source snapshot (basis positions and inverse world
    matrix) and the same settings, whatever the rest of the states; and a
    search that returns leaves the whole state, hence the data of both
    meshes, as it was. *)
Theorem search_deterministic_and_pure
    (st1 st2 : State) (mwi : Matrix) (basis : list Vector) :
  src_mwi (self st1) = Some mwi -> src_mwi (self st2) = Some mwi ->
  src_basis st1 = Some basis -> src_basis st2 = Some basis ->
  use_one_vertex (self st1) = use_one_vertex (self st2) ->
  increment_radius (self st1) = increment_radius (self st2) ->
  number_of_increments (self st1) = number_of_increments (self st2) ->
  forall (vert : Vector) (rad : Scalar) (level : Z),
    (exists vs, select_vertices vert rad st1 = Ok (vs, st1)
                /\ select_vertices vert rad st2 = Ok (vs, st2)) /\
    (exists vs, select_required_verts vert rad level st1 = Ok (vs, st1)
                /\ select_required_verts vert rad level st2 = Ok (vs, st2)) /\
    (forall st vs st', select_vertices vert rad st = Ok (vs, st') -> st' = st) /\
    (forall st vs st',
        select_required_verts vert rad level st = Ok (vs, st') -> st' = st).
Proof.
  intros Hm1 Hm2 Hb1 Hb2 Hu Hi Hn vert rad level.
  split; [|split; [|split]].
  - rewrite (select_vertices_eq st1 mwi basis vert rad Hm1 Hb1).
    rewrite (select_vertices_eq st2 mwi basis vert rad Hm2 Hb2).
    rewrite Hu. eauto.
  - rewrite (select_required_verts_eq st1 mwi basis vert rad level Hm1 Hb1).
    rewrite (select_required_verts_eq st2 mwi basis vert rad level Hm2 Hb2).
    rewrite Hu, Hi, Hn. eauto.
  - intros st vs st'. apply select_vertices_frame.
  - intros st vs st'. apply select_required_verts_frame.
Qed.

End SearchTheorems.

Section Blend.

Context {MU : Mathutils}.

(** ** Lists updated in place *)

Lemma list_set_length {A} (l : list A) i x :
  List.length (list_set l i x) = List.length l.
Proof.
  revert i. induction l as [|h t IH]; intros [|i]; simpl; auto.
Qed.

Lemma nth_error_list_set_same {A} (l : list A) i x :
  i < List.length l -> nth_error (list_set l i x) i = Some x.
Proof.
  revert i. induction l as [|h t IH]; intros [|i]; simpl; intros H;
    try lia; auto. apply IH. lia.
Qed.

Lemma nth_error_list_set_other {A} (l : list A) i j x :
  i <> j -> nth_error (list_set l i x) j = nth_error l j.
Proof.
  revert i j. induction l as [|h t IH]; intros [|i] [|j] H; simpl; auto;
    try congruence.
Qed.

Lemma list_set_map {A B} (f : A -> B) (l : list A) i x y :
  nth_error l i = Some y -> f x = f y ->
  map f (list_set l i x) = map f l.
Proof.
  revert i. induction l as [|h t IH]; intros [|i]; simpl; intros H E;
    try discriminate.
  - injection H as ->. now rewrite E.
  - f_equal. now apply IH.
Qed.

(** ** [store_position] and the views *)

Lemma position_store_same b mesh k j p old :
  position b mesh k j = Some old ->
  position (store_position b mesh k j p) mesh k j = Some p.
Proof.
  unfold position, store_position, mesh_key_blocks.
  destruct (nth_error (meshes b) mesh) as [m|] eqn:Hm; [|discriminate].
  destruct (shape_keys m) as [key|]; [|discriminate]. simpl.
  destruct (nth_error (key_blocks key) k) as [sk|] eqn:Hsk; [|discriminate].
  intros Hold. simpl.
  rewrite nth_error_list_set_same by (apply nth_error_Some; congruence).
  simpl.
  rewrite nth_error_list_set_same by (apply nth_error_Some; congruence).
  simpl.
  apply nth_error_list_set_same. apply nth_error_Some. congruence.
Qed.

Lemma mesh_key_blocks_store_other b mesh k j p mesh' :
  mesh' <> mesh ->
  mesh_key_blocks (store_position b mesh k j p) mesh' = mesh_key_blocks b mesh'.
Proof.
  intros Hne. unfold store_position, mesh_key_blocks.
  destruct (nth_error (meshes b) mesh) as [m|] eqn:Hm; [|reflexivity].
  destruct (shape_keys m) as [key|]; [|reflexivity].
  destruct (nth_error (key_blocks key) k) as [sk|]; [|reflexivity].
  simpl. rewrite nth_error_list_set_other by congruence. reflexivity.
Qed.

Lemma mesh_key_blocks_store_same b mesh k j p kbs sk :
  mesh_key_blocks b mesh = Some kbs ->
  nth_error kbs k = Some sk ->
  mesh_key_blocks (store_position b mesh k j p) mesh
  = Some (list_set kbs k (mkShapeKey (name sk) (list_set (data sk) j p))).
Proof.
  unfold store_position, mesh_key_blocks.
  destruct (nth_error (meshes b) mesh) as [m|] eqn:Hm; [|discriminate].
  destruct (shape_keys m) as [key|]; [|discriminate]. simpl.
  intros H. injection H as <-. intros Hsk. rewrite Hsk. simpl.
  rewrite nth_error_list_set_same by (apply nth_error_Some; congruence).
  reflexivity.
Qed.

Lemma store_position_no_key b mesh k j p :
  mesh_key_blocks b mesh = None -> store_position b mesh k j p = b.
Proof.
  unfold store_position, mesh_key_blocks.
  destruct (nth_error (meshes b) mesh) as [m|]; [|reflexivity].
  destruct (shape_keys m) as [key|]; [discriminate|reflexivity].
Qed.

Lemma store_position_no_block b mesh k j p kbs :
  mesh_key_blocks b mesh = Some kbs -> nth_error kbs k = None ->
  store_position b mesh k j p = b.
Proof.
  unfold store_position, mesh_key_blocks.
  destruct (nth_error (meshes b) mesh) as [m|]; [|discriminate].
  destruct (shape_keys m) as [key|]; [|discriminate]. simpl.
  intros H. injection H as <-. intros ->. reflexivity.
Qed.

Lemma position_store_other b mesh k j p mesh' k' j' :
  mesh' <> mesh \/ k' <> k \/ j' <> j ->
  position (store_position b mesh k j p) mesh' k' j' = position b mesh' k' j'.
Proof.
  intros Hne. destruct (Nat.eq_dec mesh' mesh) as [->|Hm].
  - destruct (mesh_key_blocks b mesh) as [kbs|] eqn:Hk.
    + destruct (nth_error kbs k) as [sk|] eqn:Hsk.
      * unfold position. rewrite Hk.
        rewrite (mesh_key_blocks_store_same b mesh k j p kbs sk Hk Hsk).
        destruct (Nat.eq_dec k' k) as [->|Hk'].
        -- rewrite nth_error_list_set_same by (apply nth_error_Some; congruence).
           rewrite Hsk. simpl. apply nth_error_list_set_other.
           destruct Hne as [H|[H|H]]; congruence.
        -- now rewrite nth_error_list_set_other by congruence.
      * now rewrite (store_position_no_block b mesh k j p kbs Hk Hsk).
    + now rewrite (store_position_no_key b mesh k j p Hk).
  - unfold position. now rewrite mesh_key_blocks_store_other.
Qed.

(** ** [set_vertex_position] *)

Lemma set_vertex_position_eq st dob old p :
  dest_mesh (self st) = Some dob ->
  position (bpy st) (ob_data dob) (dest_shape_key_index (self st))
           (current_vertex_index (self st)) = Some old ->
  set_vertex_position p st
  = Ok (tt, mkState (self st)
              (store_position (bpy st) (ob_data dob)
                 (dest_shape_key_index (self st))
                 (current_vertex_index (self st)) p)).
Proof.
  intros Hd Hp. unfold position, mesh_key_blocks in Hp.
  unfold set_vertex_position, store_position.
  unfold bind at 1, get_self at 1. cbv beta iota. rewrite Hd.
  unfold attr at 1, bind at 1, ret at 1. cbv beta iota.
  unfold deref, bind at 1, get_bpy at 1. cbv beta iota.
  unfold bind at 1.
  destruct (nth_error (meshes (bpy st)) (ob_data dob)) as [m|]; [|discriminate].
  unfold ret at 1. cbv beta iota.
  destruct (shape_keys m) as [key|]; [|discriminate]. simpl in Hp.
  unfold attr, bind at 1, ret at 1. cbv beta iota.
  unfold index, bind at 1.
  destruct (nth_error (key_blocks key) (dest_shape_key_index (self st)))
    as [sk|]; [|discriminate].
  unfold ret at 1. cbv beta iota. unfold bind at 1. rewrite Hp.
  reflexivity.
Qed.

(** ** The sums of [update_vertex] *)

Lemma sum_co_eq st skbs ki sk :
  object_key_blocks (bpy st) (src_mesh (self st)) = Some skbs ->
  nth_error skbs ki = Some sk ->
  forall vs ps acc,
    Forall2 (fun v p => nth_error (data sk) v = Some p) vs ps ->
    sum_co ki vs acc st = Ok (fold_left vadd ps acc, st).
Proof.
  intros Hk Hsk vs ps acc H. revert acc.
  induction H as [|v p vs ps Hv _ IH]; intros acc; simpl; [reflexivity|].
  unfold src_co. unfold bind at 1. unfold bind at 1, get_self at 1.
  cbv beta iota.
  rewrite (bind_Ok _ _ _ _ _ (key_blocks_of_view _ _ _ Hk)).
  unfold index, bind at 1. rewrite Hsk. unfold ret at 1. cbv beta iota.
  rewrite Hv. unfold ret at 1. cbv beta iota. apply IH.
Qed.

(** ** [update_vertex], case by case *)

Lemma update_vertex_past_end st :
  total_vertices (self st) <= current_vertex_index (self st) ->
  update_vertex st = Ok (false, st).
Proof.
  intros H. unfold update_vertex, bind, get_self.
  apply Nat.leb_le in H. rewrite H. reflexivity.
Qed.

Lemma update_vertex_unmatched st st1 :
  current_vertex_index (self st) < total_vertices (self st) ->
  cache_correspondence st = Ok (tt, st1) ->
  src_chosen_vertices (self st1) = [] ->
  update_vertex st
  = Ok (negb (skip_vertices_with_no_pair (self st1)),
        mkState (set_current_vertex_index (current_vertex_index (self st1) + 1)
                   (set_message (unmatched_message (self st1)) (self st1)))
                (bpy st1)).
Proof.
  intros Hlt Hc He. unfold update_vertex.
  unfold bind at 1, get_self at 1. cbv beta iota.
  replace (total_vertices (self st) <=? current_vertex_index (self st))%nat
    with false by (symmetry; apply Nat.leb_gt; exact Hlt).
  rewrite (bind_Ok _ _ _ _ _ Hc).
  unfold bind at 1, get_self at 1. cbv beta iota. rewrite He. simpl.
  unfold bind, assign. simpl.
  destruct (skip_vertices_with_no_pair (self st1)); reflexivity.
Qed.

Lemma update_vertex_blend st st1 skbs kb kt ps0 ps1 cv dob old :
  current_vertex_index (self st) < total_vertices (self st) ->
  cache_correspondence st = Ok (tt, st1) ->
  src_chosen_vertices (self st1) <> [] ->
  object_key_blocks (bpy st1) (src_mesh (self st1)) = Some skbs ->
  nth_error skbs 0 = Some kb ->
  nth_error skbs (src_shape_key_index (self st1)) = Some kt ->
  Forall2 (fun v p => nth_error (data kb) v = Some p)
          (src_chosen_vertices (self st1)) ps0 ->
  Forall2 (fun v p => nth_error (data kt) v = Some p)
          (src_chosen_vertices (self st1)) ps1 ->
  current_vertex (self st1) = Some cv ->
  dest_mesh (self st1) = Some dob ->
  position (bpy st1) (ob_data dob) (dest_shape_key_index (self st1))
           (current_vertex_index (self st1)) = Some old ->
  let n := List.length (src_chosen_vertices (self st1)) in
  update_vertex st
  = Ok (false,
        mkState (self st1)
          (store_position (bpy st1) (ob_data dob)
             (dest_shape_key_index (self st1))
             (current_vertex_index (self st1))
             (vadd (vsub (vdiv (fold_left vadd ps1 Vector_zero) n)
                         (vdiv (fold_left vadd ps0 Vector_zero) n)) cv))).
Proof.
  intros Hlt Hc Hne Hk Hkb Hkt H0 H1 Hcv Hd Hp n. unfold update_vertex.
  unfold bind at 1, get_self at 1. cbv beta iota.
  replace (total_vertices (self st) <=? current_vertex_index (self st))%nat
    with false by (symmetry; apply Nat.leb_gt; exact Hlt).
  rewrite (bind_Ok _ _ _ _ _ Hc).
  unfold bind at 1, get_self at 1. cbv beta iota.
  replace (Nat.eqb (List.length (src_chosen_vertices (self st1))) 0) with false
    by (destruct (src_chosen_vertices (self st1)); [congruence|reflexivity]).
  unfold blend. unfold bind at 1, get_self at 1. cbv beta iota.
  rewrite (bind_Ok _ _ _ _ _ (sum_co_eq st1 skbs 0 kb Hk Hkb _ _ _ H0)).
  rewrite (bind_Ok _ _ _ _ _
             (sum_co_eq st1 skbs _ kt Hk Hkt _ _ _ H1)).
  rewrite Hcv.
  rewrite (bind_Ok _ _ _ _ _ (set_vertex_position_eq st1 dob old _ Hd Hp)).
  reflexivity.
Qed.

(** C6: when the matched set (the cached correspondence) is the single
    source index [i], [update_vertex] writes
    [current_vertex + (target[i] - basis[i])] into the destination slot,
    where [basis] is the first key block of the source and [target] the key
    block being transferred.  Exact vector arithmetic is assumed. *)
Theorem update_vertex_single_match
    (EV : ExactVectors MU) (st st1 : State) (i : nat)
    (skbs : list ShapeKey) (kb kt : ShapeKey) (b t cv old : Vector)
    (dob : Object) :
  current_vertex_index (self st) < total_vertices (self st) ->
  cache_correspondence st = Ok (tt, st1) ->
  src_chosen_vertices (self st1) = [i] ->
  object_key_blocks (bpy st1) (src_mesh (self st1)) = Some skbs ->
  nth_error skbs 0 = Some kb ->
  nth_error (data kb) i = Some b ->
  nth_error skbs (src_shape_key_index (self st1)) = Some kt ->
  nth_error (data kt) i = Some t ->
  current_vertex (self st1) = Some cv ->
  dest_mesh (self st1) = Some dob ->
  position (bpy st1) (ob_data dob) (dest_shape_key_index (self st1))
           (current_vertex_index (self st1)) = Some old ->
  exists st2,
    update_vertex st = Ok (false, st2) /\
    position (bpy st2) (ob_data dob) (dest_shape_key_index (self st1))
             (current_vertex_index (self st1))
    = Some (vadd cv (vsub t b)).
Proof.
  intros Hlt Hc Hvs Hk Hkb Hb Hkt Ht Hcv Hd Hp.
  eexists. split.
  - eapply (update_vertex_blend st st1 skbs kb kt [b] [t]); eauto.
    + rewrite Hvs. discriminate.
    + rewrite Hvs. constructor; auto.
    + rewrite Hvs. constructor; auto.
  - cbn [self bpy]. rewrite Hvs. simpl.
    rewrite !vadd_zero_l, !vdiv_one, vadd_comm.
    eapply position_store_same; eauto.
Qed.

Lemma cache_correspondence_cached st :
  do_once_per_vertex (self st) = false ->
  cache_correspondence st = Ok (tt, st).
Proof.
  intros H. unfold cache_correspondence, bind, get_self. now rewrite H.
Qed.

(** C8: for the two-element matched sets [[a; b]] and [[b; a]],
    [update_vertex] blends from [avg_basis = (basis[a] + basis[b]) / 2] and
    [avg_target = (target[a] + target[b]) / 2], and leaves the same scene
    whichever of the two orders the matched sequence has.  Exact vector
    arithmetic is assumed. *)
Theorem update_vertex_pair_average
    (EV : ExactVectors MU) (st : State) (a b : nat)
    (skbs : list ShapeKey) (kb kt : ShapeKey) (ba bb ta tb cv old : Vector)
    (dob : Object) :
  do_once_per_vertex (self st) = false ->
  current_vertex_index (self st) < total_vertices (self st) ->
  src_chosen_vertices (self st) = [a; b] ->
  object_key_blocks (bpy st) (src_mesh (self st)) = Some skbs ->
  nth_error skbs 0 = Some kb ->
  nth_error (data kb) a = Some ba ->
  nth_error (data kb) b = Some bb ->
  nth_error skbs (src_shape_key_index (self st)) = Some kt ->
  nth_error (data kt) a = Some ta ->
  nth_error (data kt) b = Some tb ->
  current_vertex (self st) = Some cv ->
  dest_mesh (self st) = Some dob ->
  position (bpy st) (ob_data dob) (dest_shape_key_index (self st))
           (current_vertex_index (self st)) = Some old ->
  let swapped := mkState (set_src_chosen_vertices [b; a] (self st)) (bpy st) in
  let avg_basis := vdiv (vadd ba bb) 2 in
  let avg_target := vdiv (vadd ta tb) 2 in
  exists st2 st2',
    update_vertex st = Ok (false, st2) /\
    update_vertex swapped = Ok (false, st2') /\
    position (bpy st2) (ob_data dob) (dest_shape_key_index (self st))
             (current_vertex_index (self st))
    = Some (vadd (vsub avg_target avg_basis) cv) /\
    bpy st2' = bpy st2.
Proof.
  intros Hdo Hlt Hvs Hk Hkb Hba Hbb Hkt Hta Htb Hcv Hd Hp swapped avg_basis avg_target.
  do 2 eexists. split; [|split; [|split]].
  - eapply (update_vertex_blend st st skbs kb kt [ba; bb] [ta; tb]); eauto.
    + now apply cache_correspondence_cached.
    + rewrite Hvs. discriminate.
    + rewrite Hvs. repeat constructor; auto.
    + rewrite Hvs. repeat constructor; auto.
  - eapply (update_vertex_blend swapped swapped skbs kb kt [bb; ba] [tb; ta]);
      subst swapped; cbn [self bpy]; eauto.
    + now apply cache_correspondence_cached.
    + simpl. discriminate.
    + simpl. repeat constructor; auto.
    + simpl. repeat constructor; auto.
  - cbn [self bpy]. rewrite Hvs. simpl. rewrite !vadd_zero_l.
    eapply position_store_same; eauto.
  - subst swapped. cbn [self bpy]. rewrite Hvs. simpl.
    rewrite !vadd_zero_l, (vadd_comm tb ta), (vadd_comm bb ba). reflexivity.
Qed.

End Blend.

Section Provisioning.

Context {MU : Mathutils}.

(** ** The inclusion policy on names *)

Lemma mem_In k l : mem k l = true <-> In k l.
Proof.
  unfold mem. rewrite existsb_exists. split.
  - intros (x & Hx & E). apply String.eqb_eq in E. now subst.
  - intros H. exists k. split; [exact H|apply String.eqb_refl].
Qed.

Lemma mem_false k l : mem k l = false <-> ~ In k l.
Proof.
  rewrite <- mem_In. destruct (mem k l); split; congruence.
Qed.

Section Policy.

Variables (mode : ListUse) (excluded default_excluded : list string).

Let prov := provision mode excluded default_excluded.

Lemma provision_not_on_dest src_names :
  forall dest_names n, In n (prov src_names dest_names) -> ~ In n dest_names.
Proof.
  unfold prov.
  induction src_names as [|nm rest IH]; intros dn n; simpl; [tauto|].
  destruct (mem nm dn) eqn:Hm; [apply IH|].
  destruct (selected _ _ _ nm); [|apply IH].
  intros [<-|H]; [now apply mem_false|].
  apply IH in H. intros Hn. apply H. apply in_or_app. auto.
Qed.

Lemma provision_NoDup src_names :
  forall dest_names, NoDup (prov src_names dest_names).
Proof.
  unfold prov.
  induction src_names as [|nm rest IH]; intros dn; simpl; [constructor|].
  destruct (mem nm dn); [apply IH|].
  destruct (selected _ _ _ nm); [|apply IH].
  constructor; [|apply IH].
  intros H. apply provision_not_on_dest in H. apply H.
  apply in_or_app. simpl. auto.
Qed.

Lemma provision_selected src_names :
  forall dest_names n,
    In n (prov src_names dest_names) ->
    In n src_names /\ selected mode excluded default_excluded n = true.
Proof.
  unfold prov.
  induction src_names as [|nm rest IH]; intros dn n; simpl; [tauto|].
  destruct (mem nm dn); [intros H; apply IH in H; tauto|].
  destruct (selected _ _ _ nm) eqn:Hs; [|intros H; apply IH in H; tauto].
  intros [<-|H]; [auto|]. apply IH in H. tauto.
Qed.

Lemma provision_complete src_names :
  forall dest_names n,
    In n src_names -> ~ In n dest_names ->
    selected mode excluded default_excluded n = true ->
    In n (prov src_names dest_names).
Proof.
  unfold prov.
  induction src_names as [|nm rest IH]; intros dn n; simpl; [tauto|].
  intros Hin Hnd Hsel.
  destruct (String.eqb_spec nm n) as [->|Hne].
  - apply mem_false in Hnd. rewrite Hnd, Hsel. simpl. auto.
  - destruct Hin as [?|Hin]; [congruence|].
    destruct (mem nm dn); [now apply IH|].
    destruct (selected _ _ _ nm); [|now apply IH].
    right. apply IH; auto.
    intros H. apply in_app_or in H. simpl in H. destruct H as [?|[?|[]]]; auto.
Qed.

End Policy.

(** ** [shape_key_add] on the scene *)

Lemma shape_key_add_eq ob nm st m :
  nth_error (meshes (bpy st)) (ob_data ob) = Some m ->
  shape_key_add ob nm st
  = Ok (tt, mkState (self st) (add_key (bpy st) (ob_data ob) nm)).
Proof.
  intros Hm. unfold shape_key_add, add_key, deref, bind, get_bpy, put_bpy, ret.
  rewrite Hm. reflexivity.
Qed.

Lemma add_and_list_eq nm l st dob m :
  dest_mesh (self st) = Some dob ->
  nth_error (meshes (bpy st)) (ob_data dob) = Some m ->
  add_and_list nm l st
  = Ok (l ++ [nm], mkState (self st) (add_key (bpy st) (ob_data dob) nm)).
Proof.
  intros Hd Hm. unfold add_and_list.
  unfold bind at 1, get_self at 1. cbv beta iota. rewrite Hd.
  unfold attr, bind at 1, ret at 1. cbv beta iota.
  rewrite (bind_Ok _ _ _ _ _ (shape_key_add_eq dob nm st m Hm)).
  reflexivity.
Qed.

Lemma add_key_mesh b mesh nm m kbs :
  nth_error (meshes b) mesh = Some m ->
  shape_keys m = Some (mkKey kbs) ->
  nth_error (meshes (add_key b mesh nm)) mesh
  = Some (mkMesh (vertices m)
            (Some (mkKey (kbs ++ [mkShapeKey nm
                                    match kbs with
                                    | k0 :: _ => data k0
                                    | [] => vertices m
                                    end])))).
Proof.
  intros Hm Hk. unfold add_key. rewrite Hm, Hk. simpl.
  apply nth_error_list_set_same. apply nth_error_Some. congruence.
Qed.

Lemma add_key_other b mesh nm mesh' :
  mesh' <> mesh ->
  nth_error (meshes (add_key b mesh nm)) mesh' = nth_error (meshes b) mesh'.
Proof.
  intros Hne. unfold add_key.
  destruct (nth_error (meshes b) mesh); [|reflexivity].
  simpl. apply nth_error_list_set_other. congruence.
Qed.

Lemma add_key_objects b mesh nm :
  objects (add_key b mesh nm) = objects b
  /\ listUse (add_key b mesh nm) = listUse b.
Proof.
  unfold add_key. destruct (nth_error (meshes b) mesh); auto.
Qed.

Lemma existsb_names nm (kbs : list ShapeKey) :
  existsb (fun sk => String.eqb nm (name sk)) kbs = mem nm (map name kbs).
Proof.
  unfold mem. induction kbs as [|k kbs IH]; simpl; [reflexivity|].
  now rewrite IH.
Qed.

(** ** The loop of lines 191-209 *)

Lemma add_missing_shape_keys_eq src_names :
  forall st wl0 dob dm dkbs,
    dest_mesh (self st) = Some dob ->
    nth_error (meshes (bpy st)) (ob_data dob) = Some dm ->
    shape_keys dm = Some (mkKey dkbs) ->
    exists extra st',
      add_missing_shape_keys src_names wl0 st = Ok (wl0 ++ map name extra, st')
      /\ map name extra
         = provision (listUse (bpy st)) (excluded_shape_keys (self st))
             (default_excluded_keys (self st)) src_names (map name dkbs)
      /\ self st' = self st
      /\ objects (bpy st') = objects (bpy st)
      /\ listUse (bpy st') = listUse (bpy st)
      /\ (forall mesh', mesh' <> ob_data dob ->
            nth_error (meshes (bpy st')) mesh' = nth_error (meshes (bpy st)) mesh')
      /\ nth_error (meshes (bpy st')) (ob_data dob)
         = Some (mkMesh (vertices dm) (Some (mkKey (dkbs ++ extra))))
      /\ (forall k0 rest, dkbs = k0 :: rest ->
            Forall (fun k => data k = data k0) extra).
Proof.
  induction src_names as [|nm rest IH]; intros st wl0 dob dm dkbs Hd Hm Hk.
  - exists [], st. simpl. rewrite !app_nil_r.
    repeat split; auto.
    rewrite Hm. destruct dm as [vs sk]. simpl in Hk |- *. now subst sk.
  - simpl. unfold bind at 1, get_self at 1. cbv beta iota.
    assert (Hv : object_key_blocks (bpy st) (dest_mesh (self st)) = Some dkbs).
    { rewrite Hd. unfold object_key_blocks, mesh_key_blocks. rewrite Hm, Hk.
      reflexivity. }
    rewrite (bind_Ok _ _ _ _ _ (key_blocks_of_view _ _ _ Hv)).
    rewrite existsb_names.
    destruct (mem nm (map name dkbs)) eqn:Hmem; simpl negb; cbv iota.
    + unfold bind at 1, ret at 1. cbv beta iota.
      apply IH; auto.
    + assert (Hstep :
        exists l st1,
          (b <- get_bpy ;;
           l1 <- (if ListUse_eqb (listUse b) include
                     && mem nm (excluded_shape_keys (self st))
                     && negb (mem nm (default_excluded_keys (self st)))
                  then add_and_list nm wl0 else ret wl0) ;;
           b0 <- get_bpy ;;
           if ListUse_eqb (listUse b0) exclude
              && negb (mem nm (excluded_shape_keys (self st)))
              && negb (mem nm (default_excluded_keys (self st)))
           then add_and_list nm l1
           else if ListUse_eqb (listUse b0) all
                   && negb (mem nm (default_excluded_keys (self st)))
           then add_and_list nm l1 else ret l1) st = Ok (l, st1)
          /\ ((selected (listUse (bpy st)) (excluded_shape_keys (self st))
                 (default_excluded_keys (self st)) nm = true
               /\ l = wl0 ++ [nm]
               /\ st1 = mkState (self st) (add_key (bpy st) (ob_data dob) nm))
              \/ (selected (listUse (bpy st)) (excluded_shape_keys (self st))
                    (default_excluded_keys (self st)) nm = false
                  /\ l = wl0 /\ st1 = st))).
      { unfold bind at 1, get_bpy at 1. cbv beta iota. unfold selected.
        destruct (listUse (bpy st)) eqn:Hlu; cbn [ListUse_eqb andb].
        - unfold bind at 1, ret at 1. cbv beta iota.
          unfold bind at 1, get_bpy at 1. cbv beta iota. rewrite Hlu.
          cbn [ListUse_eqb andb].
          destruct (negb (mem nm (default_excluded_keys (self st)))).
          + do 2 eexists. split; [eapply add_and_list_eq; eauto|]. left. auto.
          + do 2 eexists. split; [reflexivity|]. right.
            destruct st; auto.
        - destruct (mem nm (excluded_shape_keys (self st))
                    && negb (mem nm (default_excluded_keys (self st)))).
          + rewrite (bind_Ok _ _ _ _ _ (add_and_list_eq nm wl0 st dob dm Hd Hm)).
            unfold bind at 1, get_bpy at 1. cbv beta iota. cbn [bpy].
            rewrite (proj2 (add_key_objects _ _ _)), Hlu. simpl.
            do 2 eexists. split; [reflexivity|]. left. auto.
          + unfold bind at 1, ret at 1. cbv beta iota.
            unfold bind at 1, get_bpy at 1. cbv beta iota. rewrite Hlu. simpl.
            do 2 eexists. split; [reflexivity|]. right. destruct st; auto.
        - unfold bind at 1, ret at 1. cbv beta iota.
          unfold bind at 1, get_bpy at 1. cbv beta iota. rewrite Hlu.
          cbn [ListUse_eqb andb].
          destruct (negb (mem nm (excluded_shape_keys (self st)))
                    && negb (mem nm (default_excluded_keys (self st)))).
          + do 2 eexists. split; [eapply add_and_list_eq; eauto|]. left. auto.
          + do 2 eexists. split; [reflexivity|]. right. destruct st; auto. }
      destruct Hstep as (l & st1 & Hrun & Hcase).
      rewrite (bind_Ok _ _ _ _ _ Hrun).
      destruct Hcase as [(Hsel & -> & ->)|(Hsel & -> & ->)]; rewrite Hsel.
      * pose proof (add_key_mesh (bpy st) (ob_data dob) nm dm dkbs Hm Hk) as Hm'.
        set (k := mkShapeKey nm match dkbs with
                               | k0 :: _ => data k0
                               | [] => vertices dm
                               end) in *.
        destruct (IH (mkState (self st) (add_key (bpy st) (ob_data dob) nm))
                     (wl0 ++ [nm]) dob _ (dkbs ++ [k]) Hd Hm' eq_refl)
          as (extra & st' & Hr & Hp & Hs & Ho & Hl & Hother & Hmesh & Hdata).
        exists (k :: extra), st'. cbn [self bpy] in *.
        rewrite Hr. simpl map. rewrite <- app_assoc. simpl.
        split; [reflexivity|].
        rewrite map_app in Hp. simpl in Hp.
        rewrite (proj2 (add_key_objects _ _ _)) in Hp.
        split; [now rewrite Hp|].
        split; [exact Hs|].
        split; [now rewrite Ho, (proj1 (add_key_objects _ _ _))|].
        split; [now rewrite Hl, (proj2 (add_key_objects _ _ _))|].
        split; [intros mesh' Hne; rewrite Hother by exact Hne;
                now apply add_key_other|].
        split; [now rewrite Hmesh, <- app_assoc|].
        intros k0 rest' ->. constructor; [reflexivity|].
        apply (Hdata k0 (rest' ++ [k])). reflexivity.
      * destruct (IH st wl0 dob dm dkbs Hd Hm Hk)
          as (extra & st' & Hr & Hp & Hrest).
        exists extra, st'. rewrite Hr. split; [reflexivity|].
        split; [exact Hp|exact Hrest].
Qed.

End Provisioning.

Section Prologue.

Context {MU : Mathutils}.

Lemma transfer_prologue_eq st src dest sob dob mwi sm dm skbs :
  Ready st src dest sob dob mwi sm dm skbs ->
  exists extra st1,
    transfer_prologue src dest st = Ok (Some (map name extra), st1)
    /\ map name extra
       = provision (listUse (bpy st)) (excluded_shape_keys (self st))
           (default_excluded_keys (self st)) (map name skbs)
           (map name (initial_dest_blocks dm))
    /\ self st1 = prologue_self (self st) sob dob mwi dm
    /\ objects (bpy st1) = objects (bpy st)
    /\ listUse (bpy st1) = listUse (bpy st)
    /\ (forall mesh', mesh' <> dest ->
          nth_error (meshes (bpy st1)) mesh' = nth_error (meshes (bpy st)) mesh')
    /\ nth_error (meshes (bpy st1)) dest
       = Some (mkMesh (vertices dm)
                 (Some (mkKey (initial_dest_blocks dm ++ extra))))
    /\ (forall k0 rest, initial_dest_blocks dm = k0 :: rest ->
          Forall (fun k => data k = data k0) extra)
    /\ ob_data sob = src /\ ob_data dob = dest.
Proof.
  intros [Hs Hd Hi Hsm Hdm Hk].
  assert (Es : ob_data sob = src).
  { apply find_some in Hs. now apply Nat.eqb_eq. }
  assert (Ed : ob_data dob = dest).
  { apply find_some in Hd. now apply Nat.eqb_eq. }
  set (s1 := prologue_self (self st) sob dob mwi dm).
  (* the scene when the loop starts *)
  set (b1 := match shape_keys dm with
             | Some _ => bpy st
             | None => add_key (bpy st) dest "Basis"
             end).
  assert (Hb1m : nth_error (meshes b1) dest
                 = Some (mkMesh (vertices dm)
                           (Some (mkKey (initial_dest_blocks dm))))).
  { unfold b1, initial_dest_blocks.
    destruct dm as [vs [[kbs]|]]; simpl.
    - exact Hdm.
    - unfold add_key. rewrite Hdm. simpl.
      apply nth_error_list_set_same. apply nth_error_Some. congruence. }
  assert (Hb1o : objects b1 = objects (bpy st) /\ listUse b1 = listUse (bpy st)).
  { unfold b1. destruct (shape_keys dm); [auto|apply add_key_objects]. }
  assert (Hb1x : forall mesh', mesh' <> dest ->
                   nth_error (meshes b1) mesh' = nth_error (meshes (bpy st)) mesh').
  { intros mesh' Hne. unfold b1.
    destruct (shape_keys dm); [auto|now apply add_key_other]. }
  assert (Hb1s : mesh_key_blocks b1 src = Some skbs).
  { unfold mesh_key_blocks. destruct (Nat.eq_dec src dest) as [E|E].
    - subst dest. assert (dm = sm) by congruence. subst dm.
      unfold b1. rewrite Hk, Hsm, Hk. reflexivity.
    - rewrite Hb1x by exact E. rewrite Hsm, Hk. reflexivity. }
  destruct (add_missing_shape_keys_eq (map name skbs) (mkState s1 b1) [] dob
              (mkMesh (vertices dm) (Some (mkKey (initial_dest_blocks dm))))
              (initial_dest_blocks dm))
    as (extra & st1 & Hr & Hp & Hself & Ho & Hl & Hx & Hmesh & Hdata).
  { unfold s1, prologue_self. cbn [self].
    destruct (specify_end_vertex (self st)); reflexivity. }
  { cbn [bpy]. rewrite Ed. exact Hb1m. }
  { reflexivity. }
  exists extra, st1. cbn [self bpy vertices] in *. simpl app in Hr.
  rewrite Ed in *.
  assert (Hcfg : excluded_shape_keys s1 = excluded_shape_keys (self st)
                 /\ default_excluded_keys s1 = default_excluded_keys (self st)).
  { unfold s1, prologue_self.
    destruct (specify_end_vertex (self st)); auto. }
  destruct Hcfg as [He Hde]. rewrite He, Hde in Hp.
  destruct Hb1o as [Hb1o Hb1l]. rewrite Hb1l in Hp.
  split; [|split; [exact Hp|split; [exact Hself|split; [congruence|
          split; [congruence|split; [|split; [exact Hmesh|
          split; [exact Hdata|auto]]]]]]]].
  2: { intros mesh' Hne. rewrite Hx by exact Hne. now apply Hb1x. }
  (* the run *)
  unfold transfer_prologue, get_parent.
  unfold bind at 1. unfold bind at 1, get_bpy at 1, ret at 1. cbv beta iota.
  rewrite Hs.
  unfold bind at 1, assign at 1. cbv beta iota.
  unfold bind at 1. unfold bind at 1, get_bpy at 1, ret at 1.
  cbv beta iota. cbn [bpy self]. rewrite Hd.
  unfold bind at 1, assign at 1. cbv beta iota. cbn [bpy self].
  unfold bind at 1, attr at 1, ret at 1. cbv beta iota. rewrite Hi.
  unfold bind at 1, assign at 1. cbv beta iota. cbn [bpy self].
  unfold bind at 1, assign at 1. cbv beta iota. cbn [bpy self].
  unfold bind at 1, get_self at 1. cbv beta iota. cbn [bpy self].
  cbn [specify_end_vertex set_current_vertex_index set_src_mwi set_dest_mesh
       set_src_mesh].
  assert (Hstart :
    forall k : M (option (list string)),
      k (mkState s1 (bpy st)) = Ok (Some (map name extra), st1) ->
      ((if negb (specify_end_vertex (self st))
        then dm0 <- deref dob ;;
             assign (set_total_vertices (List.length (vertices dm0)))
        else ret tt) ;;; k)
        (mkState (set_current_vertex_index 0
                    (set_src_mwi (Some mwi)
                       (set_dest_mesh (Some dob)
                          (set_src_mesh (Some sob) (self st))))) (bpy st))
      = Ok (Some (map name extra), st1)).
  { intros k Hkk. unfold s1, prologue_self in Hkk.
    destruct (specify_end_vertex (self st)); simpl negb; cbv iota.
    - exact Hkk.
    - unfold bind at 1. unfold bind at 1, deref at 1.
      unfold bind at 1, get_bpy at 1. cbv beta iota. cbn [bpy].
      rewrite Ed, Hdm. unfold ret at 1, assign at 1. cbv beta iota.
      cbn [self bpy]. exact Hkk. }
  apply Hstart. clear Hstart.
  unfold bind at 1, deref at 1. unfold bind at 1, get_bpy at 1. cbv beta iota.
  cbn [bpy]. rewrite Es, Hsm. unfold ret at 1. cbv beta iota. rewrite Hk.
  unfold bind at 1, deref at 1. unfold bind at 1, get_bpy at 1. cbv beta iota.
  cbn [bpy]. rewrite Ed, Hdm. unfold ret at 1. cbv beta iota.
  assert (Hbasis :
    (match shape_keys dm with
     | Some _ => ret tt
     | None => shape_key_add dob "Basis"
     end) (mkState s1 (bpy st)) = Ok (tt, mkState s1 b1)).
  { unfold b1. destruct (shape_keys dm) eqn:Hsk; [reflexivity|].
    rewrite <- Ed. apply (shape_key_add_eq dob "Basis" (mkState s1 (bpy st)) dm).
    cbn [bpy]. now rewrite Ed. }
  rewrite (bind_Ok _ _ _ _ _ Hbasis).
  assert (Hview : object_key_blocks (bpy (mkState s1 b1)) (Some sob) = Some skbs).
  { cbn [bpy object_key_blocks]. now rewrite Es. }
  rewrite (bind_Ok _ _ _ _ _ (key_blocks_of_view _ _ _ Hview)).
  rewrite (bind_Ok _ _ _ _ _ Hr). reflexivity.
Qed.

End Prologue.

Section ProvisioningTheorems.

Context {MU : Mathutils}.

Lemma mesh_names_of_mesh b mesh m kbs :
  nth_error (meshes b) mesh = Some m ->
  shape_keys m = Some (mkKey kbs) ->
  mesh_names b mesh = map name kbs.
Proof.
  intros Hm Hk. unfold mesh_names, mesh_key_blocks. now rewrite Hm, Hk.
Qed.

(** The names on the destination before the call, against the names the
    loop of lines 191-209 starts from. *)
Lemma initial_dest_names b dest dm :
  nth_error (meshes b) dest = Some dm ->
  (mesh_names b dest = map name (initial_dest_blocks dm))
  \/ (mesh_names b dest = []
      /\ map name (initial_dest_blocks dm) = ["Basis"]).
Proof.
  intros Hm. unfold mesh_names, mesh_key_blocks, initial_dest_blocks.
  rewrite Hm. destruct (shape_keys dm); simpl; auto.
Qed.

Lemma count_occ_provisioned (names0 wl : list string) n :
  NoDup wl ->
  count_occ string_dec (names0 ++ wl) n
  = count_occ string_dec names0 n + (if mem n wl then 1 else 0).
Proof.
  intros Hnd. rewrite count_occ_app. f_equal.
  destruct (mem n wl) eqn:Hm.
  - apply mem_In in Hm. now apply NoDup_count_occ'.
  - apply mem_false in Hm. now apply count_occ_not_In.
Qed.

(** C3: with [listUse = 'all'], after the keys are provisioned every source
    key name that was not on the destination and is not in
    [default_excluded_keys] is on the destination exactly once, and a name
    that was on the destination is there as many times as before.  For the
    source keys "Basis", "Smile", the destination key "Basis" and
    [default_excluded_keys] with "Basis" but not "Smile", the worklist is
    ["Smile"] and the destination ends with "Basis", "Smile". *)
Theorem provisioning_all_exactly_once
    (st : State) (src dest : nat) (sob dob : Object) (mwi : Matrix)
    (sm dm : Mesh) (skbs : list ShapeKey) :
  Ready st src dest sob dob mwi sm dm skbs ->
  listUse (bpy st) = all ->
  exists wl st1,
    transfer_prologue src dest st = Ok (Some wl, st1) /\
    (forall n,
        In n (mesh_names (bpy st) src) ->
        ~ In n (mesh_names (bpy st) dest) ->
        ~ In n (default_excluded_keys (self st)) ->
        count_occ string_dec (mesh_names (bpy st1) dest) n = 1) /\
    (forall n,
        In n (mesh_names (bpy st) dest) ->
        count_occ string_dec (mesh_names (bpy st1) dest) n
        = count_occ string_dec (mesh_names (bpy st) dest) n) /\
    (mesh_names (bpy st) src = ["Basis"; "Smile"] ->
     mesh_names (bpy st) dest = ["Basis"] ->
     In "Basis" (default_excluded_keys (self st)) ->
     ~ In "Smile" (default_excluded_keys (self st)) ->
     wl = ["Smile"] /\ mesh_names (bpy st1) dest = ["Basis"; "Smile"]).
Proof.
  intros Hready Hall.
  destruct (transfer_prologue_eq _ _ _ _ _ _ _ _ _ Hready)
    as (extra & st1 & Hrun & Hp & _ & _ & _ & _ & Hmesh & _).
  destruct Hready as [_ _ _ Hsm Hdm Hk].
  rewrite Hall in Hp.
  exists (map name extra), st1. split; [exact Hrun|].
  rewrite (mesh_names_of_mesh _ _ _ _ Hsm Hk).
  rewrite (mesh_names_of_mesh _ _ _ _ Hmesh eq_refl), map_app.
  set (names0 := map name (initial_dest_blocks dm)) in *.
  assert (Hnd : NoDup (map name extra)).
  { rewrite Hp. apply provision_NoDup. }
  split; [|split].
  - intros n Hsrc Hnot Hdef. rewrite count_occ_provisioned by exact Hnd.
    destruct (initial_dest_names _ _ _ Hdm) as [E|[E E0]];
      [fold names0 in E|fold names0 in E0].
    + rewrite <- E, (proj1 (count_occ_not_In string_dec _ n) Hnot).
      replace (mem n (map name extra)) with true; [reflexivity|].
      symmetry. apply mem_In. rewrite Hp. apply provision_complete; auto.
      * now rewrite <- E.
      * simpl. now apply mem_false in Hdef as ->.
    + destruct (string_dec n "Basis") as [->|Hne].
      * replace (mem "Basis" (map name extra)) with false.
        -- rewrite E0. reflexivity.
        -- symmetry. apply mem_false. rewrite Hp. intros H.
           apply provision_not_on_dest in H. apply H. rewrite E0. simpl. auto.
      * replace (mem n (map name extra)) with true.
        -- rewrite E0.
           rewrite (proj1 (count_occ_not_In string_dec ["Basis"] n));
             [reflexivity|].
           simpl. intros [?|[]]. congruence.
        -- symmetry. apply mem_In. rewrite Hp. apply provision_complete; auto.
           ++ rewrite E0. simpl. intros [?|[]]. congruence.
           ++ simpl. now apply mem_false in Hdef as ->.
  - intros n Hin. rewrite count_occ_provisioned by exact Hnd.
    destruct (initial_dest_names _ _ _ Hdm) as [E|[E _]];
      [|rewrite E in Hin; destruct Hin].
    fold names0 in E. rewrite <- E.
    replace (mem n (map name extra)) with false; [lia|].
    symmetry. apply mem_false. rewrite Hp. intros H.
    apply provision_not_on_dest in H. apply H. now rewrite <- E.
  - intros Hsrc Hdest _ Hsmile.
    destruct (initial_dest_names _ _ _ Hdm) as [E|[E _]];
      [|rewrite E in Hdest; discriminate].
    fold names0 in E. rewrite <- E, Hdest in *. rewrite Hsrc in Hp.
    apply mem_false in Hsmile. simpl in Hp. rewrite Hsmile in Hp. simpl in Hp.
    rewrite Hp. auto.
Qed.

(** C2 (as amended): a name that is already on the destination mesh is
    neither created again nor put on the worklist, whatever [listUse] and
    the lists of names are: the worklist only holds the keys this call adds
    to the destination. *)
Theorem provisioning_skips_existing
    (st : State) (src dest : nat) (sob dob : Object) (mwi : Matrix)
    (sm dm : Mesh) (skbs : list ShapeKey) (n : string) :
  Ready st src dest sob dob mwi sm dm skbs ->
  In n (mesh_names (bpy st) dest) ->
  exists wl st1,
    transfer_prologue src dest st = Ok (Some wl, st1) /\
    ~ In n wl /\
    count_occ string_dec (mesh_names (bpy st1) dest) n
    = count_occ string_dec (mesh_names (bpy st) dest) n.
Proof.
  intros Hready Hin.
  destruct (transfer_prologue_eq _ _ _ _ _ _ _ _ _ Hready)
    as (extra & st1 & Hrun & Hp & _ & _ & _ & _ & Hmesh & _).
  destruct Hready as [_ _ _ Hsm Hdm Hk].
  exists (map name extra), st1. split; [exact Hrun|].
  destruct (initial_dest_names _ _ _ Hdm) as [E|[E _]];
    [|rewrite E in Hin; destruct Hin].
  assert (Hnot : ~ In n (map name extra)).
  { rewrite Hp. intros H. apply provision_not_on_dest in H. apply H.
    now rewrite <- E. }
  split; [exact Hnot|].
  rewrite (mesh_names_of_mesh _ _ _ _ Hmesh eq_refl), map_app, count_occ_app.
  rewrite <- E, (proj1 (count_occ_not_In string_dec _ n) Hnot). lia.
Qed.

End ProvisioningTheorems.

Section Loop.

Context {MU : Mathutils}.

(** ** The state inside the transfer loop *)

Lemma InLoop_self S st s' :
  InLoop S st -> same_settings (self st) s' ->
  InLoop S (mkState s' (bpy st)).
Proof.
  intros [] (E1 & E2 & E3 & E4 & E5 & E6 & E7 & E8).
  constructor; cbn [self bpy]; try congruence; auto.
Qed.

Lemma Forall_list_set {A} (P : A -> Prop) l i x :
  Forall P l -> P x -> Forall P (list_set l i x).
Proof.
  intros H Hx. revert i.
  induction H as [|h t Hh Ht IH]; intros [|i]; simpl; auto.
Qed.

Lemma InLoop_store S st k j p :
  InLoop S st -> k <> 0 ->
  InLoop S (mkState (self st)
              (store_position (bpy st) (ob_data (s_dest S)) k j p)).
Proof.
  intros H Hk. destruct H as [? ? ? Hd Hsb ? (dkbs & Hb & Hn & Hl & H0) ? ? ? ? ? ?].
  constructor; cbn [self bpy]; auto.
  - rewrite mesh_key_blocks_store_other by exact Hd. exact Hsb.
  - destruct (nth_error dkbs k) as [sk|] eqn:Hsk.
    + eexists. split; [eapply mesh_key_blocks_store_same; eauto|].
      split; [|split].
      * rewrite <- Hn. eapply list_set_map; eauto.
      * apply Forall_list_set; [exact Hl|]. simpl.
        rewrite list_set_length.
        rewrite Forall_forall in Hl. apply Hl. eapply nth_error_In; eauto.
      * rewrite nth_error_list_set_other by exact Hk. exact H0.
    + rewrite (store_position_no_block _ _ _ _ _ _ Hb Hsk).
      exists dkbs. auto.
Qed.

(** ** Indices returned by the search *)

Lemma select_fold_bound use_one lco r l :
  forall s ch cl ci ch' cl' ci',
    fold_left (select_step use_one lco r) (enumerate_from s l) (ch, cl, ci)
    = (ch', cl', ci') ->
    Forall (fun i => i < s) ch ->
    (ci = (-1)%Z \/ (0 <= ci < Z.of_nat s)%Z) ->
    Forall (fun i => i < s + List.length l) ch'
    /\ (ci' = (-1)%Z \/ (0 <= ci' < Z.of_nat (s + List.length l))%Z).
Proof.
  induction l as [|v l IH]; intros s ch cl ci ch' cl' ci'; simpl.
  - intros H Hch Hci. injection H as <- _ <-. rewrite Nat.add_0_r. auto.
  - intros H Hch Hci.
    assert (Hch1 : Forall (fun i => i < S s) ch).
    { eapply Forall_impl; [|exact Hch]. simpl. intros. lia. }
    assert (Hch2 : Forall (fun i => i < S s) (ch ++ [s])).
    { apply Forall_app. split; [exact Hch1|]. constructor; [lia|constructor]. }
    assert (Hci1 : ci = (-1)%Z \/ (0 <= ci < Z.of_nat (S s))%Z) by lia.
    assert (Hs : (-1 = -1)%Z \/ (0 <= Z.of_nat s < Z.of_nat (S s))%Z) by lia.
    rewrite Nat.add_succ_r.
    destruct (len_le _ (Vector_length r)).
    + destruct use_one.
      * destruct (len_le _ cl).
        -- eapply (IH (S s)); [exact H|exact Hch2|lia].
        -- eapply (IH (S s)); [exact H|exact Hch2|exact Hci1].
      * eapply (IH (S s)); [exact H|exact Hch2|exact Hci1].
    + eapply (IH (S s)); [exact H|exact Hch1|exact Hci1].
Qed.

Lemma selection_bound use_one mwi basis center radius :
  Forall (fun i => i < List.length basis)
         (selection use_one mwi basis center radius).
Proof.
  unfold selection, select_loop, enumerate.
  destruct (fold_left _ _ _) as [[ch cl] ci] eqn:H.
  apply select_fold_bound in H; [|constructor|lia].
  destruct H as [Hch Hci]. simpl in Hch, Hci.
  destruct use_one; [|exact Hch].
  destruct (ci >? -1)%Z eqn:Hgt; [|constructor].
  apply Z.gtb_lt in Hgt. constructor; [lia|constructor].
Qed.

Lemma retry_result_bound use_one mwi basis inc vert :
  forall budget rad,
    Forall (fun i => i < List.length basis)
           (retry_result use_one mwi basis inc vert budget rad).
Proof.
  induction budget as [|b IH]; intros rad; simpl; [constructor|].
  destruct (Nat.eqb _ 0); [apply IH|apply selection_bound].
Qed.

Lemma lookups_exist {A} (l : list A) (vs : list nat) :
  Forall (fun v => v < List.length l) vs ->
  exists ps, Forall2 (fun v p => nth_error l v = Some p) vs ps.
Proof.
  induction 1 as [|v vs Hv _ (ps & IH)].
  - exists []. constructor.
  - destruct (nth_error l v) as [p|] eqn:Hp.
    + exists (p :: ps). constructor; auto.
    + apply nth_error_None in Hp. lia.
Qed.

(** ** [update_global_shapekey_indices] *)

Lemma last_index_fold p_key_name kbs :
  forall s old,
    let r := fold_left
               (fun acc (isk : nat * ShapeKey) =>
                  if String.eqb (name (snd isk)) p_key_name
                  then fst isk else acc)
               (enumerate_from s kbs) old in
    (r = old /\ ~ In p_key_name (map name kbs))
    \/ (s <= r /\ exists sk, nth_error kbs (r - s) = Some sk
                             /\ name sk = p_key_name).
Proof.
  induction kbs as [|k kbs IH]; intros s old; simpl.
  - left. auto.
  - destruct (IH (S s) (if String.eqb (name k) p_key_name then s else old))
      as [[Hr Hn]|(Hle & sk & Hsk & Hname)].
    + destruct (String.eqb_spec (name k) p_key_name) as [E|E].
      * right. rewrite Hr. split; [lia|]. exists k.
        rewrite Nat.sub_diag. auto.
      * left. rewrite Hr. split; [reflexivity|]. intros [?|?]; auto.
    + right. split; [lia|]. exists sk. split; [|exact Hname].
      replace (_ - s) with (S (fold_left
               (fun acc (isk : nat * ShapeKey) =>
                  if String.eqb (name (snd isk)) p_key_name
                  then fst isk else acc)
               (enumerate_from (S s) kbs)
               (if String.eqb (name k) p_key_name then s else old) - S s))
        by lia.
      exact Hsk.
Qed.

Lemma last_index_named_found p_key_name kbs old :
  In p_key_name (map name kbs) ->
  exists sk, nth_error kbs (last_index_named p_key_name kbs old) = Some sk
             /\ name sk = p_key_name.
Proof.
  intros Hin. unfold last_index_named, enumerate.
  destruct (last_index_fold p_key_name kbs 0 old) as [[_ Hn]|(_ & sk & Hsk & E)];
    [contradiction|].
  rewrite Nat.sub_0_r in Hsk. eauto.
Qed.

Lemma update_global_shapekey_indices_eq S st n :
  InLoop S st ->
  exists dkbs,
    mesh_key_blocks (bpy st) (ob_data (s_dest S)) = Some dkbs /\
    update_global_shapekey_indices n st
    = Ok (tt, mkState
                (set_src_shape_key_index
                   (last_index_named n (s_src_blocks S)
                      (src_shape_key_index (self st)))
                   (set_dest_shape_key_index
                      (last_index_named n dkbs (dest_shape_key_index (self st)))
                      (self st)))
                (bpy st)).
Proof.
  intros H. destruct H as [Hs Hd ? ? Hsb ? (dkbs & Hb & ?) ? ? ? ? ? ?].
  exists dkbs. split; [exact Hb|].
  unfold update_global_shapekey_indices.
  unfold bind at 1, get_self at 1. cbv beta iota.
  assert (Hv : object_key_blocks (bpy st) (dest_mesh (self st)) = Some dkbs).
  { rewrite Hd. exact Hb. }
  rewrite (bind_Ok _ _ _ _ _ (key_blocks_of_view _ _ _ Hv)).
  unfold bind at 1, assign at 1. cbv beta iota.
  assert (Hv' : object_key_blocks
                  (bpy (mkState (set_dest_shape_key_index
                          (last_index_named n dkbs (dest_shape_key_index (self st)))
                          (self st)) (bpy st)))
                  (src_mesh (self st)) = Some (s_src_blocks S)).
  { rewrite Hs. exact Hsb. }
  rewrite (bind_Ok _ _ _ _ _ (key_blocks_of_view _ _ _ Hv')).
  reflexivity.
Qed.

(** ** The correspondence of a vertex *)

Lemma src_basis_in_loop S st :
  InLoop S st ->
  exists k0 rest, s_src_blocks S = k0 :: rest /\ src_basis st = Some (data k0).
Proof.
  intros [Hs _ _ _ Hsb (k0 & rest & E & _) _ _ _ _ _ _ _].
  exists k0, rest. split; [exact E|].
  unfold src_basis, object_key_blocks. now rewrite Hs, Hsb, E.
Qed.

Lemma dest_basis_in_loop S st :
  InLoop S st ->
  exists dkbs kd0,
    mesh_key_blocks (bpy st) (ob_data (s_dest S)) = Some dkbs
    /\ nth_error dkbs 0 = Some kd0
    /\ data kd0 = s_dest_basis S
    /\ List.length (s_dest_basis S) = s_total S.
Proof.
  intros [_ _ _ _ _ _ (dkbs & Hb & _ & Hl & H0) _ _ _ _ _ _].
  destruct (nth_error dkbs 0) as [kd0|] eqn:Hk; [|discriminate].
  simpl in H0. injection H0 as H0. exists dkbs, kd0.
  repeat split; auto. rewrite <- H0.
  rewrite Forall_forall in Hl. apply Hl. eapply nth_error_In; eauto.
Qed.

Lemma vertex_world_in_loop S st j :
  InLoop S st -> j < s_total S ->
  exists co, nth_error (s_dest_basis S) j = Some co
             /\ vertex_world S j = Some (matmul (matrix_world (s_dest S)) co).
Proof.
  intros H Hj. destruct (dest_basis_in_loop S st H) as (_ & _ & _ & _ & _ & Hlen).
  destruct (nth_error (s_dest_basis S) j) as [co|] eqn:Hco.
  - exists co. unfold vertex_world. now rewrite Hco.
  - apply nth_error_None in Hco. lia.
Qed.

Lemma select_required_verts_in_loop S st cv j :
  InLoop S st ->
  vertex_world S j = Some cv ->
  select_required_verts cv scalar_zero 0%Z st = Ok (correspondence S j, st).
Proof.
  intros H Hcv. destruct (src_basis_in_loop S st H) as (k0 & rest & E & Hb).
  rewrite (select_required_verts_eq st (s_mwi S) (data k0) cv scalar_zero 0%Z
             (il_mwi S st H) Hb).
  unfold correspondence. rewrite Hcv, E.
  now rewrite (il_use_one S st H), (il_increment S st H), (il_increments S st H).
Qed.

Lemma search_of_vertex_eq S st j :
  InLoop S st -> j < s_total S ->
  search_of_vertex j st = Ok (correspondence S j, st).
Proof.
  intros H Hj.
  destruct (dest_basis_in_loop S st H) as (dkbs & kd0 & Hb & Hk & Hd & _).
  destruct (vertex_world_in_loop S st j H Hj) as (co & Hco & Hcv).
  unfold search_of_vertex.
  unfold bind at 1, get_self at 1. cbv beta iota. rewrite (il_dest S st H).
  unfold bind at 1, attr at 1, ret at 1. cbv beta iota.
  assert (Hv : object_key_blocks (bpy st) (Some (s_dest S)) = Some dkbs)
    by exact Hb.
  rewrite (bind_Ok _ _ _ _ _ (key_blocks_of_view _ _ _ Hv)).
  unfold index, bind at 1. rewrite Hk. unfold ret at 1. cbv beta iota.
  unfold bind at 1. rewrite Hd, Hco. unfold ret at 1. cbv beta iota.
  now apply select_required_verts_in_loop.
Qed.

Lemma search_of_vertex_inv S st i vs st' :
  InLoop S st ->
  search_of_vertex i st = Ok (vs, st') ->
  i < s_total S /\ vs = correspondence S i /\ st' = st.
Proof.
  intros H Hrun. destruct (Nat.lt_ge_cases i (s_total S)) as [Hi|Hi].
  - rewrite (search_of_vertex_eq S st i H Hi) in Hrun.
    injection Hrun as <- <-. auto.
  - exfalso.
    destruct (dest_basis_in_loop S st H) as (dkbs & kd0 & Hb & Hk & Hd & Hlen).
    revert Hrun. unfold search_of_vertex.
    unfold bind at 1, get_self at 1. cbv beta iota. rewrite (il_dest S st H).
    unfold bind at 1, attr at 1, ret at 1. cbv beta iota.
    assert (Hv : object_key_blocks (bpy st) (Some (s_dest S)) = Some dkbs)
      by exact Hb.
    rewrite (bind_Ok _ _ _ _ _ (key_blocks_of_view _ _ _ Hv)).
    unfold index, bind at 1. rewrite Hk. unfold ret at 1. cbv beta iota.
    unfold bind at 1. rewrite Hd.
    replace (nth_error (s_dest_basis S) i) with (@None Vector)
      by (symmetry; apply nth_error_None; lia).
    discriminate.
Qed.

Lemma cache_correspondence_eq S st j :
  InLoop S st ->
  current_vertex_index (self st) = j -> j < s_total S ->
  do_once_per_vertex (self st) = true ->
  exists cv,
    vertex_world S j = Some cv /\
    cache_correspondence st
    = Ok (tt, mkState
                (set_do_once_per_vertex false
                   (set_src_chosen_vertices (correspondence S j)
                      (set_current_vertex (Some cv) (self st))))
                (bpy st)).
Proof.
  intros H Hc Hj Hdo.
  destruct (dest_basis_in_loop S st H) as (dkbs & kd0 & Hb & Hk & Hd & _).
  destruct (vertex_world_in_loop S st j H Hj) as (co & Hco & Hcv).
  exists (matmul (matrix_world (s_dest S)) co). split; [exact Hcv|].
  unfold cache_correspondence.
  unfold bind at 1, get_self at 1. cbv beta iota. rewrite Hdo.
  rewrite (il_dest S st H).
  unfold bind at 1, attr at 1, ret at 1. cbv beta iota.
  assert (Hv : object_key_blocks (bpy st) (Some (s_dest S)) = Some dkbs)
    by exact Hb.
  rewrite (bind_Ok _ _ _ _ _ (key_blocks_of_view _ _ _ Hv)).
  unfold index, bind at 1. rewrite Hk. unfold ret at 1. cbv beta iota.
  unfold bind at 1. rewrite Hd, Hc, Hco. unfold ret at 1. cbv beta iota.
  unfold bind at 1, assign at 1. cbv beta iota.
  assert (H1 : InLoop S (mkState (set_current_vertex
                 (Some (matmul (matrix_world (s_dest S)) co)) (self st)) (bpy st))).
  { apply InLoop_self; [exact H|]. repeat split. }
  rewrite (bind_Ok _ _ _ _ _ (select_required_verts_in_loop S _ _ j H1 Hcv)).
  reflexivity.
Qed.

(** ** One key of the worklist *)

Lemma correspondence_bound S st j :
  InLoop S st ->
  exists k0 rest,
    s_src_blocks S = k0 :: rest
    /\ Forall (fun v => v < List.length (data k0)) (correspondence S j).
Proof.
  intros H. destruct (il_src_wf S st H) as (k0 & rest & E & _).
  exists k0, rest. split; [exact E|].
  unfold correspondence. rewrite E.
  destruct (vertex_world S j); [apply retry_result_bound|constructor].
Qed.

Lemma key_step_matched S st j n :
  InLoop S st -> listed S n ->
  current_vertex_index (self st) = j -> j < s_total S ->
  (do_once_per_vertex (self st) = true \/ Cached S j st) ->
  correspondence S j <> [] ->
  exists st_g st',
    update_global_shapekey_indices n st = Ok (tt, st_g)
    /\ update_vertex st_g = Ok (false, st')
    /\ InLoop S st'
    /\ current_vertex_index (self st') = j
    /\ Cached S j st'
    /\ (forall k j', j' <> j ->
          position (bpy st') (ob_data (s_dest S)) k j'
          = position (bpy st) (ob_data (s_dest S)) k j').
Proof.
  intros H (Hsrc & Hdst & Hhd) Hc Hj Hmode Hne.
  destruct (update_global_shapekey_indices_eq S st n H) as (dkbs & Hb & Hg).
  set (st_g := mkState _ (bpy st)) in Hg.
  assert (Hg_in : InLoop S st_g).
  { apply InLoop_self; [exact H|]. repeat split. }
  (* the two indices *)
  destruct (il_dest_blocks S st H) as (dkbs' & Hb' & Hnames & Hlen & _).
  assert (dkbs' = dkbs) by congruence. subst dkbs'.
  destruct (last_index_named_found n (s_src_blocks S)
              (src_shape_key_index (self st)) Hsrc) as (kt & Hkt & _).
  rewrite <- Hnames in Hdst.
  destruct (last_index_named_found n dkbs
              (dest_shape_key_index (self st)) Hdst) as (kd & Hkd & Hkdn).
  set (dsi := last_index_named n dkbs (dest_shape_key_index (self st))) in *.
  set (ssi := last_index_named n (s_src_blocks S)
                (src_shape_key_index (self st))) in *.
  assert (Hdsi : dsi <> 0).
  { intros E. rewrite E in Hkd. apply Hhd. rewrite <- Hnames.
    destruct dkbs as [|d0 ds]; [discriminate|].
    simpl in Hkd |- *. congruence. }
  (* the cached correspondence *)
  destruct (vertex_world_in_loop S st j H Hj) as (co & Hco & Hcv).
  assert (Hcache :
    exists st_c,
      cache_correspondence st_g = Ok (tt, st_c)
      /\ InLoop S st_c /\ bpy st_c = bpy st
      /\ current_vertex_index (self st_c) = j
      /\ Cached S j st_c
      /\ dest_shape_key_index (self st_c) = dsi
      /\ src_shape_key_index (self st_c) = ssi).
  { destruct Hmode as [Hdo|(Hdo & Hch & Hcur)].
    - destruct (cache_correspondence_eq S st_g j Hg_in Hc Hj Hdo)
        as (cv & Hcv' & Hrun).
      eexists. split; [exact Hrun|].
      split; [apply InLoop_self; [exact Hg_in|repeat split]|].
      cbn [self bpy]. repeat split; auto.
    - exists st_g. split; [now apply cache_correspondence_cached|].
      split; [exact Hg_in|]. repeat split; auto. }
  destruct Hcache as (st_c & Hrun_c & Hc_in & Hc_bpy & Hc_cvi & Hc_cached
                      & Hc_dsi & Hc_ssi).
  destruct Hc_cached as (Hc_do & Hc_ch & Hc_cur).
  destruct (correspondence_bound S st j H) as (k0 & rest & E & Hbound).
  destruct (lookups_exist (data k0) _ Hbound) as (ps0 & Hps0).
  assert (Hbound' : Forall (fun v => v < List.length (data kt))
                           (correspondence S j)).
  { destruct (il_src_wf S st H) as (k0' & rest' & E' & Hwf).
    assert (k0' = k0) by congruence. subst k0'.
    rewrite Forall_forall in Hwf.
    rewrite (Hwf kt (nth_error_In _ _ Hkt)). exact Hbound. }
  destruct (lookups_exist (data kt) _ Hbound') as (ps1 & Hps1).
  assert (Hold : exists old,
             position (bpy st_c) (ob_data (s_dest S))
               (dest_shape_key_index (self st_c))
               (current_vertex_index (self st_c)) = Some old).
  { rewrite Hc_bpy, Hc_dsi, Hc_cvi. unfold position. rewrite Hb, Hkd.
    rewrite Forall_forall in Hlen.
    pose proof (Hlen kd (nth_error_In _ _ Hkd)) as Hl.
    destruct (nth_error (data kd) j) as [old|] eqn:Ho; [eauto|].
    apply nth_error_None in Ho. lia. }
  destruct Hold as (old & Hold).
  assert (Hview : object_key_blocks (bpy st_c) (src_mesh (self st_c))
                  = Some (s_src_blocks S)).
  { rewrite (il_src S st_c Hc_in). exact (il_src_blocks S st_c Hc_in). }
  pose proof (update_vertex_blend st_g st_c (s_src_blocks S) k0 kt ps0 ps1
                (matmul (matrix_world (s_dest S)) co) (s_dest S) old) as Hblend.
  cbv zeta in Hblend.
  exists st_g. eexists. split; [exact Hg|]. split.
  - apply Hblend; auto.
    + rewrite (il_total S st_g Hg_in). subst st_g. cbn [self].
      simpl. lia.
    + now rewrite Hc_ch.
    + now rewrite E.
    + now rewrite Hc_ssi.
    + now rewrite Hc_ch.
    + now rewrite Hc_ch.
    + now rewrite Hc_cur.
    + exact (il_dest S st_c Hc_in).
  - rewrite Hc_dsi, Hc_cvi.
    split; [now apply InLoop_store|].
    cbn [self bpy]. split; [exact Hc_cvi|].
    split; [repeat split; auto|].
    intros k j' Hj'. rewrite position_store_other by auto. now rewrite Hc_bpy.
Qed.

Lemma key_step_unmatched_first S st j n :
  InLoop S st ->
  current_vertex_index (self st) = j -> j < s_total S ->
  do_once_per_vertex (self st) = true ->
  correspondence S j = [] ->
  exists st_g st' ssi,
    update_global_shapekey_indices n st = Ok (tt, st_g)
    /\ update_vertex st_g = Ok (negb (s_skip S), st')
    /\ InLoop S st'
    /\ bpy st' = bpy st
    /\ current_vertex_index (self st') = j + 1
    /\ do_once_per_vertex (self st') = false
    /\ src_chosen_vertices (self st') = []
    /\ message (self st') = failure_message j ssi.
Proof.
  intros H Hc Hj Hdo He.
  destruct (update_global_shapekey_indices_eq S st n H) as (dkbs & Hb & Hg).
  set (st_g := mkState _ (bpy st)) in Hg.
  assert (Hg_in : InLoop S st_g).
  { apply InLoop_self; [exact H|]. repeat split. }
  destruct (cache_correspondence_eq S st_g j Hg_in Hc Hj Hdo)
    as (cv & Hcv & Hrun).
  set (st_c := mkState _ (bpy st_g)) in Hrun.
  exists st_g. eexists. eexists. split; [exact Hg|]. split.
  - rewrite <- (il_skip S st_g Hg_in).
    apply (update_vertex_unmatched st_g st_c).
    + rewrite (il_total S st_g Hg_in). subst st_g. cbn [self]. simpl. lia.
    + exact Hrun.
    + subst st_c. cbn [self]. simpl. exact He.
  - split.
    + apply InLoop_self with (st := st_g); [exact Hg_in|]. repeat split.
    + cbn [self bpy]. subst st_c st_g. cbn.
      rewrite Hc. repeat split. exact He.
Qed.

Lemma key_step_unmatched_next S st n :
  InLoop S st ->
  do_once_per_vertex (self st) = false ->
  src_chosen_vertices (self st) = [] ->
  exists st_g st',
    update_global_shapekey_indices n st = Ok (tt, st_g)
    /\ update_vertex st_g
       = Ok ((if (current_vertex_index (self st) <? s_total S)%nat
              then negb (s_skip S) else false), st')
    /\ InLoop S st'
    /\ bpy st' = bpy st
    /\ current_vertex_index (self st')
       = (if (current_vertex_index (self st) <? s_total S)%nat
          then current_vertex_index (self st) + 1
          else current_vertex_index (self st))
    /\ do_once_per_vertex (self st') = false
    /\ src_chosen_vertices (self st') = [].
Proof.
  intros H Hdo He.
  destruct (update_global_shapekey_indices_eq S st n H) as (dkbs & Hb & Hg).
  set (st_g := mkState _ (bpy st)) in Hg.
  assert (Hg_in : InLoop S st_g).
  { apply InLoop_self; [exact H|]. repeat split. }
  exists st_g.
  destruct (Nat.ltb_spec (current_vertex_index (self st)) (s_total S)) as [Hlt|Hge].
  - eexists. split; [exact Hg|]. split.
    + rewrite <- (il_skip S st_g Hg_in).
      apply (update_vertex_unmatched st_g st_g).
      * rewrite (il_total S st_g Hg_in). exact Hlt.
      * apply cache_correspondence_cached. exact Hdo.
      * exact He.
    + split; [apply InLoop_self with (st := st_g); [exact Hg_in|repeat split]|].
      cbn [self bpy]. subst st_g. cbn. repeat split; auto.
  - exists st_g. split; [exact Hg|]. split.
    + apply update_vertex_past_end. rewrite (il_total S st_g Hg_in). exact Hge.
    + split; [exact Hg_in|]. subst st_g. cbn. repeat split; auto.
Qed.

End Loop.

Section LoopRuns.

Context {MU : Mathutils}.

(** ** The loop over the worklist (lines 219-222) *)

Lemma for_each_key_matched S j :
  forall keys st,
    Forall (listed S) keys ->
    InLoop S st ->
    current_vertex_index (self st) = j -> j < s_total S ->
    (do_once_per_vertex (self st) = true \/ Cached S j st) ->
    correspondence S j <> [] ->
    exists st',
      for_each_key keys st = Ok (false, st')
      /\ InLoop S st'
      /\ current_vertex_index (self st') = j
      /\ (forall k j', j' <> j ->
            position (bpy st') (ob_data (s_dest S)) k j'
            = position (bpy st) (ob_data (s_dest S)) k j').
Proof.
  induction keys as [|n keys IH]; intros st Hk H Hc Hj Hmode Hne.
  - exists st. simpl. auto.
  - pose proof (Forall_inv Hk) as Hn. pose proof (Forall_inv_tail Hk) as Hk'.
    destruct (key_step_matched S st j n H Hn Hc Hj Hmode Hne)
      as (st_g & st1 & Hg & Hv & H1 & Hc1 & Hcached & Hframe).
    destruct (IH st1 Hk' H1 Hc1 Hj (or_intror Hcached) Hne)
      as (st' & Hrun & H' & Hc' & Hframe').
    exists st'. simpl.
    rewrite (bind_Ok _ _ _ _ _ Hg), (bind_Ok _ _ _ _ _ Hv).
    split; [exact Hrun|]. split; [exact H'|]. split; [exact Hc'|].
    intros k j' Hj'. rewrite Hframe' by exact Hj'. now apply Hframe.
Qed.

Lemma for_each_key_skipping S :
  s_skip S = true ->
  forall keys st,
    InLoop S st ->
    do_once_per_vertex (self st) = false ->
    src_chosen_vertices (self st) = [] ->
    current_vertex_index (self st) <= s_total S ->
    exists st',
      for_each_key keys st = Ok (false, st')
      /\ InLoop S st'
      /\ bpy st' = bpy st
      /\ current_vertex_index (self st')
         = Nat.min (current_vertex_index (self st) + List.length keys)
                   (s_total S).
Proof.
  intros Hskip. induction keys as [|n keys IH]; intros st H Hdo He Hle.
  - exists st. cbn [for_each_key List.length].
    split; [reflexivity|]. split; [exact H|]. split; [reflexivity|]. lia.
  - destruct (key_step_unmatched_next S st n H Hdo He)
      as (st_g & st1 & Hg & Hv & H1 & Hb1 & Hc1 & Hdo1 & He1).
    rewrite Hskip in Hv. simpl negb in Hv.
    assert (Hv' : update_vertex st_g = Ok (false, st1)).
    { rewrite Hv. now destruct (_ <? _)%nat. }
    assert (Hle1 : current_vertex_index (self st1) <= s_total S).
    { rewrite Hc1.
      destruct (Nat.ltb_spec (current_vertex_index (self st)) (s_total S)); lia. }
    destruct (IH st1 H1 Hdo1 He1 Hle1) as (st' & Hrun & H' & Hb' & Hc').
    exists st'. simpl for_each_key.
    rewrite (bind_Ok _ _ _ _ _ Hg), (bind_Ok _ _ _ _ _ Hv').
    split; [exact Hrun|]. split; [exact H'|]. split; [congruence|].
    rewrite Hc', Hc1. simpl List.length.
    destruct (Nat.ltb_spec (current_vertex_index (self st)) (s_total S)); lia.
Qed.

(** ** One turn of the [while] loop (lines 217-223) *)

Lemma InLoop_do_once S st :
  InLoop S st ->
  InLoop S (mkState (set_do_once_per_vertex true (self st)) (bpy st)).
Proof. intros H. apply InLoop_self; [exact H|repeat split]. Qed.

Lemma while_body_matched S st j :
  InLoop S st ->
  current_vertex_index (self st) = j -> j < s_total S ->
  correspondence S j <> [] ->
  exists st',
    while_body (s_worklist S) st = Ok (false, st')
    /\ InLoop S st'
    /\ current_vertex_index (self st') = j + 1
    /\ (forall k j', j' <> j ->
          position (bpy st') (ob_data (s_dest S)) k j'
          = position (bpy st) (ob_data (s_dest S)) k j').
Proof.
  intros H Hc Hj Hne.
  destruct (for_each_key_matched S j (s_worklist S)
              (mkState (set_do_once_per_vertex true (self st)) (bpy st))
              (il_worklist S st H) (InLoop_do_once S st H) Hc Hj
              (or_introl eq_refl) Hne)
    as (st1 & Hrun & H1 & Hc1 & Hframe).
  unfold while_body. unfold bind at 1, assign at 1. cbv beta iota.
  rewrite (bind_Ok _ _ _ _ _ Hrun). cbv iota.
  unfold bind, get_self, assign, ret.
  eexists. split; [reflexivity|].
  split; [apply InLoop_self; [exact H1|repeat split]|].
  cbn [self bpy]. split; [simpl; lia|exact Hframe].
Qed.

Lemma while_body_empty_worklist S st :
  InLoop S st -> s_worklist S = [] ->
  exists st',
    while_body (s_worklist S) st = Ok (false, st')
    /\ InLoop S st'
    /\ current_vertex_index (self st') = current_vertex_index (self st) + 1
    /\ bpy st' = bpy st.
Proof.
  intros H E. rewrite E. unfold while_body, bind, assign, get_self, ret. simpl.
  eexists. split; [reflexivity|].
  split; [apply InLoop_self; [exact H|repeat split]|].
  cbn [self bpy]. auto.
Qed.

Lemma while_body_unmatched S st j n rest :
  InLoop S st ->
  s_worklist S = n :: rest ->
  current_vertex_index (self st) = j -> j < s_total S ->
  correspondence S j = [] ->
  exists st' ssi,
    bpy st' = bpy st
    /\ if s_skip S
       then while_body (s_worklist S) st = Ok (false, st')
            /\ InLoop S st'
            /\ current_vertex_index (self st')
               = Nat.min (j + List.length (s_worklist S)) (s_total S) + 1
       else while_body (s_worklist S) st = Ok (true, st')
            /\ message (self st') = failure_message j ssi.
Proof.
  intros H E Hc Hj He.
  destruct (key_step_unmatched_first S
              (mkState (set_do_once_per_vertex true (self st)) (bpy st)) j n
              (InLoop_do_once S st H) Hc Hj eq_refl He)
    as (st_g & st1 & ssi & Hg & Hv & H1 & Hb1 & Hc1 & Hdo1 & He1 & Hmsg).
  cbn [bpy] in Hb1.
  assert (Hstart :
    while_body (n :: rest) st
    = (if negb (s_skip S) then Ok (true, st1)
       else match for_each_key rest st1 with
            | Ok (stop, st2) =>
                (if stop then ret true
                 else s <- get_self ;;
                      assign (set_current_vertex_index
                                (current_vertex_index s + 1)) ;;;
                      ret false) st2
            | Raise e => Raise e
            | OutOfFuel => OutOfFuel
            end)).
  { unfold while_body. unfold bind at 1, assign at 1. cbv beta iota.
    simpl for_each_key.
    unfold bind at 1. rewrite (bind_Ok _ _ _ _ _ Hg), (bind_Ok _ _ _ _ _ Hv).
    destruct (negb (s_skip S)); [reflexivity|].
    destruct (for_each_key rest st1) as [[stop st2]| |]; reflexivity. }
  rewrite E, Hstart.
  destruct (s_skip S) eqn:Hskip; simpl negb; cbv iota.
  - assert (Hle : current_vertex_index (self st1) <= s_total S) by lia.
    destruct (for_each_key_skipping S Hskip rest st1 H1 Hdo1 He1 Hle)
      as (st2 & Hrun & H2 & Hb2 & Hc2).
    rewrite Hrun. cbv iota. unfold bind, get_self, assign, ret.
    eexists. exists ssi. cbn [self bpy].
    split; [|split; [reflexivity|split]].
    + cbn [bpy]. congruence.
    + apply InLoop_self; [exact H2|repeat split].
    + cbn [self current_vertex_index set_current_vertex_index].
      rewrite Hc2, Hc1. cbn [List.length]. lia.
  - exists st1, ssi. auto.
Qed.

(** One turn of the loop when unmatched vertices are skipped: it returns,
    moves the cursor forward and writes at most the positions of the vertex
    it started on, and only if that vertex is matched. *)
Lemma while_body_skip S st :
  InLoop S st -> s_skip S = true ->
  current_vertex_index (self st) < s_total S ->
  exists st',
    while_body (s_worklist S) st = Ok (false, st')
    /\ InLoop S st'
    /\ current_vertex_index (self st) < current_vertex_index (self st')
    /\ (forall k j',
          j' <> current_vertex_index (self st)
          \/ correspondence S (current_vertex_index (self st)) = [] ->
          position (bpy st') (ob_data (s_dest S)) k j'
          = position (bpy st) (ob_data (s_dest S)) k j').
Proof.
  intros H Hskip Hj.
  destruct (s_worklist S) as [|n rest] eqn:E.
  - destruct (while_body_empty_worklist S st H E) as (st' & Hrun & H' & Hc & Hb).
    rewrite E in Hrun. exists st'. split; [exact Hrun|]. split; [exact H'|].
    split; [lia|]. intros. now rewrite Hb.
  - destruct (correspondence S (current_vertex_index (self st))) as [|v vs] eqn:Hcorr.
    + destruct (while_body_unmatched S st _ n rest H E eq_refl Hj Hcorr)
        as (st' & ssi & Hb & Hrest).
      rewrite Hskip in Hrest. destruct Hrest as (Hrun & H' & Hc).
      rewrite E in Hrun. exists st'. split; [exact Hrun|]. split; [exact H'|].
      split; [lia|]. intros. now rewrite Hb.
    + assert (Hne : correspondence S (current_vertex_index (self st)) <> [])
        by (rewrite Hcorr; discriminate).
      destruct (while_body_matched S st _ H eq_refl Hj Hne)
        as (st' & Hrun & H' & Hc & Hframe).
      rewrite E in Hrun. exists st'. split; [exact Hrun|]. split; [exact H'|].
      split; [lia|]. intros k j' [Hj'|Hx]; [now apply Hframe|discriminate].
Qed.

(** ** The [while] loop (lines 216-225) *)

(** With [skip_vertices_with_no_pair] set the loop runs to its end on any
    fuel above [total_vertices - current_vertex_index]; vertices before the
    cursor and vertices without correspondence keep their positions. *)
Lemma while_vertices_skip S :
  s_skip S = true ->
  forall fuel st,
    InLoop S st ->
    s_total S - current_vertex_index (self st) < fuel ->
    exists st',
      while_vertices fuel (s_worklist S) st = Ok (true, st')
      /\ message (self st') = "Transferred Shape Keys successfully!"
      /\ (forall k j',
            j' < current_vertex_index (self st) \/ correspondence S j' = [] ->
            position (bpy st') (ob_data (s_dest S)) k j'
            = position (bpy st) (ob_data (s_dest S)) k j').
Proof.
  intros Hskip. induction fuel as [|fuel IH]; intros st H Hf; [lia|].
  simpl. unfold bind at 1, get_self at 1. cbv beta iota.
  rewrite (il_total S st H).
  destruct (Nat.ltb_spec (current_vertex_index (self st)) (s_total S)) as [Hlt|Hge].
  - destruct (while_body_skip S st H Hskip Hlt)
      as (st1 & Hrun & H1 & Hc1 & Hframe).
    rewrite (bind_Ok _ _ _ _ _ Hrun). cbv iota.
    destruct (IH st1 H1 ltac:(lia)) as (st' & Hrun' & Hmsg & Hframe').
    exists st'. split; [exact Hrun'|]. split; [exact Hmsg|].
    intros k j' Hj'. rewrite Hframe'.
    + apply Hframe. destruct Hj' as [Hj'|Hj'].
      * left. lia.
      * destruct (Nat.eq_dec j' (current_vertex_index (self st))) as [->|];
          auto.
    + destruct Hj'; [left; lia|auto].
  - unfold bind, assign, ret. eexists. split; [reflexivity|].
    cbn [self bpy]. split; [reflexivity|auto].
Qed.

(** Without [skip_vertices_with_no_pair] and with a key to transfer, the
    loop stops at the first vertex [i] without correspondence, on any fuel
    above [total_vertices - current_vertex_index]; the positions of the
    vertices from [i] on are not written. *)
Lemma while_vertices_abort S i :
  s_skip S = false ->
  s_worklist S <> [] ->
  i < s_total S ->
  correspondence S i = [] ->
  forall d fuel st,
    InLoop S st ->
    current_vertex_index (self st) + d = i ->
    (forall j, current_vertex_index (self st) <= j < i ->
               correspondence S j <> []) ->
    s_total S - current_vertex_index (self st) < fuel ->
    exists st' ssi,
      while_vertices fuel (s_worklist S) st = Ok (false, st')
      /\ message (self st') = failure_message i ssi
      /\ (forall k j', i <= j' ->
            position (bpy st') (ob_data (s_dest S)) k j'
            = position (bpy st) (ob_data (s_dest S)) k j').
Proof.
  intros Hskip Hwl Hi He.
  induction d as [|d IH]; intros fuel st H Hc Hbefore Hf;
    (destruct fuel as [|fuel]; [lia|]);
    simpl; unfold bind at 1, get_self at 1; cbv beta iota;
    rewrite (il_total S st H);
    (replace (current_vertex_index (self st) <? s_total S)%nat with true
      by (symmetry; apply Nat.ltb_lt; lia)).
  - destruct (s_worklist S) as [|n rest] eqn:E; [congruence|].
    rewrite Nat.add_0_r in Hc.
    destruct (while_body_unmatched S st i n rest H E Hc Hi He)
      as (st' & ssi & Hb & Hrest).
    rewrite Hskip in Hrest. destruct Hrest as (Hrun & Hmsg).
    rewrite E in Hrun. rewrite (bind_Ok _ _ _ _ _ Hrun). cbv iota.
    exists st', ssi. split; [reflexivity|]. split; [exact Hmsg|].
    intros. now rewrite Hb.
  - assert (Hne : correspondence S (current_vertex_index (self st)) <> [])
      by (apply Hbefore; lia).
    destruct (while_body_matched S st _ H eq_refl ltac:(lia) Hne)
      as (st1 & Hrun & H1 & Hc1 & Hframe).
    rewrite (bind_Ok _ _ _ _ _ Hrun). cbv iota.
    destruct (IH fuel st1 H1 ltac:(lia)) as (st' & ssi & Hrun' & Hmsg & Hframe').
    { intros j Hj. apply Hbefore. lia. }
    { lia. }
    exists st', ssi. split; [exact Hrun'|]. split; [exact Hmsg|].
    intros k j' Hj'. rewrite Hframe' by exact Hj'. apply Hframe. lia.
Qed.

End LoopRuns.

Section Transfer.

Context {MU : Mathutils}.

Lemma initial_dest_blocks_wf dm :
  mesh_wf dm ->
  exists k0 rest,
    initial_dest_blocks dm = k0 :: rest
    /\ Forall (fun sk => List.length (data sk) = List.length (vertices dm))
              (initial_dest_blocks dm).
Proof.
  unfold mesh_wf, initial_dest_blocks.
  destruct (shape_keys dm) as [[kbs]|]; simpl.
  - intros [Hne Hl]. destruct kbs as [|k0 rest]; [congruence|]. eauto.
  - intros _. do 2 eexists. split; [reflexivity|].
    constructor; [reflexivity|constructor].
Qed.

(** The prologue leaves the state the loop lemmas start from. *)
Lemma transfer_prologue_in_loop st0 src dest sob dob mwi sm dm skbs :
  Ready st0 src dest sob dob mwi sm dm skbs ->
  src <> dest ->
  mesh_wf sm -> mesh_wf dm ->
  specify_end_vertex (self st0) = false ->
  exists extra st1,
    transfer_prologue src dest st0 = Ok (Some (map name extra), st1)
    /\ InLoop (setup_of st0 sob dob mwi skbs dm extra) st1
    /\ current_vertex_index (self st1) = 0
    /\ ob_data dob = dest.
Proof.
  intros Hready Hne Hsw Hdw Hspec.
  destruct (transfer_prologue_eq _ _ _ _ _ _ _ _ _ Hready)
    as (extra & st1 & Hrun & Hp & Hself & _ & _ & Hother & Hmesh & Hdata
        & Es & Ed).
  destruct Hready as [_ _ _ Hsm Hdm Hk].
  destruct (initial_dest_blocks_wf dm Hdw) as (k0 & rest & E0 & Hlen0).
  exists extra, st1. split; [exact Hrun|].
  unfold prologue_self in Hself. rewrite Hspec in Hself.
  split; [|split; [now rewrite Hself|exact Ed]].
  constructor; unfold setup_of; cbn [s_src s_dest s_mwi s_src_blocks
    s_dest_names s_dest_basis s_total s_increment s_increments s_use_one
    s_skip s_worklist]; try (rewrite Hself; reflexivity).
  - congruence.
  - unfold mesh_key_blocks. rewrite Es, Hother by exact Hne.
    now rewrite Hsm, Hk.
  - unfold mesh_wf in Hsw. rewrite Hk in Hsw. simpl in Hsw.
    destruct Hsw as [Hnil Hl]. destruct skbs as [|sk0 srest]; [congruence|].
    exists sk0, srest. split; [reflexivity|].
    pose proof (Forall_inv Hl) as Hl0.
    eapply Forall_impl; [|exact Hl]. simpl. intros a Ha. congruence.
  - exists (initial_dest_blocks dm ++ extra).
    split; [unfold mesh_key_blocks; now rewrite Ed, Hmesh|].
    split; [reflexivity|]. split.
    + apply Forall_app. split; [exact Hlen0|].
      specialize (Hdata k0 rest E0).
      rewrite E0 in Hlen0. pose proof (Forall_inv Hlen0) as Hl0.
      eapply Forall_impl; [|exact Hdata]. simpl. intros a Ha. congruence.
    + rewrite E0. reflexivity.
  - rewrite Forall_forall. intros n Hn. unfold listed.
    cbn [s_src_blocks s_dest_names].
    assert (Hn' : In n (provision (listUse (bpy st0))
                          (excluded_shape_keys (self st0))
                          (default_excluded_keys (self st0))
                          (map name skbs) (map name (initial_dest_blocks dm))))
      by (now rewrite <- Hp).
    split; [exact (proj1 (provision_selected _ _ _ _ _ _ Hn'))|].
    split; [rewrite map_app; apply in_or_app; auto|].
    apply provision_not_on_dest in Hn'.
    rewrite map_app, E0. simpl. intros Hhd. apply Hn'. rewrite E0. simpl.
    left. congruence.
Qed.

Lemma transfer_shape_keys_run st0 src dest wl st1 :
  transfer_prologue src dest st0 = Ok (Some wl, st1) ->
  transfer_shape_keys src dest false st0
  = while_vertices
      (S (total_vertices (self st1) - current_vertex_index (self st1))) wl st1.
Proof.
  intros H. unfold transfer_shape_keys. rewrite (bind_Ok _ _ _ _ _ H).
  reflexivity.
Qed.

(** The loop of [transfer_shape_keys] never uses up its fuel. *)
Lemma transfer_vertices_fuel S st :
  InLoop S st -> s_skip S = true ->
  exists st', transfer_vertices (s_worklist S) st = Ok (true, st').
Proof.
  intros H Hskip. unfold transfer_vertices, bind, get_self.
  destruct (while_vertices_skip S Hskip
              (Datatypes.S (total_vertices (self st)
                            - current_vertex_index (self st)))
              st H) as (st' & Hrun & _).
  - rewrite (il_total S st H). lia.
  - eauto.
Qed.

(** C4 (as amended): with [skip_vertices_with_no_pair] false and at least
    one key to transfer, if the search of destination vertex [i] returns
    empty (and the searches of the vertices before it do not),
    [transfer_shape_keys] returns [False], its message names the index [i],
    and no key of the destination is written at vertex [i] or after it.
    The searches are run by the loop over the keys to transfer: with no
    such key none is run and the call returns [True]. *)
Theorem transfer_aborts_at_unmatched_vertex
    (st0 : State) (src dest : nat) (sob dob : Object) (mwi : Matrix)
    (sm dm : Mesh) (skbs : list ShapeKey) :
  Ready st0 src dest sob dob mwi sm dm skbs ->
  src <> dest ->
  mesh_wf sm -> mesh_wf dm ->
  specify_end_vertex (self st0) = false ->
  skip_vertices_with_no_pair (self st0) = false ->
  exists wl st1,
    transfer_prologue src dest st0 = Ok (Some wl, st1) /\
    forall i,
      wl <> [] ->
      search_of_vertex i st1 = Ok ([], st1) ->
      (forall j, j < i ->
         exists vs, search_of_vertex j st1 = Ok (vs, st1) /\ vs <> []) ->
      exists st2 ssi,
        transfer_shape_keys src dest false st0 = Ok (false, st2) /\
        message (self st2) = failure_message i ssi /\
        (exists pre post,
            message (self st2) = (pre ++ str i ++ post)%string) /\
        (forall k j, i <= j ->
            position (bpy st2) dest k j = position (bpy st1) dest k j).
Proof.
  intros Hready Hne Hsw Hdw Hspec Hskip.
  destruct (transfer_prologue_in_loop _ _ _ _ _ _ _ _ _ Hready Hne Hsw Hdw Hspec)
    as (extra & st1 & Hrun & Hin & Hc & Ed).
  set (S := setup_of st0 sob dob mwi skbs dm extra) in *.
  exists (map name extra), st1. split; [exact Hrun|].
  intros i Hwl Hi Hbefore.
  destruct (search_of_vertex_inv S st1 i _ _ Hin Hi) as (Hlt & Hcorr & _).
  rewrite (transfer_shape_keys_run _ _ _ _ _ Hrun).
  destruct (while_vertices_abort S i Hskip Hwl Hlt (eq_sym Hcorr) i
              (Datatypes.S (total_vertices (self st1)
                            - current_vertex_index (self st1))) st1 Hin)
    as (st2 & ssi & Hloop & Hmsg & Hframe).
  - now rewrite Hc.
  - intros j [_ Hj]. destruct (Hbefore j Hj) as (vs & Hs & Hvs).
    destruct (search_of_vertex_inv S st1 j _ _ Hin Hs) as (_ & E & _).
    congruence.
  - rewrite (il_total S st1 Hin). lia.
  - exists st2, ssi. split; [exact Hloop|]. split; [exact Hmsg|]. split.
    + rewrite Hmsg. unfold failure_message. eauto.
    + intros k j Hj. rewrite <- Ed. now apply Hframe.
Qed.

(** C5: with [skip_vertices_with_no_pair] true, [transfer_shape_keys]
    returns [True] with the success message whatever the searches return,
    and a destination vertex whose search returns empty has, in every key of
    the destination, the position it had when the keys to transfer had just
    been created. *)
Theorem transfer_skips_unmatched_vertices
    (st0 : State) (src dest : nat) (sob dob : Object) (mwi : Matrix)
    (sm dm : Mesh) (skbs : list ShapeKey) :
  Ready st0 src dest sob dob mwi sm dm skbs ->
  src <> dest ->
  mesh_wf sm -> mesh_wf dm ->
  specify_end_vertex (self st0) = false ->
  skip_vertices_with_no_pair (self st0) = true ->
  exists wl st1 st2,
    transfer_prologue src dest st0 = Ok (Some wl, st1) /\
    transfer_shape_keys src dest false st0 = Ok (true, st2) /\
    message (self st2) = "Transferred Shape Keys successfully!" /\
    forall i,
      search_of_vertex i st1 = Ok ([], st1) ->
      forall k, position (bpy st2) dest k i = position (bpy st1) dest k i.
Proof.
  intros Hready Hne Hsw Hdw Hspec Hskip.
  destruct (transfer_prologue_in_loop _ _ _ _ _ _ _ _ _ Hready Hne Hsw Hdw Hspec)
    as (extra & st1 & Hrun & Hin & Hc & Ed).
  set (S := setup_of st0 sob dob mwi skbs dm extra) in *.
  destruct (while_vertices_skip S Hskip
              (Datatypes.S (total_vertices (self st1)
                            - current_vertex_index (self st1))) st1 Hin)
    as (st2 & Hloop & Hmsg & Hframe).
  { rewrite (il_total S st1 Hin). lia. }
  exists (map name extra), st1, st2. split; [exact Hrun|].
  split; [now rewrite (transfer_shape_keys_run _ _ _ _ _ Hrun)|].
  split; [exact Hmsg|].
  intros i Hi k.
  destruct (search_of_vertex_inv S st1 i _ _ Hin Hi) as (_ & Hcorr & _).
  rewrite <- Ed. apply Hframe. right. now symmetry.
Qed.

(** C10 (as amended): with [skip_vertices_with_no_pair] true and a worklist
    of [n >= 1] keys, a turn of the loop that starts on a vertex [i] whose
    search returns empty writes nothing and moves the cursor to
    [min (i + n) total_vertices + 1]: once by line 138 for each key for
    which the cursor is still below [total_vertices] (the test of line
    127), and once by line 223.  That is [i + n + 1] when
    [i + n <= total_vertices].  The loop then runs to its end and leaves
    the vertices [i], ..., [i + n] as they were, in every key. *)
Theorem unmatched_vertex_advances_cursor
    (S : Setup) (st : State) (i : nat) :
  InLoop S st ->
  s_skip S = true ->
  s_worklist S <> [] ->
  current_vertex_index (self st) = i ->
  search_of_vertex i st = Ok ([], st) ->
  let n := List.length (s_worklist S) in
  exists st1,
    while_body (s_worklist S) st = Ok (false, st1) /\
    current_vertex_index (self st1) = Nat.min (i + n) (s_total S) + 1 /\
    (i + n <= s_total S -> current_vertex_index (self st1) = i + n + 1) /\
    bpy st1 = bpy st /\
    forall fuel,
      s_total S - i < fuel ->
      exists st2,
        while_vertices fuel (s_worklist S) st = Ok (true, st2) /\
        forall k j, j <= i + n ->
          position (bpy st2) (ob_data (s_dest S)) k j
          = position (bpy st) (ob_data (s_dest S)) k j.
Proof.
  intros Hin Hskip Hwl Hc Hi n.
  destruct (search_of_vertex_inv S st i _ _ Hin Hi) as (Hlt & Hcorr & _).
  destruct (s_worklist S) as [|nm rest] eqn:E; [congruence|].
  destruct (while_body_unmatched S st i nm rest Hin E Hc Hlt (eq_sym Hcorr))
    as (st1 & ssi & Hb & Hrest).
  rewrite Hskip, E in Hrest. destruct Hrest as (Hbody & Hin1 & Hc1).
  fold n in Hc1.
  exists st1. split; [exact Hbody|]. split; [exact Hc1|].
  split; [intros; lia|]. split; [exact Hb|].
  intros fuel Hf. destruct fuel as [|fuel]; [lia|].
  destruct (while_vertices_skip S Hskip fuel st1 Hin1)
    as (st2 & Hloop & _ & Hframe).
  { lia. }
  rewrite E in Hloop.
  exists st2. split.
  - simpl. unfold bind at 1, get_self at 1. cbv beta iota.
    rewrite (il_total S st Hin), Hc.
    replace (i <? s_total S)%nat with true by (symmetry; apply Nat.ltb_lt; lia).
    rewrite (bind_Ok _ _ _ _ _ Hbody). exact Hloop.
  - intros k j Hj. rewrite <- Hb. apply Hframe.
    destruct (Nat.lt_ge_cases j (s_total S)) as [Hjt|Hjt]; [left; lia|].
    right. unfold correspondence, vertex_world.
    destruct (dest_basis_in_loop S st Hin) as (_ & _ & _ & _ & _ & Hlen).
    replace (nth_error (s_dest_basis S) j) with (@None Vector)
      by (symmetry; apply nth_error_None; lia).
    reflexivity.
Qed.

End Transfer.

(** * The theorems at work on the exact implementation *)

Module ExactFacts.

Import QArith Qcanon Exact ExactScenes.
Local Open Scope nat_scope.

#[export] Instance QExactVectors : ExactVectors QMathutils.
Proof.
  assert (Hone : qc (Z.of_nat 1) = 1%Qc) by (apply Qc_is_canon; reflexivity).
  assert (Hdiv : forall x : Qc, (x / qc (Z.of_nat 1))%Qc = x).
  { intros x. rewrite Hone. unfold Qcdiv.
    replace (/ 1)%Qc with 1%Qc by (apply Qc_is_canon; reflexivity).
    apply Qcmult_1_r. }
  constructor.
  - intros [[x y] z]. simpl. now rewrite !Qcplus_0_l.
  - intros [[a b] c] [[x y] z]. simpl.
    now rewrite (Qcplus_comm a x), (Qcplus_comm b y), (Qcplus_comm c z).
  - intros [[x y] z]. simpl. unfold qvdiv. now rewrite !Hdiv.
Qed.

Lemma head_ready skip :
  Ready (head_state skip) 0 1 (mkObject 0 identity) (mkObject 1 identity)
        (match qinverted identity with Some m => m | None => identity end)
        (mkMesh face_basis (Some (mkKey face_keys)))
        (mkMesh head_vertices (Some (mkKey [basis_key head_vertices])))
        face_keys.
Proof. constructor; reflexivity. Defined.

Lemma face_mesh_wf : mesh_wf (mkMesh face_basis (Some (mkKey face_keys))).
Proof. split; [discriminate|repeat constructor]. Defined.

Lemma head_mesh_wf :
  mesh_wf (mkMesh head_vertices (Some (mkKey [basis_key head_vertices]))).
Proof. split; [discriminate|repeat constructor]. Defined.

(** A run whose value is known leaves the state [state_after] names. *)
Lemma run_state_after {A} (c : M A) (st : State) (a : A) :
  value (c st) = Ok a -> c st = Ok (a, state_after c st).
Proof.
  unfold value, state_after. destruct (c st) as [[a' st']| |]; simpl.
  - intros H. injection H as ->. reflexivity.
  - discriminate.
  - discriminate.
Qed.

(** ** C1 *)

(** The two source vertices at distance 1 from the center are both in
    range, and [select_vertices] returns the second of them. *)
Lemma select_vertices_tie_not_lowest :
  use_one_vertex (self tie_state) = true /\
  src_basis tie_state = Some tie_basis /\
  (let dist (v : QVector) := qlength (qvsub v (qmatmul identity (vec 0 0 0))) in
   let r := qvsub (qmatmul identity (qvadd (vec 0 0 0) (0, 0, qc 2)%Qc))
                  (qmatmul identity (vec 0 0 0)) in
   this (dist (vec 1 0 0)) = 1%Q /\ this (dist (vec (-1) 0 0)) = 1%Q /\
   this (dist (vec 3 0 0)) = 9%Q /\ this (qlength r) = 4%Q) /\
  select_vertices (vec 0 0 0) (qc 2) tie_state = Ok ([1], tie_state) /\
  [1] <> [0].
Proof.
  split; [reflexivity|]. split; [reflexivity|].
  split; [repeat split; reflexivity|].
  split; [reflexivity|discriminate].
Qed.

Lemma select_vertices_tie_last_wins_witness :
  select_vertices (vec 0 0 0) (qc 2) tie_state = Ok ([1], tie_state).
Proof.
  apply (select_vertices_tie_last_wins tie_state identity tie_basis
           (vec 0 0 0) (qc 2) 1 (vec (-1) 0 0)
           (qlength (qvsub (vec (-1) 0 0) (qmatmul identity (vec 0 0 0))))).
  - reflexivity.
  - reflexivity.
  - reflexivity.
  - reflexivity.
  - reflexivity.
  - vm_compute. reflexivity.
  - vm_compute. reflexivity.
  - intros [|[|[|j]]] vj Hj Hin; simpl in Hj.
    + injection Hj as <-. left. apply Qc_is_canon. reflexivity.
    + injection Hj as <-. left. reflexivity.
    + injection Hj as <-. vm_compute in Hin. discriminate.
    + destruct j; discriminate.
  - intros [|[|[|j]]] vj Hj Hd; simpl in Hj.
    + lia.
    + lia.
    + injection Hj as <-. apply (f_equal this) in Hd. vm_compute in Hd.
      discriminate.
    + destruct j; discriminate.
Defined.

(** ** C7 and C9 *)

(** A thousand retries that find nothing on an interpreter with a thousand
    calls left: the search does not return the empty list, it raises. *)
Lemma select_required_verts_deep_raises :
  (0 <= number_of_increments (self deep_state))%Z /\
  src_basis deep_state = Some tie_basis /\
  value (select_required_verts (PY := unlimited) (vec 5000 0 0) 0%Qc 0
           deep_state) = Ok [] /\
  value (select_required_verts (PY := thousand_left) (vec 5000 0 0) 0%Qc 0
           deep_state) = Raise RecursionError /\
  Raise RecursionError <> @Ok (list nat) [].
Proof.
  split; [vm_compute; discriminate|]. split; [reflexivity|].
  split; [vm_compute; reflexivity|]. split; [vm_compute; reflexivity|].
  discriminate.
Qed.

Lemma select_required_verts_retries_witness :
  (exists vs,
      select_required_verts (PY := thousand_left) (vec 50 0 0) 0%Qc 0 tie_state
      = Ok (vs, tie_state))
  /\ select_required_verts (PY := thousand_left) (vec 50 0 0) 0%Qc 0 tie_state
     = Ok ([], tie_state).
Proof.
  destruct (select_required_verts_retries thousand_left tie_state identity
              tie_basis (vec 50 0 0) 0%Qc) as ((Hret & _ & Hnone) & _).
  - reflexivity.
  - reflexivity.
  - vm_compute. discriminate.
  - vm_compute. lia.
  - split; [exact Hret|]. apply Hnone.
    intros [|[|[|j]]] Hj; try reflexivity.
    simpl in Hj. lia.
Defined.

Lemma search_deterministic_and_pure_witness :
  exists vs,
    select_required_verts (vec 0 0 0) 0%Qc 0 tie_state = Ok (vs, tie_state)
    /\ select_required_verts (vec 0 0 0) 0%Qc 0 tie_state_later
       = Ok (vs, tie_state_later).
Proof.
  exact (proj1 (proj2 (search_deterministic_and_pure tie_state tie_state_later
                         identity tie_basis eq_refl eq_refl eq_refl eq_refl
                         eq_refl eq_refl eq_refl (vec 0 0 0) 0%Qc 0%Z))).
Defined.

(** ** C2 and C3 *)

(** "Smile" is a key of the source and of the destination and passes the
    inclusion policy, and the worklist is empty: the transfer leaves the
    "Smile" key of the destination as it was. *)
Lemma existing_key_left_out_of_worklist :
  In "Smile"%string (mesh_names (bpy smiling_state) 0) /\
  In "Smile"%string (mesh_names (bpy smiling_state) 1) /\
  selected (listUse (bpy smiling_state))
           (excluded_shape_keys (self smiling_state))
           (default_excluded_keys (self smiling_state)) "Smile" = true /\
  value (transfer_prologue 0 1 smiling_state) = Ok (Some []) /\
  ~ In "Smile"%string [] /\
  value (transfer_shape_keys 0 1 false smiling_state) = Ok true /\
  position (bpy (state_after (transfer_shape_keys 0 1 false) smiling_state))
           1 1 0 = Some (vec 0 0 0).
Proof.
  split; [simpl; auto|]. split; [simpl; auto|].
  split; [reflexivity|]. split; [vm_compute; reflexivity|].
  split; [intros []|]. split; vm_compute; reflexivity.
Qed.

Lemma provisioning_skips_existing_witness :
  exists wl st1,
    transfer_prologue 0 1 (head_state false) = Ok (Some wl, st1) /\
    ~ In "Basis"%string wl /\
    count_occ string_dec (mesh_names (bpy st1) 1) "Basis"%string
    = count_occ string_dec (mesh_names (bpy (head_state false)) 1) "Basis"%string.
Proof.
  apply (provisioning_skips_existing (head_state false) 0 1 _ _ _ _ _ _
           "Basis"%string (head_ready false)).
  simpl. auto.
Defined.

Lemma provisioning_all_exactly_once_witness :
  exists wl st1,
    transfer_prologue 0 1 (head_state false) = Ok (Some wl, st1) /\
    wl = ["Smile"%string] /\
    mesh_names (bpy st1) 1 = ["Basis"; "Smile"]%string.
Proof.
  destruct (provisioning_all_exactly_once (head_state false) 0 1 _ _ _ _ _ _
              (head_ready false) eq_refl)
    as (wl & st1 & Hrun & _ & _ & Hscenario).
  exists wl, st1. split; [exact Hrun|].
  apply Hscenario.
  - reflexivity.
  - reflexivity.
  - simpl. auto.
  - simpl. intros [H|[H|[H|[]]]]; discriminate.
Defined.

(** ** C6 and C8 *)

Lemma update_vertex_single_match_witness :
  exists st2,
    update_vertex single_match_state = Ok (false, st2) /\
    position (bpy st2) 1 1 2
    = Some (qvadd (vec 10 0 0) (qvsub (vec 10 2 0) (vec 10 0 0))).
Proof.
  refine (update_vertex_single_match QExactVectors single_match_state
           (state_after cache_correspondence single_match_state) 1
           face_keys (basis_key face_basis) (@mkShapeKey QMathutils "Smile" face_smile)
           (vec 10 0 0) (vec 10 2 0)
           (qmatmul identity (vec 10 0 0)) (vec 10 0 0) (@mkObject QMathutils 1 identity)
           _ _ _ _ _ _ _ _ _ _ _).
  - vm_compute. lia.
  - apply run_state_after. vm_compute. reflexivity.
  - vm_compute. reflexivity.
  - reflexivity.
  - reflexivity.
  - reflexivity.
  - reflexivity.
  - reflexivity.
  - vm_compute. reflexivity.
  - reflexivity.
  - reflexivity.
Defined.

Lemma update_vertex_pair_average_witness :
  exists st2 st2',
    update_vertex pair_match_state = Ok (false, st2) /\
    update_vertex
      (mkState (set_src_chosen_vertices [1; 0] (self pair_match_state))
               (bpy pair_match_state)) = Ok (false, st2') /\
    position (bpy st2) 1 1 2
    = Some (qvadd (qvsub (qvdiv (qvadd (vec 0 1 0) (vec 10 2 0)) 2)
                         (qvdiv (qvadd (vec 0 0 0) (vec 10 0 0)) 2))
                  (vec 5 0 0)) /\
    bpy st2' = bpy st2.
Proof.
  apply (update_vertex_pair_average QExactVectors pair_match_state 0 1
           face_keys (basis_key face_basis) (@mkShapeKey QMathutils "Smile" face_smile)
           (vec 0 0 0) (vec 10 0 0) (vec 0 1 0) (vec 10 2 0) (vec 5 0 0)
           (vec 10 0 0) (@mkObject QMathutils 1 identity)).
  - reflexivity.
  - vm_compute. lia.
  - reflexivity.
  - reflexivity.
  - reflexivity.
  - reflexivity.
  - reflexivity.
  - reflexivity.
  - reflexivity.
  - reflexivity.
  - reflexivity.
  - reflexivity.
  - reflexivity.
Defined.

(** ** C4 and C5 *)

Lemma transfer_aborts_at_unmatched_vertex_witness :
  exists wl st1,
    transfer_prologue 0 1 (head_state false) = Ok (Some wl, st1) /\
    forall i,
      wl <> [] ->
      search_of_vertex i st1 = Ok ([], st1) ->
      (forall j, j < i ->
         exists vs, search_of_vertex j st1 = Ok (vs, st1) /\ vs <> []) ->
      exists st2 ssi,
        transfer_shape_keys 0 1 false (head_state false) = Ok (false, st2) /\
        message (self st2) = failure_message i ssi /\
        (exists pre post,
            message (self st2) = (pre ++ str i ++ post)%string) /\
        (forall k j, i <= j ->
            position (bpy st2) 1 k j = position (bpy st1) 1 k j).
Proof.
  apply (transfer_aborts_at_unmatched_vertex (head_state false) 0 1 _ _ _ _ _ _
           (head_ready false)).
  - lia.
  - exact face_mesh_wf.
  - exact head_mesh_wf.
  - reflexivity.
  - reflexivity.
Defined.

(** The destination has every key of the source, so there is no key to
    transfer: the search of vertex 1 returns empty, [skip_vertices_with_no_pair]
    is false, and the transfer does not abort but returns [True] with the
    message of line 224. *)
Lemma transfer_without_keys_does_not_abort :
  let st1 := state_after (transfer_prologue 0 1) smiling_state in
  let st2 := state_after (transfer_shape_keys 0 1 false) smiling_state in
  skip_vertices_with_no_pair (self smiling_state) = false /\
  value (transfer_prologue 0 1 smiling_state) = Ok (Some []) /\
  value (search_of_vertex 1 st1) = Ok [] /\
  value (transfer_shape_keys 0 1 false smiling_state) = Ok true /\
  message (self st2) = "Transferred Shape Keys successfully!"%string /\
  true <> false.
Proof.
  split; [reflexivity|]. split; [vm_compute; reflexivity|].
  split; [vm_compute; reflexivity|]. split; [vm_compute; reflexivity|].
  split; [vm_compute; reflexivity|discriminate].
Qed.

(** The run of the theorem above: vertex 0 is written, the search of vertex
    1 returns empty, the transfer fails naming vertex 1, and vertex 2 keeps
    its position. *)
Example transfer_aborts_run :
  let st1 := state_after (transfer_prologue 0 1) (head_state false) in
  let st2 := state_after (transfer_shape_keys 0 1 false) (head_state false) in
  value (transfer_prologue 0 1 (head_state false)) = Ok (Some ["Smile"%string]) /\
  value (search_of_vertex 0 st1) = Ok [0] /\
  value (search_of_vertex 1 st1) = Ok [] /\
  value (transfer_shape_keys 0 1 false (head_state false)) = Ok false /\
  message (self st2) = failure_message 1 1 /\
  position (bpy st2) 1 1 0 = Some (vec 0 1 0) /\
  position (bpy st2) 1 1 1 = Some (vec 100 0 0) /\
  position (bpy st2) 1 1 2 = Some (vec 10 0 0).
Proof. repeat split; vm_compute; reflexivity. Qed.

Lemma transfer_skips_unmatched_vertices_witness :
  exists wl st1 st2,
    transfer_prologue 0 1 (head_state true) = Ok (Some wl, st1) /\
    transfer_shape_keys 0 1 false (head_state true) = Ok (true, st2) /\
    message (self st2) = "Transferred Shape Keys successfully!"%string /\
    forall i,
      search_of_vertex i st1 = Ok ([], st1) ->
      forall k, position (bpy st2) 1 k i = position (bpy st1) 1 k i.
Proof.
  apply (transfer_skips_unmatched_vertices (head_state true) 0 1 _ _ _ _ _ _
           (head_ready true)).
  - lia.
  - exact face_mesh_wf.
  - exact head_mesh_wf.
  - reflexivity.
  - reflexivity.
Defined.

(** The run of the theorem above.  Vertex 2 has a correspondence, but it
    follows the unmatched vertex 1 and keeps its position too. *)
Example transfer_skips_run :
  let st1 := state_after (transfer_prologue 0 1) (head_state true) in
  let st2 := state_after (transfer_shape_keys 0 1 false) (head_state true) in
  value (search_of_vertex 1 st1) = Ok [] /\
  value (search_of_vertex 2 st1) = Ok [1] /\
  value (transfer_shape_keys 0 1 false (head_state true)) = Ok true /\
  message (self st2) = "Transferred Shape Keys successfully!"%string /\
  position (bpy st2) 1 1 0 = Some (vec 0 1 0) /\
  position (bpy st2) 1 1 1 = Some (vec 100 0 0) /\
  position (bpy st2) 1 1 2 = Some (vec 10 0 0).
Proof. repeat split; vm_compute; reflexivity. Qed.

(** ** C10 *)

(** One vertex, two keys: the turn of the loop that starts on the unmatched
    vertex 0 moves the cursor by 2, not by 3. *)
Lemma cursor_advance_is_capped :
  skip_vertices_with_no_pair (self lonely_loop) = true /\
  value (transfer_prologue 0 1 lonely_state) = Ok (Some ["A"; "B"]%string) /\
  total_vertices (self lonely_loop) = 1 /\
  current_vertex_index (self lonely_loop) = 0 /\
  value (search_of_vertex 0 lonely_loop) = Ok [] /\
  value (while_body ["A"; "B"]%string lonely_loop) = Ok false /\
  current_vertex_index
    (self (state_after (while_body ["A"; "B"]%string) lonely_loop)) = 2 /\
  2 <> 0 + (List.length ["A"; "B"]%string + 1).
Proof.
  repeat split; try (vm_compute; reflexivity). simpl. lia.
Qed.

Lemma far_first_in_loop : InLoop far_first_setup far_first_loop.
Proof.
  constructor; try reflexivity.
  - simpl. lia.
  - do 2 eexists. split; [reflexivity|]. repeat constructor.
  - exists [basis_key far_first_vertices;
            @mkShapeKey QMathutils "Smile" far_first_vertices].
    split; [reflexivity|].
    split; [reflexivity|]. split; [repeat constructor|reflexivity].
  - constructor; [|constructor]. unfold listed. simpl.
    split; [auto|]. split; [auto|]. discriminate.
Defined.

Lemma unmatched_vertex_advances_cursor_witness :
  exists st1,
    while_body ["Smile"%string] far_first_loop = Ok (false, st1) /\
    current_vertex_index (self st1) = 2 /\
    bpy st1 = bpy far_first_loop /\
    forall fuel,
      3 < fuel ->
      exists st2,
        while_vertices fuel ["Smile"%string] far_first_loop = Ok (true, st2) /\
        forall k j, j <= 1 ->
          position (bpy st2) 1 k j = position (bpy far_first_loop) 1 k j.
Proof.
  destruct (unmatched_vertex_advances_cursor far_first_setup far_first_loop 0
              far_first_in_loop)
    as (st1 & Hbody & Hc & _ & Hb & Hloop).
  - reflexivity.
  - discriminate.
  - reflexivity.
  - reflexivity.
  - exists st1. split; [exact Hbody|]. split; [exact Hc|]. split; [exact Hb|].
    intros fuel Hf. apply (Hloop fuel). simpl. lia.
Defined.

End ExactFacts.

(** * More of [transfer_shape_keys]: the keys it adds and the ways it ends *)

Section Worklist.

Context {MU : Mathutils}.

(** The names of the destination keys when the loop of lines 191-209 starts:
    those of the mesh, or "Basis" alone after line 189. *)
Lemma initial_names_view b dest dm :
  nth_error (meshes b) dest = Some dm ->
  map name (initial_dest_blocks dm)
  = match shape_keys dm with
    | Some _ => mesh_names b dest
    | None => ["Basis"]
    end.
Proof.
  intros Hdm. unfold initial_dest_blocks, mesh_names, mesh_key_blocks.
  rewrite Hdm. destruct (shape_keys dm); reflexivity.
Qed.

Lemma selected_by_mode mode excluded default_excluded n :
  selected mode excluded default_excluded n = true <->
  ~ In n default_excluded /\
  match mode with
  | all => True
  | include => In n excluded
  | exclude => ~ In n excluded
  end.
Proof.
  unfold selected. destruct mode.
  - rewrite negb_true_iff, mem_false. tauto.
  - rewrite andb_true_iff, negb_true_iff, mem_In, mem_false. tauto.
  - rewrite andb_true_iff, !negb_true_iff, !mem_false. tauto.
Qed.

Lemma provision_by_mode mode excluded default_excluded src_names dest_names n :
  In n (provision mode excluded default_excluded src_names dest_names) <->
  In n src_names /\ ~ In n dest_names /\ ~ In n default_excluded /\
  match mode with
  | all => True
  | include => In n excluded
  | exclude => ~ In n excluded
  end.
Proof.
  rewrite <- selected_by_mode. split.
  - intros Hin. split; [|split].
    + now apply provision_selected in Hin.
    + now apply provision_not_on_dest in Hin.
    + now apply provision_selected in Hin.
  - intros (Hs & Hd & Hsel). now apply provision_complete.
Qed.

(** In every mode the loop of lines 191-209 puts a name on the worklist
    exactly when it names a source key, no destination key carries it (the
    "Basis" key of line 189 counts), it is not in [default_excluded_keys],
    and the list of the user agrees: with 'include' the name is in
    [excluded_shape_keys], with 'exclude' it is not, with 'all' the list is
    not looked at. *)
Theorem worklist_membership_by_mode
    (st : State) (src dest : nat) (sob dob : Object) (mwi : Matrix)
    (sm dm : Mesh) (skbs : list ShapeKey) :
  Ready st src dest sob dob mwi sm dm skbs ->
  exists wl st1,
    transfer_prologue src dest st = Ok (Some wl, st1) /\
    forall n,
      In n wl <->
      In n (mesh_names (bpy st) src) /\
      ~ In n (match shape_keys dm with
              | Some _ => mesh_names (bpy st) dest
              | None => ["Basis"]
              end) /\
      ~ In n (default_excluded_keys (self st)) /\
      match listUse (bpy st) with
      | all => True
      | include => In n (excluded_shape_keys (self st))
      | exclude => ~ In n (excluded_shape_keys (self st))
      end.
Proof.
  intros HR.
  destruct (transfer_prologue_eq _ _ _ _ _ _ _ _ _ HR)
    as (extra & st1 & Hrun & Hp & _).
  destruct HR as [_ _ _ Hsm Hdm Hk].
  exists (map name extra), st1. split; [exact Hrun|].
  intros n. rewrite Hp.
  rewrite (mesh_names_of_mesh _ _ _ _ Hsm Hk).
  rewrite <- (initial_names_view _ _ _ Hdm).
  apply provision_by_mode.
Qed.

(** The keys the loop of lines 191-209 adds go after the keys the
    destination has, in the order of the worklist, which holds no name
    twice; the keys the destination had keep their places. *)
Theorem worklist_appended_in_order
    (st : State) (src dest : nat) (sob dob : Object) (mwi : Matrix)
    (sm dm : Mesh) (skbs : list ShapeKey) :
  Ready st src dest sob dob mwi sm dm skbs ->
  exists wl st1,
    transfer_prologue src dest st = Ok (Some wl, st1) /\
    NoDup wl /\
    mesh_names (bpy st1) dest
    = match shape_keys dm with
      | Some _ => mesh_names (bpy st) dest
      | None => ["Basis"]
      end ++ wl.
Proof.
  intros HR.
  destruct (transfer_prologue_eq _ _ _ _ _ _ _ _ _ HR)
    as (extra & st1 & Hrun & Hp & _ & _ & _ & _ & Hmesh & _).
  destruct HR as [_ _ _ Hsm Hdm Hk].
  exists (map name extra), st1. split; [exact Hrun|]. split.
  - rewrite Hp. apply provision_NoDup.
  - rewrite (mesh_names_of_mesh _ _ _ _ Hmesh eq_refl), map_app.
    now rewrite (initial_names_view _ _ _ Hdm).
Qed.

End Worklist.

Section Endings.

Context {MU : Mathutils}.

(** Lines 170-172 with no object for the source mesh: [get_parent] returns
    [None] and [self.src_mesh.matrix_world] raises AttributeError, before
    the test of line 179 that would have reported invalid meshes. *)
Theorem transfer_source_without_object_raises
    (st : State) (src dest : nat) (copy_only : bool) :
  find (fun ob => Nat.eqb (ob_data ob) src) (objects (bpy st)) = None ->
  transfer_shape_keys src dest copy_only st = Raise AttributeError.
Proof.
  intros Hs. unfold transfer_shape_keys, transfer_prologue, get_parent.
  unfold bind, get_bpy, ret, assign, attr, raise. cbn [bpy self].
  rewrite Hs. destruct (find _ (objects (bpy st))); reflexivity.
Qed.

(** Line 172 with a world matrix that has no inverse: [inverted()] raises
    ValueError and nothing of the scene is changed. *)
Theorem transfer_singular_source_matrix_raises
    (st : State) (src dest : nat) (copy_only : bool) (sob : Object) :
  find (fun ob => Nat.eqb (ob_data ob) src) (objects (bpy st)) = Some sob ->
  inverted (matrix_world sob) = None ->
  transfer_shape_keys src dest copy_only st = Raise ValueError.
Proof.
  intros Hs Hi. unfold transfer_shape_keys, transfer_prologue, get_parent.
  unfold bind, get_bpy, ret, assign, attr, raise. cbn [bpy self].
  rewrite Hs. unfold ret. rewrite Hi. reflexivity.
Qed.

(** Lines 179-181: when the source mesh has an object and the destination
    mesh has none, the call returns [False] with the message of line 180 and
    leaves the scene as it is. *)
Theorem transfer_destination_without_object
    (st : State) (src dest : nat) (copy_only : bool) (sob : Object)
    (mwi : Matrix) :
  find (fun ob => Nat.eqb (ob_data ob) src) (objects (bpy st)) = Some sob ->
  inverted (matrix_world sob) = Some mwi ->
  find (fun ob => Nat.eqb (ob_data ob) dest) (objects (bpy st)) = None ->
  exists st',
    transfer_shape_keys src dest copy_only st = Ok (false, st') /\
    message (self st') = "The meshes are not valid!" /\
    bpy st' = bpy st.
Proof.
  intros Hs Hi Hd. eexists.
  unfold transfer_shape_keys, transfer_prologue, get_parent.
  unfold bind, get_bpy, ret, assign, attr, raise. cbn [bpy self].
  rewrite Hs, Hd. unfold ret. rewrite Hi. cbn [bpy self].
  split; [reflexivity|]. split; reflexivity.
Qed.

(** Lines 184-186: when the source mesh has no shape keys the call returns
    [False] with the message of line 185; the destination gets no key, not
    even the "Basis" key of line 189, and the scene is as it was. *)
Theorem transfer_source_without_shape_keys
    (st : State) (src dest : nat) (copy_only : bool) (sob dob : Object)
    (mwi : Matrix) (sm dm : Mesh) :
  find (fun ob => Nat.eqb (ob_data ob) src) (objects (bpy st)) = Some sob ->
  inverted (matrix_world sob) = Some mwi ->
  find (fun ob => Nat.eqb (ob_data ob) dest) (objects (bpy st)) = Some dob ->
  nth_error (meshes (bpy st)) src = Some sm ->
  nth_error (meshes (bpy st)) dest = Some dm ->
  shape_keys sm = None ->
  exists st',
    transfer_shape_keys src dest copy_only st = Ok (false, st') /\
    message (self st') = "There are no Shape Keys in the source mesh!" /\
    bpy st' = bpy st.
Proof.
  intros Hs Hi Hd Hsm Hdm Hk.
  assert (Es : ob_data sob = src).
  { apply find_some in Hs. now apply Nat.eqb_eq. }
  assert (Ed : ob_data dob = dest).
  { apply find_some in Hd. now apply Nat.eqb_eq. }
  destruct (specify_end_vertex (self st)) eqn:Hv; eexists;
    unfold transfer_shape_keys, transfer_prologue, get_parent;
    unfold bind, get_bpy, ret, assign, attr, raise; cbn [bpy self];
    rewrite Hs, Hd; unfold ret; rewrite Hi; cbn [bpy self];
    unfold get_self, deref, bind, get_bpy, ret, assign;
    cbn [bpy self specify_end_vertex set_current_vertex_index set_src_mwi
         set_dest_mesh set_src_mesh];
    rewrite Hv; cbn [negb bpy self];
    rewrite ?Es, ?Ed, ?Hdm; cbn [bpy self]; rewrite ?Es, Hsm, Hk;
    cbn [bpy self message set_message];
    (split; [reflexivity|split; reflexivity]).
Qed.

End Endings.

Section NothingToBlend.

Context {MU : Mathutils}.

Lemma provision_all_present mode excluded default_excluded src_names :
  forall dest_names,
    (forall n, In n src_names -> In n dest_names) ->
    provision mode excluded default_excluded src_names dest_names = [].
Proof.
  induction src_names as [|nm rest IH]; intros dest_names Hall; [reflexivity|].
  simpl. replace (mem nm dest_names) with true.
  - apply IH. intros n Hn. apply Hall. now right.
  - symmetry. apply mem_In. apply Hall. now left.
Qed.

Lemma map_name_nil (l : list ShapeKey) : map name l = [] -> l = [].
Proof. now destruct l. Qed.

(** With no key on the worklist the loop of lines 216-223 only counts the
    vertices. *)
Lemma while_vertices_nil :
  forall fuel st,
    total_vertices (self st) - current_vertex_index (self st) < fuel ->
    exists st',
      while_vertices fuel [] st = Ok (true, st')
      /\ bpy st' = bpy st
      /\ message (self st') = "Transferred Shape Keys successfully!".
Proof.
  induction fuel as [|fuel IH]; intros st Hf; [lia|].
  simpl. unfold bind at 1, get_self at 1. cbv beta iota.
  destruct (Nat.ltb_spec (current_vertex_index (self st))
                         (total_vertices (self st))) as [Hlt|Hge].
  - unfold while_body, bind, assign, get_self, ret. simpl for_each_key.
    unfold ret. cbv beta iota. cbn [self bpy].
    match goal with
    | |- exists st', while_vertices fuel [] ?s = _ /\ _ =>
        destruct (IH s) as (st' & Hrun & Hb & Hm)
    end.
    + cbn [self total_vertices current_vertex_index set_current_vertex_index
           set_do_once_per_vertex]. lia.
    + exists st'. split; [exact Hrun|]. split; [exact Hb|exact Hm].
  - unfold bind, assign, ret. eexists. split; [reflexivity|].
    cbn [self bpy]. split; reflexivity.
Qed.

(** The scene the prologue leaves when it adds no key to a destination that
    has shape keys is the scene it started from. *)
Lemma prologue_scene_unchanged (b b1 : Bpy) dest dm dk :
  nth_error (meshes b) dest = Some dm ->
  shape_keys dm = Some dk ->
  objects b1 = objects b ->
  listUse b1 = listUse b ->
  (forall mesh', mesh' <> dest ->
      nth_error (meshes b1) mesh' = nth_error (meshes b) mesh') ->
  nth_error (meshes b1) dest
  = Some (mkMesh (vertices dm) (Some (mkKey (initial_dest_blocks dm ++ [])))) ->
  b1 = b.
Proof.
  intros Hdm Hk Ho Hl Hx Hd.
  assert (Hm : meshes b1 = meshes b).
  { apply nth_error_ext. intros n.
    destruct (Nat.eq_dec n dest) as [->|Hne]; [|now apply Hx].
    rewrite Hd, Hdm. unfold initial_dest_blocks. rewrite Hk, app_nil_r.
    destruct dm as [vs sk]. simpl in *. subst sk. now destruct dk. }
  destruct b1, b. simpl in *. congruence.
Qed.

(** The comment of lines 166-168: when every key of the source is already a
    key of the destination, the worklist is empty and the call returns
    [True] without a search and without writing a position, whatever the
    settings and whether or not [copy_only] is given; the scene is as it
    was. *)
Theorem transfer_with_every_key_present
    (st : State) (src dest : nat) (sob dob : Object) (mwi : Matrix)
    (sm dm : Mesh) (skbs : list ShapeKey) (dk : Key) (copy_only : bool) :
  Ready st src dest sob dob mwi sm dm skbs ->
  shape_keys dm = Some dk ->
  (forall n, In n (mesh_names (bpy st) src) -> In n (mesh_names (bpy st) dest)) ->
  exists st2,
    transfer_shape_keys src dest copy_only st = Ok (true, st2) /\
    message (self st2)
    = (if copy_only then "Success"
       else "Transferred Shape Keys successfully!") /\
    bpy st2 = bpy st.
Proof.
  intros HR Hdk Hall.
  destruct (transfer_prologue_eq _ _ _ _ _ _ _ _ _ HR)
    as (extra & st1 & Hrun & Hp & _ & Ho & Hl & Hx & Hmesh & _).
  destruct HR as [_ _ _ Hsm Hdm Hk].
  rewrite provision_all_present in Hp.
  2: { intros n Hn. rewrite (initial_names_view _ _ _ Hdm), Hdk.
       apply Hall. now rewrite (mesh_names_of_mesh _ _ _ _ Hsm Hk). }
  apply map_name_nil in Hp. subst extra. simpl map in Hrun.
  assert (Hb : bpy st1 = bpy st)
    by (eapply prologue_scene_unchanged; eauto).
  unfold transfer_shape_keys. rewrite (bind_Ok _ _ _ _ _ Hrun).
  destruct copy_only.
  - unfold bind, assign, ret. eexists. split; [reflexivity|].
    cbn [self bpy]. split; [reflexivity|exact Hb].
  - unfold transfer_vertices, bind at 1, get_self at 1. cbv beta iota.
    destruct (while_vertices_nil
                (S (total_vertices (self st1) - current_vertex_index (self st1)))
                st1) as (st2 & Hloop & Hb2 & Hm); [lia|].
    exists st2. split; [exact Hloop|]. split; [exact Hm|congruence].
Qed.

(** [copy_only] (the "Copy Shape Keys" button): the call returns [True]
    with the message "Success" once the keys of the worklist are added, and
    no position is computed.  The keys the destination had keep their
    positions, every other mesh is as it was, and each added key is as
    [shape_key_add] made it, equal to the first key of the destination. *)
Theorem copy_only_adds_keys_without_blending
    (st : State) (src dest : nat) (sob dob : Object) (mwi : Matrix)
    (sm dm : Mesh) (skbs : list ShapeKey) (dk : Key) :
  Ready st src dest sob dob mwi sm dm skbs ->
  shape_keys dm = Some dk ->
  key_blocks dk <> [] ->
  exists wl st1 st2,
    transfer_prologue src dest st = Ok (Some wl, st1) /\
    transfer_shape_keys src dest true st = Ok (true, st2) /\
    message (self st2) = "Success" /\
    mesh_names (bpy st2) dest = mesh_names (bpy st) dest ++ wl /\
    (forall k j, k < List.length (key_blocks dk) ->
        position (bpy st2) dest k j = position (bpy st) dest k j) /\
    (forall k j,
        List.length (key_blocks dk) <= k
        < List.length (key_blocks dk) + List.length wl ->
        position (bpy st2) dest k j = position (bpy st) dest 0 j) /\
    (forall mesh', mesh' <> dest ->
        nth_error (meshes (bpy st2)) mesh' = nth_error (meshes (bpy st)) mesh').
Proof.
  intros HR Hdk Hne.
  destruct (transfer_prologue_eq _ _ _ _ _ _ _ _ _ HR)
    as (extra & st1 & Hrun & Hp & _ & Ho & Hl & Hx & Hmesh & Hdata & _).
  destruct HR as [_ _ _ Hsm Hdm Hk].
  assert (Hinit : initial_dest_blocks dm = key_blocks dk)
    by (unfold initial_dest_blocks; now rewrite Hdk).
  rewrite Hinit in *.
  exists (map name extra), st1. eexists.
  split; [exact Hrun|].
  unfold transfer_shape_keys. rewrite (bind_Ok _ _ _ _ _ Hrun).
  unfold bind, assign, ret. split; [reflexivity|]. cbn [self bpy].
  split; [reflexivity|].
  assert (Hv : mesh_key_blocks (bpy st1) dest = Some (key_blocks dk ++ extra))
    by (unfold mesh_key_blocks; now rewrite Hmesh).
  assert (Hv0 : mesh_key_blocks (bpy st) dest = Some (key_blocks dk))
    by (unfold mesh_key_blocks; now rewrite Hdm, Hdk).
  split; [|split; [|split; [|exact Hx]]].
  - unfold mesh_names. now rewrite Hv, Hv0, map_app.
  - intros k j Hkl. unfold position. rewrite Hv, Hv0.
    now rewrite nth_error_app1.
  - intros k j Hkl. unfold position. rewrite Hv, Hv0.
    rewrite length_map in Hkl.
    rewrite nth_error_app2 by lia.
    destruct (nth_error extra (k - List.length (key_blocks dk))) as [sk|] eqn:E.
    2: { apply nth_error_None in E. lia. }
    destruct (key_blocks dk) as [|k0 rest] eqn:Ekb; [congruence|].
    simpl. apply nth_error_In in E.
    specialize (Hdata k0 rest eq_refl). rewrite Forall_forall in Hdata.
    now rewrite (Hdata _ E).
Qed.

End NothingToBlend.

(** * More of the search *)

Section SearchResults.

Context {MU : Mathutils}.

Variables (lco r : Vector).

Local Abbreviation dist v := (Vector_length (vsub v lco)).
Local Abbreviation R := (Vector_length r).
Local Abbreviation in_range :=
  (fun iv : nat * Vector => len_le (dist (snd iv)) R).

(** Without [use_one_vertex] the scan appends the index of every vertex in
    range and leaves the other two locals alone. *)
Lemma scan_collects (l : list Vector) :
  forall s ch cl ci,
    fold_left (select_step false lco r) (enumerate_from s l) (ch, cl, ci)
    = (ch ++ map fst (filter in_range (enumerate_from s l)), cl, ci).
Proof.
  induction l as [|v l IH]; intros s ch cl ci; simpl.
  - now rewrite app_nil_r.
  - destruct (len_le (dist v) R).
    + rewrite IH. simpl. now rewrite <- app_assoc.
    + apply IH.
Qed.

Hypothesis le_total : forall a b : Len, len_le a b = true \/ len_le b a = true.
Hypothesis le_trans :
  forall a b c : Len, len_le a b = true -> len_le b c = true -> len_le a c = true.

Lemma scanned_step pre cl ci v ch :
  scanned lco r pre cl ci ->
  exists ch' cl' ci',
    select_step true lco r (ch, cl, ci) (List.length pre, v) = (ch', cl', ci')
    /\ scanned lco r (pre ++ [v]) cl' ci'.
Proof.
  intros Hs. unfold select_step. unfold scanned in *.
  assert (Hlast : nth_error (pre ++ [v]) (List.length pre) = Some v)
    by (rewrite nth_error_app2, Nat.sub_diag by lia; reflexivity).
  assert (Hsplit : forall j vj, nth_error (pre ++ [v]) j = Some vj ->
                     nth_error pre j = Some vj \/ vj = v).
  { intros j vj Hj. destruct (Nat.lt_ge_cases j (List.length pre)) as [Hl|Hl].
    - left. now rewrite nth_error_app1 in Hj.
    - right. rewrite nth_error_app2 in Hj by exact Hl.
      destruct (j - List.length pre) as [|n]; simpl in Hj; [congruence|].
      destruct n; discriminate. }
  destruct (len_le (dist v) R) eqn:Hin.
  - destruct (len_le (dist v) cl) eqn:Hc.
    + do 3 eexists. split; [reflexivity|]. right.
      exists (List.length pre), v.
      split; [reflexivity|]. split; [exact Hlast|]. split; [exact Hin|].
      split; [reflexivity|].
      intros j vj Hj Hr. destruct (Hsplit j vj Hj) as [Hp| ->].
      * destruct Hs as [(_ & _ & Hnone)|(k & vk & _ & _ & _ & _ & Hmin)].
        -- rewrite (Hnone j vj Hp) in Hr. discriminate.
        -- apply (le_trans _ cl); [exact Hc|now apply (Hmin j vj)].
      * destruct (le_total (dist v) (dist v)); assumption.
    + do 3 eexists. split; [reflexivity|].
      destruct Hs as [(_ & Hcl & _)|(k & vk & Hci & Hk & Hrk & Hclk & Hmin)].
      * rewrite Hcl in Hc. congruence.
      * right. exists k, vk. split; [exact Hci|].
        split; [rewrite nth_error_app1; [exact Hk|]|].
        { apply nth_error_Some. congruence. }
        split; [exact Hrk|]. split; [exact Hclk|].
        intros j vj Hj Hr. destruct (Hsplit j vj Hj) as [Hp| ->].
        -- now apply (Hmin j vj).
        -- destruct (le_total (dist v) cl) as [H|H]; [congruence|exact H].
  - do 3 eexists. split; [reflexivity|].
    destruct Hs as [(Hci & Hcl & Hnone)|(k & vk & Hci & Hk & Hrk & Hclk & Hmin)].
    + left. split; [exact Hci|]. split; [exact Hcl|].
      intros j vj Hj. destruct (Hsplit j vj Hj) as [Hp| ->]; [eauto|exact Hin].
    + right. exists k, vk. split; [exact Hci|].
      split; [rewrite nth_error_app1; [exact Hk|]|].
      { apply nth_error_Some. congruence. }
      split; [exact Hrk|]. split; [exact Hclk|].
      intros j vj Hj Hr. destruct (Hsplit j vj Hj) as [Hp| ->].
      * now apply (Hmin j vj).
      * congruence.
Qed.

Lemma scanned_fold (l : list Vector) :
  forall pre ch cl ci,
    scanned lco r pre cl ci ->
    exists ch' cl' ci',
      fold_left (select_step true lco r) (enumerate_from (List.length pre) l)
                (ch, cl, ci) = (ch', cl', ci')
      /\ scanned lco r (pre ++ l) cl' ci'.
Proof.
  induction l as [|v l IH]; intros pre ch cl ci Hs.
  - simpl. rewrite app_nil_r. eauto.
  - cbn [enumerate_from fold_left].
    destruct (scanned_step pre cl ci v ch Hs) as (ch1 & cl1 & ci1 & E & Hs1).
    rewrite E.
    destruct (IH (pre ++ [v]) ch1 cl1 ci1 Hs1) as (ch' & cl' & ci' & E' & Hs').
    rewrite length_app, Nat.add_1_r in E'. rewrite <- app_assoc in Hs'.
    eauto.
Qed.

Lemma select_loop_scanned (basis : list Vector) :
  exists ch cl ci,
    select_loop true lco r basis = (ch, cl, ci) /\ scanned lco r basis cl ci.
Proof.
  unfold select_loop, enumerate.
  apply (scanned_fold basis [] [] R (-1)%Z).
  left. split; [reflexivity|]. split; [reflexivity|].
  intros [|j] vj Hj; discriminate.
Qed.

End SearchResults.

Section SearchTheoremsMore.

Context {MU : Mathutils}.

(** Without [use_one_vertex], [select_vertices] returns the indices of
    exactly the source vertices within the radius, in increasing order. *)
Theorem select_vertices_all_in_range
    (st : State) (mwi : Matrix) (basis : list Vector)
    (center : Vector) (radius : Scalar) :
  use_one_vertex (self st) = false ->
  src_mwi (self st) = Some mwi ->
  src_basis st = Some basis ->
  let lco := matmul mwi center in
  let r := vsub (matmul mwi (vadd center (Vector_00z radius))) lco in
  select_vertices center radius st
  = Ok (map fst
          (filter (fun iv => len_le (Vector_length (vsub (snd iv) lco))
                                    (Vector_length r))
                  (enumerate basis)), st).
Proof.
  intros Hu Hm Hb lco r.
  rewrite (select_vertices_eq st mwi basis center radius Hm Hb), Hu.
  unfold selection, select_loop, enumerate. fold lco. fold r.
  now rewrite scan_collects.
Qed.

(** With [use_one_vertex], [select_vertices] returns the empty list when no
    source vertex is within the radius, and otherwise the index of one
    vertex within the radius that is at least as close to the center as
    every other vertex within the radius.  The comparison of lengths is
    taken to be a total preorder, as it is on floats other than NaN. *)
Theorem select_vertices_nearest
    (le_total : forall a b : Len, len_le a b = true \/ len_le b a = true)
    (le_trans : forall a b c : Len,
        len_le a b = true -> len_le b c = true -> len_le a c = true)
    (st : State) (mwi : Matrix) (basis : list Vector)
    (center : Vector) (radius : Scalar) :
  use_one_vertex (self st) = true ->
  src_mwi (self st) = Some mwi ->
  src_basis st = Some basis ->
  let lco := matmul mwi center in
  let r := vsub (matmul mwi (vadd center (Vector_00z radius))) lco in
  let dist v := Vector_length (vsub v lco) in
  (select_vertices center radius st = Ok ([], st) /\
   forall j vj, nth_error basis j = Some vj ->
                len_le (dist vj) (Vector_length r) = false)
  \/ (exists k vk,
        select_vertices center radius st = Ok ([k], st) /\
        nth_error basis k = Some vk /\
        len_le (dist vk) (Vector_length r) = true /\
        forall j vj, nth_error basis j = Some vj ->
                     len_le (dist vj) (Vector_length r) = true ->
                     len_le (dist vk) (dist vj) = true).
Proof.
  intros Hu Hm Hb lco r dist.
  rewrite (select_vertices_eq st mwi basis center radius Hm Hb), Hu.
  unfold selection. fold lco. fold r.
  destruct (select_loop_scanned lco r le_total le_trans basis)
    as (ch & cl & ci & E & Hs).
  rewrite E.
  destruct Hs as [(Hci & _ & Hnone)|(k & vk & Hci & Hk & Hrk & Hcl & Hmin)].
  - left. subst ci. simpl. split; [reflexivity|exact Hnone].
  - right. exists k, vk. subst ci.
    replace (Z.of_nat k >? -1)%Z with true by (symmetry; apply Z.gtb_lt; lia).
    rewrite Nat2Z.id. split; [reflexivity|]. split; [exact Hk|].
    split; [exact Hrk|]. intros j vj Hj Hr. fold (dist vk).
    change (dist vk) with (Vector_length (vsub vk lco)). rewrite <- Hcl.
    now apply (Hmin j vj).
Qed.

(** On an interpreter with room for the retries the search returns, and
    every index it returns is an index of the source snapshot: the reads of
    lines 146 and 151 of the basis positions are in range. *)
Theorem search_indices_in_range
    (PY : Interpreter) (st : State) (mwi : Matrix) (basis : list Vector)
    (vert : Vector) (rad : Scalar) (level : Z) :
  src_mwi (self st) = Some mwi ->
  src_basis st = Some basis ->
  retries_fit (PY := PY) (self st) level ->
  exists vs,
    select_required_verts (PY := PY) vert rad level st = Ok (vs, st) /\
    Forall (fun v => v < List.length basis) vs.
Proof.
  intros Hm Hb Hfit. eexists. split.
  - rewrite (select_required_verts_fit PY vert rad level st Hfit).
    apply (select_required_verts_eq st mwi basis vert rad level Hm Hb).
  - apply retry_result_bound.
Qed.

End SearchTheoremsMore.

(** * More of the loop: what it writes and what it leaves *)

Section KeyIndices.

Context {MU : Mathutils}.

Lemma last_index_of_fold n (names : list string) :
  forall s old,
    let r := fold_left
               (fun acc (ix : nat * string) =>
                  if String.eqb (snd ix) n then fst ix else acc)
               (enumerate_from s names) old in
    (r = old /\ ~ In n names)
    \/ (s <= r /\ nth_error names (r - s) = Some n
        /\ forall i, r - s < i -> nth_error names i <> Some n).
Proof.
  induction names as [|x names IH]; intros s old; simpl.
  - left. auto.
  - destruct (IH (S s) (if String.eqb x n then s else old))
      as [[Hr Hn]|(Hle & Hfound & Hlast)].
    + destruct (String.eqb_spec x n) as [E|E].
      * right. rewrite Hr. split; [lia|]. rewrite Nat.sub_diag.
        split; [simpl; congruence|].
        intros [|i] Hi; [lia|]. simpl. intros Hc.
        apply Hn. eapply nth_error_In; eauto.
      * left. rewrite Hr. split; [reflexivity|]. intros [?|?]; auto.
    + right. split; [lia|].
      match goal with
      | H : nth_error names (?r - S s) = Some n |- _ =>
          replace (r - s) with (S (r - S s)) by lia
      end.
      split; [exact Hfound|].
      intros [|i] Hi; [lia|]. simpl. apply Hlast. lia.
Qed.

(** The index is that of the last key of the name, when there is one, and
    [old] otherwise. *)
Lemma last_index_of_spec n names old :
  (last_index_of n names old = old /\ ~ In n names)
  \/ (nth_error names (last_index_of n names old) = Some n
      /\ forall i, last_index_of n names old < i ->
                   nth_error names i <> Some n).
Proof.
  unfold last_index_of, enumerate.
  destruct (last_index_of_fold n names 0 old) as [H|(_ & Hf & Hl)];
    [left; exact H|right].
  rewrite Nat.sub_0_r in Hf, Hl. auto.
Qed.

Lemma last_index_of_found n names old :
  In n names ->
  nth_error names (last_index_of n names old) = Some n
  /\ forall i, last_index_of n names old < i -> nth_error names i <> Some n.
Proof.
  intros Hin. destruct (last_index_of_spec n names old) as [[_ H]|H];
    [contradiction|exact H].
Qed.

Lemma last_index_of_old n names old old' :
  In n names -> last_index_of n names old = last_index_of n names old'.
Proof.
  intros Hin.
  destruct (last_index_of_found n names old Hin) as [Hf Hl].
  destruct (last_index_of_found n names old' Hin) as [Hf' Hl'].
  destruct (Nat.lt_trichotomy (last_index_of n names old)
                              (last_index_of n names old')) as [H|[H|H]].
  - exfalso. exact (Hl _ H Hf').
  - exact H.
  - exfalso. exact (Hl' _ H Hf).
Qed.

Lemma last_index_named_names n (kbs : list ShapeKey) old :
  last_index_named n kbs old = last_index_of n (map name kbs) old.
Proof.
  unfold last_index_named, last_index_of, enumerate. generalize 0 old.
  induction kbs as [|k kbs IH]; intros s o; simpl; [reflexivity|apply IH].
Qed.

Lemma last_index_of_injective names old n n' :
  In n names -> In n' names ->
  last_index_of n names old = last_index_of n' names old -> n = n'.
Proof.
  intros Hn Hn' E.
  destruct (last_index_of_found n names old Hn) as [Hf _].
  destruct (last_index_of_found n' names old Hn') as [Hf' _].
  congruence.
Qed.

(** A name that occurs among the later names has its index there. *)
Lemma last_index_of_app names1 names2 old n :
  In n names2 -> List.length names1 <= last_index_of n (names1 ++ names2) old.
Proof.
  intros Hin.
  destruct (last_index_of_found n (names1 ++ names2) old) as [_ Hl].
  { apply in_or_app. auto. }
  destruct (In_nth_error _ _ Hin) as (i & Hi).
  destruct (Nat.lt_ge_cases (last_index_of n (names1 ++ names2) old)
                            (List.length names1)) as [Hlt|Hge]; [|exact Hge].
  exfalso. apply (Hl (List.length names1 + i)); [lia|].
  rewrite nth_error_app2 by lia.
  now replace (List.length names1 + i - List.length names1) with i by lia.
Qed.

End KeyIndices.

Section Touches.

Context {MU : Mathutils}.

Lemma touches_only_refl dest W b : touches_only dest W b b.
Proof. repeat split. Qed.

Lemma touches_only_trans dest W b1 b2 b3 :
  touches_only dest W b1 b2 -> touches_only dest W b2 b3 ->
  touches_only dest W b1 b3.
Proof.
  intros (Ho & Hl & Hm & Hv & Hn & Hp) (Ho' & Hl' & Hm' & Hv' & Hn' & Hp').
  repeat split; try congruence.
  - intros m Hne. rewrite Hm' by exact Hne. now apply Hm.
  - intros k j Hk. rewrite Hp' by exact Hk. now apply Hp.
Qed.

(** Writing one position touches the key block it is in and nothing else. *)
Lemma store_position_touches b dest k j p (W : nat -> Prop) :
  W k -> touches_only dest W b (store_position b dest k j p).
Proof.
  intros Hk.
  assert (Hnames : mesh_names (store_position b dest k j p) dest
                   = mesh_names b dest).
  { unfold mesh_names.
    destruct (mesh_key_blocks b dest) as [kbs|] eqn:Hb.
    - destruct (nth_error kbs k) as [sk|] eqn:Hsk.
      + rewrite (mesh_key_blocks_store_same _ _ _ _ _ _ _ Hb Hsk).
        eapply list_set_map; eauto.
      + rewrite (store_position_no_block _ _ _ _ _ _ Hb Hsk). now rewrite Hb.
    - rewrite (store_position_no_key _ _ _ _ _ Hb). now rewrite Hb. }
  split; [|split; [|split; [|split; [|split; [exact Hnames|]]]]].
  - unfold store_position.
    destruct (nth_error (meshes b) dest) as [m|]; [|reflexivity].
    destruct (shape_keys m) as [key|]; [|reflexivity].
    destruct (nth_error (key_blocks key) k); reflexivity.
  - unfold store_position.
    destruct (nth_error (meshes b) dest) as [m|]; [|reflexivity].
    destruct (shape_keys m) as [key|]; [|reflexivity].
    destruct (nth_error (key_blocks key) k); reflexivity.
  - intros m' Hne. unfold store_position.
    destruct (nth_error (meshes b) dest) as [m|]; [|reflexivity].
    destruct (shape_keys m) as [key|]; [|reflexivity].
    destruct (nth_error (key_blocks key) k); [|reflexivity].
    cbn [meshes]. apply nth_error_list_set_other. congruence.
  - unfold store_position.
    destruct (nth_error (meshes b) dest) as [m|] eqn:Hm; [|now rewrite Hm].
    destruct (shape_keys m) as [key|]; [|now rewrite Hm].
    destruct (nth_error (key_blocks key) k); [|now rewrite Hm].
    cbn [meshes]. rewrite nth_error_list_set_same; [reflexivity|].
    apply nth_error_Some. congruence.
  - intros k' j' Hk'. apply position_store_other. right. left.
    intros ->. contradiction.
Qed.

End Touches.

Section LoopWrites.

Context {MU : Mathutils}.

Lemma lookups_by_nth {A} (l : list A) (d : A) (vs : list nat) (ps : list A) :
  Forall2 (fun v p => nth_error l v = Some p) vs ps ->
  ps = map (fun v => nth v l d) vs.
Proof.
  induction 1 as [|v p vs ps Hv _ IH]; [reflexivity|].
  simpl. rewrite <- IH. f_equal. symmetry. now apply nth_error_nth.
Qed.

(** The place of a listed key among the keys of the destination: never the
    first. *)
Lemma listed_slot S st n dkbs old :
  InLoop S st -> listed S n ->
  mesh_key_blocks (bpy st) (ob_data (s_dest S)) = Some dkbs ->
  last_index_named n dkbs old = last_index_of n (s_dest_names S) 0
  /\ last_index_of n (s_dest_names S) 0 <> 0
  /\ exists kd, nth_error dkbs (last_index_of n (s_dest_names S) 0) = Some kd
                /\ name kd = n.
Proof.
  intros H (_ & Hdst & Hhd) Hb.
  destruct (il_dest_blocks S st H) as (dkbs' & Hb' & Hnames & _).
  assert (dkbs' = dkbs) by congruence. subst dkbs'.
  rewrite last_index_named_names, Hnames.
  rewrite (last_index_of_old n _ old 0 Hdst).
  destruct (last_index_of_found n (s_dest_names S) 0 Hdst) as [Hf _].
  split; [reflexivity|]. split.
  - intros E. rewrite E in Hf. apply Hhd.
    destruct (s_dest_names S); [discriminate|exact Hf].
  - revert Hf. rewrite <- Hnames. rewrite nth_error_map. intros Hf.
    destruct (nth_error dkbs _) as [kd|]; [|discriminate].
    exists kd. split; [reflexivity|]. simpl in Hf. congruence.
Qed.

(** One key of the worklist at a matched vertex [j]: [update_vertex] stores
    the blended position in the place of the key, and that is all it does
    to the scene. *)
Lemma key_step_matched_store S st j n :
  InLoop S st -> listed S n ->
  current_vertex_index (self st) = j -> j < s_total S ->
  (do_once_per_vertex (self st) = true \/ Cached S j st) ->
  correspondence S j <> [] ->
  exists st_g st' p,
    update_global_shapekey_indices n st = Ok (tt, st_g)
    /\ update_vertex st_g = Ok (false, st')
    /\ InLoop S st'
    /\ current_vertex_index (self st') = j
    /\ Cached S j st'
    /\ transferred S n j = Some p
    /\ bpy st' = store_position (bpy st) (ob_data (s_dest S))
                   (last_index_of n (s_dest_names S) 0) j p
    /\ position (bpy st') (ob_data (s_dest S))
                (last_index_of n (s_dest_names S) 0) j = Some p.
Proof.
  intros H Hl Hc Hj Hmode Hne.
  pose proof Hl as (Hsrc & Hdst & Hhd).
  destruct (update_global_shapekey_indices_eq S st n H) as (dkbs & Hb & Hg).
  destruct (il_dest_blocks S st H) as (dkbs' & Hb' & Hnames & Hlen & _).
  assert (dkbs' = dkbs) by congruence. subst dkbs'.
  destruct (listed_slot S st n dkbs (dest_shape_key_index (self st)) H Hl Hb)
    as (Hdsi & Hdsi0 & kd & Hkd & Hkdn).
  set (slot := last_index_of n (s_dest_names S) 0) in *.
  set (ssi := last_index_of n (map name (s_src_blocks S)) 0).
  assert (Hssi : last_index_named n (s_src_blocks S)
                   (src_shape_key_index (self st)) = ssi).
  { rewrite last_index_named_names. now apply last_index_of_old. }
  destruct (last_index_named_found n (s_src_blocks S)
              (src_shape_key_index (self st)) Hsrc) as (kt & Hkt & _).
  rewrite Hssi in Hkt.
  rewrite Hdsi, Hssi in Hg.
  set (st_g := mkState _ (bpy st)) in Hg.
  assert (Hg_in : InLoop S st_g).
  { apply InLoop_self; [exact H|]. repeat split. }
  destruct (vertex_world_in_loop S st j H Hj) as (co & Hco & Hcv).
  assert (Hcache :
    exists st_c,
      cache_correspondence st_g = Ok (tt, st_c)
      /\ InLoop S st_c /\ bpy st_c = bpy st
      /\ current_vertex_index (self st_c) = j
      /\ Cached S j st_c
      /\ dest_shape_key_index (self st_c) = slot
      /\ src_shape_key_index (self st_c) = ssi).
  { destruct Hmode as [Hdo|(Hdo & Hch & Hcur)].
    - destruct (cache_correspondence_eq S st_g j Hg_in Hc Hj Hdo)
        as (cv & Hcv' & Hrun).
      eexists. split; [exact Hrun|].
      split; [apply InLoop_self; [exact Hg_in|repeat split]|].
      cbn [self bpy]. repeat split; auto.
    - exists st_g. split; [now apply cache_correspondence_cached|].
      split; [exact Hg_in|]. repeat split; auto. }
  destruct Hcache as (st_c & Hrun_c & Hc_in & Hc_bpy & Hc_cvi & Hc_cached
                      & Hc_dsi & Hc_ssi).
  destruct Hc_cached as (Hc_do & Hc_ch & Hc_cur).
  destruct (correspondence_bound S st j H) as (k0 & rest & E & Hbound).
  destruct (lookups_exist (data k0) _ Hbound) as (ps0 & Hps0).
  assert (Hbound' : Forall (fun v => v < List.length (data kt))
                           (correspondence S j)).
  { destruct (il_src_wf S st H) as (k0' & rest' & E' & Hwf).
    assert (k0' = k0) by congruence. subst k0'.
    rewrite Forall_forall in Hwf.
    rewrite (Hwf kt (nth_error_In _ _ Hkt)). exact Hbound. }
  destruct (lookups_exist (data kt) _ Hbound') as (ps1 & Hps1).
  assert (Hold : exists old,
             position (bpy st) (ob_data (s_dest S)) slot j = Some old).
  { unfold position. rewrite Hb, Hkd.
    rewrite Forall_forall in Hlen.
    pose proof (Hlen kd (nth_error_In _ _ Hkd)) as Hl'.
    destruct (nth_error (data kd) j) as [old|] eqn:Ho; [eauto|].
    apply nth_error_None in Ho. lia. }
  destruct Hold as (old & Hold).
  assert (Hview : object_key_blocks (bpy st_c) (src_mesh (self st_c))
                  = Some (s_src_blocks S)).
  { rewrite (il_src S st_c Hc_in). exact (il_src_blocks S st_c Hc_in). }
  pose proof (update_vertex_blend st_g st_c (s_src_blocks S) k0 kt ps0 ps1
                (matmul (matrix_world (s_dest S)) co) (s_dest S) old) as Hblend.
  cbv zeta in Hblend.
  rewrite Hc_dsi, Hc_cvi, Hc_bpy, Hc_ch in Hblend.
  rewrite (lookups_by_nth _ Vector_zero _ _ Hps0) in Hblend.
  rewrite (lookups_by_nth _ Vector_zero _ _ Hps1) in Hblend.
  fold (mean_position (data kt) (correspondence S j)) in Hblend.
  fold (mean_position (data k0) (correspondence S j)) in Hblend.
  fold (blended (data k0) (data kt) (correspondence S j)
          (matmul (matrix_world (s_dest S)) co)) in Hblend.
  exists st_g. eexists. eexists.
  split; [exact Hg|]. split.
  - apply Hblend; auto.
    + rewrite (il_total S st_g Hg_in). subst st_g. cbn [self].
      simpl. lia.
    + now rewrite <- Hview, Hc_bpy.
    + now rewrite E.
    + now rewrite Hc_ssi.
    + rewrite <- (lookups_by_nth _ Vector_zero _ _ Hps0). exact Hps0.
    + rewrite <- (lookups_by_nth _ Vector_zero _ _ Hps1). exact Hps1.
    + now rewrite Hc_cur.
    + exact (il_dest S st_c Hc_in).
  - split.
    { pose proof (InLoop_store S st_c slot j
                    (blended (data k0) (data kt) (correspondence S j)
                       (matmul (matrix_world (s_dest S)) co)) Hc_in Hdsi0) as Hin.
      rewrite Hc_bpy in Hin. exact Hin. }
    cbn [self bpy]. split; [exact Hc_cvi|].
    split; [repeat split; auto|].
    split.
    { unfold transferred. rewrite Hcv. fold ssi. rewrite Hkt, E. reflexivity. }
    split; [reflexivity|].
    eapply position_store_same. exact Hold.
Qed.

End LoopWrites.

Section LoopRunsMore.

Context {MU : Mathutils}.

Lemma touches_only_weaken dest (W W' : nat -> Prop) b b' :
  (forall k, W k -> W' k) ->
  touches_only dest W b b' -> touches_only dest W' b b'.
Proof.
  intros Hw (Ho & Hl & Hm & Hv & Hn & Hp). repeat split; auto.
Qed.

Lemma touches_only_eq dest W b b' : b' = b -> touches_only dest W b b'.
Proof. intros ->. apply touches_only_refl. Qed.

(** The keys of the worklist at a matched vertex [j]: each key gets its
    blended position at [j], and nothing else is written. *)
Lemma for_each_key_matched_store S j :
  forall keys st,
    Forall (listed S) keys -> NoDup keys ->
    InLoop S st ->
    current_vertex_index (self st) = j -> j < s_total S ->
    (do_once_per_vertex (self st) = true \/ Cached S j st) ->
    correspondence S j <> [] ->
    exists st',
      for_each_key keys st = Ok (false, st')
      /\ InLoop S st'
      /\ current_vertex_index (self st') = j
      /\ touches_only (ob_data (s_dest S))
           (fun k => exists n, In n keys
                               /\ k = last_index_of n (s_dest_names S) 0)
           (bpy st) (bpy st')
      /\ (forall k j', j' <> j ->
            position (bpy st') (ob_data (s_dest S)) k j'
            = position (bpy st) (ob_data (s_dest S)) k j')
      /\ (forall n, In n keys ->
            transferred S n j <> None
            /\ position (bpy st') (ob_data (s_dest S))
                        (last_index_of n (s_dest_names S) 0) j
               = transferred S n j).
Proof.
  induction keys as [|n keys IH]; intros st Hk Hnd H Hc Hj Hmode Hne.
  - exists st. simpl. split; [reflexivity|]. split; [exact H|].
    split; [exact Hc|]. split; [apply touches_only_refl|].
    split; [auto|intros n []].
  - pose proof (Forall_inv Hk) as Hn. pose proof (Forall_inv_tail Hk) as Hk'.
    pose proof (NoDup_cons_iff n keys) as [Hnd' _]. specialize (Hnd' Hnd).
    destruct Hnd' as [Hnotin Hnd'].
    destruct (key_step_matched_store S st j n H Hn Hc Hj Hmode Hne)
      as (st_g & st1 & p & Hg & Hv & H1 & Hc1 & Hcached & Htr & Hb1 & Hp1).
    destruct (IH st1 Hk' Hnd' H1 Hc1 Hj (or_intror Hcached) Hne)
      as (st' & Hrun & H' & Hc' & Ht' & Hframe' & Hval').
    exists st'. simpl for_each_key.
    rewrite (bind_Ok _ _ _ _ _ Hg), (bind_Ok _ _ _ _ _ Hv).
    split; [exact Hrun|]. split; [exact H'|]. split; [exact Hc'|].
    split; [|split].
    + apply (touches_only_trans _ _ _ (bpy st1)).
      * rewrite Hb1. apply store_position_touches.
        exists n. split; [now left|reflexivity].
      * eapply touches_only_weaken; [|exact Ht'].
        intros k (n' & Hin' & E). exists n'. split; [now right|exact E].
    + intros k j' Hj'. rewrite Hframe' by exact Hj'. rewrite Hb1.
      apply position_store_other. auto.
    + intros n' [<-|Hin'].
      * split; [congruence|].
        destruct Ht' as (_ & _ & _ & _ & _ & Hkeep).
        rewrite Hkeep; [congruence|].
        intros (n' & Hin' & E).
        rewrite Forall_forall in Hk'.
        destruct Hn as (_ & Hd & _). destruct (Hk' n' Hin') as (_ & Hd' & _).
        apply (last_index_of_injective _ _ _ _ Hd Hd') in E.
        subst n'. contradiction.
      * now apply Hval'.
Qed.

(** One turn of the loop at a matched vertex. *)
Lemma while_body_matched_store S st j :
  InLoop S st -> NoDup (s_worklist S) ->
  current_vertex_index (self st) = j -> j < s_total S ->
  correspondence S j <> [] ->
  exists st',
    while_body (s_worklist S) st = Ok (false, st')
    /\ InLoop S st'
    /\ current_vertex_index (self st') = j + 1
    /\ touches_only (ob_data (s_dest S)) (worklist_slot S) (bpy st) (bpy st')
    /\ (forall k j', j' <> j ->
          position (bpy st') (ob_data (s_dest S)) k j'
          = position (bpy st) (ob_data (s_dest S)) k j')
    /\ (forall n, In n (s_worklist S) ->
          transferred S n j <> None
          /\ position (bpy st') (ob_data (s_dest S))
                      (last_index_of n (s_dest_names S) 0) j
             = transferred S n j).
Proof.
  intros H Hnd Hc Hj Hne.
  destruct (for_each_key_matched_store S j (s_worklist S)
              (mkState (set_do_once_per_vertex true (self st)) (bpy st))
              (il_worklist S st H) Hnd (InLoop_do_once S st H) Hc Hj
              (or_introl eq_refl) Hne)
    as (st1 & Hrun & H1 & Hc1 & Ht & Hframe & Hval).
  unfold while_body. unfold bind at 1, assign at 1. cbv beta iota.
  rewrite (bind_Ok _ _ _ _ _ Hrun). cbv iota.
  unfold bind, get_self, assign, ret.
  eexists. split; [reflexivity|].
  split; [apply InLoop_self; [exact H1|repeat split]|].
  cbn [self bpy]. split; [simpl; lia|]. split; [exact Ht|].
  split; [exact Hframe|exact Hval].
Qed.

(** When every vertex has a correspondence the loop runs to the end, and
    every vertex from the cursor on gets, in every key of the worklist, its
    blended position. *)
Lemma while_vertices_all_matched S :
  (forall j, j < s_total S -> correspondence S j <> []) ->
  NoDup (s_worklist S) ->
  forall fuel st,
    InLoop S st ->
    s_total S - current_vertex_index (self st) < fuel ->
    exists st',
      while_vertices fuel (s_worklist S) st = Ok (true, st')
      /\ message (self st') = "Transferred Shape Keys successfully!"
      /\ (forall k j', j' < current_vertex_index (self st) ->
            position (bpy st') (ob_data (s_dest S)) k j'
            = position (bpy st) (ob_data (s_dest S)) k j')
      /\ (forall n j', In n (s_worklist S) ->
            current_vertex_index (self st) <= j' < s_total S ->
            transferred S n j' <> None
            /\ position (bpy st') (ob_data (s_dest S))
                        (last_index_of n (s_dest_names S) 0) j'
               = transferred S n j').
Proof.
  intros Hall Hnd. induction fuel as [|fuel IH]; intros st H Hf; [lia|].
  simpl. unfold bind at 1, get_self at 1. cbv beta iota.
  rewrite (il_total S st H).
  destruct (Nat.ltb_spec (current_vertex_index (self st)) (s_total S)) as [Hlt|Hge].
  - destruct (while_body_matched_store S st _ H Hnd eq_refl Hlt (Hall _ Hlt))
      as (st1 & Hrun & H1 & Hc1 & _ & Hframe & Hval).
    rewrite (bind_Ok _ _ _ _ _ Hrun). cbv iota.
    destruct (IH st1 H1 ltac:(lia)) as (st' & Hrun' & Hmsg & Hframe' & Hval').
    exists st'. split; [exact Hrun'|]. split; [exact Hmsg|]. split.
    + intros k j' Hj'. rewrite Hframe' by lia. apply Hframe. lia.
    + intros n j' Hn Hj'.
      destruct (Nat.eq_dec j' (current_vertex_index (self st))) as [->|Hne].
      * destruct (Hval n Hn) as [Hsome Hpos]. split; [exact Hsome|].
        rewrite Hframe' by lia. exact Hpos.
      * apply Hval'; [exact Hn|lia].
  - unfold bind, assign, ret. eexists. split; [reflexivity|].
    cbn [self bpy]. split; [reflexivity|]. split; [auto|].
    intros n j' _ Hj'. lia.
Qed.

(** The turns of the loop up to a vertex [i] before which every vertex has
    a correspondence: they leave the cursor on [i], with every vertex they
    passed blended in every key of the worklist. *)
Lemma while_vertices_prefix S i :
  i <= s_total S ->
  (forall j, j < i -> correspondence S j <> []) ->
  NoDup (s_worklist S) ->
  forall d fuel st,
    InLoop S st ->
    current_vertex_index (self st) + d = i ->
    s_total S - current_vertex_index (self st) < fuel ->
    exists st_i,
      InLoop S st_i
      /\ current_vertex_index (self st_i) = i
      /\ while_vertices fuel (s_worklist S) st
         = while_vertices (fuel - d) (s_worklist S) st_i
      /\ (forall k j', j' < current_vertex_index (self st) ->
            position (bpy st_i) (ob_data (s_dest S)) k j'
            = position (bpy st) (ob_data (s_dest S)) k j')
      /\ (forall n j', In n (s_worklist S) ->
            current_vertex_index (self st) <= j' < i ->
            transferred S n j' <> None
            /\ position (bpy st_i) (ob_data (s_dest S))
                        (last_index_of n (s_dest_names S) 0) j'
               = transferred S n j').
Proof.
  intros Hi Hall Hnd. induction d as [|d IH]; intros fuel st H Hd Hf.
  - exists st. split; [exact H|]. split; [lia|].
    split; [now rewrite Nat.sub_0_r|]. split; [auto|].
    intros n j' _ Hj'. lia.
  - destruct fuel as [|fuel]; [lia|].
    assert (Hlt : current_vertex_index (self st) < s_total S) by lia.
    destruct (while_body_matched_store S st _ H Hnd eq_refl Hlt)
      as (st1 & Hrun & H1 & Hc1 & _ & Hframe & Hval).
    { apply Hall. lia. }
    destruct (IH fuel st1 H1 ltac:(lia) ltac:(lia))
      as (st_i & Hin_i & Hc_i & Hrun_i & Hframe_i & Hval_i).
    exists st_i. split; [exact Hin_i|]. split; [exact Hc_i|]. split.
    + cbn [while_vertices]. unfold bind at 1, get_self at 1. cbv beta iota.
      rewrite (il_total S st H).
      replace (current_vertex_index (self st) <? s_total S)%nat with true
        by (symmetry; now apply Nat.ltb_lt).
      rewrite (bind_Ok _ _ _ _ _ Hrun). cbv iota.
      replace (Datatypes.S fuel - Datatypes.S d) with (fuel - d) by lia.
      exact Hrun_i.
    + split.
      * intros k j' Hj'. rewrite Hframe_i by lia. apply Hframe. lia.
      * intros n j' Hn Hj'.
        destruct (Nat.eq_dec j' (current_vertex_index (self st))) as [->|Hne].
        -- destruct (Hval n Hn) as [Hsome Hpos]. split; [exact Hsome|].
           rewrite Hframe_i by lia. exact Hpos.
        -- apply Hval_i; [exact Hn|lia].
Qed.

(** Whatever the vertices and the settings, the loop returns; all it has
    written are positions of keys of the worklist, at vertices from the
    cursor on. *)
Lemma while_vertices_returns S :
  NoDup (s_worklist S) ->
  forall fuel st,
    InLoop S st ->
    s_total S - current_vertex_index (self st) < fuel ->
    exists ok st',
      while_vertices fuel (s_worklist S) st = Ok (ok, st')
      /\ touches_only (ob_data (s_dest S)) (worklist_slot S) (bpy st) (bpy st')
      /\ (forall k j', j' < current_vertex_index (self st) ->
            position (bpy st') (ob_data (s_dest S)) k j'
            = position (bpy st) (ob_data (s_dest S)) k j').
Proof.
  intros Hnd. induction fuel as [|fuel IH]; intros st H Hf; [lia|].
  simpl. unfold bind at 1, get_self at 1. cbv beta iota.
  rewrite (il_total S st H).
  destruct (Nat.ltb_spec (current_vertex_index (self st)) (s_total S)) as [Hlt|Hge].
  - destruct (correspondence S (current_vertex_index (self st))) as [|v vs] eqn:Ec.
    + destruct (s_worklist S) as [|n rest] eqn:Ew.
      * destruct (while_body_empty_worklist S st H Ew)
          as (st1 & Hrun & H1 & Hc1 & Hb1).
        rewrite Ew in Hrun. rewrite (bind_Ok _ _ _ _ _ Hrun). cbv iota.
        destruct (IH st1 H1 ltac:(lia)) as (ok & st' & Hrun' & Ht' & Hf').
        exists ok, st'. split; [exact Hrun'|].
        rewrite Hb1 in Ht', Hf'. split; [exact Ht'|].
        intros k j' Hj'. apply Hf'. lia.
      * destruct (while_body_unmatched S st _ n rest H Ew eq_refl Hlt Ec)
          as (st1 & ssi & Hb1 & Hcase).
        rewrite Ew in Hcase.
        destruct (s_skip S).
        -- destruct Hcase as (Hrun & H1 & Hc1).
           rewrite (bind_Ok _ _ _ _ _ Hrun). cbv iota.
           destruct (IH st1 H1 ltac:(lia)) as (ok & st' & Hrun' & Ht' & Hf').
           exists ok, st'. split; [exact Hrun'|].
           rewrite Hb1 in Ht', Hf'. split; [exact Ht'|].
           intros k j' Hj'. apply Hf'. lia.
        -- destruct Hcase as (Hrun & _).
           rewrite (bind_Ok _ _ _ _ _ Hrun). cbv iota.
           unfold ret. exists false, st1. split; [reflexivity|].
           split; [now apply touches_only_eq|]. intros k j' _. now rewrite Hb1.
    + destruct (while_body_matched_store S st _ H Hnd eq_refl Hlt)
        as (st1 & Hrun & H1 & Hc1 & Ht1 & Hframe & _).
      { rewrite Ec. discriminate. }
      rewrite (bind_Ok _ _ _ _ _ Hrun). cbv iota.
      destruct (IH st1 H1 ltac:(lia)) as (ok & st' & Hrun' & Ht' & Hf').
      exists ok, st'. split; [exact Hrun'|].
      split; [eapply touches_only_trans; eauto|].
      intros k j' Hj'. rewrite Hf' by lia. apply Hframe. lia.
  - unfold bind, assign, ret. do 2 eexists. split; [reflexivity|].
    cbn [self bpy]. split; [apply touches_only_refl|auto].
Qed.

End LoopRunsMore.

(** * An interpreter with room for the retries

    The program never assigns [number_of_increments], so an interpreter
    that has room for the retries of the first search has room for those of
    every search of the run, and the run is the run on an interpreter whose
    limit is out of reach. *)

Section Rooms.

Context {MU : Mathutils}.

Lemma keeps_ret {A} (a : A) : keeps_increments (ret a).
Proof. intros st a' st' H. now injection H as _ <-. Qed.

Lemma keeps_raise {A} (e : exn) : keeps_increments (@raise MU A e).
Proof. intros st a st' H. discriminate. Qed.

Lemma keeps_bind {A B} (c : M A) (k : A -> M B) :
  keeps_increments c -> (forall a, keeps_increments (k a)) ->
  keeps_increments (bind c k).
Proof.
  intros Hc Hk st b st2 H. apply bind_inv in H.
  destruct H as (a & st1 & H1 & H2).
  rewrite (Hk a _ _ _ H2). exact (Hc _ _ _ H1).
Qed.

Lemma keeps_get_self : keeps_increments get_self.
Proof. intros st a st' H. now injection H as _ <-. Qed.

Lemma keeps_get_bpy : keeps_increments get_bpy.
Proof. intros st a st' H. now injection H as _ <-. Qed.

Lemma keeps_put_bpy b : keeps_increments (put_bpy b).
Proof. intros st a st' H. now injection H as _ <-. Qed.

Lemma keeps_assign (f : ShapeKeyTransfer -> ShapeKeyTransfer) :
  (forall s, number_of_increments (f s) = number_of_increments s) ->
  keeps_increments (assign f).
Proof. intros Hf st a st' H. injection H as _ <-. apply Hf. Qed.

Lemma keeps_attr {A} (o : option A) : keeps_increments (attr o).
Proof. destruct o; [apply keeps_ret|apply keeps_raise]. Qed.

Lemma keeps_index {A} (l : list A) i : keeps_increments (index l i).
Proof.
  unfold index. destruct (nth_error l i); [apply keeps_ret|apply keeps_raise].
Qed.

Ltac keeps :=
  repeat
    (cbv beta;
     match goal with
     | |- keeps_increments (bind _ _) => apply keeps_bind; [|intros ?]
     | |- keeps_increments (ret _) => apply keeps_ret
     | |- keeps_increments (raise _) => apply keeps_raise
     | |- keeps_increments get_self => apply keeps_get_self
     | |- keeps_increments get_bpy => apply keeps_get_bpy
     | |- keeps_increments (put_bpy _) => apply keeps_put_bpy
     | |- keeps_increments (assign _) =>
         apply keeps_assign; intros ?; reflexivity
     | |- keeps_increments (attr _) => apply keeps_attr
     | |- keeps_increments (index _ _) => apply keeps_index
     | |- keeps_increments (if ?b then _ else _) => destruct b
     | |- keeps_increments (match ?o with Some _ => _ | None => _ end) =>
         destruct o
     | H : _ |- _ => solve [apply H]
     end).

Lemma keeps_deref ob : keeps_increments (deref ob).
Proof. unfold deref. keeps. Qed.

Lemma keeps_key_blocks_of o : keeps_increments (key_blocks_of o).
Proof. unfold key_blocks_of. keeps; apply keeps_deref. Qed.

Lemma keeps_get_parent mesh : keeps_increments (get_parent mesh).
Proof. unfold get_parent. keeps. Qed.

Lemma keeps_src_co ki v : keeps_increments (src_co ki v).
Proof. unfold src_co. keeps; apply keeps_key_blocks_of. Qed.

Lemma keeps_sum_co ki vs : forall p, keeps_increments (sum_co ki vs p).
Proof.
  induction vs as [|v vs IH]; intros p; simpl; keeps. apply keeps_src_co.
Qed.

Lemma keeps_set_vertex_position p : keeps_increments (set_vertex_position p).
Proof. unfold set_vertex_position. keeps; apply keeps_deref. Qed.

Lemma keeps_blend : keeps_increments blend.
Proof.
  unfold blend. keeps; try apply keeps_sum_co.
  apply keeps_set_vertex_position.
Qed.

Lemma keeps_update_global_shapekey_indices n :
  keeps_increments (update_global_shapekey_indices n).
Proof. unfold update_global_shapekey_indices. keeps; apply keeps_key_blocks_of. Qed.

Lemma keeps_shape_key_add ob n : keeps_increments (shape_key_add ob n).
Proof. unfold shape_key_add. keeps. apply keeps_deref. Qed.

Lemma keeps_add_and_list n l : keeps_increments (add_and_list n l).
Proof. unfold add_and_list. keeps. apply keeps_shape_key_add. Qed.

Lemma keeps_add_missing_shape_keys names :
  forall l, keeps_increments (add_missing_shape_keys names l).
Proof.
  induction names as [|n names IH]; intros l; simpl; keeps;
    try apply keeps_key_blocks_of; try apply keeps_add_and_list.
Qed.

Lemma keeps_transfer_prologue src dest :
  keeps_increments (transfer_prologue src dest).
Proof.
  unfold transfer_prologue. keeps;
    try apply keeps_get_parent; try apply keeps_deref;
    try apply keeps_shape_key_add; try apply keeps_key_blocks_of;
    try apply keeps_add_missing_shape_keys.
Qed.

Lemma keeps_select_required_verts (PY : Interpreter) vert rad level :
  keeps_increments (select_required_verts (PY := PY) vert rad level).
Proof.
  intros st a st' H.
  unfold select_required_verts, bind, get_self in H.
  apply select_required_verts_fuel_frame in H. now subst.
Qed.

Lemma keeps_cache_correspondence (PY : Interpreter) :
  keeps_increments (cache_correspondence (PY := PY)).
Proof.
  unfold cache_correspondence. keeps; try apply keeps_key_blocks_of.
  apply keeps_select_required_verts.
Qed.

Lemma keeps_update_vertex (PY : Interpreter) : keeps_increments (update_vertex (PY := PY)).
Proof.
  unfold update_vertex. keeps.
  - apply keeps_cache_correspondence.
  - apply keeps_blend.
Qed.

Lemma keeps_for_each_key (PY : Interpreter) keys :
  keeps_increments (for_each_key (PY := PY) keys).
Proof.
  induction keys as [|n keys IH]; simpl; keeps.
  - apply keeps_update_global_shapekey_indices.
  - apply keeps_update_vertex.
Qed.

Lemma keeps_while_body (PY : Interpreter) keys : keeps_increments (while_body (PY := PY) keys).
Proof. unfold while_body. keeps. apply keeps_for_each_key. Qed.

Context {PY : Interpreter}.

(** Two continuations that agree on what the first part returns. *)
Lemma bind_agree {A B} (c : M A) (k1 k2 : A -> M B) st :
  (forall a st', c st = Ok (a, st') -> k1 a st' = k2 a st') ->
  bind c k1 st = bind c k2 st.
Proof.
  intros H. unfold bind. destruct (c st) as [[a st']| |]; auto.
Qed.

Lemma retries_fit_keeps (s s' : ShapeKeyTransfer) level :
  number_of_increments s' = number_of_increments s ->
  retries_fit (PY := PY) s level -> retries_fit (PY := PY) s' level.
Proof. unfold retries_fit. now intros ->. Qed.

Lemma bind_same {A B} (c1 c2 : M A) (k : A -> M B) st :
  c1 st = c2 st -> bind c1 k st = bind c2 k st.
Proof. unfold bind. now intros ->. Qed.

Lemma cache_correspondence_fit st :
  retries_fit (PY := PY) (self st) 0 ->
  cache_correspondence (PY := PY) st = cache_correspondence (PY := unlimited) st.
Proof.
  intros Hfit. unfold cache_correspondence.
  apply bind_agree. intros s st1 H1. injection H1 as <- <-.
  destruct (do_once_per_vertex (self st)); [|reflexivity].
  apply bind_agree. intros dob st1 H1. apply keeps_attr in H1 as E1.
  apply bind_agree. intros kbs st2 H2. apply keeps_key_blocks_of in H2 as E2.
  apply bind_agree. intros k0 st3 H3. apply keeps_index in H3 as E3.
  apply bind_agree. intros co st4 H4. apply keeps_index in H4 as E4.
  apply bind_agree. intros [] st5 H5. injection H5 as <-.
  apply bind_same. apply select_required_verts_fit.
  unfold retries_fit in *. cbn [self number_of_increments set_current_vertex].
  now rewrite E4, E3, E2, E1.
Qed.

Lemma update_vertex_fit st :
  retries_fit (PY := PY) (self st) 0 ->
  update_vertex (PY := PY) st = update_vertex (PY := unlimited) st.
Proof.
  intros Hfit. unfold update_vertex.
  apply bind_agree. intros s st1 H1. injection H1 as <- <-.
  destruct (total_vertices (self st) <=? current_vertex_index (self st))%nat;
    [reflexivity|].
  apply bind_same. now apply cache_correspondence_fit.
Qed.

Lemma for_each_key_fit keys :
  forall st,
    retries_fit (PY := PY) (self st) 0 ->
    for_each_key (PY := PY) keys st = for_each_key (PY := unlimited) keys st.
Proof.
  induction keys as [|n keys IH]; intros st Hfit; [reflexivity|].
  simpl. apply bind_agree. intros [] st1 H1.
  apply keeps_update_global_shapekey_indices in H1 as E1.
  assert (Hfit1 : retries_fit (PY := PY) (self st1) 0)
    by (eapply retries_fit_keeps; eauto).
  unfold bind. rewrite (update_vertex_fit st1 Hfit1).
  destruct (update_vertex (PY := unlimited) st1) as [[stop st2]| |] eqn:H2;
    [|reflexivity|reflexivity].
  destruct stop; [reflexivity|].
  apply IH. apply (keeps_update_vertex unlimited) in H2.
  eapply retries_fit_keeps; eauto.
Qed.

Lemma while_body_fit keys st :
  retries_fit (PY := PY) (self st) 0 ->
  while_body (PY := PY) keys st = while_body (PY := unlimited) keys st.
Proof.
  intros Hfit. unfold while_body.
  apply bind_agree. intros [] st1 H1. injection H1 as <-.
  apply bind_same. apply for_each_key_fit. exact Hfit.
Qed.

Lemma while_vertices_fit keys :
  forall fuel st,
    retries_fit (PY := PY) (self st) 0 ->
    while_vertices (PY := PY) fuel keys st
    = while_vertices (PY := unlimited) fuel keys st.
Proof.
  induction fuel as [|fuel IH]; intros st Hfit; [reflexivity|].
  simpl. apply bind_agree. intros s st1 H1. injection H1 as <- <-.
  destruct (current_vertex_index (self st) <? total_vertices (self st))%nat;
    [|reflexivity].
  unfold bind. rewrite (while_body_fit keys st Hfit).
  destruct (while_body (PY := unlimited) keys st) as [[stop st2]| |] eqn:H2;
    [|reflexivity|reflexivity].
  destruct stop; [reflexivity|].
  apply IH. apply (keeps_while_body unlimited) in H2.
  eapply retries_fit_keeps; eauto.
Qed.

(** On an interpreter with room for the retries [transfer_shape_keys] runs
    as on an interpreter whose limit is out of reach. *)
Lemma transfer_shape_keys_fit src dest copy_only st :
  retries_fit (PY := PY) (self st) 0 ->
  transfer_shape_keys (PY := PY) src dest copy_only st
  = transfer_shape_keys (PY := unlimited) src dest copy_only st.
Proof.
  intros Hfit. unfold transfer_shape_keys.
  apply bind_agree. intros r st1 H1.
  apply keeps_transfer_prologue in H1.
  destruct r as [wl|]; [|reflexivity].
  destruct copy_only; [reflexivity|].
  unfold transfer_vertices.
  apply bind_agree. intros s st2 H2. injection H2 as <- <-.
  apply while_vertices_fit. eapply retries_fit_keeps; eauto.
Qed.

End Rooms.

Section Messages.

Context {MU : Mathutils}.

Lemma blend_result st b st' : blend st = Ok (b, st') -> b = false.
Proof.
  unfold blend. intros H.
  apply bind_inv in H. destruct H as (s & st1 & _ & H).
  apply bind_inv in H. destruct H as (p1 & st2 & _ & H).
  apply bind_inv in H. destruct H as (p2 & st3 & _ & H).
  destruct (current_vertex s); [|discriminate].
  apply bind_inv in H. destruct H as ([] & st4 & _ & H).
  now injection H as <- _.
Qed.

(** When [update_vertex] asks for the transfer to stop, the message is the
    text of line 137. *)
Lemma update_vertex_stop_text (PY : Interpreter) st st' :
  update_vertex (PY := PY) st = Ok (true, st') ->
  exists text, message (self st') = Text text.
Proof.
  unfold update_vertex. intros H.
  apply bind_inv in H. destruct H as (s & st1 & H1 & H). injection H1 as <- <-.
  destruct (total_vertices (self st) <=? current_vertex_index (self st))%nat;
    [discriminate|].
  apply bind_inv in H. destruct H as ([] & st2 & _ & H).
  apply bind_inv in H. destruct H as (s2 & st3 & H3 & H). injection H3 as <- <-.
  destruct (Nat.eqb _ 0).
  - unfold bind, assign, ret in H.
    destruct (negb _); [|discriminate]. injection H as <-.
    eexists. reflexivity.
  - apply blend_result in H. discriminate.
Qed.

Lemma for_each_key_stop_text (PY : Interpreter) keys :
  forall st st',
    for_each_key (PY := PY) keys st = Ok (true, st') ->
    exists text, message (self st') = Text text.
Proof.
  induction keys as [|n keys IH]; intros st st' H; [discriminate|].
  simpl in H.
  apply bind_inv in H. destruct H as ([] & st1 & _ & H).
  apply bind_inv in H. destruct H as (stop & st2 & H2 & H).
  destruct stop.
  - injection H as <-. eapply update_vertex_stop_text; eauto.
  - eapply IH; eauto.
Qed.

(** When the loop of lines 216-225 returns, [SKT.message] is a text. *)
Lemma while_vertices_text (PY : Interpreter) keys :
  forall fuel st ok st',
    while_vertices (PY := PY) fuel keys st = Ok (ok, st') ->
    exists text, message (self st') = Text text.
Proof.
  induction fuel as [|fuel IH]; intros st ok st' H; [discriminate|].
  simpl in H.
  apply bind_inv in H. destruct H as (s & st1 & H1 & H). injection H1 as <- <-.
  destruct (current_vertex_index (self st) <? total_vertices (self st))%nat.
  - apply bind_inv in H. destruct H as (stop & st2 & H2 & H).
    destruct stop; [|eapply IH; eauto].
    injection H as _ <-.
    unfold while_body in H2.
    apply bind_inv in H2. destruct H2 as ([] & st3 & _ & H2).
    apply bind_inv in H2. destruct H2 as (stop & st4 & H4 & H2).
    destruct stop.
    + injection H2 as <-. eapply for_each_key_stop_text; eauto.
    + apply bind_inv in H2. destruct H2 as (s5 & st5 & _ & H2).
      apply bind_inv in H2. destruct H2 as ([] & st6 & _ & H2).
      discriminate.
  - unfold bind, assign, ret in H. injection H as _ <-.
    eexists. reflexivity.
Qed.

End Messages.

Section RoomSuffices.

Context {MU : Mathutils}.

(** The limit of the interpreter matters to a run only through the retries
    of the searches: on an interpreter that allows the
    [number_of_increments + 1] calls they may nest, a search and a whole
    transfer end as on an interpreter whose limit is out of reach, with the
    same value or the same exception and in the same state, whatever the
    state they start in. *)
Theorem room_for_the_retries_suffices
    (PY : Interpreter) (st : State) (src dest : nat) (copy_only : bool)
    (vert : Vector) (rad : Scalar) :
  retries_fit (PY := PY) (self st) 0 ->
  select_required_verts (PY := PY) vert rad 0 st
  = select_required_verts (PY := unlimited) vert rad 0 st
  /\ update_vertex (PY := PY) st = update_vertex (PY := unlimited) st
  /\ transfer_shape_keys (PY := PY) src dest copy_only st
     = transfer_shape_keys (PY := unlimited) src dest copy_only st.
Proof.
  intros Hfit. split; [|split].
  - now apply select_required_verts_fit.
  - now apply update_vertex_fit.
  - now apply transfer_shape_keys_fit.
Qed.

End RoomSuffices.

Section TransferMore.

Context {MU : Mathutils}.

(** The loop starts from the state the prologue leaves, which differs from
    the state of the call in the keys added to the destination. *)
Lemma transfer_prologue_setup st0 src dest sob dob mwi sm dm skbs :
  Ready st0 src dest sob dob mwi sm dm skbs ->
  src <> dest ->
  mesh_wf sm -> mesh_wf dm ->
  specify_end_vertex (self st0) = false ->
  exists extra st1,
    transfer_prologue src dest st0 = Ok (Some (map name extra), st1)
    /\ InLoop (setup_of st0 sob dob mwi skbs dm extra) st1
    /\ current_vertex_index (self st1) = 0
    /\ ob_data dob = dest
    /\ NoDup (map name extra)
    /\ (forall n, In n (map name extra) ->
          ~ In n (map name (initial_dest_blocks dm)))
    /\ objects (bpy st1) = objects (bpy st0)
    /\ listUse (bpy st1) = listUse (bpy st0)
    /\ (forall mesh', mesh' <> dest ->
          nth_error (meshes (bpy st1)) mesh' = nth_error (meshes (bpy st0)) mesh')
    /\ nth_error (meshes (bpy st1)) dest
       = Some (mkMesh (vertices dm)
                 (Some (mkKey (initial_dest_blocks dm ++ extra))))
    /\ map name extra
       = provision (listUse (bpy st0)) (excluded_shape_keys (self st0))
           (default_excluded_keys (self st0)) (map name skbs)
           (map name (initial_dest_blocks dm)).
Proof.
  intros HR Hne Hsw Hdw Hspec.
  destruct (transfer_prologue_in_loop _ _ _ _ _ _ _ _ _ HR Hne Hsw Hdw Hspec)
    as (extra & st1 & Hrun & Hin & Hc & Ed).
  destruct (transfer_prologue_eq _ _ _ _ _ _ _ _ _ HR)
    as (extra' & st1' & Hrun' & Hp & _ & Ho & Hl & Hx & Hmesh & _).
  rewrite Hrun in Hrun'. injection Hrun' as En Est. subst st1'.
  assert (ES : setup_of st0 sob dob mwi skbs dm extra
               = setup_of st0 sob dob mwi skbs dm extra').
  { unfold setup_of. rewrite !map_app. now rewrite En. }
  rewrite ES in Hin.
  exists extra', st1. split; [now rewrite <- En|]. split; [exact Hin|].
  split; [exact Hc|]. split; [exact Ed|].
  split; [rewrite Hp; apply provision_NoDup|].
  split; [intros n Hn; rewrite Hp in Hn;
          now apply provision_not_on_dest in Hn|].
  split; [exact Ho|]. split; [exact Hl|]. split; [exact Hx|].
  split; [exact Hmesh|exact Hp].
Qed.

(** A name that occurs once among the names has its place at the index the
    loops of lines 159-164 find. *)
Lemma unique_name_index (names1 names2 : list string) n k :
  ~ In n names1 -> NoDup names2 ->
  nth_error (names1 ++ names2) k = Some n ->
  k = last_index_of n (names1 ++ names2) 0.
Proof.
  intros Hn1 Hnd Hk.
  assert (Hin : In n (names1 ++ names2)) by (eapply nth_error_In; eauto).
  destruct (last_index_of_found n _ 0 Hin) as [Hf _].
  set (r := last_index_of n (names1 ++ names2) 0) in *.
  assert (Hge : forall i, nth_error (names1 ++ names2) i = Some n ->
                  List.length names1 <= i
                  /\ nth_error names2 (i - List.length names1) = Some n).
  { intros i Hi.
    destruct (Nat.lt_ge_cases i (List.length names1)) as [Hlt|Hge].
    - rewrite nth_error_app1 in Hi by exact Hlt.
      exfalso. apply Hn1. eapply nth_error_In; eauto.
    - split; [exact Hge|]. now rewrite nth_error_app2 in Hi. }
  destruct (Hge k Hk) as [Hk1 Hk2]. destruct (Hge r Hf) as [Hr1 Hr2].
  assert (E : k - List.length names1 = r - List.length names1).
  { apply (proj1 (NoDup_nth_error names2) Hnd).
    - apply nth_error_Some. congruence.
    - congruence. }
  lia.
Qed.

(** The position the loop writes for a key it added, in terms of the scene
    the loop starts from. *)
Lemma transferred_view st0 sob dob mwi skbs dm extra st1 dest b2 n k j vs :
  let S := setup_of st0 sob dob mwi skbs dm extra in
  InLoop S st1 ->
  ob_data dob = dest ->
  NoDup (map name extra) ->
  (forall n, In n (map name extra) ->
     ~ In n (map name (initial_dest_blocks dm))) ->
  nth_error (meshes (bpy st1)) dest
  = Some (mkMesh (vertices dm) (Some (mkKey (initial_dest_blocks dm ++ extra)))) ->
  In n (map name extra) ->
  nth_error (mesh_names (bpy st1) dest) k = Some n ->
  j < List.length (vertices dm) ->
  search_of_vertex j st1 = Ok (vs, st1) ->
  transferred S n j <> None ->
  position b2 dest (last_index_of n (s_dest_names S) 0) j = transferred S n j ->
  exists co kb kt,
    position (bpy st1) dest 0 j = Some co /\
    nth_error skbs 0 = Some kb /\
    In kt skbs /\ name kt = n /\
    position b2 dest k j
    = Some (blended (data kb) (data kt) vs (matmul (matrix_world dob) co)).
Proof.
  intros S Hin Ed Hnd Hnew Hmesh Hn Hk Hj Hs Hsome Hpos.
  assert (Hnames : mesh_names (bpy st1) dest
                   = map name (initial_dest_blocks dm) ++ map name extra).
  { rewrite (mesh_names_of_mesh _ _ _ _ Hmesh eq_refl). apply map_app. }
  rewrite Hnames in Hk.
  pose proof (unique_name_index _ _ _ _ (Hnew n Hn) Hnd Hk) as Ek.
  rewrite <- map_app in Ek.
  cbn [S setup_of s_dest s_dest_names] in Hpos. rewrite <- Ek in Hpos.
  destruct (search_of_vertex_inv S st1 j _ _ Hin Hs) as (_ & Evs & _).
  unfold transferred in Hpos, Hsome.
  destruct (vertex_world_in_loop S st1 j Hin Hj) as (co & Hco & Hcv).
  rewrite Hcv in Hpos, Hsome.
  cbn [S setup_of s_src_blocks s_dest s_dest_basis] in Hpos, Hsome, Hco.
  destruct (correspondence_bound S st1 j Hin) as (kb & srest & Esk & _).
  cbn [S setup_of s_src_blocks] in Esk.
  destruct (nth_error skbs (last_index_of n (map name skbs) 0)) as [kt|] eqn:Hkt;
    [|rewrite Esk in Hsome; congruence].
  rewrite Esk in Hpos at 1.
  exists co, kb, kt.
  split; [|split; [now rewrite Esk|split; [eapply nth_error_In; eauto|split]]].
  - destruct (dest_basis_in_loop S st1 Hin) as (dkbs & kd0 & Hb & H0 & Hd0 & _).
    cbn [S setup_of s_dest s_dest_basis] in Hb, Hd0. rewrite Ed in Hb.
    unfold position. rewrite Hb, H0, Hd0. exact Hco.
  - assert (Hin' : In n (map name skbs)).
    { pose proof (il_worklist S st1 Hin) as Hw. rewrite Forall_forall in Hw.
      exact (proj1 (Hw n Hn)). }
    destruct (last_index_of_found n _ 0 Hin') as [Hf _].
    rewrite nth_error_map, Hkt in Hf. simpl in Hf. congruence.
  - rewrite Hpos, Evs. reflexivity.
Qed.

(** When every vertex of the destination has a correspondence, the call
    returns [True] whatever [skip_vertices_with_no_pair] is, and every key
    it added holds, at every vertex [j], the position of lines 144-153: the
    world position of vertex [j] of the destination basis, plus the mean
    over the matched source vertices of the key of the same name, minus
    their mean in the first key of the source. *)
Theorem transfer_blends_every_matched_vertex
    (st0 : State) (src dest : nat) (sob dob : Object) (mwi : Matrix)
    (sm dm : Mesh) (skbs : list ShapeKey) :
  Ready st0 src dest sob dob mwi sm dm skbs ->
  src <> dest ->
  mesh_wf sm -> mesh_wf dm ->
  specify_end_vertex (self st0) = false ->
  exists wl st1,
    transfer_prologue src dest st0 = Ok (Some wl, st1) /\
    ((forall j, j < List.length (vertices dm) ->
        exists vs, search_of_vertex j st1 = Ok (vs, st1) /\ vs <> []) ->
     exists st2,
       transfer_shape_keys src dest false st0 = Ok (true, st2) /\
       message (self st2) = "Transferred Shape Keys successfully!" /\
       forall n k j,
         In n wl ->
         nth_error (mesh_names (bpy st1) dest) k = Some n ->
         j < List.length (vertices dm) ->
         exists vs co kb kt,
           search_of_vertex j st1 = Ok (vs, st1) /\
           position (bpy st1) dest 0 j = Some co /\
           nth_error skbs 0 = Some kb /\
           In kt skbs /\ name kt = n /\
           position (bpy st2) dest k j
           = Some (blended (data kb) (data kt) vs
                     (matmul (matrix_world dob) co))).
Proof.
  intros HR Hne Hsw Hdw Hspec.
  destruct (transfer_prologue_setup _ _ _ _ _ _ _ _ _ HR Hne Hsw Hdw Hspec)
    as (extra & st1 & Hrun & Hin & Hc & Ed & Hnd & Hnew & _ & _ & _ & Hmesh & _).
  set (S := setup_of st0 sob dob mwi skbs dm extra) in *.
  exists (map name extra), st1. split; [exact Hrun|].
  intros Hmatched.
  assert (Hall : forall j, j < s_total S -> correspondence S j <> []).
  { intros j Hj. destruct (Hmatched j Hj) as (vs & Hs & Hvs).
    destruct (search_of_vertex_inv S st1 j _ _ Hin Hs) as (_ & -> & _).
    exact Hvs. }
  destruct (while_vertices_all_matched S Hall Hnd
              (Datatypes.S (total_vertices (self st1)
                            - current_vertex_index (self st1))) st1 Hin)
    as (st2 & Hloop & Hmsg & _ & Hval).
  { rewrite (il_total S st1 Hin). lia. }
  exists st2.
  split; [now rewrite (transfer_shape_keys_run _ _ _ _ _ Hrun)|].
  split; [exact Hmsg|].
  intros n k j Hn Hk Hj.
  destruct (Hval n j Hn) as [Hsome Hpos].
  { rewrite Hc. split; [lia|exact Hj]. }
  destruct (Hmatched j Hj) as (vs & Hs & _).
  cbn [S setup_of s_dest] in Hpos. rewrite Ed in Hpos.
  destruct (transferred_view st0 sob dob mwi skbs dm extra st1 dest (bpy st2)
              n k j vs Hin Ed Hnd Hnew Hmesh Hn Hk Hj Hs Hsome Hpos)
    as (co & kb & kt & H).
  exists vs, co, kb, kt. split; [exact Hs|exact H].
Qed.

(** A run that meets a vertex without correspondence, and stops there or
    skips it, keeps what it has written: at every vertex before the first
    vertex [i] without correspondence, every key the call added holds the
    position of lines 144-153, whether the call returns [True] or
    [False]. *)
Theorem transfer_keeps_vertices_blended_before_unmatched
    (st0 : State) (src dest : nat) (sob dob : Object) (mwi : Matrix)
    (sm dm : Mesh) (skbs : list ShapeKey) :
  Ready st0 src dest sob dob mwi sm dm skbs ->
  src <> dest ->
  mesh_wf sm -> mesh_wf dm ->
  specify_end_vertex (self st0) = false ->
  exists wl st1,
    transfer_prologue src dest st0 = Ok (Some wl, st1) /\
    forall i,
      i < List.length (vertices dm) ->
      search_of_vertex i st1 = Ok ([], st1) ->
      (forall j, j < i ->
         exists vs, search_of_vertex j st1 = Ok (vs, st1) /\ vs <> []) ->
      exists ok st2,
        transfer_shape_keys src dest false st0 = Ok (ok, st2) /\
        (wl <> [] -> ok = skip_vertices_with_no_pair (self st0)) /\
        forall n k j,
          In n wl ->
          nth_error (mesh_names (bpy st1) dest) k = Some n ->
          j < i ->
          exists vs co kb kt,
            search_of_vertex j st1 = Ok (vs, st1) /\
            position (bpy st1) dest 0 j = Some co /\
            nth_error skbs 0 = Some kb /\
            In kt skbs /\ name kt = n /\
            position (bpy st2) dest k j
            = Some (blended (data kb) (data kt) vs
                      (matmul (matrix_world dob) co)).
Proof.
  intros HR Hne Hsw Hdw Hspec.
  destruct (transfer_prologue_setup _ _ _ _ _ _ _ _ _ HR Hne Hsw Hdw Hspec)
    as (extra & st1 & Hrun & Hin & Hc & Ed & Hnd & Hnew & _ & _ & _ & Hmesh & _).
  set (S := setup_of st0 sob dob mwi skbs dm extra) in *.
  exists (map name extra), st1. split; [exact Hrun|].
  intros i Hi Hempty Hmatched.
  assert (Hall : forall j, j < i -> correspondence S j <> []).
  { intros j Hj. destruct (Hmatched j Hj) as (vs & Hs & Hvs).
    destruct (search_of_vertex_inv S st1 j _ _ Hin Hs) as (_ & -> & _).
    exact Hvs. }
  assert (Hci : correspondence S i = []).
  { destruct (search_of_vertex_inv S st1 i _ _ Hin Hempty) as (_ & E & _).
    now symmetry. }
  set (fuel := Datatypes.S (total_vertices (self st1)
                            - current_vertex_index (self st1))).
  assert (Hfuel : fuel = Datatypes.S (List.length (vertices dm))).
  { unfold fuel. rewrite (il_total S st1 Hin), Hc. cbn [S setup_of s_total].
    lia. }
  destruct (while_vertices_prefix S i ltac:(cbn [S setup_of s_total]; lia)
              Hall Hnd i fuel st1 Hin ltac:(lia)
              ltac:(rewrite Hfuel, Hc; cbn [S setup_of s_total]; lia))
    as (st_i & Hin_i & Hc_i & Hrun_i & _ & Hval_i).
  destruct (while_vertices_returns S Hnd (fuel - i) st_i Hin_i
              ltac:(rewrite Hfuel, Hc_i; cbn [S setup_of s_total]; lia))
    as (ok & st2 & Hloop & _ & Hframe).
  exists ok, st2.
  split; [rewrite (transfer_shape_keys_run _ _ _ _ _ Hrun); fold fuel;
          change (map name extra) with (s_worklist S);
          now rewrite Hrun_i|].
  split.
  - intros Hwl.
    destruct (skip_vertices_with_no_pair (self st0)) eqn:Hskip.
    + destruct (while_vertices_skip S Hskip (fuel - i) st_i Hin_i
                  ltac:(rewrite Hfuel, Hc_i; cbn [S setup_of s_total]; lia))
        as (st' & Hrun' & _).
      rewrite Hloop in Hrun'. congruence.
    + destruct (while_vertices_abort S i Hskip Hwl
                  ltac:(cbn [S setup_of s_total]; lia) Hci 0 (fuel - i) st_i
                  Hin_i ltac:(lia) ltac:(intros; lia)
                  ltac:(rewrite Hfuel, Hc_i; cbn [S setup_of s_total]; lia))
        as (st' & ssi & Hrun' & _).
      rewrite Hloop in Hrun'. congruence.
  - intros n k j Hn Hk Hj.
    destruct (Hval_i n j Hn) as [Hsome Hpos]; [rewrite Hc; lia|].
    rewrite <- Hframe in Hpos by lia.
    destruct (Hmatched j Hj) as (vs & Hs & _).
    cbn [S setup_of s_dest] in Hpos. rewrite Ed in Hpos.
    destruct (transferred_view st0 sob dob mwi skbs dm extra st1 dest (bpy st2)
                n k j vs Hin Ed Hnd Hnew Hmesh Hn Hk ltac:(lia) Hs Hsome Hpos)
      as (co & kb & kt & H).
    exists vs, co, kb, kt. split; [exact Hs|exact H].
Qed.

(** The call on a scene that passes the checks of lines 179-186: the
    prologue adds the keys [extra], the loop returns, and the scene it
    leaves differs from the scene after the prologue in positions of the
    added keys only. *)
Lemma transfer_run st0 src dest sob dob mwi sm dm skbs :
  Ready st0 src dest sob dob mwi sm dm skbs ->
  src <> dest ->
  mesh_wf sm -> mesh_wf dm ->
  specify_end_vertex (self st0) = false ->
  exists extra st1 ok st2,
    transfer_prologue src dest st0 = Ok (Some (map name extra), st1)
    /\ transfer_shape_keys src dest false st0 = Ok (ok, st2)
    /\ touches_only dest
         (worklist_slot (setup_of st0 sob dob mwi skbs dm extra))
         (bpy st1) (bpy st2)
    /\ objects (bpy st1) = objects (bpy st0)
    /\ listUse (bpy st1) = listUse (bpy st0)
    /\ (forall mesh', mesh' <> dest ->
          nth_error (meshes (bpy st1)) mesh' = nth_error (meshes (bpy st0)) mesh')
    /\ nth_error (meshes (bpy st1)) dest
       = Some (mkMesh (vertices dm)
                 (Some (mkKey (initial_dest_blocks dm ++ extra))))
    /\ map name extra
       = provision (listUse (bpy st0)) (excluded_shape_keys (self st0))
           (default_excluded_keys (self st0)) (map name skbs)
           (map name (initial_dest_blocks dm)).
Proof.
  intros HR Hne Hsw Hdw Hspec.
  destruct (transfer_prologue_setup _ _ _ _ _ _ _ _ _ HR Hne Hsw Hdw Hspec)
    as (extra & st1 & Hrun & Hin & Hc & Ed & Hnd & Hnew & Ho & Hl & Hx & Hmesh
        & Hp).
  set (S := setup_of st0 sob dob mwi skbs dm extra) in *.
  destruct (while_vertices_returns S Hnd
              (Datatypes.S (total_vertices (self st1)
                            - current_vertex_index (self st1))) st1 Hin)
    as (ok & st2 & Hloop & Ht & _).
  { rewrite (il_total S st1 Hin). lia. }
  cbn [S setup_of s_dest] in Ht. rewrite Ed in Ht.
  exists extra, st1, ok, st2. split; [exact Hrun|].
  split; [now rewrite (transfer_shape_keys_run _ _ _ _ _ Hrun)|].
  repeat split; auto; apply Ht.
Qed.

(** On a scene that passes the checks of lines 179-186, and on an
    interpreter with room for the retries of a search, the call returns,
    [True] or [False], and what it has written are positions of the keys it
    added: the objects, every mesh but the destination (the source among
    them), the vertices of the destination and every position of a key the
    destination had before the call are as they were. *)
Theorem transfer_returns_and_keeps_existing_data
    (PY : Interpreter) (st0 : State) (src dest : nat) (sob dob : Object)
    (mwi : Matrix) (sm dm : Mesh) (skbs : list ShapeKey) :
  Ready st0 src dest sob dob mwi sm dm skbs ->
  src <> dest ->
  mesh_wf sm -> mesh_wf dm ->
  specify_end_vertex (self st0) = false ->
  retries_fit (PY := PY) (self st0) 0 ->
  exists ok st2,
    transfer_shape_keys (PY := PY) src dest false st0 = Ok (ok, st2) /\
    objects (bpy st2) = objects (bpy st0) /\
    (forall m, m <> dest ->
        nth_error (meshes (bpy st2)) m = nth_error (meshes (bpy st0)) m) /\
    option_map vertices (nth_error (meshes (bpy st2)) dest)
    = Some (vertices dm) /\
    (forall dk, shape_keys dm = Some dk ->
        forall k j, k < List.length (key_blocks dk) ->
          position (bpy st2) dest k j = position (bpy st0) dest k j).
Proof.
  intros HR Hne Hsw Hdw Hspec Hfit.
  rewrite (transfer_shape_keys_fit src dest false st0 Hfit).
  destruct (transfer_run _ _ _ _ _ _ _ _ _ HR Hne Hsw Hdw Hspec)
    as (extra & st1 & ok & st2 & Hrun & Hcall
        & (Ho2 & _ & Hm2 & Hv2 & _ & Hp2) & Ho & _ & Hx & Hmesh & _).
  exists ok, st2. split; [exact Hcall|].
  split; [congruence|].
  split; [intros m Hm; rewrite Hm2 by exact Hm; now apply Hx|].
  split; [rewrite Hv2, Hmesh; reflexivity|].
  intros dk Hdk k j Hk.
  assert (Hinit : initial_dest_blocks dm = key_blocks dk)
    by (unfold initial_dest_blocks; now rewrite Hdk).
  rewrite Hp2.
  - destruct HR as [_ _ _ _ Hdm _].
    unfold position, mesh_key_blocks. rewrite Hmesh, Hdm, Hdk. simpl.
    rewrite Hinit. now rewrite nth_error_app1.
  - intros (n & Hn & E). cbn [setup_of s_worklist s_dest_names] in Hn, E.
    rewrite map_app in E.
    pose proof (last_index_of_app (map name (initial_dest_blocks dm))
                  (map name extra) 0 n Hn) as Hge.
    rewrite length_map in Hge. rewrite Hinit in Hge, E. lia.
Qed.

End TransferMore.

Section KeyIndexUpdate.

Context {MU : Mathutils}.

(** [update_global_shapekey_indices] leaves in each of the two index
    attributes the index of the last key of the given name in the mesh; when
    the mesh has no key of that name the attribute keeps the value it had,
    the index of an earlier key.  The scene is not changed. *)
Theorem update_global_shapekey_indices_last_or_stale
    (st : State) (n : string) (dkbs skbs : list ShapeKey) :
  object_key_blocks (bpy st) (dest_mesh (self st)) = Some dkbs ->
  object_key_blocks (bpy st) (src_mesh (self st)) = Some skbs ->
  exists st',
    update_global_shapekey_indices n st = Ok (tt, st') /\
    bpy st' = bpy st /\
    let last_or_stale (kbs : list ShapeKey) (old idx : nat) :=
      (~ In n (map name kbs) /\ idx = old)
      \/ (option_map name (nth_error kbs idx) = Some n
          /\ forall i, idx < i -> option_map name (nth_error kbs i) <> Some n) in
    last_or_stale dkbs (dest_shape_key_index (self st))
                  (dest_shape_key_index (self st')) /\
    last_or_stale skbs (src_shape_key_index (self st))
                  (src_shape_key_index (self st')).
Proof.
  intros Hd Hs.
  assert (Hspec : forall kbs old,
            (~ In n (map name kbs) /\ last_index_named n kbs old = old)
            \/ (option_map name (nth_error kbs (last_index_named n kbs old))
                = Some n
                /\ forall i, last_index_named n kbs old < i ->
                             option_map name (nth_error kbs i) <> Some n)).
  { intros kbs old. rewrite last_index_named_names.
    destruct (last_index_of_spec n (map name kbs) old) as [[E Hn]|[Hf Hl]].
    - left. auto.
    - right. rewrite <- nth_error_map. split; [exact Hf|].
      intros i Hi. rewrite <- nth_error_map. now apply Hl. }
  eexists. unfold update_global_shapekey_indices.
  unfold bind at 1, get_self at 1. cbv beta iota.
  rewrite (bind_Ok _ _ _ _ _ (key_blocks_of_view _ _ _ Hd)).
  unfold bind at 1, assign at 1. cbv beta iota.
  match goal with
  | |- (bind (key_blocks_of ?o) _ ?s = _) /\ _ =>
      assert (Hs' : object_key_blocks (bpy s) o = Some skbs) by exact Hs
  end.
  rewrite (bind_Ok _ _ _ _ _ (key_blocks_of_view _ _ _ Hs')).
  unfold assign. split; [reflexivity|]. cbn [self bpy].
  split; [reflexivity|]. cbv zeta.
  cbn [dest_shape_key_index src_shape_key_index set_src_shape_key_index
       set_dest_shape_key_index].
  split; apply Hspec.
Qed.

End KeyIndexUpdate.

(** * The list of key names *)

From Stdlib Require Import Sorted.

Section SortedIndices.

Lemma insert_sorted_In x l y : In y (insert_sorted x l) <-> y = x \/ In y l.
Proof.
  induction l as [|h t IH]; simpl.
  - intuition.
  - destruct (x <=? h)%nat; simpl; [intuition|]. rewrite IH. intuition.
Qed.

Lemma sorted_In l y : In y (sorted l) <-> In y l.
Proof.
  induction l as [|h t IH]; simpl; [tauto|].
  rewrite insert_sorted_In, IH. intuition.
Qed.

Lemma insert_sorted_lt x l :
  ~ In x l -> StronglySorted lt l -> StronglySorted lt (insert_sorted x l).
Proof.
  intros Hx Hs. induction Hs as [|h t Hs IH Hh]; simpl.
  - repeat constructor.
  - destruct (Nat.leb_spec x h) as [Hle|Hgt].
    + assert (x < h) by (destruct (Nat.eq_dec x h); [subst; simpl in Hx; tauto|lia]).
      constructor; [constructor; assumption|].
      constructor; [assumption|].
      rewrite Forall_forall in Hh |- *. intros y Hy. specialize (Hh y Hy). lia.
    + constructor.
      * apply IH. simpl in Hx. tauto.
      * rewrite Forall_forall in Hh |- *. intros y Hy.
        apply insert_sorted_In in Hy. destruct Hy as [->|Hy]; [lia|auto].
Qed.

Lemma sorted_lt l : NoDup l -> StronglySorted lt (sorted l).
Proof.
  induction 1 as [|x l Hx _ IH]; simpl; [constructor|].
  apply insert_sorted_lt; [|exact IH]. now rewrite sorted_In.
Qed.

(** In a strictly increasing list the elements after the first are those
    that have a smaller element in the list. *)
Lemma tl_of_increasing l c :
  StronglySorted lt l ->
  In c (tl l) <-> In c l /\ exists j, In j l /\ j < c.
Proof.
  intros Hs. destruct Hs as [|h t Hs Hh]; simpl; [tauto|].
  rewrite Forall_forall in Hh. split.
  - intros Hc. split; [auto|]. exists h. split; [auto|now apply Hh].
  - intros [[->|Hc] (j & [<-|Hj] & Hlt)]; auto; try lia.
    specialize (Hh j Hj). lia.
Qed.

End SortedIndices.

Section NameLookup.

Import CUSTOM_OT_removeDuplicates.

Lemma lookup_setdefault_append k nm c d :
  lookup k (setdefault_append nm c d)
  = if String.eqb k nm then lookup k d ++ [c] else lookup k d.
Proof.
  unfold lookup. induction d as [|[k' v] d IH]; simpl.
  - rewrite (String.eqb_sym nm k). now destruct (String.eqb k nm).
  - destruct (String.eqb_spec k' nm) as [->|Hne]; simpl.
    + rewrite (String.eqb_sym nm k). now destruct (String.eqb k nm).
    + destruct (String.eqb_spec k' k) as [->|Hne'].
      * destruct (String.eqb_spec k nm); [contradiction|reflexivity].
      * exact IH.
Qed.

Lemma keys_setdefault_append nm c d :
  NoDup (map fst d) ->
  NoDup (map fst (setdefault_append nm c d))
  /\ forall k, In k (map fst (setdefault_append nm c d))
               <-> k = nm \/ In k (map fst d).
Proof.
  induction d as [|[k' v] d IH]; simpl; intros Hnd.
  - split; [repeat constructor; auto|]. intuition.
  - apply NoDup_cons_iff in Hnd. destruct Hnd as [Hk' Hnd].
    destruct (String.eqb_spec k' nm) as [->|Hne]; simpl.
    + split; [constructor; assumption|]. intuition.
    + destruct (IH Hnd) as [Hnd' Hin]. split.
      * constructor; [|exact Hnd']. rewrite Hin. intuition.
      * intros k. rewrite Hin. intuition.
Qed.

Lemma indices_named_cons nm s it items :
  indices_named nm s (it :: items)
  = (if String.eqb (item_name it) nm then [s] else [])
    ++ indices_named nm (S s) items.
Proof.
  unfold indices_named. simpl. now destruct (String.eqb (item_name it) nm).
Qed.

(** The dict of lines 608-610 maps every name to the indices of the items
    of that name, in increasing order. *)
Lemma name_lookup_fold items :
  forall s d,
    NoDup (map fst d) ->
    let d' := fold_left (fun d (ci : nat * ShapeKeyItem) =>
                           setdefault_append (item_name (snd ci)) (fst ci) d)
                        (enumerate_from s items) d in
    NoDup (map fst d')
    /\ forall k, lookup k d' = lookup k d ++ indices_named k s items.
Proof.
  induction items as [|it items IH]; intros s d Hnd; simpl.
  - split; [exact Hnd|]. intros k. now rewrite app_nil_r.
  - destruct (keys_setdefault_append (item_name it) s d Hnd) as [Hnd' _].
    destruct (IH (S s) _ Hnd') as [Hnd'' Hl]. split; [exact Hnd''|].
    intros k. rewrite Hl, lookup_setdefault_append, indices_named_cons.
    rewrite (String.eqb_sym k).
    destruct (String.eqb (item_name it) k); [now rewrite <- app_assoc|reflexivity].
Qed.

Lemma lookup_entry k v d :
  NoDup (map fst d) -> In (k, v) d -> lookup k d = v.
Proof.
  unfold lookup. induction d as [|[k' v'] d IH]; simpl; intros Hnd Hin;
    [contradiction|].
  apply NoDup_cons_iff in Hnd. destruct Hnd as [Hk' Hnd].
  destruct Hin as [E|Hin].
  - injection E as -> ->. now rewrite String.eqb_refl.
  - destruct (String.eqb_spec k' k) as [->|Hne]; [|auto].
    exfalso. apply Hk'. apply in_map_iff. exists (k, v). auto.
Qed.

Lemma indices_named_In nm items :
  forall s c,
    In c (indices_named nm s items)
    <-> s <= c /\ exists it, nth_error items (c - s) = Some it
                             /\ item_name it = nm.
Proof.
  induction items as [|it items IH]; intros s c.
  - unfold indices_named. simpl. split; [tauto|].
    intros (_ & it & H & _). destruct (c - s); discriminate.
  - rewrite indices_named_cons, in_app_iff, IH. split.
    + intros [H|(Hle & it' & Hn & E)].
      * destruct (String.eqb_spec (item_name it) nm) as [E|E]; [|destruct H].
        destruct H as [<-|[]]. split; [lia|]. exists it.
        rewrite Nat.sub_diag. auto.
      * split; [lia|]. exists it'. split; [|exact E].
        replace (c - s) with (S (c - S s)) by lia. exact Hn.
    + intros (Hle & it' & Hn & E).
      destruct (Nat.eq_dec c s) as [->|Hne].
      * left. rewrite Nat.sub_diag in Hn. injection Hn as ->.
        rewrite <- E, String.eqb_refl. now left.
      * right. split; [lia|]. exists it'. split; [|exact E].
        replace (c - s) with (S (c - S s)) in Hn by lia. exact Hn.
Qed.

Lemma indices_named_increasing nm items :
  forall s, StronglySorted lt (indices_named nm s items).
Proof.
  induction items as [|it items IH]; intros s.
  - constructor.
  - rewrite indices_named_cons.
    destruct (String.eqb (item_name it) nm); simpl; [|apply IH].
    constructor; [apply IH|]. rewrite Forall_forall. intros c Hc.
    apply indices_named_In in Hc. lia.
Qed.

Lemma set_add_In i s c : In c (set_add i s) <-> c = i \/ In c s.
Proof.
  unfold set_add. destruct (existsb (Nat.eqb i) s) eqn:E.
  - apply existsb_exists in E. destruct E as (x & Hx & Ex).
    apply Nat.eqb_eq in Ex. subst x. intuition. now subst.
  - rewrite in_app_iff. simpl. intuition.
Qed.

Lemma set_add_NoDup i s : NoDup s -> NoDup (set_add i s).
Proof.
  intros Hnd. unfold set_add. destruct (existsb (Nat.eqb i) s) eqn:E; [exact Hnd|].
  apply NoDup_app; [exact Hnd|repeat constructor; auto|].
  intros x Hx [->|[]].
  assert (existsb (Nat.eqb x) s = true); [|congruence].
  apply existsb_exists. exists x. split; [exact Hx|apply Nat.eqb_refl].
Qed.

Lemma set_add_each l :
  forall s, NoDup s ->
    NoDup (fold_left (fun s i => set_add i s) l s)
    /\ forall c, In c (fold_left (fun s i => set_add i s) l s)
                 <-> In c l \/ In c s.
Proof.
  induction l as [|i l IH]; intros s Hnd; simpl.
  - split; [exact Hnd|]. tauto.
  - destruct (IH (set_add i s) (set_add_NoDup i s Hnd)) as [Hnd' Hin].
    split; [exact Hnd'|]. intros c. rewrite Hin, set_add_In. intuition.
Qed.

Lemma duplicates_fold (d : list (string * list nat)) :
  forall s, NoDup s ->
    let s' := fold_left (fun s (entry : string * list nat) =>
                           fold_left (fun s i => set_add i s) (tl (snd entry)) s)
                        d s in
    NoDup s'
    /\ forall c, In c s' <-> (exists kv, In kv d /\ In c (tl (snd kv))) \/ In c s.
Proof.
  induction d as [|kv d IH]; intros s Hnd; simpl.
  - split; [exact Hnd|]. intros c. split; [auto|].
    intros [(kv & [] & _)|H]; exact H.
  - destruct (set_add_each (tl (snd kv)) s Hnd) as [Hnd1 Hin1].
    destruct (IH _ Hnd1) as [Hnd' Hin]. split; [exact Hnd'|].
    intros c. rewrite Hin, Hin1. split.
    + intros [(kv' & Hkv & Hc)|[Hc|Hc]]; eauto.
    + intros [(kv' & [<-|Hkv] & Hc)|Hc]; eauto.
Qed.

End NameLookup.

Section RemoveDuplicates.

Import CUSTOM_OT_removeDuplicates.

(** [find_duplicates] returns, in increasing order and each once, the
    indices of the items whose name is the name of an earlier item. *)
Theorem find_duplicates_later_occurrences (items : list ShapeKeyItem) :
  StronglySorted lt (find_duplicates items)
  /\ forall c, In c (find_duplicates items) <-> repeats_earlier_name items c.
Proof.
  unfold find_duplicates.
  destruct (name_lookup_fold items 0 [] (NoDup_nil _)) as [Hkeys Hlook].
  fold (enumerate items) in Hkeys, Hlook.
  set (d := fold_left _ (enumerate items) []) in *.
  destruct (duplicates_fold d [] (NoDup_nil _)) as [Hnd Hin].
  set (dups := fold_left _ d []) in *.
  split; [now apply sorted_lt|].
  intros c. rewrite sorted_In, Hin. unfold repeats_earlier_name. split.
  - intros [((k, v) & Hkv & Hc)|[]]. simpl in Hc.
    rewrite <- (lookup_entry k v d Hkeys Hkv), Hlook in Hc. simpl in Hc.
    apply (tl_of_increasing _ _ (indices_named_increasing k items 0)) in Hc.
    destruct Hc as (Hc & j & Hj & Hlt).
    apply indices_named_In in Hc, Hj. rewrite Nat.sub_0_r in Hc, Hj.
    destruct Hc as (_ & it & Hit & E). destruct Hj as (_ & it' & Hit' & E').
    exists j, it, it'. repeat split; auto. congruence.
  - intros (j & it & it' & Hlt & Hj & Hc & E). left.
    assert (Hcn : In c (indices_named (item_name it) 0 items)).
    { apply indices_named_In. rewrite Nat.sub_0_r. split; [lia|eauto]. }
    assert (Hjn : In j (indices_named (item_name it) 0 items)).
    { apply indices_named_In. rewrite Nat.sub_0_r. split; [lia|eauto]. }
    assert (Hl : lookup (item_name it) d = indices_named (item_name it) 0 items)
      by (rewrite Hlook; reflexivity).
    exists (item_name it, lookup (item_name it) d). split.
    + unfold lookup in *.
      destruct (find (fun kv => String.eqb (fst kv) (item_name it)) d)
        as [[k v]|] eqn:Ef.
      * apply find_some in Ef. destruct Ef as [Hkv Ek]. simpl in Ek.
        apply String.eqb_eq in Ek. now subst k.
      * rewrite <- Hl in Hcn. destruct Hcn.
    + simpl. rewrite Hl.
      apply (tl_of_increasing _ _ (indices_named_increasing _ items 0)).
      split; [exact Hcn|]. exists j. auto.
Qed.

Lemma remove_at_length {A} (l : list A) i :
  i < List.length l -> List.length (remove_at i l) = List.length l - 1.
Proof.
  revert i. induction l as [|h t IH]; intros [|i]; simpl; intros H; try lia.
  rewrite IH by lia. lia.
Qed.

(** Taking out the item at index [m] and keeping by [keep] afterwards is
    keeping by [keep'] at once, when the two tests agree below [m], [keep']
    drops [m] and both keep everything above. *)
Lemma kept_items_remove_at {A} (keep keep' : nat -> bool) :
  forall (l : list A) m s,
    m < List.length l ->
    (forall i, i < s + m -> keep i = keep' i) ->
    keep' (s + m) = false ->
    (forall i, s + m <= i -> keep i = true) ->
    (forall i, s + m < i -> keep' i = true) ->
    kept_items keep s (remove_at m l) = kept_items keep' s l.
Proof.
  assert (Hall : forall (l : list A) s (keep keep' : nat -> bool),
            (forall i, s <= i -> keep i = true) ->
            (forall i, s < i -> keep' i = true) ->
            kept_items keep s l = kept_items keep' (S s) l).
  { induction l as [|h t IH]; intros s k k' Hk Hk'; [reflexivity|].
    unfold kept_items in *. simpl. rewrite Hk by lia. rewrite Hk' by lia.
    simpl. f_equal. apply IH; intros i Hi; [apply Hk|apply Hk']; lia. }
  induction l as [|h t IH]; intros [|m] s Hm Hlow Hdrop Hk Hk'; simpl in Hm;
    try lia.
  - unfold kept_items at 2. simpl. rewrite Nat.add_0_r in Hdrop.
    rewrite Hdrop. simpl. apply Hall; intros i Hi; [apply Hk|apply Hk']; lia.
  - unfold kept_items in *. simpl. rewrite (Hlow s) by lia.
    destruct (keep' s); simpl; [f_equal|]; apply IH; try lia;
      try (intros i Hi; first [apply Hlow|apply Hk|apply Hk']; lia);
      now replace (S s + m) with (s + S m) by lia.
Qed.

Lemma kept_items_all {A} (keep : nat -> bool) (l : list A) :
  (forall i, keep i = true) -> forall s, kept_items keep s l = l.
Proof.
  intros Hk. unfold kept_items.
  induction l as [|h t IH]; intros s; simpl; [reflexivity|].
  rewrite Hk. simpl. now rewrite IH.
Qed.

(** Removing strictly decreasing indices one after the other leaves the
    items at the other indices. *)
Lemma remove_each_decreasing (indices : list nat) :
  forall l,
    StronglySorted gt indices ->
    Forall (fun i => i < List.length l) indices ->
    remove_each indices l
    = Finished (kept_items (fun c => negb (existsb (Nat.eqb c) indices)) 0 l).
Proof.
  induction indices as [|m ds IH]; intros l Hs Hr.
  - simpl. now rewrite kept_items_all.
  - pose proof (StronglySorted_inv Hs) as [Hs' Hgt].
    pose proof (Forall_inv Hr) as Hm. cbv beta in Hm.
    rewrite Forall_forall in Hgt.
    cbn [remove_each]. unfold coll_remove.
    replace ((0 <=? Z.of_nat m)%Z && (Z.of_nat m <? Z.of_nat (List.length l))%Z)
      with true.
    2: { symmetry. apply andb_true_iff. split; [apply Z.leb_le|apply Z.ltb_lt]; lia. }
    rewrite Nat2Z.id. rewrite IH.
    + f_equal. apply kept_items_remove_at; try exact Hm; simpl.
      * intros i Hi. destruct (Nat.eqb_spec i m); [lia|reflexivity].
      * now rewrite Nat.eqb_refl.
      * intros i Hi. apply negb_true_iff.
        destruct (existsb (Nat.eqb i) ds) eqn:E; [|reflexivity].
        apply existsb_exists in E. destruct E as (x & Hx & Ex).
        apply Nat.eqb_eq in Ex. subst x. specialize (Hgt i Hx). lia.
      * intros i Hi. destruct (Nat.eqb_spec i m); [lia|]. simpl.
        apply negb_true_iff.
        destruct (existsb (Nat.eqb i) ds) eqn:E; [|reflexivity].
        apply existsb_exists in E. destruct E as (x & Hx & Ex).
        apply Nat.eqb_eq in Ex. subst x. specialize (Hgt i Hx). lia.
    + exact Hs'.
    + rewrite Forall_forall. intros x Hx. rewrite remove_at_length by exact Hm.
      specialize (Hgt x Hx). lia.
Qed.

Lemma kept_items_ext {A} (keep keep' : nat -> bool) (l : list A) :
  (forall i, keep i = keep' i) ->
  forall s, kept_items keep s l = kept_items keep' s l.
Proof.
  intros He. unfold kept_items.
  induction l as [|h t IH]; intros s; simpl; [reflexivity|].
  rewrite He. destruct (keep' s); simpl; now rewrite IH.
Qed.

Lemma kept_items_In {A} (keep : nat -> bool) (l : list A) x :
  forall s,
    In x (kept_items keep s l)
    <-> exists c, nth_error l c = Some x /\ keep (s + c) = true.
Proof.
  unfold kept_items. induction l as [|h t IH]; intros s; simpl.
  - split; [tauto|]. intros ([|c] & H & _); discriminate.
  - split.
    + destruct (keep s) eqn:Ek; simpl.
      * intros [<-|Hx].
        -- exists 0. rewrite Nat.add_0_r. auto.
        -- apply IH in Hx. destruct Hx as (c & Hc & Hk). exists (S c).
           split; [exact Hc|]. now rewrite Nat.add_succ_r.
      * intros Hx. apply IH in Hx. destruct Hx as (c & Hc & Hk). exists (S c).
        split; [exact Hc|]. now rewrite Nat.add_succ_r.
    + intros ([|c] & Hc & Hk); simpl in Hc.
      * injection Hc as ->. rewrite Nat.add_0_r in Hk. rewrite Hk. now left.
      * assert (In x (map snd (filter (fun ci : nat * A => keep (fst ci))
                                      (enumerate_from (S s) t)))).
        { apply IH. exists c. split; [exact Hc|].
          now rewrite Nat.add_succ_r in Hk. }
        destruct (keep s); simpl; auto.
Qed.

Lemma kept_items_NoDup {A B} (f : A -> B) (keep : nat -> bool) (l : list A) :
  forall s,
    (forall c c' x x',
        c < c' -> nth_error l c = Some x -> nth_error l c' = Some x' ->
        keep (s + c) = true -> keep (s + c') = true -> f x <> f x') ->
    NoDup (map f (kept_items keep s l)).
Proof.
  induction l as [|h t IH]; intros s Hd; [constructor|].
  assert (Ht : NoDup (map f (kept_items keep (S s) t))).
  { apply IH. intros c c' x x' Hlt Hc Hc' Hk Hk'.
    apply (Hd (S c) (S c') x x'); try assumption; try lia;
      now rewrite Nat.add_succ_r. }
  unfold kept_items in *. simpl. destruct (keep s) eqn:Ek; [|exact Ht].
  simpl. constructor; [|exact Ht].
  intros Hin. apply in_map_iff in Hin. destruct Hin as (x' & Ef & Hx').
  apply (kept_items_In keep t x' (S s)) in Hx'. destruct Hx' as (c' & Hc' & Hk').
  apply (Hd 0 (S c') h x'); auto; try lia.
  - now rewrite Nat.add_0_r.
  - now rewrite Nat.add_succ_r.
Qed.

Lemma StronglySorted_rev l : StronglySorted lt l -> StronglySorted gt (rev l).
Proof.
  induction 1 as [|h t Hs IH Hh]; simpl; [constructor|].
  rewrite Forall_forall in Hh.
  assert (Happ : forall l1, StronglySorted gt l1 ->
            (forall x, In x l1 -> h < x) -> StronglySorted gt (l1 ++ [h])).
  { induction 1 as [|a l1 Hs1 IH1 Ha]; intros Hlt; simpl.
    - repeat constructor.
    - constructor.
      + apply IH1. intros x Hx. apply Hlt. now right.
      + rewrite Forall_forall in Ha |- *. intros x Hx.
        apply in_app_iff in Hx. destruct Hx as [Hx|[<-|[]]]; [auto|].
        unfold gt. apply Hlt. now left. }
  apply Happ; [exact IH|]. intros x Hx. apply Hh. now apply in_rev.
Qed.

(** Every item has a first item of its name. *)
Lemma first_of_name (items : list ShapeKeyItem) :
  forall c it,
    nth_error items c = Some it ->
    exists c0 it0,
      nth_error items c0 = Some it0 /\ item_name it0 = item_name it
      /\ ~ repeats_earlier_name items c0.
Proof.
  induction c as [c IH] using lt_wf_ind. intros it Hc.
  destruct (in_dec Nat.eq_dec c (find_duplicates items)) as [Hin|Hout].
  - apply find_duplicates_later_occurrences in Hin.
    destruct Hin as (j & it1 & it' & Hlt & Hj & Hc1 & E).
    assert (it1 = it) by congruence. subst it1.
    destruct (IH j Hlt it' Hj) as (c0 & it0 & H0 & E0 & Hn0).
    exists c0, it0. split; [exact H0|]. split; [congruence|exact Hn0].
  - exists c, it. split; [exact Hc|]. split; [reflexivity|].
    intros Hr. apply Hout. now apply find_duplicates_later_occurrences.
Qed.

(** "Remove Duplicates" always finishes.  It leaves the items that do not
    repeat the name of an earlier item, in their order: no two items of the
    list have the same name any more, and every name of the list is still
    there.  When an item was removed the last item is selected; otherwise
    the selection stays. *)
Theorem remove_duplicates_keeps_first_of_each_name (ui : Ui) :
  let items := customshapekeylist ui in
  exists ui',
    execute ui = Finished ui' /\
    customshapekeylist ui'
    = kept_items (fun c => negb (existsb (Nat.eqb c) (find_duplicates items)))
                 0 items /\
    (forall it, In it (customshapekeylist ui') <->
                exists c, nth_error items c = Some it
                          /\ ~ repeats_earlier_name items c) /\
    NoDup (map item_name (customshapekeylist ui')) /\
    (forall n, In n (map item_name (customshapekeylist ui'))
               <-> In n (map item_name items)) /\
    customshapekeylist_index ui'
    = match find_duplicates items with
      | [] => customshapekeylist_index ui
      | _ :: _ => (Z.of_nat (List.length (customshapekeylist ui')) - 1)%Z
      end /\
    clipboard ui' = clipboard ui.
Proof.
  intros items.
  destruct (find_duplicates_later_occurrences items) as [Hs Hin].
  set (keep := fun c => negb (existsb (Nat.eqb c) (find_duplicates items))).
  assert (Hkeep : forall c, keep c = true <-> ~ repeats_earlier_name items c).
  { intros c. unfold keep. rewrite negb_true_iff, <- Hin. split.
    - intros E Hc. assert (existsb (Nat.eqb c) (find_duplicates items) = true);
        [|congruence].
      apply existsb_exists. exists c. split; [exact Hc|apply Nat.eqb_refl].
    - intros Hc. destruct (existsb _ _) eqn:E; [|reflexivity].
      apply existsb_exists in E. destruct E as (x & Hx & Ex).
      apply Nat.eqb_eq in Ex. subst x. contradiction. }
  assert (Hrun : remove_each (rev (find_duplicates items)) items
                 = Finished (kept_items keep 0 items)).
  { rewrite remove_each_decreasing.
    - f_equal. apply kept_items_ext. intros i. unfold keep. f_equal.
      destruct (existsb (Nat.eqb i) (find_duplicates items)) eqn:E.
      + apply existsb_exists in E. destruct E as (x & Hx & Ex).
        apply existsb_exists. exists x. split; [now apply in_rev in Hx|exact Ex].
      + destruct (existsb (Nat.eqb i) (rev (find_duplicates items))) eqn:E';
          [|reflexivity].
        apply existsb_exists in E'. destruct E' as (x & Hx & Ex).
        rewrite <- in_rev in Hx.
        assert (existsb (Nat.eqb i) (find_duplicates items) = true);
          [|congruence].
        apply existsb_exists. eauto.
    - now apply StronglySorted_rev.
    - rewrite Forall_forall. intros c Hc. rewrite <- in_rev in Hc.
      apply Hin in Hc. destruct Hc as (_ & it & _ & _ & _ & Hc & _).
      apply nth_error_Some. congruence. }
  assert (HIn : forall it, In it (kept_items keep 0 items) <->
                  exists c, nth_error items c = Some it
                            /\ ~ repeats_earlier_name items c).
  { intros it. rewrite kept_items_In. simpl.
    split; intros (c & Hc & Hk); exists c; (split; [exact Hc|]);
      now apply Hkeep. }
  unfold execute. fold items. rewrite Hrun.
  assert (Hprops :
    NoDup (map item_name (kept_items keep 0 items))
    /\ forall n, In n (map item_name (kept_items keep 0 items))
                 <-> In n (map item_name items)).
  { split.
    - apply kept_items_NoDup. simpl. intros c c' x x' Hlt Hc Hc' _ Hk' E.
      apply Hkeep in Hk'. apply Hk'. exists c, x', x. auto.
    - intros n. rewrite !in_map_iff. split.
      + intros (it & E & Hit). apply HIn in Hit. destruct Hit as (c & Hc & _).
        exists it. split; [exact E|]. eapply nth_error_In; eauto.
      + intros (it & E & Hit). apply In_nth_error in Hit.
        destruct Hit as (c & Hc).
        destruct (first_of_name items c it Hc) as (c0 & it0 & H0 & E0 & Hn0).
        exists it0. split; [congruence|]. apply HIn. eauto. }
  destruct Hprops as [Hnd Hnames].
  destruct (find_duplicates items) as [|d ds] eqn:Ed.
  - simpl rev. cbv iota. eexists. split; [reflexivity|].
    cbn [customshapekeylist customshapekeylist_index clipboard report set_list].
    split; [reflexivity|]. split; [exact HIn|]. split; [exact Hnd|].
    split; [exact Hnames|]. split; reflexivity.
  - destruct (rev (d :: ds)) as [|r rs] eqn:Er.
    { apply (f_equal (@List.length nat)) in Er. rewrite length_rev in Er.
      discriminate. }
    eexists. split; [reflexivity|].
    cbn [customshapekeylist customshapekeylist_index clipboard report set_list
         set_index].
    split; [reflexivity|]. split; [exact HIn|]. split; [exact Hnd|].
    split; [exact Hnames|]. split; reflexivity.
Qed.

End RemoveDuplicates.

Section ListActions.

Import CUSTOM_OT_actions.

Lemma insert_remove_length {A} (l : list A) i j x :
  i < List.length l -> j < List.length l ->
  List.length (insert_at j x (remove_at i l)) = List.length l.
Proof.
  intros Hi Hj.
  assert (Hins : forall (l : list A) j, List.length (insert_at j x l)
                                        = S (List.length l)).
  { clear. induction l as [|h t IH]; intros [|j]; simpl; auto. }
  rewrite Hins.
  clear Hj. revert i Hi. induction l as [|h t IH]; intros [|i] Hi; simpl in *;
    try lia.
  destruct t; simpl in *; [lia|]. rewrite IH; simpl; lia.
Qed.

(** Moving an item one place down puts it one place further and the next
    item in its place; moving it back up restores the list. *)
Lemma move_down {A} (l : list A) i x :
  nth_error l i = Some x -> S i < List.length l ->
  let l1 := insert_at (S i) x (remove_at i l) in
  nth_error l1 (S i) = Some x
  /\ insert_at i x (remove_at (S i) l1) = l.
Proof.
  revert i. induction l as [|a t IH]; intros [|i] Hx Hlen; simpl in *;
    try discriminate; try lia.
  - injection Hx as ->. destruct t as [|b t]; simpl in *; [lia|]. auto.
  - destruct (IH i Hx ltac:(lia)) as [Hn Hr]. split; [exact Hn|].
    simpl. now rewrite Hr.
Qed.

Lemma move_up {A} (l : list A) i x :
  nth_error l (S i) = Some x ->
  let l1 := insert_at i x (remove_at (S i) l) in
  nth_error l1 i = Some x
  /\ insert_at (S i) x (remove_at i l1) = l.
Proof.
  revert i. induction l as [|a t IH]; intros [|i] Hx; simpl in *;
    try discriminate.
  - destruct t as [|b t]; simpl in *; [discriminate|].
    injection Hx as ->. auto.
  - destruct (IH i Hx) as [Hn Hr]. split; [exact Hn|].
    simpl. now rewrite Hr.
Qed.

Lemma py_index_nat {A} (l : list A) (i : nat) :
  py_index l (Z.of_nat i) = nth_error l i.
Proof.
  unfold py_index. replace (0 <=? Z.of_nat i)%Z with true
    by (symmetry; apply Z.leb_le; lia).
  now rewrite Nat2Z.id.
Qed.

Lemma coll_move_nat {A} (l : list A) (a b : nat) x :
  nth_error l a = Some x -> b < List.length l ->
  coll_move (Z.of_nat a) (Z.of_nat b) l
  = Finished (insert_at b x (remove_at a l)).
Proof.
  intros Hx Hb. unfold coll_move.
  assert (Ha : a < List.length l) by (apply nth_error_Some; congruence).
  replace ((0 <=? Z.of_nat a)%Z && (Z.of_nat a <? Z.of_nat (List.length l))%Z
           && (0 <=? Z.of_nat b)%Z && (Z.of_nat b <? Z.of_nat (List.length l))%Z)
    with true.
  - now rewrite !Nat2Z.id, Hx.
  - symmetry. rewrite !andb_true_iff.
    repeat split; try apply Z.leb_le; try apply Z.ltb_lt; lia.
Qed.

(** With an item selected (and the index not negative), 'DOWN' and 'UP'
    move the selected item one place and keep it selected, and the opposite
    action afterwards restores the list and the index. *)
Theorem move_then_move_back_restores
    (default_keys : list string) (action : Action) (ui : Ui) :
  let idx := customshapekeylist_index ui in
  let l := customshapekeylist ui in
  (action = DOWN /\ (0 <= idx < Z.of_nat (List.length l) - 1)%Z)
  \/ (action = UP /\ (1 <= idx < Z.of_nat (List.length l))%Z) ->
  exists ui1 ui2,
    invoke default_keys action ui = Finished ui1 /\
    customshapekeylist_index ui1
    = (match action with DOWN => idx + 1 | _ => idx - 1 end)%Z /\
    py_index (customshapekeylist ui1) (customshapekeylist_index ui1)
    = py_index l idx /\
    List.length (customshapekeylist ui1) = List.length l /\
    invoke default_keys (match action with DOWN => UP | _ => DOWN end) ui1
    = Finished ui2 /\
    customshapekeylist ui2 = l /\
    customshapekeylist_index ui2 = idx.
Proof.
  intros idx l [[-> Hr]|[-> Hr]].
  - (* down, then up *)
    assert (Ei : idx = Z.of_nat (Z.to_nat idx)) by lia.
    set (i := Z.to_nat idx) in *.
    destruct (nth_error l i) as [x|] eqn:Hx.
    2: { apply nth_error_None in Hx. lia. }
    destruct (move_down l i x Hx ltac:(lia)) as [Hn Hback].
    set (l1 := insert_at (S i) x (remove_at i l)) in *.
    assert (Hlen1 : List.length l1 = List.length l)
      by (apply insert_remove_length; lia).
    assert (Hnext : exists y, nth_error l (S i) = Some y).
    { destruct (nth_error l (S i)) eqn:E; [eauto|].
      apply nth_error_None in E. lia. }
    destruct Hnext as (y & Hy).
    do 2 eexists. unfold invoke, on_selected. fold idx l.
    rewrite Ei, py_index_nat, Hx.
    replace (Z.of_nat i <? Z.of_nat (List.length l) - 1)%Z with true
      by (symmetry; apply Z.ltb_lt; lia).
    replace (Z.of_nat i + 1)%Z with (Z.of_nat (S i)) by lia.
    rewrite py_index_nat, Hy.
    rewrite (coll_move_nat l i (S i) x Hx ltac:(lia)). fold l1.
    split; [reflexivity|].
    cbn [customshapekeylist customshapekeylist_index report set_index set_list].
    split; [reflexivity|]. split; [now rewrite py_index_nat|].
    split; [exact Hlen1|].
    rewrite py_index_nat, Hn.
    replace (1 <=? Z.of_nat (S i))%Z with true by (symmetry; apply Z.leb_le; lia).
    replace (Z.of_nat (S i) - 1)%Z with (Z.of_nat i) by lia.
    rewrite py_index_nat.
    destruct (nth_error l1 i) as [z|] eqn:Hz.
    2: { apply nth_error_None in Hz. lia. }
    rewrite (coll_move_nat l1 (S i) i x Hn ltac:(lia)). rewrite Hback.
    split; [reflexivity|].
    cbn [customshapekeylist customshapekeylist_index report set_index set_list].
    auto.
  - (* up, then down *)
    assert (Ei : idx = Z.of_nat (S (Z.to_nat (idx - 1)))) by lia.
    set (i := Z.to_nat (idx - 1)) in *.
    destruct (nth_error l (S i)) as [x|] eqn:Hx.
    2: { apply nth_error_None in Hx. lia. }
    destruct (move_up l i x Hx) as [Hn Hback].
    set (l1 := insert_at i x (remove_at (S i) l)) in *.
    assert (Hlen1 : List.length l1 = List.length l)
      by (apply insert_remove_length; lia).
    assert (Hprev : exists y, nth_error l i = Some y).
    { destruct (nth_error l i) eqn:E; [eauto|].
      apply nth_error_None in E. lia. }
    destruct Hprev as (y & Hy).
    do 2 eexists. unfold invoke, on_selected. fold idx l.
    rewrite Ei, py_index_nat, Hx.
    replace (1 <=? Z.of_nat (S i))%Z with true by (symmetry; apply Z.leb_le; lia).
    replace (Z.of_nat (S i) - 1)%Z with (Z.of_nat i) by lia.
    rewrite py_index_nat, Hy.
    rewrite (coll_move_nat l (S i) i x Hx ltac:(lia)). fold l1.
    split; [reflexivity|].
    cbn [customshapekeylist customshapekeylist_index report set_index set_list].
    split; [reflexivity|]. split; [now rewrite py_index_nat|].
    split; [exact Hlen1|].
    rewrite py_index_nat, Hn.
    replace (Z.of_nat i <? Z.of_nat (List.length l1) - 1)%Z with true
      by (symmetry; apply Z.ltb_lt; lia).
    replace (Z.of_nat i + 1)%Z with (Z.of_nat (S i)) by lia.
    rewrite py_index_nat.
    destruct (nth_error l1 (S i)) as [z|] eqn:Hz.
    2: { apply nth_error_None in Hz. lia. }
    rewrite (coll_move_nat l1 i (S i) x Hn ltac:(lia)). rewrite Hback.
    split; [reflexivity|].
    cbn [customshapekeylist customshapekeylist_index report set_index set_list].
    auto.
Qed.

Lemma remove_at_split {A} (l : list A) i :
  remove_at i l = firstn i l ++ skipn (S i) l.
Proof.
  revert i. induction l as [|h t IH]; intros [|i]; simpl; auto.
  now rewrite IH.
Qed.

Lemma skipn_nth_error {A} (l : list A) i x :
  nth_error l i = Some x -> skipn i l = x :: skipn (S i) l.
Proof.
  revert i. induction l as [|h t IH]; intros [|i] H; simpl in *;
    try discriminate.
  - now injection H as ->.
  - now apply IH.
Qed.

(** 'REMOVE' with an item selected (and the index not negative) takes that
    item out, keeps the others in their order, and selects the index
    before: after the first item is removed the index is -1, also when
    items remain. *)
Theorem remove_selects_the_index_before
    (default_keys : list string) (ui : Ui) (item : ShapeKeyItem) :
  let idx := customshapekeylist_index ui in
  let l := customshapekeylist ui in
  (0 <= idx)%Z ->
  py_index l idx = Some item ->
  exists ui',
    invoke default_keys REMOVE ui = Finished ui' /\
    customshapekeylist ui'
    = firstn (Z.to_nat idx) l ++ skipn (S (Z.to_nat idx)) l /\
    l = firstn (Z.to_nat idx) l ++ item :: skipn (S (Z.to_nat idx)) l /\
    customshapekeylist_index ui' = (idx - 1)%Z /\
    (idx = 0%Z -> customshapekeylist_index ui' = (-1)%Z).
Proof.
  intros idx l Hidx Hitem.
  assert (Ei : idx = Z.of_nat (Z.to_nat idx)) by lia.
  set (i := Z.to_nat idx) in *.
  rewrite Ei, py_index_nat in Hitem.
  assert (Hi : i < List.length l) by (apply nth_error_Some; congruence).
  eexists. unfold invoke, on_selected. fold idx l.
  rewrite Ei at 1. rewrite py_index_nat, Hitem.
  unfold coll_remove.
  replace ((0 <=? idx)%Z && (idx <? Z.of_nat (List.length l))%Z) with true
    by (symmetry; apply andb_true_iff; split;
        [apply Z.leb_le|apply Z.ltb_lt]; lia).
  split; [reflexivity|].
  cbn [customshapekeylist customshapekeylist_index report set_index set_list].
  fold i. split; [apply remove_at_split|].
  split; [|split; [reflexivity|intros ->; reflexivity]].
  rewrite <- (firstn_skipn i l) at 1. f_equal.
  now apply skipn_nth_error.
Qed.

End ListActions.

Section ClipboardNames.

Context {MU : Mathutils}.

Lemma add_item_list key ui :
  customshapekeylist (add_item key ui)
  = customshapekeylist ui
    ++ [mkItem key "STRING" (S (List.length (customshapekeylist ui)))]
  /\ customshapekeylist_index (add_item key ui)
     = Z.of_nat (List.length (customshapekeylist ui))
  /\ clipboard (add_item key ui) = clipboard ui
  /\ reports (add_item key ui) = reports ui.
Proof.
  unfold add_item, set_index, set_list. simpl.
  rewrite length_app. simpl. repeat split. lia.
Qed.

(** The loop of lines 317-323 over any list of lines. *)
Lemma insert_lines (lines : list string) :
  forall ui,
    let keys := filter (fun k => (0 <? String.length k)%nat) lines in
    let ui' := fold_left
                 (fun u key =>
                    if (0 <? String.length key)%nat then add_item key u else u)
                 lines ui in
    customshapekeylist ui'
    = customshapekeylist ui ++ items_of (List.length (customshapekeylist ui)) keys
    /\ customshapekeylist_index ui'
       = match keys with
         | [] => customshapekeylist_index ui
         | _ :: _ => (Z.of_nat (List.length (customshapekeylist ui'))  - 1)%Z
         end
    /\ clipboard ui' = clipboard ui
    /\ reports ui' = reports ui.
Proof.
  induction lines as [|k lines IH]; intros ui; simpl.
  - unfold items_of. simpl. rewrite app_nil_r. auto.
  - destruct (0 <? String.length k)%nat eqn:Ek; [|apply IH].
    destruct (add_item_list k ui) as (Hl & Hi & Hc & Hr).
    destruct (IH (add_item k ui)) as (Hl' & Hi' & Hc' & Hr').
    cbv zeta in *. split; [|split; [|split; congruence]].
    + rewrite Hl', Hl, length_app, <- app_assoc. simpl. f_equal.
      unfold items_of. simpl. do 3 f_equal. lia.
    + rewrite Hi'. destruct (filter _ lines) eqn:Ef; [|reflexivity].
      rewrite Hi, Hl', Hl, !length_app. unfold items_of. simpl. lia.
Qed.

(** "Insert Shape Key Names": every line of the clipboard that is not empty
    becomes an item at the end of the list, in the order of the lines, and
    the last item added is selected; a clipboard without such a line
    changes neither the list nor the selection. *)
Theorem insert_key_names_adds_the_lines (ui : Ui) :
  let keys := filter (fun k => (0 <? String.length k)%nat)
                     (split newline (clipboard ui)) in
  let ui' := InsertKeyNamesOperator.execute ui in
  customshapekeylist ui'
  = customshapekeylist ui ++ items_of (List.length (customshapekeylist ui)) keys
  /\ customshapekeylist_index ui'
     = match keys with
       | [] => customshapekeylist_index ui
       | _ :: _ => (Z.of_nat (List.length (customshapekeylist ui')) - 1)%Z
       end
  /\ clipboard ui' = clipboard ui.
Proof.
  unfold InsertKeyNamesOperator.execute.
  destruct (insert_lines (split newline (clipboard ui)) ui)
    as (Hl & Hi & Hc & _).
  cbv zeta in *. cbn [customshapekeylist customshapekeylist_index clipboard report].
  auto.
Qed.

(** A text without the separator is the first piece of what follows it. *)
Lemma split_line sep (n rest : string) :
  has_char sep n = false ->
  split sep (n ++ String sep rest) = n :: split sep rest.
Proof.
  induction n as [|a n IH]; simpl; intros Hn.
  - now rewrite Ascii.eqb_refl.
  - apply orb_false_iff in Hn. destruct Hn as [Ha Hn].
    rewrite Ha, (IH Hn). reflexivity.
Qed.

Lemma names_text_fold (keys : list string) :
  forall acc,
    fold_left (fun temp_str key =>
                 if String.eqb key "Basis" then temp_str
                 else (temp_str ++ key ++ String newline EmptyString)%string)
              keys acc
    = (acc ++ names_text keys)%string.
Proof.
  unfold names_text.
  assert (Hr : forall s : string, (s ++ EmptyString)%string = s).
  { induction s as [|a s IH]; simpl; [reflexivity|now rewrite IH]. }
  assert (Hassoc : forall a b c : string,
            ((a ++ b) ++ c)%string = (a ++ b ++ c)%string).
  { induction a as [|x a IH]; intros b c; simpl; [reflexivity|now rewrite IH]. }
  induction keys as [|k keys IH] using rev_ind; intros acc; simpl.
  - now rewrite Hr.
  - rewrite !fold_left_app. simpl. rewrite IH.
    destruct (String.eqb k "Basis"); [reflexivity|].
    simpl. now rewrite Hassoc.
Qed.

(** The lines of the text "Copy Shape Key Names" makes are the names but
    "Basis", and an empty line at the end. *)
Lemma split_names_text (keys : list string) :
  Forall (fun n => has_char newline n = false) keys ->
  split newline (names_text keys)
  = filter (fun k => negb (String.eqb k "Basis")) keys ++ [EmptyString].
Proof.
  induction 1 as [|k keys Hk _ IH]; [reflexivity|].
  unfold names_text. simpl fold_left. simpl filter.
  destruct (String.eqb k "Basis") eqn:Eb; simpl.
  - exact IH.
  - rewrite names_text_fold.
    assert (Hassoc : forall a b c : string,
              ((a ++ b) ++ c)%string = (a ++ b ++ c)%string).
    { induction a as [|x a IHa]; intros b c; simpl;
        [reflexivity|now rewrite IHa]. }
    rewrite Hassoc. simpl. rewrite (split_line newline k _ Hk).
    now rewrite IH.
Qed.

(** "Copy Shape Key Names" followed by "Insert Shape Key Names": when the
    source mesh has shape keys and no name of a key holds a line feed, the
    first leaves in [SKT.message] the list of the names of all keys of the
    source, "Basis" among them, and changes nothing else of the state; the
    second then gives the list one item for each key of the source but
    "Basis" and keys with an empty name, in the order of the keys. *)
Theorem copied_key_names_come_back
    (st : State) (ui : Ui) (mesh : nat) (ob : Object) (m : Mesh) (k : Key) :
  find (fun ob => Nat.eqb (ob_data ob) mesh) (objects (bpy st)) = Some ob ->
  nth_error (meshes (bpy st)) mesh = Some m ->
  shape_keys m = Some k ->
  Forall (fun n => has_char newline n = false) (map name (key_blocks k)) ->
  exists ui1,
    copy_key_names (Some mesh) ui st
    = Ok (ui1, mkState (set_message (Names (map name (key_blocks k))) (self st))
                       (bpy st)) /\
    customshapekeylist (InsertKeyNamesOperator.execute ui1)
    = customshapekeylist ui
      ++ items_of (List.length (customshapekeylist ui))
           (filter (fun n => negb (String.eqb n "Basis")
                             && (0 <? String.length n)%nat)
                   (map name (key_blocks k))).
Proof.
  intros Hob Hm Hk Hnl.
  assert (Eo : ob_data ob = mesh).
  { apply find_some in Hob. now apply Nat.eqb_eq. }
  eexists. split.
  - unfold copy_key_names, get_shape_keys_mesh, get_parent, deref, attr, bind,
      get_bpy, ret. rewrite Hob. simpl. rewrite Eo, Hm, Hk. reflexivity.
  - destruct (insert_key_names_adds_the_lines
                (report INFO "Copied to clipboard"
                   (set_clipboard (names_text (map name (key_blocks k))) ui)))
      as (Hl & _).
    cbv zeta in Hl.
    cbn [customshapekeylist clipboard report set_clipboard] in Hl.
    cbn [message_items message self set_message].
    rewrite Hl. do 2 f_equal.
    rewrite (split_names_text _ Hnl), filter_app. simpl. rewrite app_nil_r.
    clear. induction (map name (key_blocks k)) as [|n ns IH]; [reflexivity|].
    simpl. destruct (String.eqb n "Basis"); simpl; [exact IH|].
    destruct (0 <? String.length n)%nat; [now rewrite IH|exact IH].
Qed.

End ClipboardNames.

(** * The operators that run a transfer *)

Section PanelSelection.

Lemma mem_ext k (l l' : list string) :
  (forall n, In n l <-> In n l') -> mem k l = mem k l'.
Proof.
  intros H. destruct (mem k l') eqn:E.
  - apply mem_In, H, mem_In, E.
  - apply mem_false. rewrite H. now apply mem_false.
Qed.

Lemma selected_ext mode (e e' d : list string) n :
  (forall k, In k e <-> In k e') ->
  selected mode e d n = selected mode e' d n.
Proof.
  intros H. unfold selected. now rewrite (mem_ext n e e' H).
Qed.

(** The worklist depends on which names the list of the user holds, not on
    their order or on how often a name comes. *)
Lemma provision_ext mode (e e' d : list string) src_names :
  (forall k, In k e <-> In k e') ->
  forall dest_names,
    provision mode e d src_names dest_names
    = provision mode e' d src_names dest_names.
Proof.
  intros H. induction src_names as [|nm rest IH]; intros dn; [reflexivity|].
  simpl. rewrite (selected_ext mode e e' d nm H), !IH. reflexivity.
Qed.

(** A name of [default_excluded_keys] in the list of the user changes
    nothing, in any mode. *)
Lemma selected_default_listed mode (e extra d : list string) n :
  (forall k, In k extra -> In k d) ->
  selected mode (e ++ extra) d n = selected mode e d n.
Proof.
  intros Hsub. unfold selected.
  destruct (mem n d) eqn:Ed.
  - destruct mode; simpl; now rewrite ?andb_false_r.
  - assert (Hx : mem n (e ++ extra) = mem n e).
    { destruct (mem n e) eqn:Ee.
      - apply mem_In, in_or_app. left. now apply mem_In.
      - apply mem_false. intros Hin. apply in_app_or in Hin.
        destruct Hin as [Hin|Hin].
        + now apply mem_false in Ee.
        + apply Hsub in Hin. now apply mem_false in Ed. }
    now rewrite Hx.
Qed.

Lemma provision_default_listed mode (e extra d : list string) src_names :
  (forall k, In k extra -> In k d) ->
  forall dest_names,
    provision mode (e ++ extra) d src_names dest_names
    = provision mode e d src_names dest_names.
Proof.
  intros H. induction src_names as [|nm rest IH]; intros dn; [reflexivity|].
  simpl. rewrite (selected_default_listed mode e extra d nm H), !IH.
  reflexivity.
Qed.

Lemma first_given_laws : SetOrderLaws first_given.
Proof.
  constructor; simpl.
  - intros keys k. apply nodup_In.
  - intros keys. apply NoDup_nodup.
  - intros keys others k. rewrite nodup_In, filter_In, negb_true_iff.
    now rewrite mem_false.
  - intros keys others. apply NoDup_nodup.
Qed.

End PanelSelection.

Section OperatorRuns.

Context {MU : Mathutils} {SO : SetOrder} {SOL : SetOrderLaws SO}.

Lemma Ready_self st s src dest sob dob mwi sm dm skbs :
  Ready st src dest sob dob mwi sm dm skbs ->
  Ready (mkState s (bpy st)) src dest sob dob mwi sm dm skbs.
Proof. intros [H1 H2 H3 H4 H5 H6]. now constructor. Qed.

(** A run of the transfer operators on two different meshes, on an
    interpreter with room for the retries the dialog asks for. *)
Lemma transfer_operator_run
    (PY : Interpreter) (props : TransferProps) (st : State) (ui : Ui)
    (shapes_transferred : bool)
    (src dest : nat) (sob dob : Object) (mwi : Matrix) (sm dm : Mesh)
    (skbs : list ShapeKey) :
  src <> dest ->
  Ready st src dest sob dob mwi sm dm skbs ->
  mesh_wf sm -> mesh_wf dm ->
  specify_end_vertex (self st) = false ->
  enough (frames (Interpreter := PY))
         (Z.to_nat (op_number_of_increments props + 1)) ->
  exists (ok : bool) (st2 : State) (text : string),
    transfer_shape_keys (PY := PY) src dest false
      (mkState (dialog_applied props ui (self st)) (bpy st))
    = Ok (ok, st2)
    /\ message (self st2) = text
    /\ transfer_operator_execute (PY := PY) props src dest shapes_transferred
         ui st
       = Ok ((report (if ok then INFO else ERROR) text ui,
              ok || shapes_transferred), st2)
    /\ mesh_names (bpy st2) dest
       = names_at_start (bpy st) dest dm
         ++ provision (listUse (bpy st))
              (map item_name (customshapekeylist ui))
              (default_excluded_keys (self st))
              (mesh_names (bpy st) src)
              (names_at_start (bpy st) dest dm).
Proof.
  intros Hne HR Hsw Hdw Hspec Hroom.
  set (st_a := mkState (dialog_applied props ui (self st)) (bpy st)).
  assert (Hstart :
    transfer_operator_execute (PY := PY) props src dest shapes_transferred ui st
    = bind (transfer_shape_keys (PY := PY) src dest false)
           (fun result => report_result result shapes_transferred ui) st_a)
    by reflexivity.
  assert (Hfit : retries_fit (PY := PY) (self st_a) 0).
  { unfold retries_fit. cbn [st_a self dialog_applied number_of_increments
      set_excluded_shape_keys set_number_of_increments].
    now rewrite Z.sub_0_r. }
  pose proof (Ready_self st (dialog_applied props ui (self st))
                _ _ _ _ _ _ _ _ HR) as HRa.
  fold st_a in HRa.
  destruct (transfer_run st_a _ _ _ _ _ _ _ _ HRa Hne Hsw Hdw Hspec)
    as (extra & st1 & ok & st2 & Hrun & Hcall
        & (_ & _ & _ & _ & Hn2 & _) & _ & _ & _ & Hmesh & Hp).
  assert (Hcall' : transfer_shape_keys (PY := PY) src dest false st_a
                   = Ok (ok, st2))
    by (now rewrite (transfer_shape_keys_fit src dest false st_a Hfit)).
  pose proof Hcall as Hw.
  rewrite (transfer_shape_keys_run _ _ _ _ _ Hrun) in Hw.
  apply while_vertices_text in Hw. destruct Hw as (text & Htext).
  exists ok, st2, text. split; [exact Hcall'|]. split; [exact Htext|]. split.
  - rewrite Hstart, (bind_Ok _ _ _ _ _ Hcall').
    destruct ok; unfold report_result, report_message, bind, get_self, ret;
      cbv beta iota; cbn [negb]; cbv beta iota; rewrite Htext; reflexivity.
  - rewrite Hn2.
    rewrite (mesh_names_of_mesh _ _ _ _ Hmesh eq_refl), map_app, Hp.
    destruct HR as [_ _ _ Hsm Hdm Hk].
    cbn [st_a bpy self dialog_applied set_excluded_shape_keys
         excluded_shape_keys
         default_excluded_keys set_number_of_increments
         set_skip_vertices_with_no_pair set_use_one_vertex
         set_increment_radius].
    rewrite (mesh_names_of_mesh _ _ _ _ Hsm Hk).
    rewrite (initial_names_view _ _ _ Hdm). fold (names_at_start (bpy st) dest dm).
    f_equal. apply provision_ext. intros k. apply list_of_set_In.
Qed.

(** The two transfer operators on a scene that passes their [poll] and the
    checks of lines 179-186, on an interpreter with room for the retries
    that the dialog asks for: [transfer_shape_keys], called with the
    settings of the dialog and the names of the panel, returns; the run
    finishes with one report of the message it left, 'INFO' when it
    returned [True] and 'ERROR' when it returned [False];
    [shapes_transferred] is set on [True] and kept on [False].  The keys
    the destination has afterwards are in both cases those it had,
    followed by the source keys selected by [listUse] and the names of the
    items of the panel: neither the order of the items, nor a name listed
    twice, nor the order in which [list(set(keys))] gives the names has an
    influence. *)
Theorem transfer_operator_adds_the_panel_selection
    (PY : Interpreter) (props : TransferProps) (st : State) (ui : Ui)
    (shapes_transferred : bool)
    (src dest : nat) (sob dob : Object) (mwi : Matrix) (sm dm : Mesh)
    (skbs : list ShapeKey) :
  can_transfer_keys (Some src) (Some dest) = true ->
  Ready st src dest sob dob mwi sm dm skbs ->
  mesh_wf sm -> mesh_wf dm ->
  specify_end_vertex (self st) = false ->
  enough (frames (Interpreter := PY))
         (Z.to_nat (op_number_of_increments props + 1)) ->
  exists (ok : bool) (st2 : State) (text : string),
    transfer_shape_keys (PY := PY) src dest false
      (mkState (dialog_applied props ui (self st)) (bpy st))
    = Ok (ok, st2)
    /\ message (self st2) = text
    /\ transfer_operator_execute (PY := PY) props src dest shapes_transferred
         ui st
       = Ok ((report (if ok then INFO else ERROR) text ui,
              ok || shapes_transferred), st2)
    /\ mesh_names (bpy st2) dest
       = names_at_start (bpy st) dest dm
         ++ provision (listUse (bpy st))
              (map item_name (customshapekeylist ui))
              (default_excluded_keys (self st))
              (mesh_names (bpy st) src)
              (names_at_start (bpy st) dest dm).
Proof.
  intros Hpoll. apply transfer_operator_run.
  unfold can_transfer_keys in Hpoll.
  destruct (Nat.eqb_spec src dest); [discriminate|assumption].
Qed.

(** The "Copy Shape Keys" button on a scene that passes the checks of lines
    179-186: the run always ends with the report 'INFO' of "Success" and
    sets [shapes_transferred]; the destination gets the keys the panel and
    [listUse] select, every other mesh is as it was, and of the attributes
    of [SKT] that the dialog of a transfer sets none is changed. *)
Theorem copy_operator_always_succeeds
    (st : State) (ui : Ui) (shapes_transferred : bool)
    (src dest : nat) (sob dob : Object) (mwi : Matrix) (sm dm : Mesh)
    (skbs : list ShapeKey) :
  Ready st src dest sob dob mwi sm dm skbs ->
  exists st2 : State,
    copy_operator_execute src dest shapes_transferred ui st
    = Ok ((report INFO "Success" ui, true), st2)
    /\ mesh_names (bpy st2) dest
       = names_at_start (bpy st) dest dm
         ++ provision (listUse (bpy st))
              (map item_name (customshapekeylist ui))
              (default_excluded_keys (self st))
              (mesh_names (bpy st) src)
              (names_at_start (bpy st) dest dm)
    /\ (forall mesh', mesh' <> dest ->
          nth_error (meshes (bpy st2)) mesh' = nth_error (meshes (bpy st)) mesh')
    /\ increment_radius (self st2) = increment_radius (self st)
    /\ number_of_increments (self st2) = number_of_increments (self st)
    /\ use_one_vertex (self st2) = use_one_vertex (self st)
    /\ skip_vertices_with_no_pair (self st2)
       = skip_vertices_with_no_pair (self st).
Proof.
  intros HR.
  set (s_a := set_excluded_shape_keys
                (list_of_set (map item_name (customshapekeylist ui)))
                (self st)).
  set (st_a := mkState s_a (bpy st)).
  pose proof (Ready_self st s_a _ _ _ _ _ _ _ _ HR) as HRa.
  fold st_a in HRa.
  destruct (transfer_prologue_eq _ _ _ _ _ _ _ _ _ HRa)
    as (extra & st1 & Hrun & Hp & Hself & _ & _ & Hx & Hmesh & _).
  destruct HR as [_ _ _ Hsm Hdm Hk].
  eexists. split; [|split; [|split]].
  - unfold copy_operator_execute, update_shape_keys_list.
    unfold bind at 1, assign at 1. fold s_a. fold st_a.
    unfold bind at 1. unfold transfer_shape_keys.
    rewrite (bind_Ok _ _ _ _ _ Hrun).
    unfold bind, assign, ret, report_result, report_message, bind, get_self,
      ret.
    cbn [negb self message set_message]. reflexivity.
  - cbn [bpy].
    rewrite (mesh_names_of_mesh _ _ _ _ Hmesh eq_refl), map_app, Hp.
    cbn [st_a bpy self s_a set_excluded_shape_keys excluded_shape_keys
         default_excluded_keys].
    rewrite (mesh_names_of_mesh _ _ _ _ Hsm Hk).
    rewrite (initial_names_view _ _ _ Hdm).
    fold (names_at_start (bpy st) dest dm).
    f_equal. apply provision_ext. intros k. apply list_of_set_In.
  - cbn [bpy]. exact Hx.
  - cbn [self]. rewrite Hself. unfold prologue_self.
    cbn [st_a self s_a].
    destruct (specify_end_vertex _); repeat split; reflexivity.
Qed.

End OperatorRuns.

Section DefaultAction.

Import CUSTOM_OT_actions.

Lemma items_of_names n keys : map item_name (items_of n keys) = keys.
Proof.
  unfold items_of. revert n.
  induction keys as [|k keys IH]; intros n; simpl; [reflexivity|].
  now rewrite IH.
Qed.

Lemma items_of_cons n k keys :
  items_of n (k :: keys) = mkItem k "STRING" (S n) :: items_of (S n) keys.
Proof. reflexivity. Qed.

(** The loop of lines 560-567 over any list of keys. *)
Lemma add_default_fold (keys : list string) :
  forall ui,
    let ui' := fold_left (fun u key => add_default key u) keys ui in
    customshapekeylist ui'
    = customshapekeylist ui ++ items_of (List.length (customshapekeylist ui)) keys
    /\ customshapekeylist_index ui'
       = match keys with
         | [] => customshapekeylist_index ui
         | _ :: _ => (Z.of_nat (List.length (customshapekeylist ui')) - 1)%Z
         end
    /\ clipboard ui' = clipboard ui
    /\ reports ui'
       = reports ui
         ++ map (fun k => (INFO, (quoted k ++ " added to list")%string)) keys.
Proof.
  induction keys as [|k keys IH]; intros ui; simpl.
  - unfold items_of. simpl. rewrite !app_nil_r. auto.
  - destruct (add_item_list k ui) as (Hl & Hi & Hc & Hr).
    assert (Hl0 : customshapekeylist (add_default k ui)
                  = customshapekeylist ui
                    ++ [mkItem k "STRING" (S (List.length (customshapekeylist ui)))])
      by exact Hl.
    assert (Hi0 : customshapekeylist_index (add_default k ui)
                  = Z.of_nat (List.length (customshapekeylist ui)))
      by exact Hi.
    assert (Hc0 : clipboard (add_default k ui) = clipboard ui) by exact Hc.
    assert (Hr0 : reports (add_default k ui)
                  = reports ui ++ [(INFO, (quoted k ++ " added to list")%string)]).
    { unfold add_default, report. cbn [reports]. now rewrite Hr. }
    destruct (IH (add_default k ui)) as (Hl' & Hi' & Hc' & Hr').
    cbv zeta in *.
    split; [|split; [|split]].
    + rewrite Hl', Hl0, length_app, <- app_assoc. simpl. f_equal.
      rewrite items_of_cons. do 2 f_equal. lia.
    + rewrite Hi'. destruct keys as [|k' keys']; [|reflexivity].
      cbn [fold_left]. rewrite Hl0, Hi0, length_app. simpl. lia.
    + congruence.
    + rewrite Hr', Hr0, <- app_assoc. reflexivity.
Qed.

Lemma on_selected_default ui : on_selected DEFAULT ui = Finished ui.
Proof. unfold on_selected. now destruct (py_index _ _). Qed.

Context {MU : Mathutils} {SO : SetOrder} {SOL : SetOrderLaws SO}.

(** The 'DEFAULT' action never fails, whatever the list and the index are:
    it appends one item for each name of [default_excluded_keys] other than
    "Basis", each name once, in the order in which Python gives the
    elements of the set, and reports each; the index ends on the last item
    added, and is as it was when there is no such name. *)
Theorem default_action_lists_the_default_keys (st : State) (ui : Ui) :
  exists (keys : list string) (ui' : Ui),
    get_default_excluded_keys st = Ok (keys, st)
    /\ invoke keys DEFAULT ui = Finished ui'
    /\ NoDup keys
    /\ (forall k, In k keys <->
                  In k (default_excluded_keys (self st)) /\ k <> "Basis")
    /\ customshapekeylist ui'
       = customshapekeylist ui
         ++ items_of (List.length (customshapekeylist ui)) keys
    /\ customshapekeylist_index ui'
       = match keys with
         | [] => customshapekeylist_index ui
         | _ :: _ => (Z.of_nat (List.length (customshapekeylist ui')) - 1)%Z
         end
    /\ reports ui'
       = reports ui
         ++ map (fun k => (INFO, (quoted k ++ " added to list")%string)) keys.
Proof.
  set (keys := list_of_difference (default_excluded_keys (self st)) ["Basis"]).
  exists keys, (fold_left (fun u key => add_default key u) keys ui).
  split; [reflexivity|].
  split; [unfold invoke; now rewrite on_selected_default|].
  split; [apply list_of_difference_NoDup|].
  split.
  - intros k. unfold keys. rewrite list_of_difference_In. simpl.
    split; intros [H1 H2]; (split; [exact H1|]); intuition congruence.
  - destruct (add_default_fold keys ui) as (Hl & Hi & _ & Hr). auto.
Qed.

(** The items the 'DEFAULT' action adds to the panel have no effect on a
    transfer, in any mode of [listUse]: run on the list with these items,
    the transfer operator leaves the destination with the same keys, in the
    same order, as run on the list without them. *)
Theorem default_items_do_not_change_a_transfer
    (props : TransferProps) (st : State) (ui ui' : Ui)
    (shapes_transferred : bool) (keys : list string)
    (src dest : nat) (sob dob : Object) (mwi : Matrix) (sm dm : Mesh)
    (skbs : list ShapeKey) :
  can_transfer_keys (Some src) (Some dest) = true ->
  Ready st src dest sob dob mwi sm dm skbs ->
  mesh_wf sm -> mesh_wf dm ->
  specify_end_vertex (self st) = false ->
  get_default_excluded_keys st = Ok (keys, st) ->
  invoke keys DEFAULT ui = Finished ui' ->
  exists (r r' : Ui * bool) (st2 st2' : State),
    transfer_operator_execute props src dest shapes_transferred ui st
    = Ok (r, st2)
    /\ transfer_operator_execute props src dest shapes_transferred ui' st
       = Ok (r', st2')
    /\ mesh_names (bpy st2') dest = mesh_names (bpy st2) dest.
Proof.
  intros Hpoll HR Hsw Hdw Hspec Hkeys Hinv.
  assert (Hne : src <> dest).
  { unfold can_transfer_keys in Hpoll.
    destruct (Nat.eqb_spec src dest); [discriminate|assumption]. }
  destruct (transfer_operator_run unlimited props st ui shapes_transferred
              _ _ _ _ _ _ _ _ Hne HR Hsw Hdw Hspec I)
    as (ok & st2 & text & _ & _ & Hrun & Hn).
  destruct (transfer_operator_run unlimited props st ui' shapes_transferred
              _ _ _ _ _ _ _ _ Hne HR Hsw Hdw Hspec I)
    as (ok' & st2' & text' & _ & _ & Hrun' & Hn').
  do 2 eexists. exists st2, st2'.
  split; [exact Hrun|]. split; [exact Hrun'|].
  rewrite Hn, Hn'. f_equal.
  unfold invoke in Hinv. rewrite on_selected_default in Hinv.
  injection Hinv as <-.
  destruct (add_default_fold keys ui) as (Hl & _). cbv zeta in Hl.
  rewrite Hl, map_app, items_of_names.
  apply provision_default_listed.
  intros k Hk.
  unfold get_default_excluded_keys, bind, get_self, ret in Hkeys.
  injection Hkeys as <-.
  now apply list_of_difference_In in Hk.
Qed.

End DefaultAction.

(** * The further theorems at work on the exact implementation *)

Module MoreFacts.

Import QArith Qcanon Exact ExactScenes MoreScenes ExactFacts.
Local Open Scope nat_scope.

Lemma qle_total (a b : Qc) : qle a b = true \/ qle b a = true.
Proof.
  unfold qle. destruct (Qlt_le_dec (this b) (this a)) as [H|H].
  - right. apply Qle_bool_iff. now apply Qlt_le_weak.
  - left. now apply Qle_bool_iff.
Qed.

Lemma qle_trans (a b c : Qc) :
  qle a b = true -> qle b c = true -> qle a c = true.
Proof.
  unfold qle. rewrite !Qle_bool_iff. apply Qle_trans.
Qed.

Lemma worklist_membership_by_mode_witness :
  exists wl st1,
    transfer_prologue 0 1 (head_state false) = Ok (Some wl, st1) /\
    forall n,
      In n wl <->
      In n ["Basis"; "Smile"]%string /\ ~ In n ["Basis"]%string /\
      ~ In n ["Basis"; "basis"; "Expressions_IDHumans_max"]%string /\ True.
Proof.
  exact (worklist_membership_by_mode (head_state false) 0 1 _ _ _ _ _ _
           (head_ready false)).
Defined.

Lemma worklist_appended_in_order_witness :
  exists wl st1,
    transfer_prologue 0 1 (head_state false) = Ok (Some wl, st1) /\
    NoDup wl /\
    mesh_names (bpy st1) 1 = (["Basis"%string] ++ wl)%list.
Proof.
  exact (worklist_appended_in_order (head_state false) 0 1 _ _ _ _ _ _
           (head_ready false)).
Defined.

Lemma transfer_source_without_object_raises_witness :
  transfer_shape_keys 5 1 false (head_state false) = Raise AttributeError.
Proof.
  apply transfer_source_without_object_raises. reflexivity.
Defined.

Lemma transfer_singular_source_matrix_raises_witness :
  transfer_shape_keys 0 1 false flat_state = Raise ValueError.
Proof.
  apply (transfer_singular_source_matrix_raises flat_state 0 1 false
           (@mkObject QMathutils 0 flat)).
  - reflexivity.
  - vm_compute. reflexivity.
Defined.

Lemma transfer_destination_without_object_witness :
  exists st',
    transfer_shape_keys 0 7 false (head_state false) = Ok (false, st') /\
    message (self st') = "The meshes are not valid!"%string /\
    bpy st' = bpy (head_state false).
Proof.
  apply (transfer_destination_without_object (head_state false) 0 7 false
           (@mkObject QMathutils 0 identity)
           (match qinverted identity with Some m => m | None => identity end)).
  - reflexivity.
  - reflexivity.
  - reflexivity.
Defined.

Lemma transfer_source_without_shape_keys_witness :
  exists st',
    transfer_shape_keys 0 1 false bare_state = Ok (false, st') /\
    message (self st') = "There are no Shape Keys in the source mesh!"%string /\
    bpy st' = bpy bare_state.
Proof.
  apply (transfer_source_without_shape_keys bare_state 0 1 false
           (@mkObject QMathutils 0 identity) (@mkObject QMathutils 1 identity)
           (match qinverted identity with Some m => m | None => identity end)
           (@mkMesh QMathutils face_basis None)
           (@mkMesh QMathutils head_vertices None)); reflexivity.
Defined.

Lemma smiling_ready :
  Ready smiling_state 0 1 (mkObject 0 identity) (mkObject 1 identity)
        (match qinverted identity with Some m => m | None => identity end)
        (mkMesh face_basis (Some (mkKey face_keys)))
        (mkMesh head_vertices
           (Some (mkKey [basis_key head_vertices;
                         mkShapeKey "Smile" head_vertices])))
        face_keys.
Proof. constructor; reflexivity. Defined.

Lemma transfer_with_every_key_present_witness :
  exists st2,
    transfer_shape_keys 0 1 false smiling_state = Ok (true, st2) /\
    message (self st2) = "Transferred Shape Keys successfully!"%string /\
    bpy st2 = bpy smiling_state.
Proof.
  apply (transfer_with_every_key_present smiling_state 0 1 _ _ _ _ _ _
           (@mkKey QMathutils [basis_key head_vertices;
                               @mkShapeKey QMathutils "Smile" head_vertices])
           false smiling_ready).
  - reflexivity.
  - intros n Hn. exact Hn.
Defined.

Lemma copy_only_adds_keys_without_blending_witness :
  exists wl st1 st2,
    transfer_prologue 0 1 (head_state false) = Ok (Some wl, st1) /\
    transfer_shape_keys 0 1 true (head_state false) = Ok (true, st2) /\
    message (self st2) = "Success"%string /\
    mesh_names (bpy st2) 1 = (["Basis"%string] ++ wl)%list /\
    (forall k j, k < 1 ->
        position (bpy st2) 1 k j = position (bpy (head_state false)) 1 k j) /\
    (forall k j, 1 <= k < 1 + List.length wl ->
        position (bpy st2) 1 k j = position (bpy (head_state false)) 1 0 j) /\
    (forall mesh', mesh' <> 1 ->
        nth_error (meshes (bpy st2)) mesh'
        = nth_error (meshes (bpy (head_state false))) mesh').
Proof.
  apply (copy_only_adds_keys_without_blending (head_state false) 0 1 _ _ _ _ _ _
           (@mkKey QMathutils [basis_key head_vertices]) (head_ready false)).
  - reflexivity.
  - discriminate.
Defined.

Lemma select_vertices_all_in_range_witness :
  select_vertices (vec 0 0 0) (qc 2) tie_state_all = Ok ([0; 1], tie_state_all).
Proof.
  exact (select_vertices_all_in_range tie_state_all identity tie_basis
           (vec 0 0 0) (qc 2) eq_refl eq_refl eq_refl).
Defined.

Lemma select_vertices_nearest_witness :
  (select_vertices (vec 2 0 0) (qc 2) tie_state = Ok ([], tie_state) /\
   forall j vj, nth_error tie_basis j = Some vj ->
     qle (qlength (qvsub vj (qmatmul identity (vec 2 0 0))))
         (qlength (qvsub (qmatmul identity (qvadd (vec 2 0 0) (0, 0, qc 2)%Qc))
                         (qmatmul identity (vec 2 0 0)))) = false)
  \/ (exists k vk,
        select_vertices (vec 2 0 0) (qc 2) tie_state = Ok ([k], tie_state) /\
        nth_error tie_basis k = Some vk /\
        qle (qlength (qvsub vk (qmatmul identity (vec 2 0 0))))
            (qlength (qvsub (qmatmul identity (qvadd (vec 2 0 0) (0, 0, qc 2)%Qc))
                            (qmatmul identity (vec 2 0 0)))) = true /\
        forall j vj, nth_error tie_basis j = Some vj ->
          qle (qlength (qvsub vj (qmatmul identity (vec 2 0 0))))
              (qlength (qvsub (qmatmul identity (qvadd (vec 2 0 0) (0, 0, qc 2)%Qc))
                              (qmatmul identity (vec 2 0 0)))) = true ->
          qle (qlength (qvsub vk (qmatmul identity (vec 2 0 0))))
              (qlength (qvsub vj (qmatmul identity (vec 2 0 0)))) = true).
Proof.
  exact (select_vertices_nearest qle_total qle_trans tie_state identity
           tie_basis (vec 2 0 0) (qc 2) eq_refl eq_refl eq_refl).
Defined.

Lemma search_indices_in_range_witness :
  exists vs,
    select_required_verts (PY := thousand_left) (vec 0 0 0) 0%Qc 0 tie_state
    = Ok (vs, tie_state) /\
    Forall (fun v => v < 3) vs.
Proof.
  apply (search_indices_in_range thousand_left tie_state identity tie_basis
           (vec 0 0 0) 0%Qc 0%Z eq_refl eq_refl).
  vm_compute. lia.
Defined.

Lemma twin_ready skip :
  Ready (twin_state skip) 0 1 (mkObject 0 identity) (mkObject 1 identity)
        (match qinverted identity with Some m => m | None => identity end)
        (mkMesh face_basis (Some (mkKey face_keys)))
        (mkMesh face_basis (Some (mkKey [basis_key face_basis])))
        face_keys.
Proof. constructor; reflexivity. Defined.

Lemma twin_mesh_wf :
  mesh_wf (mkMesh face_basis (Some (mkKey [basis_key face_basis]))).
Proof. split; [discriminate|repeat constructor]. Defined.

Lemma transfer_blends_every_matched_vertex_witness :
  exists wl st1,
    transfer_prologue 0 1 (twin_state false) = Ok (Some wl, st1) /\
    ((forall j, j < 2 ->
        exists vs, search_of_vertex j st1 = Ok (vs, st1) /\ vs <> []) ->
     exists st2,
       transfer_shape_keys 0 1 false (twin_state false) = Ok (true, st2) /\
       message (self st2) = "Transferred Shape Keys successfully!"%string /\
       forall n k j,
         In n wl ->
         nth_error (mesh_names (bpy st1) 1) k = Some n ->
         j < 2 ->
         exists vs co kb kt,
           search_of_vertex j st1 = Ok (vs, st1) /\
           position (bpy st1) 1 0 j = Some co /\
           nth_error face_keys 0 = Some kb /\
           In kt face_keys /\ name kt = n /\
           position (bpy st2) 1 k j
           = Some (blended (data kb) (data kt) vs (qmatmul identity co))).
Proof.
  apply (transfer_blends_every_matched_vertex (twin_state false) 0 1 _ _ _ _ _ _
           (twin_ready false)).
  - lia.
  - exact face_mesh_wf.
  - exact twin_mesh_wf.
  - reflexivity.
Defined.

(** The run of the theorem above: both vertices are matched, and the key
    "Smile" of the destination ends with the positions of the source. *)
Example transfer_blends_run :
  let st1 := state_after (transfer_prologue 0 1) (twin_state false) in
  let st2 := state_after (transfer_shape_keys 0 1 false) (twin_state false) in
  value (search_of_vertex 0 st1) = Ok [0] /\
  value (search_of_vertex 1 st1) = Ok [1] /\
  value (transfer_shape_keys 0 1 false (twin_state false)) = Ok true /\
  mesh_names (bpy st2) 1 = ["Basis"; "Smile"]%string /\
  position (bpy st2) 1 1 0 = Some (vec 0 1 0) /\
  position (bpy st2) 1 1 1 = Some (vec 10 2 0) /\
  position (bpy st2) 1 0 0 = Some (vec 0 0 0) /\
  position (bpy st2) 1 0 1 = Some (vec 10 0 0).
Proof. repeat split; vm_compute; reflexivity. Qed.

Lemma transfer_keeps_vertices_blended_before_unmatched_witness :
  exists wl st1,
    transfer_prologue 0 1 (head_state false) = Ok (Some wl, st1) /\
    forall i,
      i < 3 ->
      search_of_vertex i st1 = Ok ([], st1) ->
      (forall j, j < i ->
         exists vs, search_of_vertex j st1 = Ok (vs, st1) /\ vs <> []) ->
      exists ok st2,
        transfer_shape_keys 0 1 false (head_state false) = Ok (ok, st2) /\
        (wl <> [] -> ok = false) /\
        forall n k j,
          In n wl ->
          nth_error (mesh_names (bpy st1) 1) k = Some n ->
          j < i ->
          exists vs co kb kt,
            search_of_vertex j st1 = Ok (vs, st1) /\
            position (bpy st1) 1 0 j = Some co /\
            nth_error face_keys 0 = Some kb /\
            In kt face_keys /\ name kt = n /\
            position (bpy st2) 1 k j
            = Some (blended (data kb) (data kt) vs (qmatmul identity co)).
Proof.
  apply (transfer_keeps_vertices_blended_before_unmatched (head_state false)
           0 1 _ _ _ _ _ _ (head_ready false)).
  - lia.
  - exact face_mesh_wf.
  - exact head_mesh_wf.
  - reflexivity.
Defined.

Lemma transfer_returns_and_keeps_existing_data_witness :
  exists ok st2,
    transfer_shape_keys (PY := thousand_left) 0 1 false (head_state false)
    = Ok (ok, st2) /\
    objects (bpy st2) = objects (bpy (head_state false)) /\
    (forall m, m <> 1 ->
        nth_error (meshes (bpy st2)) m
        = nth_error (meshes (bpy (head_state false))) m) /\
    option_map vertices (nth_error (meshes (bpy st2)) 1) = Some head_vertices /\
    (forall dk, Some (mkKey [basis_key head_vertices]) = Some dk ->
        forall k j, k < List.length (key_blocks dk) ->
          position (bpy st2) 1 k j = position (bpy (head_state false)) 1 k j).
Proof.
  apply (transfer_returns_and_keeps_existing_data thousand_left
           (head_state false) 0 1 _ _ _ _ _ _ (head_ready false)).
  - lia.
  - exact face_mesh_wf.
  - exact head_mesh_wf.
  - reflexivity.
  - vm_compute. lia.
Defined.

Lemma update_global_shapekey_indices_last_or_stale_witness :
  exists st',
    update_global_shapekey_indices "Smile" head_loop = Ok (tt, st') /\
    bpy st' = bpy head_loop /\
    dest_shape_key_index (self st') = 1 /\
    src_shape_key_index (self st') = 1.
Proof.
  destruct (update_global_shapekey_indices_last_or_stale head_loop "Smile"
              [basis_key head_vertices; @mkShapeKey QMathutils "Smile" head_vertices]
              face_keys eq_refl eq_refl)
    as (st' & Hrun & Hb & Hd & Hs).
  exists st'. split; [exact Hrun|]. split; [exact Hb|].
  assert (Hlast : forall (kbs : list ShapeKey) idx old,
            map name kbs = ["Basis"; "Smile"]%string ->
            (~ In "Smile"%string (map name kbs) /\ idx = old)
            \/ (option_map name (nth_error kbs idx) = Some "Smile"%string
                /\ forall i, idx < i ->
                     option_map name (nth_error kbs i) <> Some "Smile"%string) ->
            idx = 1).
  { intros kbs idx old E [[Hn _]|[Hf _]].
    - exfalso. apply Hn. rewrite E. simpl. auto.
    - rewrite <- nth_error_map, E in Hf.
      destruct idx as [|[|idx]]; [discriminate|reflexivity|].
      destruct idx; discriminate. }
  split; [refine (Hlast _ _ _ _ Hd)|refine (Hlast _ _ _ _ Hs)]; reflexivity.
Defined.

(** ** The list of the panel *)

(** The items 2, 4 and 5 repeat the names of the items 0 and 1; they are
    removed from the last to the first, and the last item left is
    selected. *)
Example remove_duplicates_run :
  CUSTOM_OT_removeDuplicates.find_duplicates panel_items = [2; 4; 5] /\
  CUSTOM_OT_removeDuplicates.execute (panel 3)
  = Finished
      (mkUi (map (fun n => mkItem n "STRING" 0) ["a"; "b"; "c"]%string) 2
            EmptyString [(INFO, "Removed indices: 5, 4, 2"%string)]).
Proof. split; vm_compute; reflexivity. Qed.

Lemma move_then_move_back_restores_witness :
  exists ui1 ui2,
    CUSTOM_OT_actions.invoke [] CUSTOM_OT_actions.DOWN (panel 1)
    = Finished ui1 /\
    customshapekeylist_index ui1 = 2%Z /\
    py_index (customshapekeylist ui1) (customshapekeylist_index ui1)
    = py_index panel_items 1 /\
    List.length (customshapekeylist ui1) = 6 /\
    CUSTOM_OT_actions.invoke [] CUSTOM_OT_actions.UP ui1 = Finished ui2 /\
    customshapekeylist ui2 = panel_items /\
    customshapekeylist_index ui2 = 1%Z.
Proof.
  apply (move_then_move_back_restores [] CUSTOM_OT_actions.DOWN (panel 1)).
  left. split; [reflexivity|]. simpl. lia.
Defined.

Lemma remove_selects_the_index_before_witness :
  exists ui',
    CUSTOM_OT_actions.invoke [] CUSTOM_OT_actions.REMOVE (panel 0)
    = Finished ui' /\
    customshapekeylist ui' = firstn 0 panel_items ++ skipn 1 panel_items /\
    panel_items
    = firstn 0 panel_items ++ mkItem "a" "STRING" 0 :: skipn 1 panel_items /\
    customshapekeylist_index ui' = (0 - 1)%Z /\
    (0%Z = 0%Z -> customshapekeylist_index ui' = (-1)%Z).
Proof.
  apply (remove_selects_the_index_before [] (panel 0) (mkItem "a" "STRING" 0)).
  - simpl. lia.
  - reflexivity.
Defined.

Lemma copied_key_names_come_back_witness :
  exists ui1,
    copy_key_names (Some 0) (panel 0) (head_state false)
    = Ok (ui1, mkState (set_message (Names ["Basis"; "Smile"]%string)
                          (self (head_state false)))
                       (bpy (head_state false))) /\
    customshapekeylist (InsertKeyNamesOperator.execute ui1)
    = panel_items ++ items_of 6 ["Smile"%string].
Proof.
  apply (copied_key_names_come_back (head_state false) (panel 0) 0
           (@mkObject QMathutils 0 identity)
           (@mkMesh QMathutils face_basis (Some (mkKey face_keys)))
           (@mkKey QMathutils face_keys)).
  - reflexivity.
  - reflexivity.
  - reflexivity.
  - repeat constructor.
Defined.

Lemma transfer_operator_adds_the_panel_selection_witness :
  exists (ok : bool) (st2 : State) (text : string),
    transfer_shape_keys (PY := thousand_left) 0 1 false
      (mkState (dialog_applied (SO := first_given) dialog smile_panel
                  (self (head_state false)))
               (bpy (head_state false)))
    = Ok (ok, st2)
    /\ message (self st2) = text
    /\ transfer_operator_execute (PY := thousand_left) (SO := first_given)
         dialog 0 1 false smile_panel (head_state false)
       = Ok ((report (if ok then INFO else ERROR) text smile_panel,
              ok || false), st2)
    /\ mesh_names (bpy st2) 1
       = names_at_start (bpy (head_state false)) 1
           (mkMesh head_vertices (Some (mkKey [basis_key head_vertices])))
         ++ provision (listUse (bpy (head_state false)))
              (map item_name (customshapekeylist smile_panel))
              (default_excluded_keys (self (head_state false)))
              (mesh_names (bpy (head_state false)) 0)
              (names_at_start (bpy (head_state false)) 1
                 (mkMesh head_vertices (Some (mkKey [basis_key head_vertices])))).
Proof.
  apply (transfer_operator_adds_the_panel_selection (SOL := first_given_laws)
           thousand_left dialog (head_state false) smile_panel false 0 1
           _ _ _ _ _ _ eq_refl (head_ready false)).
  - exact face_mesh_wf.
  - exact head_mesh_wf.
  - reflexivity.
  - vm_compute. lia.
Defined.

(** The run of the theorem above: the second vertex of the destination has
    no source vertex near, the transfer returns [False] and the operator
    reports the message of line 137 as an error. *)
Example transfer_operator_reports_the_failure :
  value (transfer_operator_execute (PY := thousand_left) (SO := first_given)
           dialog 0 1 false smile_panel (head_state false))
  = Ok (report ERROR (failure_message 1 1) smile_panel, false).
Proof. vm_compute. reflexivity. Qed.

Example transfer_operator_run_names :
  names_at_start (bpy (head_state false)) 1
    (mkMesh head_vertices (Some (mkKey [basis_key head_vertices])))
  ++ provision (listUse (bpy (head_state false)))
       (map item_name (customshapekeylist smile_panel))
       (default_excluded_keys (self (head_state false)))
       (mesh_names (bpy (head_state false)) 0)
       (names_at_start (bpy (head_state false)) 1
          (mkMesh head_vertices (Some (mkKey [basis_key head_vertices]))))
  = ["Basis"; "Smile"]%string.
Proof. vm_compute. reflexivity. Qed.

Lemma copy_operator_always_succeeds_witness :
  exists st2 : State,
    copy_operator_execute (SO := first_given) 0 1 false smile_panel
      (head_state false)
    = Ok ((report INFO "Success" smile_panel, true), st2)
    /\ mesh_names (bpy st2) 1
       = names_at_start (bpy (head_state false)) 1
           (mkMesh head_vertices (Some (mkKey [basis_key head_vertices])))
         ++ provision (listUse (bpy (head_state false)))
              (map item_name (customshapekeylist smile_panel))
              (default_excluded_keys (self (head_state false)))
              (mesh_names (bpy (head_state false)) 0)
              (names_at_start (bpy (head_state false)) 1
                 (mkMesh head_vertices (Some (mkKey [basis_key head_vertices]))))
    /\ (forall mesh', mesh' <> 1 ->
          nth_error (meshes (bpy st2)) mesh'
          = nth_error (meshes (bpy (head_state false))) mesh')
    /\ increment_radius (self st2) = increment_radius (self (head_state false))
    /\ number_of_increments (self st2)
       = number_of_increments (self (head_state false))
    /\ use_one_vertex (self st2) = use_one_vertex (self (head_state false))
    /\ skip_vertices_with_no_pair (self st2)
       = skip_vertices_with_no_pair (self (head_state false)).
Proof.
  apply (copy_operator_always_succeeds (SOL := first_given_laws)
           (head_state false) smile_panel false 0 1
           _ _ _ _ _ _ (head_ready false)).
Defined.

Lemma default_action_lists_the_default_keys_witness :
  exists (keys : list string) (ui' : Ui),
    get_default_excluded_keys (SO := first_given) (head_state false)
    = Ok (keys, head_state false)
    /\ CUSTOM_OT_actions.invoke keys CUSTOM_OT_actions.DEFAULT smile_panel
       = Finished ui'
    /\ NoDup keys
    /\ (forall k, In k keys <->
                  In k (default_excluded_keys (self (head_state false)))
                  /\ k <> "Basis"%string)
    /\ customshapekeylist ui'
       = customshapekeylist smile_panel
         ++ items_of (List.length (customshapekeylist smile_panel)) keys
    /\ customshapekeylist_index ui'
       = match keys with
         | [] => customshapekeylist_index smile_panel
         | _ :: _ => (Z.of_nat (List.length (customshapekeylist ui')) - 1)%Z
         end
    /\ reports ui'
       = reports smile_panel
         ++ map (fun k => (INFO, (quoted k ++ " added to list")%string)) keys.
Proof.
  exact (default_action_lists_the_default_keys (SOL := first_given_laws)
           (head_state false) smile_panel).
Defined.

Example default_action_run :
  option_map (fun ui => map item_name (customshapekeylist ui))
    (match CUSTOM_OT_actions.invoke
             (list_of_difference (SetOrder := first_given)
                ["Basis"; "basis"; "Expressions_IDHumans_max"]%string
                ["Basis"%string])
             CUSTOM_OT_actions.DEFAULT smile_panel with
     | Finished ui => Some ui
     | _ => None
     end)
  = Some ["Smile"; "Smile"; "basis"; "Expressions_IDHumans_max"]%string.
Proof. vm_compute. reflexivity. Qed.

Lemma default_items_do_not_change_a_transfer_witness :
  exists (r r' : Ui * bool) (st2 st2' : State),
    transfer_operator_execute (SO := first_given) dialog 0 1 false smile_panel
      (head_state false)
    = Ok (r, st2)
    /\ transfer_operator_execute (SO := first_given) dialog 0 1 false
         (fold_left (fun u key => CUSTOM_OT_actions.add_default key u)
                    ["basis"; "Expressions_IDHumans_max"]%string smile_panel)
         (head_state false)
       = Ok (r', st2')
    /\ mesh_names (bpy st2') 1 = mesh_names (bpy st2) 1.
Proof.
  apply (default_items_do_not_change_a_transfer (SOL := first_given_laws)
           dialog (head_state false) smile_panel _ false
           ["basis"; "Expressions_IDHumans_max"]%string 0 1
           _ _ _ _ _ _ eq_refl (head_ready false)).
  - exact face_mesh_wf.
  - exact head_mesh_wf.
  - reflexivity.
  - reflexivity.
  - reflexivity.
Defined.

Lemma room_for_the_retries_suffices_witness :
  select_required_verts (PY := thousand_left) (vec 50 0 0) 0%Qc 0
    (head_state false)
  = select_required_verts (PY := unlimited) (vec 50 0 0) 0%Qc 0
      (head_state false)
  /\ update_vertex (PY := thousand_left) (head_state false)
     = update_vertex (PY := unlimited) (head_state false)
  /\ transfer_shape_keys (PY := thousand_left) 0 1 false (head_state false)
     = transfer_shape_keys (PY := unlimited) 0 1 false (head_state false).
Proof.
  apply (room_for_the_retries_suffices thousand_left (head_state false) 0 1
           false (vec 50 0 0) 0%Qc).
  vm_compute. lia.
Defined.

End MoreFacts.
